(** * brightspark: a verified model of [cli_tool.py]

    The program reads performance records from a CSV file, ranks them by
    division and points, and renders the best ones as YAML or JSON.  This
    file embeds the three stages ([read_csv], [get_top_records],
    [format_to_yaml] / [format_to_json]) and the top-level [main] as Rocq
    functions and proves the properties of the specification about them.

    Conventions of the embedding
    - a Python [int] is a [Z];
    - a Python [str] is a [string]; its characters stand for the code points
      0..255;
    - the dictionaries built by [csv.DictReader] are [gmap]s from column
      names to cells, a cell being [None] (the reader's [restval]) or a
      string;
    - the records built by [read_csv] always carry the same six keys and are
      a Rocq [Record];
    - [sys.exit], log messages and exceptions are explicit: a function that
      can leave the process returns an [outcome] and the list of log entries
      it has emitted. *)

From Stdlib Require Import ZArith NArith String Ascii Lia.
From Stdlib Require Import Decimal DecimalFacts DecimalPos DecimalN.
From Stdlib Require Import DecimalString.
From stdpp Require Import gmap strings list sorting relations.

Local Open Scope Z_scope.

(** ** Exceptions and cells *)

(** The exceptions that can travel through the program.  [OSError] is the
    class Python also calls [IOError]; [SystemExit] is what [sys.exit]
    raises, and it is not an [Exception], so [except Exception] lets it
    pass. *)
Inductive exn :=
  | ValueError
  | TypeError
  | KeyError
  | OSError
  | CsvError
  | SystemExit (code : Z).

#[global] Instance exn_eq_dec : EqDecision exn.
Proof. solve_decision. Defined.

Definition is_Exception (e : exn) : bool :=
  match e with SystemExit _ => false | _ => true end.

Definition is_ValueError (e : exn) : bool :=
  match e with ValueError => true | _ => false end.

Inductive result (A : Type) :=
  | Ok (a : A)
  | Raise (e : exn).
Arguments Ok {A} a.
Arguments Raise {A} e.

#[global] Instance result_ret : MRet result := @Ok.
#[global] Instance result_bind : MBind result := λ A B f r,
  match r with
  | Ok a => f a
  | Raise e => Raise e
  end.

(** A cell of a row dictionary: a string read from the file, or [None], the
    value [csv.DictReader] gives to the columns a short row does not
    reach. *)
Inductive cell :=
  | PyNone
  | Str (s : string).
Coercion Str : string >-> cell.

#[global] Instance cell_eq_dec : EqDecision cell.
Proof. solve_decision. Defined.

(** ** Records *)

(** The dictionary [read_csv] builds for a valid row.  The four text fields
    hold the cells of the row as they are; [division] and [points] hold the
    parsed integers. *)
Record record := Record_ {
  firstname : cell;
  lastname : cell;
  date : cell;
  division : Z;
  points : Z;
  summary : cell
}.

#[global] Instance record_eq_dec : EqDecision record.
Proof. solve_decision. Defined.

(** ** The log *)

(** The calls of [logging] made by the program. *)
Inductive log_entry :=
  | ErrorMissingColumns (missing : gset string)
  | WarningSkippingRow (row : gmap string cell)
  | WarningNoValidRecords
  | ErrorReadingCsv (e : exn)
  | InfoProcessingFile
  | ErrorNoValidRecords
  | InfoReadRecords (n : nat)
  | InfoSelectedTop (top_n : Z)
  | InfoFormatted (output_format : string)
  | InfoWritten
  | ErrorWriteFailed
  | InfoPrinted.

Definition is_warning (e : log_entry) : bool :=
  match e with
  | WarningSkippingRow _ | WarningNoValidRecords => true
  | _ => false
  end.

(** The entries logged with [logging.error]. *)
Definition is_error (e : log_entry) : bool :=
  match e with
  | ErrorMissingColumns _ | ErrorReadingCsv _ | ErrorNoValidRecords
  | ErrorWriteFailed => true
  | _ => false
  end.

(** The warnings of the loop over the rows, one per skipped row. *)
Definition is_skip (e : log_entry) : bool :=
  match e with WarningSkippingRow _ => true | _ => false end.

(** A computation that logs and may raise: its result and the entries it has
    logged, oldest first. *)
Definition M (A : Type) : Type := result A * list log_entry.

Definition ret {A} (a : A) : M A := (Ok a, []).
Definition raise {A} (e : exn) : M A := (Raise e, []).
Definition logging (e : log_entry) : M unit := (Ok tt, [e]).
Definition lift {A} (r : result A) : M A := (r, []).

Definition bind {A B} (m : M A) (f : A → M B) : M B :=
  match m with
  | (Ok a, l) => let '(r, l') := f a in (r, l ++ l')
  | (Raise e, l) => (Raise e, l)
  end.

(** [try: m except <handles> as e: handler e] *)
Definition try_except {A} (m : M A) (handles : exn → bool)
    (handler : exn → M A) : M A :=
  match m with
  | (Raise e, l) =>
      if handles e then let '(r, l') := handler e in (r, l ++ l')
      else (Raise e, l)
  | ok => ok
  end.

#[global] Instance M_ret : MRet M := @ret.
#[global] Instance M_bind : MBind M := λ A B f m, bind m f.

(** What the operating system sees when the computation is the whole
    process: the argument of an uncaught [sys.exit], 1 for any other uncaught
    exception, 0 otherwise. *)
Definition exit_status {A} (m : M A) : Z :=
  match m.1 with
  | Ok _ => 0
  | Raise (SystemExit code) => code
  | Raise _ => 1
  end.

(** The computation leaves the process through [sys.exit]. *)
Definition exits {A} (m : M A) (code : Z) : Prop :=
  m.1 = Raise (SystemExit code).

(** ** Record Loader: [read_csv] *)

Module Loader.

(** *** [int(text)] *)

Definition code (c : ascii) : N := N_of_ascii c.

(** The characters [int] strips from both ends of its argument: the ASCII
    white space and the two white-space characters of the Latin-1 range,
    U+0085 and U+00A0. *)
Definition is_space (c : ascii) : bool :=
  let n := code c in
  ((9 <=? n) && (n <=? 13) || (n =? 32) || (n =? 133) || (n =? 160))%N.

Definition is_digit (c : ascii) : bool :=
  let n := code c in ((48 <=? n) && (n <=? 57))%N.

Definition digit_value (c : ascii) : Z := Z.of_N (code c) - 48.

Fixpoint lstrip (s : string) : string :=
  match s with
  | String c s' => if is_space c then lstrip s' else s
  | EmptyString => EmptyString
  end.

Fixpoint rstrip (s : string) : string :=
  match s with
  | String c s' =>
      match rstrip s' with
      | EmptyString => if is_space c then EmptyString else String c EmptyString
      | r => String c r
      end
  | EmptyString => EmptyString
  end.

(** Decimal digits, single underscores allowed between two digits.  [acc] is
    the value read so far, [after_digit] tells whether the previous
    character was a digit. *)
Fixpoint digits (acc : Z) (after_digit : bool) (s : string) : option Z :=
  match s with
  | EmptyString => if after_digit then Some acc else None
  | String c s' =>
      if is_digit c then digits (10 * acc + digit_value c) true s'
      else if Ascii.eqb c "_" && after_digit then digits acc false s'
      else None
  end.

(** The limit of the interpreter on the number of digits of a decimal
    literal, [sys.int_info.default_max_str_digits]. *)
Definition max_str_digits : nat := 4300.

(** The number of digits of a literal; the underscores do not count, the
    zeros at the front do. *)
Fixpoint count_digits (s : string) : nat :=
  match s with
  | EmptyString => 0
  | String c s' => (if is_digit c then 1 else 0) + count_digits s'
  end.

(** The literal behind the sign: a literal of more than [max_str_digits]
    digits is refused. *)
Definition literal (s : string) : option Z :=
  if (count_digits s <=? max_str_digits)%nat then digits 0 false s else None.

(** [int(s)] for a string: the value, or [None] where Python raises
    [ValueError]: the text is no decimal literal, or it has more digits than
    the interpreter converts. *)
Definition int_of_string (s : string) : option Z :=
  match rstrip (lstrip s) with
  | String "+" r => literal r
  | String "-" r => Z.opp <$> literal r
  | r => literal r
  end.

(** [int(x)] for a cell: [int(None)] raises [TypeError]. *)
Definition int (x : cell) : result Z :=
  match x with
  | PyNone => Raise TypeError
  | Str s => match int_of_string s with Some z => Ok z | None => Raise ValueError end
  end.

(** *** [datetime.strptime(text, "%Y-%m-%d")] *)

Definition in_range (lo hi : ascii) (c : ascii) : bool :=
  ((code lo <=? code c) && (code c <=? code hi))%N.

(** The directive [%m] is the regular expression [1[0-2]|0[1-9]|[1-9]]: each
    way to read a month off the front of [s], in the order the alternatives
    are tried, with the text that follows it. *)
Definition month_matches (s : string) : list (Z * string) :=
  match s with
  | String a s1 =>
      (match s1 with
       | String b s2 =>
           (if Ascii.eqb a "1" && in_range "0" "2" b
            then [(10 + digit_value b, s2)] else []) ++
           (if Ascii.eqb a "0" && in_range "1" "9" b
            then [(digit_value b, s2)] else [])
       | EmptyString => []
       end) ++
      (if in_range "1" "9" a then [(digit_value a, s1)] else [])
  | EmptyString => []
  end.

(** The directive [%d] is [3[0-1]|[1-2]\d|0[1-9]|[1-9]| [1-9]]. *)
Definition day_matches (s : string) : list (Z * string) :=
  match s with
  | String a s1 =>
      (match s1 with
       | String b s2 =>
           (if Ascii.eqb a "3" && in_range "0" "1" b
            then [(30 + digit_value b, s2)] else []) ++
           (if in_range "1" "2" a && is_digit b
            then [(10 * digit_value a + digit_value b, s2)] else []) ++
           (if Ascii.eqb a "0" && in_range "1" "9" b
            then [(digit_value b, s2)] else [])
       | EmptyString => []
       end) ++
      (if in_range "1" "9" a then [(digit_value a, s1)] else []) ++
      (match s1 with
       | String b s2 =>
           if Ascii.eqb a " " && in_range "1" "9" b
           then [(digit_value b, s2)] else []
       | EmptyString => []
       end)
  | EmptyString => []
  end.

(** The first match of the whole pattern [\d\d\d\d-%m-%d] at the start of
    the text, as the backtracking matcher finds it: year, month, day and the
    text left over. *)
Definition match_date (s : string) : option (Z * Z * Z * string) :=
  match s with
  | String y1 (String y2 (String y3 (String y4 (String "-" s1)))) =>
      if is_digit y1 && is_digit y2 && is_digit y3 && is_digit y4 then
        let year := 1000 * digit_value y1 + 100 * digit_value y2
                    + 10 * digit_value y3 + digit_value y4 in
        head (m_s2 ← month_matches s1;
              match m_s2.2 with
              | String "-" s3 =>
                  d_s4 ← take 1 (day_matches s3);
                  [(year, m_s2.1, d_s4.1, d_s4.2)]
              | _ => []
              end)
      else None
  | _ => None
  end.

Definition is_leap (year : Z) : bool :=
  (year mod 4 =? 0) && (negb (year mod 100 =? 0) || (year mod 400 =? 0)).

Definition days_in_month (year month : Z) : Z :=
  if month =? 2 then (if is_leap year then 29 else 28)
  else if (month =? 4) || (month =? 6) || (month =? 9) || (month =? 11) then 30
  else 31.

(** [datetime.strptime(s, "%Y-%m-%d")] for a string: the date, or [None]
    where Python raises [ValueError] (no match, text left over, or no such
    day in the calendar). *)
Definition date_of_string (s : string) : option (Z * Z * Z) :=
  match match_date s with
  | Some (year, month, day, EmptyString) =>
      if (1 <=? year) && (1 <=? day) && (day <=? days_in_month year month)
      then Some (year, month, day) else None
  | _ => None
  end.

Definition strptime (x : cell) : result (Z * Z * Z) :=
  match x with
  | PyNone => Raise TypeError
  | Str s =>
      match date_of_string s with Some d => Ok d | None => Raise ValueError end
  end.

(** *** The file, as [csv.reader] presents it *)

(** What can go wrong when a file is opened or read: the operating system
    refuses, the bytes do not decode, the CSV syntax is broken. *)
Inductive io_error :=
  | SystemFails
  | DecodeFails
  | SyntaxFails.

(** The exception raised: [UnicodeDecodeError] is a [ValueError]. *)
Definition exn_of (e : io_error) : exn :=
  match e with
  | SystemFails => OSError
  | DecodeFails => ValueError
  | SyntaxFails => CsvError
  end.

(** One step of the iterator [csv.reader(file)]: the cells of the next line,
    or a failure. *)
Inductive reader_item :=
  | Line (cells : list string)
  | ReadFails (e : io_error).

(** [open(file_path)] fails, or gives a file whose lines the reader yields
    one after the other. *)
Inductive file :=
  | OpenFails (e : io_error)
  | Opened (items : list reader_item).

(** *** [csv.DictReader] *)

(** The dictionary for one line: the cells under their column names (a later
    column of the same name wins), and [None] under the names a short line
    does not reach.  The surplus cells of a long line, which the reader
    keeps under the key [None], are left out: [read_csv] never looks at
    them. *)
Definition row_dict (fieldnames cells : list string) : gmap string cell :=
  let d := foldl (λ d kv, <[kv.1 := Str kv.2]> d) ∅ (zip fieldnames cells) in
  foldl (λ d key, <[key := PyNone]> d) d (drop (length cells) fieldnames).

(** [row[key]] *)
Definition getitem (row : gmap string cell) (key : string) : result cell :=
  match row !! key with
  | Some v => Ok v
  | None => Raise KeyError
  end.

(** [str(x)], as an f-string formats a cell. *)
Definition str (x : cell) : string :=
  match x with
  | PyNone => "None"
  | Str s => s
  end.

(** *** [read_csv] *)

Definition required_columns : gset string :=
  {[ "firstname"; "lastname"; "date"; "division"; "points"; "summary" ]}.

(** The body of the inner [try]: parse one row and build its record. *)
Definition parse_row (row : gmap string cell) : result record :=
  division ← getitem row "division" ≫= int;
  points ← getitem row "points" ≫= int;
  _ ← getitem row "date" ≫= strptime;
  firstname ← getitem row "firstname";
  lastname ← getitem row "lastname";
  date ← getitem row "date";
  summary ← getitem row "summary";
  mret (Record_ firstname lastname date division points summary).

(** The loop [for row in reader]: [records] is the list built so far.  The
    reader passes over empty lines; a row that raises [ValueError] is logged
    and skipped; any other exception leaves the loop. *)
Fixpoint read_rows (fieldnames : list string) (items : list reader_item)
    (records : list record) : M (list record) :=
  match items with
  | [] => mret records
  | ReadFails e :: _ => raise (exn_of e)
  | Line [] :: items' => read_rows fieldnames items' records
  | Line cells :: items' =>
      let row := row_dict fieldnames cells in
      records' ← try_except
        (r ← lift (parse_row row); mret (records ++ [r]))
        is_ValueError
        (λ ve, logging (WarningSkippingRow row);; mret records);
      read_rows fieldnames items' records'
  end.

(** [reader.fieldnames]: the first line, [None] for a file without lines. *)
Definition fieldnames_of (items : list reader_item)
    : M (option (list string) * list reader_item) :=
  match items with
  | [] => mret (None, [])
  | ReadFails e :: _ => raise (exn_of e)
  | Line cells :: items' => mret (Some cells, items')
  end.

Definition read_csv (f : file) : M (list record) :=
  try_except
    (match f with
     | OpenFails e => raise (exn_of e)
     | Opened items =>
         '(fieldnames, items') ← fieldnames_of items;
         match fieldnames with
         | None => raise TypeError
         | Some fieldnames =>
             (if bool_decide (required_columns ⊆ list_to_set fieldnames)
              then mret tt
              else
                let missing := required_columns ∖ list_to_set fieldnames in
                logging (ErrorMissingColumns missing);;
                raise (SystemExit 1));;
             records ← read_rows fieldnames items' [];
             (if bool_decide (records = [])
              then logging WarningNoValidRecords else mret tt);;
             mret records
         end
     end)
    is_Exception
    (λ e, logging (ErrorReadingCsv e);; raise (SystemExit 1)).

(** *** Vocabulary for the claims about the loader *)

(** The header names all six required columns. *)
Definition header_complete (fieldnames : list string) : Prop :=
  required_columns ⊆ list_to_set fieldnames.

(** Every line is empty or has a cell for every column, and the reader never
    fails. *)
Definition full_width (fieldnames : list string) (items : list reader_item)
    : Prop :=
  Forall (λ item, ∃ cells, item = Line cells ∧
            (cells = [] ∨ (length fieldnames ≤ length cells)%nat)) items.

(** Every line with cells raises [ValueError]. *)
Definition all_invalid (fieldnames : list string) (items : list reader_item)
    : Prop :=
  Forall (λ item, ∃ cells, item = Line cells ∧
            (cells = [] ∨
             parse_row (row_dict fieldnames cells) = Raise ValueError)) items.

(** The file cannot be opened, or the reader fails at some line. *)
Definition unreadable (f : file) : Prop :=
  match f with
  | OpenFails _ => True
  | Opened items => ∃ e, ReadFails e ∈ items
  end.

(** The file has no header line, or its header lacks a required column. *)
Definition header_incomplete (f : file) : Prop :=
  match f with
  | Opened [] => True
  | Opened (Line fieldnames :: _) =>
      ∃ column, column ∈ required_columns ∧ column ∉ fieldnames
  | _ => False
  end.

(** *** Vocabulary for the further properties of the loader *)

(** The record of a line, when the line has cells and passes the checks of
    the loop. *)
Definition accepted_row (fieldnames : list string) (item : reader_item)
    : option record :=
  match item with
  | Line (c :: cells) =>
      match parse_row (row_dict fieldnames (c :: cells)) with
      | Ok r => Some r
      | Raise _ => None
      end
  | _ => None
  end.

(** The records of the lines that pass, in the order of the file. *)
Definition accepted (fieldnames : list string) (items : list reader_item)
    : list record :=
  omap (accepted_row fieldnames) items.

Definition has_cells (item : reader_item) : bool :=
  match item with Line (_ :: _) => true | _ => false end.

(** The number of lines behind the header that hold at least one cell. *)
Definition data_lines (f : file) : nat :=
  match f with
  | Opened (_ :: items) => length (List.filter has_cells items)
  | _ => 0%nat
  end.

End Loader.

(** ** Ranker: [get_top_records] *)

Module Ranker.

(** Python compares the key tuples [(division, -points)] with [<]: the first
    components that differ decide. *)
Definition tuple_lt (a b : Z * Z) : bool :=
  if a.1 =? b.1 then a.2 <? b.2 else a.1 <? b.1.

(** [lambda x: (x["division"], -x["points"])] *)
Definition sort_key (x : record) : Z * Z := (division x, - points x).

Section sorted.
Context {A : Type} (key : A → Z * Z).

(** [sorted(records, key=...)] is guaranteed to be a stable sort that only
    uses [<] on the keys.  It is modelled by a stable insertion sort: an
    element is put behind the elements with a smaller key and in front of
    all others, so it stays in front of the later elements of equal key.
    Lemma [sorted_unique] below shows that every stable sort computes the
    same list. *)
Fixpoint insert_stable (x : A) (l : list A) : list A :=
  match l with
  | [] => [x]
  | y :: l' =>
      if tuple_lt (key y) (key x) then y :: insert_stable x l'
      else x :: y :: l'
  end.

Fixpoint sorted (l : list A) : list A :=
  match l with
  | [] => []
  | x :: l' => insert_stable x (sorted l')
  end.

(** [x] may stand in front of [y] in a sorted list: [key y < key x] is
    false. *)
Definition key_le (x y : A) : Prop := tuple_lt (key y) (key x) = false.

(** [l[:stop]]: a negative [stop] counts from the end, and the bound is
    clipped to the list. *)
Definition slice_to (l : list A) (stop : Z) : list A :=
  let len := Z.of_nat (length l) in
  let stop' := if stop <? 0 then Z.max (stop + len) 0 else Z.min stop len in
  take (Z.to_nat stop') l.

(** The body of [get_top_records], for any element type with a key. *)
Definition top_by (records : list A) (top_n : Z) : list A :=
  let sorted_records := sorted records in
  slice_to sorted_records top_n.
End sorted.

Definition get_top_records (records : list record) (top_n : Z) : list record :=
  top_by sort_key records top_n.

(** The order of the specification: ascending by division and, within equal
    division, descending by points. *)
Definition rank_le (r1 r2 : record) : Prop :=
  division r1 < division r2 ∨
  (division r1 = division r2 ∧ points r2 ≤ points r1).

(** Records tied on both ranking fields. *)
Definition tied (r1 r2 : record) : Prop :=
  division r1 = division r2 ∧ points r1 = points r2.

(** The input with every record tagged by its position. *)
Definition tagged (records : list record) : list (nat * record) :=
  imap pair records.

(** In a tagged list, [a] is in front of [b]: smaller key, or the same key
    and an earlier position. *)
Definition before {A} (key : A → Z * Z) (a b : nat * A) : Prop :=
  key_le (key ∘ snd) a b ∧ (key a.2 = key b.2 → (a.1 < b.1)%nat).

End Ranker.

(** ** Renderer: the document and [format_to_json] *)

Module Renderer.

(** *** [str(n)] for an integer *)

Definition str_of_int (n : Z) : string :=
  DecimalString.NilZero.string_of_int (Z.to_int n).

(** *** The projection of a record *)

(** [f"{record['firstname']} {record['lastname']}"] *)
Definition name_of (r : record) : string :=
  Loader.str (firstname r) +:+ " " +:+ Loader.str (lastname r).

(** [f"In division {record['division']} from {record['date']} performing
    {record['summary']}"] *)
Definition details_of (r : record) : string :=
  "In division " +:+ str_of_int (division r) +:+ " from "
  +:+ Loader.str (date r) +:+ " performing " +:+ Loader.str (summary r).

(** *** The objects handed to the serializers *)

(** Strings, lists and dictionaries with string keys.  A dictionary keeps
    its items in insertion order. *)
#[local] Unset Elimination Schemes.
Inductive pyobj :=
  | PStr (s : string)
  | PList (items : list pyobj)
  | PDict (items : list (string * pyobj)).
#[local] Set Elimination Schemes.

(** The loop shared by [format_to_yaml] and [format_to_json]: starting from
    [{"records": []}], one dictionary is appended to the list per record. *)
Definition append_entry (output : list pyobj) (r : record) : list pyobj :=
  output ++ [PDict [("name", PStr (name_of r)); ("details", PStr (details_of r))]].

Definition build_output (records : list record) : pyobj :=
  PDict [("records", PList (foldl append_entry [] records))].

(** [sorted(dct.items())]: the items in the order of their keys. *)
Definition sort_items (items : list (string * pyobj)) : list (string * pyobj) :=
  merge_sort (λ a b, (a.1 ≤ b.1)%string) items.

(** What a serializer called with [sort_keys=True] walks through: every
    dictionary of the object with its items sorted. *)
Fixpoint with_sorted_keys (o : pyobj) : pyobj :=
  match o with
  | PStr s => PStr s
  | PList items => PList (map with_sorted_keys items)
  | PDict items =>
      PDict (sort_items (map (λ '(k, v), (k, with_sorted_keys v)) items))
  end.

Definition items_order (sort_keys : bool) (o : pyobj) : pyobj :=
  if sort_keys then with_sorted_keys o else o.

(** The number of values and items in an object. *)
Fixpoint size (o : pyobj) : nat :=
  match o with
  | PStr _ => 1
  | PList items => S (list_sum (map (λ item, S (size item)) items))
  | PDict items => S (list_sum (map (λ kv, S (size kv.2)) items))
  end.

(** No dictionary of the object has a key twice (as for every dictionary of
    Python). *)
Fixpoint well_keyed (o : pyobj) : Prop :=
  match o with
  | PStr _ => True
  | PList items => foldr (λ item P, well_keyed item ∧ P) True items
  | PDict items =>
      NoDup items.*1 ∧
      foldr (λ '(_, value) P, well_keyed value ∧ P) True items
  end.

(** *** [json.dumps(obj, indent=...)] *)

Module Json.

(** The double quote. *)
Definition quote : ascii := "034".

Definition hex_digit (n : N) : ascii :=
  ascii_of_N (if (n <? 10)%N then 48 + n else 87 + n).

(** [ESCAPE_ASCII] with [ESCAPE_DCT]: the text that stands for one character
    between the quotes. *)
Definition escape (c : ascii) : string :=
  let n := N_of_ascii c in
  if Ascii.eqb c quote then String "\" (String quote EmptyString)
  else if Ascii.eqb c "\" then "\\"
  else if (n =? 8)%N then "\b"
  else if (n =? 12)%N then "\f"
  else if (n =? 10)%N then "\n"
  else if (n =? 13)%N then "\r"
  else if (n =? 9)%N then "\t"
  else if ((32 <=? n) && (n <=? 126))%N then String c EmptyString
  else "\u00" +:+ String (hex_digit (n / 16)) (String (hex_digit (n mod 16)) EmptyString).

Fixpoint escape_all (s : string) : string :=
  match s with
  | EmptyString => EmptyString
  | String c s' => escape c +:+ escape_all s'
  end.

(** [encode_basestring_ascii] *)
Definition encode_basestring_ascii (s : string) : string :=
  String quote (escape_all s +:+ String quote EmptyString).

Fixpoint spaces (n : nat) : string :=
  match n with
  | O => EmptyString
  | S n' => String " " (spaces n')
  end.

(** ['\n' + _indent * level] *)
Definition newline_indent (indent level : nat) : string :=
  String "010" (spaces (indent * level)).

(** The chunks between the brackets: the items, each but the first behind
    the separator. *)
Fixpoint join (separator : string) (chunks : list string) : string :=
  match chunks with
  | [] => EmptyString
  | [c] => c
  | c :: chunks' => c +:+ separator +:+ join separator chunks'
  end.

(** [_iterencode] with its two helpers [_iterencode_list] and
    [_iterencode_dict], for an integer [indent]; the item separator is [","]
    and the key separator [": "].  The items of a dictionary come in the
    order [items_order] has given them. *)
Fixpoint iterencode (indent : nat) (level : nat) (o : pyobj) : string :=
  match o with
  | PStr s => encode_basestring_ascii s
  | PList [] => "[]"
  | PList lst =>
      "[" +:+ newline_indent indent (S level)
      +:+ join ("," +:+ newline_indent indent (S level))
            (map (iterencode indent (S level)) lst)
      +:+ newline_indent indent level +:+ "]"
  | PDict [] => "{}"
  | PDict dct =>
      "{" +:+ newline_indent indent (S level)
      +:+ join ("," +:+ newline_indent indent (S level))
            (map (λ '(key, value), encode_basestring_ascii key +:+ ": "
                                   +:+ iterencode indent (S level) value)
                 dct)
      +:+ newline_indent indent level +:+ "}"
  end.

Definition dumps (obj : pyobj) (indent : nat) (sort_keys : bool) : string :=
  iterencode indent 0 (items_order sort_keys obj).

End Json.

(** [json.dumps(output, indent=2)]; [sort_keys] keeps its default [False]. *)
Definition format_to_json (records : list record) : string :=
  Json.dumps (build_output records) 2 false.

(** *** [yaml.dump] *)

(** The model follows PyYAML's pure-Python dumper for the options of
    [yaml.dump(output, sort_keys=False)]: block style for every collection
    that is not empty, lines of at most 80 columns where a scalar can be
    folded, an indentation of 2, no Unicode in the output.  The objects are
    trees, so the dumper never writes an anchor or an alias: the dictionary of
    each record is built afresh by [format_to_yaml], and strings are never
    aliased. *)

Module Yaml.

Definition quote : ascii := "034".
Definition newline : ascii := "010".

Definition mem (c : ascii) (chars : string) : bool :=
  existsb (Ascii.eqb c) (list_ascii_of_string chars).

(** *** Regular expressions, for the implicit resolvers *)

Inductive regex :=
  | Never
  | Eps
  | Cls (ranges : list (ascii * ascii))
  | Seq (r1 r2 : regex)
  | Alt (r1 r2 : regex)
  | Star (r : regex).

Definition in_class (ranges : list (ascii * ascii)) (c : ascii) : bool :=
  existsb (λ '(lo, hi), Loader.in_range lo hi c) ranges.

Fixpoint nullable (r : regex) : bool :=
  match r with
  | Never | Cls _ => false
  | Eps | Star _ => true
  | Seq r1 r2 => nullable r1 && nullable r2
  | Alt r1 r2 => nullable r1 || nullable r2
  end.

Definition seq (r1 r2 : regex) : regex :=
  match r1, r2 with
  | Never, _ | _, Never => Never
  | Eps, r | r, Eps => r
  | _, _ => Seq r1 r2
  end.

Definition alt (r1 r2 : regex) : regex :=
  match r1, r2 with
  | Never, r | r, Never => r
  | _, _ => Alt r1 r2
  end.

(** What is left of [r] after the character [c]. *)
Fixpoint deriv (c : ascii) (r : regex) : regex :=
  match r with
  | Never | Eps => Never
  | Cls ranges => if in_class ranges c then Eps else Never
  | Seq r1 r2 =>
      alt (seq (deriv c r1) r2) (if nullable r1 then deriv c r2 else Never)
  | Alt r1 r2 => alt (deriv c r1) (deriv c r2)
  | Star r1 => seq (deriv c r1) (Star r1)
  end.

Fixpoint fullmatch (r : regex) (s : string) : bool :=
  match s with
  | EmptyString => nullable r
  | String c s' => fullmatch (deriv c r) s'
  end.

(** [re.compile("^(?:r)$").match(value)]: [$] also matches in front of a
    line feed that ends the text. *)
Definition re_match (r : regex) (value : string) : bool :=
  fullmatch r value || fullmatch (Seq r (Cls [(newline, newline)])) value.

Definition Chr (c : ascii) : regex := Cls [(c, c)].
Definition Any (chars : string) : regex :=
  Cls (map (λ c, (c, c)) (list_ascii_of_string chars)).
Definition Seqs (rs : list regex) : regex := foldr Seq Eps rs.
Definition Alts (rs : list regex) : regex := foldr Alt Never rs.
Definition Lit (s : string) : regex := Seqs (map Chr (list_ascii_of_string s)).
Definition Lits (ss : list string) : regex := Alts (map Lit ss).
Definition Opt (r : regex) : regex := Alt r Eps.
Definition Plus (r : regex) : regex := Seq r (Star r).

Definition D : regex := Cls [("0", "9")]%char.
Definition D_ : regex := Cls [("0", "9"); ("_", "_")]%char.
Definition sign : regex := Opt (Any "-+").
Definition blank : regex := Cls [(" ", " "); ("009", "009")]%char.

Definition bool_re : regex :=
  Lits ["yes"; "Yes"; "YES"; "no"; "No"; "NO"; "true"; "True"; "TRUE";
        "false"; "False"; "FALSE"; "on"; "On"; "ON"; "off"; "Off"; "OFF"].

Definition exponent : regex := Opt (Seqs [Any "eE"; Any "-+"; Plus D]).
Definition sexagesimal : regex :=
  Plus (Seqs [Chr ":"; Opt (Cls [("0", "5")]%char); D]).

Definition float_re : regex :=
  Alts [Seqs [sign; D; Star D_; Chr "."; Star D_; exponent];
        Seqs [Chr "."; D; Star D_; exponent];
        Seqs [sign; D; Star D_; sexagesimal; Chr "."; Star D_];
        Seqs [sign; Chr "."; Lits ["inf"; "Inf"; "INF"]];
        Seqs [Chr "."; Lits ["nan"; "NaN"; "NAN"]]].

Definition int_re : regex :=
  Alts [Seqs [sign; Lit "0b"; Plus (Cls [("0", "1"); ("_", "_")]%char)];
        Seqs [sign; Chr "0"; Plus (Cls [("0", "7"); ("_", "_")]%char)];
        Seqs [sign; Alt (Chr "0") (Seq (Cls [("1", "9")]%char) (Star D_))];
        Seqs [sign; Lit "0x";
              Plus (Cls [("0", "9"); ("a", "f"); ("A", "F"); ("_", "_")]%char)];
        Seqs [sign; Cls [("1", "9")]%char; Star D_; sexagesimal]].

Definition merge_re : regex := Lit "<<".

Definition null_re : regex := Alts [Chr "~"; Lits ["null"; "Null"; "NULL"]; Eps].

Definition timestamp_re : regex :=
  Alts [Seqs [D; D; D; D; Chr "-"; D; D; Chr "-"; D; D];
        Seqs [D; D; D; D; Chr "-"; D; Opt D; Chr "-"; D; Opt D;
              Alt (Any "Tt") (Plus blank); D; Opt D;
              Chr ":"; D; D; Chr ":"; D; D;
              Opt (Seq (Chr ".") (Star D));
              Opt (Seq (Star blank)
                     (Alt (Chr "Z")
                        (Seqs [Any "-+"; D; Opt D;
                               Opt (Seqs [Chr ":"; D; D])])))]].

Definition value_re : regex := Chr "=".

Definition yaml_re : regex := Any "!&*".

(** The resolvers registered under the first character of a value, in the
    order of their registration; the empty value has the one for null. *)
Definition resolvers_for (value : string) : list regex :=
  match value with
  | EmptyString => [null_re]
  | String c _ =>
      (if mem c "yYnNtTfFoO" then [bool_re] else []) ++
      (if mem c "-+0123456789." then [float_re] else []) ++
      (if mem c "-+0123456789" then [int_re] else []) ++
      (if mem c "<" then [merge_re] else []) ++
      (if mem c "~nN" then [null_re] else []) ++
      (if mem c "0123456789" then [timestamp_re] else []) ++
      (if mem c "=" then [value_re] else []) ++
      (if mem c "!&*" then [yaml_re] else [])
  end%list.

(** [event.implicit[0]] for a string: no resolver claims the value, so a
    plain scalar is read back as a string. *)
Definition implicit (value : string) : bool :=
  negb (existsb (λ r, re_match r value) (resolvers_for value)).

(** *** [analyze_scalar] *)

(** The characters the analysis counts as white space. *)
Definition is_whitespace (c : ascii) : bool :=
  let n := N_of_ascii c in
  ((n =? 0) || (n =? 32) || (n =? 9) || (n =? 13) || (n =? 10) || (n =? 133))%N.

(** Line breaks: the line feed and, in the Latin-1 range, U+0085. *)
Definition is_break (c : ascii) : bool :=
  let n := N_of_ascii c in ((n =? 10) || (n =? 133))%N.

Definition is_printable_ascii (c : ascii) : bool :=
  let n := N_of_ascii c in ((32 <=? n) && (n <=? 126))%N.

Record flags := Flags {
  block_indicators : bool;
  line_breaks : bool;
  special_characters : bool;
  leading_space : bool;
  leading_break : bool;
  trailing_space : bool;
  trailing_break : bool;
  break_space : bool;
  space_break : bool
}.

Definition followed_by_whitespace (rest : string) : bool :=
  match rest with
  | EmptyString => true
  | String c _ => is_whitespace c
  end.

(** One round of the loop over the characters, at the character [ch] with
    [rest] behind it. *)
Definition analyze_char (first preceded_by_whitespace previous_space
    previous_break : bool) (ch : ascii) (rest : string) (f : flags) : flags :=
  let last := match rest with EmptyString => true | _ => false end in
  let followed := followed_by_whitespace rest in
  let indicator :=
    if first then
      mem ch (String quote "#,[]{}&*!|>'%@`")
      || (mem ch "?:" && followed)
      || (Ascii.eqb ch "-" && followed)
    else
      (Ascii.eqb ch ":" && followed)
      || (Ascii.eqb ch "#" && preceded_by_whitespace) in
  let space := Ascii.eqb ch " " in
  let break := is_break ch in
  Flags
    (block_indicators f || indicator)
    (line_breaks f || break)
    (special_characters f
     || negb (Ascii.eqb ch newline || is_printable_ascii ch))
    (leading_space f || (space && first))
    (leading_break f || (negb space && break && first))
    (trailing_space f || (space && last))
    (trailing_break f || (negb space && break && last))
    (break_space f || (space && previous_break))
    (space_break f || (negb space && break && previous_space)).

Fixpoint analyze_loop (first preceded_by_whitespace previous_space
    previous_break : bool) (s : string) (f : flags) : flags :=
  match s with
  | EmptyString => f
  | String ch rest =>
      analyze_loop false (is_whitespace ch) (Ascii.eqb ch " ")
        (negb (Ascii.eqb ch " ") && is_break ch) rest
        (analyze_char first preceded_by_whitespace previous_space
           previous_break ch rest f)
  end.

Definition starts_with (p s : string) : bool := String.prefix p s.

(** The part of [ScalarAnalysis] the block styles read.  (The flags for flow
    context and for the styles [|] and [>] are left out: the dumper writes
    no scalar inside a flow collection and is never asked for a block
    scalar.) *)
Record analysis := Analysis {
  empty : bool;
  multiline : bool;
  allow_block_plain : bool;
  allow_single_quoted : bool
}.

Definition analyze_scalar (scalar : string) : analysis :=
  match scalar with
  | EmptyString => Analysis true false true true
  | _ =>
      let document_indicator :=
        starts_with "---" scalar || starts_with "..." scalar in
      let f := analyze_loop true true false false scalar
                 (Flags document_indicator false false false false false
                    false false false) in
      Analysis false (line_breaks f)
        (negb (leading_space f || leading_break f
               || trailing_space f || trailing_break f
               || break_space f || space_break f || special_characters f
               || line_breaks f || block_indicators f))
        (negb (break_space f || space_break f || special_characters f))
  end.

(** *** [choose_scalar_style] *)

Inductive style := Plain | SingleQuoted | DoubleQuoted.

Definition choose_scalar_style (value : string) (simple_key_context : bool)
    : style :=
  let a := analyze_scalar value in
  if implicit value
     && negb (simple_key_context && (empty a || multiline a))
     && allow_block_plain a
  then Plain
  else if allow_single_quoted a && negb (simple_key_context && multiline a)
  then SingleQuoted
  else DoubleQuoted.

(** *** The emitter *)

Definition best_indent : nat := 2.
Definition best_width : nat := 80.

(** The part of the emitter's state the writers read and change: the text
    written so far, the current column, whether the last character written
    is white space, whether only indentation has been written on the line,
    and whether the document ends in an open plain scalar. *)
Record emitter := Emitter {
  stream : string;
  column : nat;
  whitespace : bool;
  indention : bool;
  open_ended : bool
}.

Definition initial : emitter := Emitter EmptyString 0 true true false.

(** [self.stream.write(data)] with [self.column += len(data)] *)
Definition write (data : string) (e : emitter) : emitter :=
  Emitter (stream e +:+ data) (column e + String.length data)
    (whitespace e) (indention e) (open_ended e).

Definition set_flags (whitespace' indention' : bool) (e : emitter) : emitter :=
  Emitter (stream e) (column e) whitespace' indention' (open_ended e).

Definition write_indicator (indicator : string)
    (need_whitespace whitespace' indention' : bool) (e : emitter) : emitter :=
  let data :=
    if whitespace e || negb need_whitespace then indicator
    else String " " indicator in
  Emitter (stream e +:+ data) (column e + String.length data)
    whitespace' (indention e && indention') false.

Definition write_line_break (e : emitter) : emitter :=
  Emitter (stream e +:+ String newline EmptyString) 0 true true (open_ended e).

Definition write_indent (indent : option nat) (e : emitter) : emitter :=
  let indent := default 0%nat indent in
  let e :=
    if negb (indention e) || (indent <? column e)%nat
       || ((column e =? indent)%nat && negb (whitespace e))
    then write_line_break e else e in
  if (column e <? indent)%nat then
    Emitter (stream e +:+ Json.spaces (indent - column e)) indent
      true (indention e) (open_ended e)
  else e.

Definition increase_indent (flow indentless : bool) (indent : option nat)
    : option nat :=
  match indent with
  | None => Some (if flow then best_indent else 0%nat)
  | Some n => Some (if indentless then n else (n + best_indent)%nat)
  end.

(** The three loops below walk over the text with [rest = text[end:]] and
    [pending = text[start:end]], the characters read but not yet written;
    the last round has [rest] empty, where Python's [ch] is [None]. *)

Definition next_is (p : ascii → bool) (rest : string) : bool :=
  match rest with
  | String c _ => p c
  | EmptyString => false
  end.

Definition is_space (c : ascii) : bool := Ascii.eqb c " ".

(** Write the line breaks [pending], the first one twice when it is a line
    feed, then indent. *)
Definition write_breaks (indent : option nat) (pending : string)
    (e : emitter) : emitter :=
  let e := if next_is (Ascii.eqb newline) pending then write_line_break e
           else e in
  let e := fold_left
             (λ e br, if Ascii.eqb br newline then write_line_break e
                      else Emitter (stream e +:+ String br EmptyString) 0
                             true true (open_ended e))
             (list_ascii_of_string pending) e in
  write_indent indent e.

Fixpoint plain_loop (split : bool) (indent : option nat)
    (spaces breaks : bool) (pending rest : string) (e : emitter) : emitter :=
  let '(pending, e) :=
    if spaces then
      if next_is is_space rest then (pending, e)
      else if (String.length pending =? 1)%nat
              && (best_width <? column e)%nat && split
      then (EmptyString, set_flags false false (write_indent indent e))
      else (EmptyString, write pending e)
    else if breaks then
      if next_is is_break rest then (pending, e)
      else (EmptyString, set_flags false false (write_breaks indent pending e))
    else
      match rest with
      | String ch _ =>
          if is_space ch || is_break ch then (EmptyString, write pending e)
          else (pending, e)
      | EmptyString => (EmptyString, write pending e)
      end in
  match rest with
  | EmptyString => e
  | String ch rest' =>
      plain_loop split indent (is_space ch) (is_break ch)
        (pending +:+ String ch EmptyString) rest' e
  end.

(** [self.open_ended = True] *)
Definition mark_open_ended (e : emitter) : emitter :=
  Emitter (stream e) (column e) (whitespace e) (indention e) true.

(** [write_plain].  The analysis admits no line break in a plain scalar, so
    the loop never meets the end of the text while it collects breaks. *)
Definition write_plain (text : string) (split root_context : bool)
    (indent : option nat) (e : emitter) : emitter :=
  let e := if root_context then mark_open_ended e else e in
  match text with
  | EmptyString => e
  | _ =>
      let e := if whitespace e then e else write " " e in
      plain_loop split indent false false EmptyString text
        (set_flags false false e)
  end.

Fixpoint single_quoted_loop (split : bool) (indent : option nat)
    (spaces breaks at_start : bool) (pending rest : string) (e : emitter)
    : emitter :=
  let '(pending, at_start, e) :=
    if spaces then
      if next_is is_space rest then (pending, at_start, e)
      else if (String.length pending =? 1)%nat
              && (best_width <? column e)%nat && split
              && negb at_start
              && negb (match rest with EmptyString => true | _ => false end)
      then (EmptyString, false, write_indent indent e)
      else (EmptyString, false, write pending e)
    else if breaks then
      if next_is is_break rest then (pending, at_start, e)
      else (EmptyString, false, write_breaks indent pending e)
    else
      match rest with
      | String ch _ =>
          if is_space ch || is_break ch || Ascii.eqb ch "'"
          then (EmptyString,
                match pending with EmptyString => at_start | _ => false end,
                write pending e)
          else (pending, at_start, e)
      | EmptyString => (EmptyString, false, write pending e)
      end in
  match rest with
  | EmptyString => e
  | String ch rest' =>
      if Ascii.eqb ch "'" then
        single_quoted_loop split indent false false false EmptyString rest'
          (write "''" e)
      else
        single_quoted_loop split indent (is_space ch) (is_break ch) at_start
          (pending +:+ String ch EmptyString) rest' e
  end.

Definition write_single_quoted (text : string) (split : bool)
    (indent : option nat) (e : emitter) : emitter :=
  let e := write_indicator "'" true false false e in
  let e := single_quoted_loop split indent false false true EmptyString text e in
  write_indicator "'" false false false e.

Definition hex_upper (n : N) : ascii :=
  ascii_of_N (if (n <? 10)%N then 48 + n else 55 + n).

(** [ESCAPE_REPLACEMENTS], and [\xXX] for the other characters. *)
Definition escape (ch : ascii) : string :=
  let n := N_of_ascii ch in
  String "\"
    (if (n =? 0)%N then "0"
     else if (n =? 7)%N then "a"
     else if (n =? 8)%N then "b"
     else if (n =? 9)%N then "t"
     else if (n =? 10)%N then "n"
     else if (n =? 11)%N then "v"
     else if (n =? 12)%N then "f"
     else if (n =? 13)%N then "r"
     else if (n =? 27)%N then "e"
     else if (n =? 34)%N then String quote EmptyString
     else if (n =? 92)%N then "\"
     else if (n =? 133)%N then "N"
     else if (n =? 160)%N then "_"
     else String "x" (String (hex_upper (n / 16))
                        (String (hex_upper (n mod 16)) EmptyString))).

(** The characters a double-quoted scalar carries as they are. *)
Definition is_direct (ch : ascii) : bool :=
  is_printable_ascii ch && negb (Ascii.eqb ch quote) && negb (Ascii.eqb ch "\").

Fixpoint double_quoted_loop (split : bool) (indent : option nat)
    (first : bool) (pending rest : string) (e : emitter) : emitter :=
  (* escape: [start = end + 1] afterwards, which [escaped] records; the
     length [end - start] of the pending text is then -1 *)
  let '(pending, escaped, e) :=
    match rest with
    | String ch _ =>
        if is_direct ch then (pending, false, e)
        else (EmptyString, true, write (escape ch) (write pending e))
    | EmptyString => (EmptyString, false, write pending e)
    end in
  (* fold the line *)
  let '(pending, e) :=
    match rest with
    | String ch (String ch' _) =>
        if negb first
           && (is_space ch || match pending with EmptyString => true | _ => false end)
           && (best_width <? (if escaped then column e - 1
                              else column e + String.length pending))%nat
           && split
        then
          let e := write (pending +:+ "\") e in
          let e := set_flags false false (write_indent indent e) in
          (EmptyString,
           if is_space (if escaped then ch' else ch) then write "\" e else e)
        else (pending, e)
    | _ => (pending, e)
    end in
  match rest with
  | EmptyString => e
  | String ch rest' =>
      double_quoted_loop split indent false
        (if escaped then EmptyString else pending +:+ String ch EmptyString)
        rest' e
  end.

Definition write_double_quoted (text : string) (split : bool)
    (indent : option nat) (e : emitter) : emitter :=
  let e := write_indicator (String quote EmptyString) true false false e in
  let e := double_quoted_loop split indent true EmptyString text e in
  write_indicator (String quote EmptyString) false false false e.

(** [expect_scalar] with [process_scalar]: a string never needs a tag. *)
Definition expect_scalar (value : string) (root_context simple_key_context : bool)
    (indent : option nat) (e : emitter) : emitter :=
  let indent := increase_indent true false indent in
  let split := negb simple_key_context in
  match choose_scalar_style value simple_key_context with
  | DoubleQuoted => write_double_quoted value split indent e
  | SingleQuoted => write_single_quoted value split indent e
  | Plain => write_plain value split root_context indent e
  end.

(** [check_simple_key] for a string key: the prepared tag [!!str] counts
    with its five characters. *)
Definition check_simple_key (key : string) : bool :=
  let a := analyze_scalar key in
  (5 + String.length key <? 128)%nat && negb (empty a) && negb (multiline a).

(** The handlers of block sequences and block mappings, for any way
    [expect_item] of writing the nodes inside. *)
Section block_handlers.
Context (expect_item : pyobj → emitter → emitter) (indent : option nat).

Fixpoint expect_block_sequence_item (items : list pyobj) (e : emitter)
    : emitter :=
  match items with
  | [] => e
  | item :: items' =>
      let e := write_indent indent e in
      let e := write_indicator "-" true false true e in
      expect_block_sequence_item items' (expect_item item e)
  end.

Fixpoint expect_block_mapping_key (items : list (string * pyobj))
    (e : emitter) : emitter :=
  match items with
  | [] => e
  | (key, value) :: items' =>
      let e := write_indent indent e in
      let e :=
        if check_simple_key key then
          let e := expect_scalar key false true indent e in
          write_indicator ":" false false false e
        else
          let e := write_indicator "?" true false true e in
          let e := expect_scalar key false false indent e in
          let e := write_indent indent e in
          write_indicator ":" true false true e in
      expect_block_mapping_key items' (expect_item value e)
  end.
End block_handlers.

(** [expect_node]; an empty collection is written in flow style. *)
Fixpoint expect_node (o : pyobj) (root_context mapping_context : bool)
    (indent : option nat) (e : emitter) : emitter :=
  match o with
  | PStr value => expect_scalar value root_context false indent e
  | PList [] =>
      write_indicator "]" false false false
        (write_indicator "[" true true false e)
  | PList items =>
      let indentless := mapping_context && negb (indention e) in
      let indent := increase_indent false indentless indent in
      expect_block_sequence_item
        (λ item e, expect_node item false false indent e) indent items e
  | PDict [] =>
      write_indicator "}" false false false
        (write_indicator "{" true true false e)
  | PDict items =>
      let indent := increase_indent false false indent in
      expect_block_mapping_key
        (λ value e, expect_node value false true indent e) indent items e
  end.

(** One document: the root node, the line break that ends the document, and
    the end marker an open plain scalar asks for. *)
Definition emit (o : pyobj) : string :=
  let e := expect_node o true false None initial in
  let e := write_indent None e in
  let e := if open_ended e
           then write_indent None (write_indicator "..." true false false e)
           else e in
  stream e.

(** [yaml.dump(data, sort_keys=...)] *)
Definition dump (data : pyobj) (sort_keys : bool) : string :=
  emit (items_order sort_keys data).

(** The emitter [e] with the text [s] written in front of its stream. *)
Definition prefixed (s : string) (e : emitter) : emitter :=
  Emitter (s +:+ stream e) (column e) (whitespace e) (indention e)
    (open_ended e).

End Yaml.

(** [yaml.dump(output, sort_keys=False)] *)
Definition format_to_yaml (records : list record) : string :=
  Yaml.dump (build_output records) false.

(** *** Vocabulary for the further properties of the renderer *)

(** Every character of the text satisfies [p]. *)
Fixpoint all_chars (p : ascii → bool) (s : string) : bool :=
  match s with
  | EmptyString => true
  | String c s' => p c && all_chars p s'
  end.

(** A printable ASCII character or a line feed. *)
Definition is_ascii_text (c : ascii) : bool :=
  Ascii.eqb c "010" || Loader.in_range " " "~" c.

End Renderer.

(** ** The parsers of the two notations *)

(** [json.loads] and [yaml.safe_load], which read back what the renderer
    writes.  Both are modelled on the objects of [pyobj]: a text that holds
    another kind of value (a number, [null], a YAML timestamp, ...) gives
    [None], like a text the library rejects. *)

Module Parsers.
Import Renderer.

(** [dict(pairs)]: a key that comes again keeps its place and takes the new
    value. *)
Fixpoint dict_set (key : string) (value : pyobj)
    (items : list (string * pyobj)) : list (string * pyobj) :=
  match items with
  | [] => [(key, value)]
  | (k, v) :: items' =>
      if String.eqb k key then (k, value) :: items'
      else (k, v) :: dict_set key value items'
  end.

Definition dict (pairs : list (string * pyobj)) : list (string * pyobj) :=
  foldl (λ items kv, dict_set kv.1 kv.2 items) [] pairs.

(** *** [json.loads] *)

Module Json.

Definition quote : ascii := "034".

(** [WHITESPACE_STR] *)
Definition is_whitespace (c : ascii) : bool :=
  let n := N_of_ascii c in ((n =? 32) || (n =? 9) || (n =? 10) || (n =? 13))%N.

(** [WHITESPACE.match(s, end).end()] *)
Fixpoint skip_whitespace (s : string) : string :=
  match s with
  | String c s' => if is_whitespace c then skip_whitespace s' else s
  | EmptyString => EmptyString
  end.

Definition hex_value (c : ascii) : option N :=
  let n := N_of_ascii c in
  if ((48 <=? n) && (n <=? 57))%N then Some (n - 48)%N
  else if ((97 <=? n) && (n <=? 102))%N then Some (n - 87)%N
  else if ((65 <=? n) && (n <=? 70))%N then Some (n - 55)%N
  else None.

(** The four hexadecimal digits behind [\\u]. *)
Definition decode_uXXXX (h1 h2 h3 h4 : ascii) : option N :=
  d1 ← hex_value h1; d2 ← hex_value h2; d3 ← hex_value h3; d4 ← hex_value h4;
  Some (((d1 * 16 + d2) * 16 + d3) * 16 + d4)%N.

(** [BACKSLASH] *)
Definition backslash (esc : ascii) : option ascii :=
  if Ascii.eqb esc quote then Some quote
  else if Ascii.eqb esc "\" then Some "\"%char
  else if Ascii.eqb esc "/" then Some "/"%char
  else if Ascii.eqb esc "b" then Some "008"%char
  else if Ascii.eqb esc "f" then Some "012"%char
  else if Ascii.eqb esc "n" then Some "010"%char
  else if Ascii.eqb esc "r" then Some "013"%char
  else if Ascii.eqb esc "t" then Some "009"%char
  else None.

Definition prepend (c : ascii) (r : option (string * string))
    : option (string * string) :=
  '(text, rest) ← r; Some (String c text, rest).

(** [scanstring(s, end)] in strict mode, [s] being the text behind the
    opening quote: the decoded string and the text behind the closing
    quote.  A code point above 255 is outside the model. *)
Fixpoint scanstring (s : string) : option (string * string) :=
  match s with
  | EmptyString => None
  | String c s1 =>
      if Ascii.eqb c quote then Some (EmptyString, s1)
      else if Ascii.eqb c "\" then
        match s1 with
        | String "u" (String h1 (String h2 (String h3 (String h4 s2)))) =>
            uni ← decode_uXXXX h1 h2 h3 h4;
            if (uni <? 256)%N then prepend (ascii_of_N uni) (scanstring s2)
            else None
        | String esc s2 => ch ← backslash esc; prepend ch (scanstring s2)
        | EmptyString => None
        end
      else if (N_of_ascii c <? 32)%N then None
      else prepend c (scanstring s1)
  end.

(** [scan_once] with [JSONArray] and [JSONObject].  [fuel] bounds the number
    of values, array items and object items that are read. *)
Fixpoint scan_once (fuel : nat) (s : string) : option (pyobj * string) :=
  match fuel with
  | O => None
  | S fuel =>
      match s with
      | String c s1 =>
          if Ascii.eqb c quote then
            '(text, rest) ← scanstring s1; Some (PStr text, rest)
          else if Ascii.eqb c "{" then
            match skip_whitespace s1 with
            | String c' s2 =>
                if Ascii.eqb c' "}" then Some (PDict [], s2)
                else if Ascii.eqb c' quote then
                  '(pairs, rest) ← object_items fuel s2 [];
                  Some (PDict (dict pairs), rest)
                else None
            | EmptyString => None
            end
          else if Ascii.eqb c "[" then
            match skip_whitespace s1 with
            | String "]" s2 => Some (PList [], s2)
            | s2 => array_items fuel s2 []
                      ≫= λ '(values, rest), Some (PList values, rest)
            end
          else None
      | EmptyString => None
      end
  end
with array_items (fuel : nat) (s : string) (values : list pyobj)
    : option (list pyobj * string) :=
  match fuel with
  | O => None
  | S fuel =>
      '(value, s1) ← scan_once fuel s;
      match skip_whitespace s1 with
      | String c s2 =>
          if Ascii.eqb c "]" then Some (values ++ [value], s2)
          else if Ascii.eqb c ","
          then array_items fuel (skip_whitespace s2) (values ++ [value])
          else None
      | EmptyString => None
      end
  end
with object_items (fuel : nat) (s : string) (pairs : list (string * pyobj))
    : option (list (string * pyobj) * string) :=
  match fuel with
  | O => None
  | S fuel =>
      '(key, s1) ← scanstring s;
      match skip_whitespace s1 with
      | String ":" s2 =>
          '(value, s3) ← scan_once fuel (skip_whitespace s2);
          match skip_whitespace s3 with
          | String c s4 =>
              if Ascii.eqb c "}" then Some (pairs ++ [(key, value)], s4)
              else if Ascii.eqb c "," then
                match skip_whitespace s4 with
                | String c' s5 =>
                    if Ascii.eqb c' quote
                    then object_items fuel s5 (pairs ++ [(key, value)])
                    else None
                | EmptyString => None
                end
              else None
          | EmptyString => None
          end
      | _ => None
      end
  end.

(** The first character of an encoded value. *)
Definition value_head (c : ascii) : Prop :=
  c = quote ∨ c = "["%char ∨ c = "{"%char.

(** An item of a dictionary as [json.dumps] writes it. *)
Definition encode_pair (indent level : nat) (kv : string * pyobj) : string :=
  let '(key, value) := kv in
  Renderer.Json.encode_basestring_ascii key +:+ ": "
  +:+ Renderer.Json.iterencode indent (S level) value.

(** [json.loads(s)]: one value, white space around it and nothing else.
    Every value, item and pair that is read takes at least one character, so
    the length of the text is fuel enough. *)
Definition loads (s : string) : option pyobj :=
  '(obj, rest) ← scan_once (S (String.length s)) (skip_whitespace s);
  match skip_whitespace rest with
  | EmptyString => Some obj
  | _ => None
  end.

End Json.

(** *** [yaml.safe_load] *)

Module Yaml.

(** The reader, scanner, parser, composer and constructor of the YAML
    library, for block collections, flow sequences and plain and quoted
    scalars.  A text that uses another construct (a directive, a document
    marker, an anchor, an alias, a tag, a block scalar, a flow mapping) gives
    [None]. *)

Definition in_codes (codes : list N) (ch : ascii) : bool :=
  existsb (N.eqb (N_of_ascii ch)) codes.

Definition nul : ascii := "000".
Definition quote : ascii := "034".

(** ['\r\n\x85'] *)
Definition is_line_break : ascii → bool := in_codes [13; 10; 133]%N.
(** ['\0\r\n\x85'] *)
Definition is_line_end : ascii → bool := in_codes [0; 13; 10; 133]%N.
(** ['\0 \t\r\n\x85'] *)
Definition is_blank_or_end : ascii → bool := in_codes [0; 32; 9; 13; 10; 133]%N.
(** [' \t'] *)
Definition is_blank : ascii → bool := in_codes [32; 9]%N.

(** **** The reader *)

(** The text left to read (the library puts a NUL behind it, which [peek]
    gives back at the end) and the position. *)
Record reader := Reader {
  buffer : string;
  index : nat;
  line : nat;
  column : nat
}.

Definition peek (i : nat) (r : reader) : ascii :=
  default nul (String.get i (buffer r)).

(** [s[:l]] *)
Fixpoint slice_to (l : nat) (s : string) : string :=
  match l, s with
  | S l, String ch s => String ch (slice_to l s)
  | _, _ => EmptyString
  end.

Definition prefix (l : nat) (r : reader) : string := slice_to l (buffer r).

Fixpoint forward (length : nat) (r : reader) : reader :=
  match length, buffer r with
  | S length, String ch rest =>
      forward length
        (if in_codes [10; 133]%N ch
            || (Ascii.eqb ch "013" && negb (String.prefix (String "010" EmptyString) rest))
         then Reader rest (S (index r)) (S (line r)) 0
         else Reader rest (S (index r)) (line r) (S (column r)))
  | _, _ => r
  end.

(** [length = 0; while self.peek(length) in ...: length += 1] *)
Fixpoint count_while (p : ascii → bool) (s : string) : nat :=
  match s with
  | String ch rest => if p ch then S (count_while p rest) else 0%nat
  | EmptyString => 0%nat
  end.

(** [check_printable] *)
Definition is_printable (ch : ascii) : bool :=
  let n := N_of_ascii ch in
  ((n =? 9) || (n =? 10) || (n =? 13) || ((32 <=? n) && (n <=? 126))
   || (n =? 133) || (160 <=? n))%N.

Definition check_printable (data : string) : bool :=
  forallb is_printable (list_ascii_of_string data).

(** **** Tokens *)

Inductive token :=
  | StreamStart
  | StreamEnd
  | BlockSequenceStart
  | BlockMappingStart
  | BlockEnd
  | FlowSequenceStart
  | FlowSequenceEnd
  | FlowEntry
  | Key
  | Value
  | BlockEntry
  | Scalar (value : string) (plain : bool).

(** **** The scanners of scalars *)

Definition newline : string := String "010" EmptyString.

Definition scan_line_break (r : reader) : string * reader :=
  if is_line_break (peek 0 r) then
    if String.eqb (prefix 2 r) (String "013" (String "010" EmptyString))
    then (newline, forward 2 r)
    else (newline, forward 1 r)
  else (EmptyString, r).

(** [(prefix == '---' or prefix == '...') and self.peek(3) in
    '\0 \t\r\n\x85'] *)
Definition document_separator (r : reader) : bool :=
  (String.eqb (prefix 3 r) "---" || String.eqb (prefix 3 r) "...")
  && is_blank_or_end (peek 3 r).

Fixpoint scan_flow_scalar_breaks (fuel : nat) (r : reader)
    : option (string * reader) :=
  match fuel with
  | O => None
  | S fuel =>
      if document_separator r then None
      else
        let r := forward (count_while is_blank (buffer r)) r in
        if is_line_break (peek 0 r) then
          let '(line_break, r) := scan_line_break r in
          '(chunks, r) ← scan_flow_scalar_breaks fuel r;
          Some (line_break +:+ chunks, r)
        else Some (EmptyString, r)
  end.

Definition scan_flow_scalar_spaces (r : reader) : option (string * reader) :=
  let length := count_while is_blank (buffer r) in
  let whitespaces := prefix length r in
  let r := forward length r in
  let ch := peek 0 r in
  if Ascii.eqb ch nul then None
  else if is_line_break ch then
    let '(line_break, r) := scan_line_break r in
    '(breaks, r) ← scan_flow_scalar_breaks (S (String.length (buffer r))) r;
    Some ((if negb (String.eqb line_break newline) then line_break
           else if String.eqb breaks EmptyString then " "
           else EmptyString) +:+ breaks, r)
  else Some (whitespaces, r).

(** [ESCAPE_REPLACEMENTS]; [L] and [P] stand for code points above 255. *)
Definition escape_replacement (ch : ascii) : option ascii :=
  let n := N_of_ascii ch in
  (if n =? 48 then Some "000"
   else if n =? 97 then Some "007"
   else if n =? 98 then Some "008"
   else if n =? 116 then Some "009"
   else if n =? 9 then Some "009"
   else if n =? 110 then Some "010"
   else if n =? 118 then Some "011"
   else if n =? 102 then Some "012"
   else if n =? 114 then Some "013"
   else if n =? 101 then Some "027"
   else if n =? 32 then Some " "
   else if n =? 34 then Some quote
   else if n =? 92 then Some "\"
   else if n =? 47 then Some "/"
   else if n =? 78 then Some "133"
   else if n =? 95 then Some "160"
   else None)%N%char.

(** [ESCAPE_CODES] *)
Definition escape_code (ch : ascii) : option nat :=
  if Ascii.eqb ch "x" then Some 2%nat
  else if Ascii.eqb ch "u" then Some 4%nat
  else if Ascii.eqb ch "U" then Some 8%nat
  else None.

(** [int(digits, 16)] for hexadecimal digits *)
Definition hex_number (digits : string) : option N :=
  foldl (λ acc ch, n ← acc; d ← Json.hex_value ch; Some (n * 16 + d)%N)
    (Some 0%N) (list_ascii_of_string digits).

(** The characters a chunk of a quoted scalar is made of: all but the two
    quotes, the backslash, NUL, the blanks and the line breaks. *)
Definition is_ordinary (ch : ascii) : bool :=
  negb (in_codes [39; 34; 92; 0; 32; 9; 13; 10; 133]%N ch).

(** One round of the loop of [scan_flow_scalar_non_spaces], behind the
    chunk of ordinary characters: the text that an escape sequence or a
    quote character stands for and the reader behind it, or [None] where the
    loop returns. *)
Definition scan_flow_scalar_escape (double : bool) (r : reader)
    : option (option (string * reader)) :=
  let ch := peek 0 r in
  if negb double && Ascii.eqb ch "'" && Ascii.eqb (peek 1 r) "'" then
    Some (Some ("'", forward 2 r))
  else if (double && Ascii.eqb ch "'")
          || (negb double && (Ascii.eqb ch quote || Ascii.eqb ch "\")) then
    Some (Some (String ch EmptyString, forward 1 r))
  else if double && Ascii.eqb ch "\" then
    let r := forward 1 r in
    let ch := peek 0 r in
    match escape_replacement ch with
    | Some replacement =>
        Some (Some (String replacement EmptyString, forward 1 r))
    | None =>
        match escape_code ch with
        | Some length =>
            let r := forward 1 r in
            if (String.length (prefix length r) =? length)%nat then
              code ← hex_number (prefix length r);
              if (code <? 256)%N
              then Some (Some (String (ascii_of_N code) EmptyString,
                               forward length r))
              else None
            else None
        | None =>
            if is_line_break ch then
              let '(_, r) := scan_line_break r in
              '(breaks, r) ←
                scan_flow_scalar_breaks (S (String.length (buffer r))) r;
              Some (Some (breaks, r))
            else None
        end
    end
  else Some None.

Fixpoint scan_flow_scalar_non_spaces (fuel : nat) (double : bool) (r : reader)
    : option (string * reader) :=
  match fuel with
  | O => None
  | S fuel =>
      let length := count_while is_ordinary (buffer r) in
      let chunk := prefix length r in
      let r := forward length r in
      piece ← scan_flow_scalar_escape double r;
      match piece with
      | Some (piece, r) =>
          '(chunks, r) ← scan_flow_scalar_non_spaces fuel double r;
          Some (chunk +:+ piece +:+ chunks, r)
      | None => Some (chunk, r)
      end
  end.

(** The loop of [scan_flow_scalar],
    [non_spaces; while self.peek() != quote: spaces; non_spaces], as one
    round followed by the rounds behind it. *)
Definition scan_flow_scalar_round (loop : reader → option (string * reader))
    (fuel : nat) (double : bool) (quote : ascii) (r : reader)
    : option (string * reader) :=
  '(non_spaces, r) ← scan_flow_scalar_non_spaces fuel double r;
  if Ascii.eqb (peek 0 r) quote then Some (non_spaces, r)
  else
    '(spaces, r) ← scan_flow_scalar_spaces r;
    '(chunks, r) ← loop r;
    Some (non_spaces +:+ spaces +:+ chunks, r).

Fixpoint scan_flow_scalar_loop (fuel : nat) (double : bool) (quote : ascii)
    (r : reader) : option (string * reader) :=
  match fuel with
  | O => None
  | S fuel =>
      scan_flow_scalar_round (scan_flow_scalar_loop fuel double quote) fuel
        double quote r
  end.

Definition scan_flow_scalar (double : bool) (r : reader)
    : option (token * reader) :=
  let quote := peek 0 r in
  let r := forward 1 r in
  '(chunks, r) ←
    scan_flow_scalar_loop (S (S (String.length (buffer r)))) double quote r;
  Some (Scalar chunks false, forward 1 r).

(** The inner loop of [scan_plain]: the length of the next chunk. *)
Fixpoint count_plain (flow : bool) (s : string) : nat :=
  match s with
  | EmptyString => 0%nat
  | String ch rest =>
      let next := default nul (String.get 0 rest) in
      if is_blank_or_end ch
         || (Ascii.eqb ch ":"
             && (is_blank_or_end next || (flow && Renderer.Yaml.mem next ",[]{}")))
         || (flow && Renderer.Yaml.mem ch ",?[]{}")
      then 0%nat
      else S (count_plain flow rest)
  end.

(** The loop of [scan_plain_spaces] over the lines behind the first break;
    [None] stands for the return at a document separator. *)
Fixpoint scan_plain_breaks (fuel : nat) (r : reader)
    : option (option string * reader) :=
  match fuel with
  | O => None
  | S fuel =>
      let ch := peek 0 r in
      if Ascii.eqb ch " " then scan_plain_breaks fuel (forward 1 r)
      else if is_line_break ch then
        let '(line_break, r) := scan_line_break r in
        if document_separator r then Some (None, r)
        else
          '(breaks, r) ← scan_plain_breaks fuel r;
          Some (option_map (String.append line_break) breaks, r)
      else Some (Some EmptyString, r)
  end.

(** [scan_plain_spaces]: the chunks ([None] for the bare [return]), the
    flag [allow_simple_key] and the reader. *)
Definition scan_plain_spaces (allow_simple_key : bool) (r : reader)
    : option (option string * bool * reader) :=
  let length := count_while (Ascii.eqb " ") (buffer r) in
  let whitespaces := prefix length r in
  let r := forward length r in
  let ch := peek 0 r in
  if is_line_break ch then
    let '(line_break, r) := scan_line_break r in
    let allow_simple_key := true in
    if document_separator r then Some (None, allow_simple_key, r)
    else
      '(breaks, r) ← scan_plain_breaks (S (String.length (buffer r))) r;
      Some (option_map
              (λ breaks,
                 (if negb (String.eqb line_break newline) then line_break
                  else if String.eqb breaks EmptyString then " "
                  else EmptyString) +:+ breaks) breaks,
            allow_simple_key, r)
  else Some (Some whitespaces, allow_simple_key, r).

Fixpoint scan_plain_loop (fuel : nat) (flow : bool) (indent : Z)
    (chunks spaces : string) (allow_simple_key : bool) (r : reader)
    : option (string * bool * reader) :=
  match fuel with
  | O => None
  | S fuel =>
      if Ascii.eqb (peek 0 r) "#" then Some (chunks, allow_simple_key, r)
      else
        let length := count_plain flow (buffer r) in
        if (length =? 0)%nat then Some (chunks, allow_simple_key, r)
        else
          let allow_simple_key := false in
          let chunks := chunks +:+ spaces +:+ prefix length r in
          let r := forward length r in
          '(spaces, allow_simple_key, r) ←
            scan_plain_spaces allow_simple_key r;
          match spaces with
          | Some (String _ _ as spaces) =>
              if Ascii.eqb (peek 0 r) "#"
                 || (negb flow && (Z.of_nat (column r) <? indent))
              then Some (chunks, allow_simple_key, r)
              else scan_plain_loop fuel flow indent chunks spaces
                     allow_simple_key r
          | _ => Some (chunks, allow_simple_key, r)
          end
  end.

(** [scan_plain], with [indent = self.indent + 1]. *)
Definition scan_plain (flow : bool) (indent : Z) (allow_simple_key : bool)
    (r : reader) : option (token * bool * reader) :=
  '(chunks, allow_simple_key, r) ←
    scan_plain_loop (S (String.length (buffer r))) flow (indent + 1)
      EmptyString EmptyString allow_simple_key r;
  Some (Scalar chunks true, allow_simple_key, r).

(** **** The scanner *)

(** A possible simple key: the number of the token it would stand in front
    of, whether a key is required there, and where it starts. *)
Record simple_key := SimpleKey {
  token_number : nat;
  required : bool;
  key_index : nat;
  key_line : nat;
  key_column : nat
}.

Record scanner := Scanner {
  input : reader;
  done : bool;
  flow_level : nat;
  tokens : list token;
  indent : Z;
  indents : list Z;  (* the last level first *)
  allow_simple_key : bool;
  possible_simple_keys : gmap nat simple_key
}.

Definition with_input (r : reader) (st : scanner) : scanner :=
  Scanner r (done st) (flow_level st) (tokens st) (indent st) (indents st)
    (allow_simple_key st) (possible_simple_keys st).

Definition with_flow_level (level : nat) (st : scanner) : scanner :=
  Scanner (input st) (done st) level (tokens st) (indent st) (indents st)
    (allow_simple_key st) (possible_simple_keys st).

Definition with_tokens (ts : list token) (st : scanner) : scanner :=
  Scanner (input st) (done st) (flow_level st) ts (indent st) (indents st)
    (allow_simple_key st) (possible_simple_keys st).

Definition with_indent (n : Z) (ns : list Z) (st : scanner) : scanner :=
  Scanner (input st) (done st) (flow_level st) (tokens st) n ns
    (allow_simple_key st) (possible_simple_keys st).

Definition with_allow_simple_key (allow : bool) (st : scanner) : scanner :=
  Scanner (input st) (done st) (flow_level st) (tokens st) (indent st)
    (indents st) allow (possible_simple_keys st).

Definition with_possible_simple_keys (keys : gmap nat simple_key)
    (st : scanner) : scanner :=
  Scanner (input st) (done st) (flow_level st) (tokens st) (indent st)
    (indents st) (allow_simple_key st) keys.

(** [self.tokens.append(token)] *)
Definition append_token (t : token) (st : scanner) : scanner :=
  with_tokens (tokens st ++ [t]) st.

(** [self.tokens.insert(i, token)] *)
Definition insert_token (i : nat) (t : token) (st : scanner) : scanner :=
  with_tokens (take i (tokens st) ++ t :: drop i (tokens st)) st.

(** The scanner before the first token is fetched. *)
Definition start (data : string) : scanner :=
  Scanner (Reader data 0 0 0) false 0 [StreamStart] (-1) [] true ∅.

Definition in_block (st : scanner) : bool := (flow_level st =? 0)%nat.

(** [scan_to_next_token]; no byte order mark is among the characters of the
    model. *)
Fixpoint scan_to_next_token (fuel : nat) (st : scanner) : option scanner :=
  match fuel with
  | O => None
  | S fuel =>
      let r := input st in
      let r := forward (count_while (Ascii.eqb " ") (buffer r)) r in
      let r :=
        if Ascii.eqb (peek 0 r) "#"
        then forward (count_while (λ ch, negb (is_line_end ch)) (buffer r)) r
        else r in
      let '(line_break, r) := scan_line_break r in
      let st := with_input r st in
      if negb (String.eqb line_break EmptyString) then
        scan_to_next_token fuel
          (if in_block st then with_allow_simple_key true st else st)
      else Some st
  end.

(** [stale_possible_simple_keys] *)
Definition is_stale (r : reader) (key : simple_key) : bool :=
  negb (key_line key =? line r)%nat || (1024 <? index r - key_index key)%nat.

Definition stale_possible_simple_keys (st : scanner) : option scanner :=
  let keys := possible_simple_keys st in
  if existsb (λ '(_, key), is_stale (input st) key && required key)
       (map_to_list keys)
  then None
  else Some (with_possible_simple_keys
               (filter (λ '(_, key), is_stale (input st) key = false) keys) st).

Definition remove_possible_simple_key (st : scanner) : option scanner :=
  match possible_simple_keys st !! flow_level st with
  | Some key =>
      if required key then None
      else Some (with_possible_simple_keys
                   (delete (flow_level st) (possible_simple_keys st)) st)
  | None => Some st
  end.

Definition save_possible_simple_key (st : scanner) : option scanner :=
  let required :=
    in_block st && (indent st =? Z.of_nat (column (input st))) in
  if allow_simple_key st then
    st ← remove_possible_simple_key st;
    let key := SimpleKey (length (tokens st)) required (index (input st))
                 (line (input st)) (column (input st)) in
    Some (with_possible_simple_keys
            (<[flow_level st := key]> (possible_simple_keys st)) st)
  else Some st.

(** The loop of [unwind_indent] in block context, over the past indentation
    levels. *)
Fixpoint unwind (column : Z) (n : Z) (ns : list Z) (ts : list token)
    : Z * list Z * list token :=
  if column <? n then
    match ns with
    | n' :: ns' => unwind column n' ns' (ts ++ [BlockEnd])
    | [] => (n, ns, ts)
    end
  else (n, ns, ts).

Definition unwind_indent (column : Z) (st : scanner) : scanner :=
  if in_block st then
    let '(n, ns, ts) := unwind column (indent st) (indents st) (tokens st) in
    with_tokens ts (with_indent n ns st)
  else st.

(** [add_indent]: the scanner and whether the indentation has grown. *)
Definition add_indent (column : nat) (st : scanner) : scanner * bool :=
  if indent st <? Z.of_nat column
  then (with_indent (Z.of_nat column) (indent st :: indents st) st, true)
  else (st, false).


(** **** The fetchers *)

Definition fetch_stream_end (st : scanner) : option scanner :=
  let st := unwind_indent (-1) st in
  st ← remove_possible_simple_key st;
  let st := with_allow_simple_key false st in
  let st := with_possible_simple_keys ∅ st in
  let st := append_token StreamEnd st in
  Some (Scanner (input st) true (flow_level st) (tokens st) (indent st)
          (indents st) (allow_simple_key st) (possible_simple_keys st)).

Definition fetch_flow_sequence_start (st : scanner) : option scanner :=
  st ← save_possible_simple_key st;
  let st := with_flow_level (S (flow_level st)) st in
  let st := with_allow_simple_key true st in
  let st := with_input (forward 1 (input st)) st in
  Some (append_token FlowSequenceStart st).

(** A closing bracket outside a flow collection (where the library lets the
    flow level fall below zero) is a token the parser refuses. *)
Definition fetch_flow_sequence_end (st : scanner) : option scanner :=
  st ← remove_possible_simple_key st;
  match flow_level st with
  | O => None
  | S level =>
      let st := with_flow_level level st in
      let st := with_allow_simple_key false st in
      let st := with_input (forward 1 (input st)) st in
      Some (append_token FlowSequenceEnd st)
  end.

Definition fetch_flow_entry (st : scanner) : option scanner :=
  let st := with_allow_simple_key true st in
  st ← remove_possible_simple_key st;
  let st := with_input (forward 1 (input st)) st in
  Some (append_token FlowEntry st).

Definition fetch_block_entry (st : scanner) : option scanner :=
  st ←
    (if in_block st then
       if negb (allow_simple_key st) then None
       else
         let '(st, grown) := add_indent (column (input st)) st in
         Some (if grown then append_token BlockSequenceStart st else st)
     else Some st);
  let st := with_allow_simple_key true st in
  st ← remove_possible_simple_key st;
  let st := with_input (forward 1 (input st)) st in
  Some (append_token BlockEntry st).

Definition fetch_key (st : scanner) : option scanner :=
  st ←
    (if in_block st then
       if negb (allow_simple_key st) then None
       else
         let '(st, grown) := add_indent (column (input st)) st in
         Some (if grown then append_token BlockMappingStart st else st)
     else Some st);
  let st := with_allow_simple_key (in_block st) st in
  st ← remove_possible_simple_key st;
  let st := with_input (forward 1 (input st)) st in
  Some (append_token Key st).

Definition fetch_value (st : scanner) : option scanner :=
  st ←
    match possible_simple_keys st !! flow_level st with
    | Some key =>
        let st :=
          with_possible_simple_keys
            (delete (flow_level st) (possible_simple_keys st)) st in
        let st := insert_token (token_number key) Key st in
        let st :=
          if in_block st then
            let '(st, grown) := add_indent (key_column key) st in
            if grown
            then insert_token (token_number key) BlockMappingStart st
            else st
          else st in
        Some (with_allow_simple_key false st)
    | None =>
        if in_block st && negb (allow_simple_key st) then None
        else
          let st :=
            if in_block st then
              let '(st, grown) := add_indent (column (input st)) st in
              if grown then append_token BlockMappingStart st else st
            else st in
          let st := with_allow_simple_key (in_block st) st in
          remove_possible_simple_key st
    end;
  let st := with_input (forward 1 (input st)) st in
  Some (append_token Value st).

Definition fetch_flow_scalar (double : bool) (st : scanner) : option scanner :=
  st ← save_possible_simple_key st;
  let st := with_allow_simple_key false st in
  '(t, r) ← scan_flow_scalar double (input st);
  Some (append_token t (with_input r st)).

Definition fetch_plain (st : scanner) : option scanner :=
  st ← save_possible_simple_key st;
  let st := with_allow_simple_key false st in
  '(t, allow, r) ←
    scan_plain (negb (in_block st)) (indent st) (allow_simple_key st)
      (input st);
  Some (append_token t (with_allow_simple_key allow (with_input r st))).

(** **** The checkers *)

Definition check_directive (st : scanner) : bool :=
  (column (input st) =? 0)%nat.

Definition check_document_start (st : scanner) : bool :=
  (column (input st) =? 0)%nat
  && String.eqb (prefix 3 (input st)) "---"
  && is_blank_or_end (peek 3 (input st)).

Definition check_document_end (st : scanner) : bool :=
  (column (input st) =? 0)%nat
  && String.eqb (prefix 3 (input st)) "..."
  && is_blank_or_end (peek 3 (input st)).

Definition check_block_entry (st : scanner) : bool :=
  is_blank_or_end (peek 1 (input st)).

Definition check_key (st : scanner) : bool :=
  negb (in_block st) || is_blank_or_end (peek 1 (input st)).

Definition check_value (st : scanner) : bool :=
  negb (in_block st) || is_blank_or_end (peek 1 (input st)).

Definition check_plain (st : scanner) : bool :=
  let ch := peek 0 (input st) in
  negb (is_blank_or_end ch
        || Renderer.Yaml.mem ch (String quote "-?:,[]{}#&*!|>'%@`"))
  || (negb (is_blank_or_end (peek 1 (input st)))
      && (Ascii.eqb ch "-" || (in_block st && Renderer.Yaml.mem ch "?:"))).

(** [fetch_more_tokens] *)
Definition fetch_more_tokens (st : scanner) : option scanner :=
  st ← scan_to_next_token (S (String.length (buffer (input st)))) st;
  st ← stale_possible_simple_keys st;
  let st := unwind_indent (Z.of_nat (column (input st))) st in
  let ch := peek 0 (input st) in
  if Ascii.eqb ch nul then fetch_stream_end st
  else if Ascii.eqb ch "%" && check_directive st then None
  else if Ascii.eqb ch "-" && check_document_start st then None
  else if Ascii.eqb ch "." && check_document_end st then None
  else if Ascii.eqb ch "[" then fetch_flow_sequence_start st
  else if Ascii.eqb ch "{" then None
  else if Ascii.eqb ch "]" then fetch_flow_sequence_end st
  else if Ascii.eqb ch "}" then None
  else if Ascii.eqb ch "," then fetch_flow_entry st
  else if Ascii.eqb ch "-" && check_block_entry st then fetch_block_entry st
  else if Ascii.eqb ch "?" && check_key st then fetch_key st
  else if Ascii.eqb ch ":" && check_value st then fetch_value st
  else if Renderer.Yaml.mem ch "*&!" then None
  else if Renderer.Yaml.mem ch "|>" && in_block st then None
  else if Ascii.eqb ch "'" then fetch_flow_scalar false st
  else if Ascii.eqb ch quote then fetch_flow_scalar true st
  else if check_plain st then fetch_plain st
  else None.

(** The tokens of a text.  The parser asks for the tokens one at a time,
    and the scanner holds a token back as long as a key may still be
    inserted in front of it, so what the parser receives is the list of the
    complete scan; a document is only returned once the parser has reached
    the end of the stream.  Each round reads at least one character or ends
    the stream. *)
Fixpoint scan_loop (fuel : nat) (st : scanner) : option (list token) :=
  if done st then Some (tokens st)
  else
    match fuel with
    | O => None
    | S fuel => st ← fetch_more_tokens st; scan_loop fuel st
    end.

Definition scan (data : string) : option (list token) :=
  scan_loop (S (String.length data)) (start data).

(** **** The parser, the composer and the constructor *)

(** The value of a scalar node: a quoted scalar is a string, and so is a
    plain one that no implicit resolver claims.  A plain [=] is a string
    where it is the key of a mapping. *)
Definition construct_scalar (as_key : bool) (value : string) (plain : bool)
    : option pyobj :=
  if negb plain || Renderer.Yaml.implicit value then Some (PStr value)
  else if as_key && Renderer.Yaml.re_match Renderer.Yaml.value_re value then Some (PStr value)
  else None.

Definition starts_entry_or_ends (ts : list token) : bool :=
  match ts with
  | BlockEntry :: _ | BlockEnd :: _ => true
  | _ => false
  end.

Definition starts_pair_or_ends (ts : list token) : bool :=
  match ts with
  | Key :: _ | Value :: _ | BlockEnd :: _ => true
  | _ => false
  end.

(** [parse_node] with the states it pushes, [compose_node] and
    [construct_object] in one: the object of the node that starts at the
    head of the tokens, and the tokens behind it.  An empty scalar is
    [null], which is no object of the model.  [fuel] bounds the number of
    nodes, entries and pairs. *)
Fixpoint parse_node (fuel : nat) (block indentless as_key : bool)
    (ts : list token) : option (pyobj * list token) :=
  match fuel with
  | O => None
  | S fuel =>
      match ts with
      | BlockEntry :: _ =>
          if indentless then
            '(items, ts) ← parse_indentless_sequence_entry fuel ts [];
            Some (PList items, ts)
          else None
      | Scalar value plain :: ts =>
          obj ← construct_scalar as_key value plain; Some (obj, ts)
      | FlowSequenceStart :: ts =>
          '(items, ts) ← parse_flow_sequence_entry fuel true ts [];
          Some (PList items, ts)
      | BlockSequenceStart :: ts =>
          if block then
            '(items, ts) ← parse_block_sequence_entry fuel ts [];
            Some (PList items, ts)
          else None
      | BlockMappingStart :: ts =>
          if block then
            '(pairs, ts) ← parse_block_mapping_key fuel ts [];
            Some (PDict (dict pairs), ts)
          else None
      | _ => None
      end
  end
with parse_block_sequence_entry (fuel : nat) (ts : list token)
    (items : list pyobj) : option (list pyobj * list token) :=
  match fuel with
  | O => None
  | S fuel =>
      match ts with
      | BlockEntry :: ts =>
          if starts_entry_or_ends ts then None
          else
            '(item, ts) ← parse_node fuel true false false ts;
            parse_block_sequence_entry fuel ts (items ++ [item])
      | BlockEnd :: ts => Some (items, ts)
      | _ => None
      end
  end
with parse_indentless_sequence_entry (fuel : nat) (ts : list token)
    (items : list pyobj) : option (list pyobj * list token) :=
  match fuel with
  | O => None
  | S fuel =>
      match ts with
      | BlockEntry :: ts =>
          if starts_entry_or_ends ts || starts_pair_or_ends ts then None
          else
            '(item, ts) ← parse_node fuel true false false ts;
            parse_indentless_sequence_entry fuel ts (items ++ [item])
      | _ => Some (items, ts)
      end
  end
with parse_block_mapping_key (fuel : nat) (ts : list token)
    (pairs : list (string * pyobj)) : option (list (string * pyobj) * list token) :=
  match fuel with
  | O => None
  | S fuel =>
      match ts with
      | Key :: ts =>
          if starts_pair_or_ends ts then None
          else
            '(key, ts) ← parse_node fuel true true true ts;
            match key, ts with
            | PStr key, Value :: ts =>
                if starts_pair_or_ends ts then None
                else
                  '(value, ts) ← parse_node fuel true true false ts;
                  parse_block_mapping_key fuel ts (pairs ++ [(key, value)])
            | _, _ => None
            end
      | BlockEnd :: ts => Some (pairs, ts)
      | _ => None
      end
  end
with parse_flow_sequence_entry (fuel : nat) (first : bool) (ts : list token)
    (items : list pyobj) : option (list pyobj * list token) :=
  match fuel with
  | O => None
  | S fuel =>
      match ts with
      | FlowSequenceEnd :: ts => Some (items, ts)
      | _ =>
          ts ← (if first then Some ts
                else match ts with FlowEntry :: ts => Some ts | _ => None end);
          match ts with
          | FlowSequenceEnd :: ts => Some (items, ts)
          | Key :: _ => None
          | _ =>
              '(item, ts) ← parse_node fuel false false false ts;
              parse_flow_sequence_entry fuel false ts (items ++ [item])
          end
      end
  end.

(** [yaml.safe_load(data)]: the object of the one document of the text. *)
Definition load (data : string) : option pyobj :=
  if check_printable data then
    ts ← scan data;
    match ts with
    | StreamStart :: ts =>
        '(obj, ts) ← parse_node (S (length ts)) true false false ts;
        match ts with
        | [StreamEnd] => Some obj
        | _ => None
        end
    | [] => None
    | _ => None
    end
  else None.

End Yaml.

End Parsers.

(** ** The texts of the serializers, part by part *)

(** What [format_to_json] and [format_to_yaml] write, put together from the
    opening line, the entries and the closing lines, with each value in the
    form the writer of the notation gives it.  The lemmas on the renderer
    show that the serializers write these texts; the definitions say nothing
    about what the texts ought to be. *)

Module Layout.
Import Renderer.

Definition nl : string := String "010" EmptyString.

(** A text between double quotes. *)
Definition quoted (s : string) : string :=
  String Json.quote (s +:+ String Json.quote EmptyString).

Definition name (r : record) : string :=
  Loader.str (firstname r) +:+ " " +:+ Loader.str (lastname r).

Definition details (r : record) : string :=
  "In division " +:+ str_of_int (division r) +:+ " from "
  +:+ Loader.str (date r) +:+ " performing " +:+ Loader.str (summary r).

Definition entry (r : record) : pyobj :=
  PDict [("name", PStr (name r)); ("details", PStr (details r))].

Definition document (records : list record) : pyobj :=
  PDict [("records", PList (map entry records))].

(** [format_to_json]: an entry, with each value as
    [encode_basestring_ascii] writes it. *)
Definition json_entry (r : record) : string :=
  "    {" +:+ nl +:+
  "      " +:+ quoted "name" +:+ ": "
           +:+ Json.encode_basestring_ascii (name r) +:+ "," +:+ nl +:+
  "      " +:+ quoted "details" +:+ ": "
           +:+ Json.encode_basestring_ascii (details r) +:+ nl +:+
  "    }".

Definition json_document (records : list record) : string :=
  match records with
  | [] =>
      "{" +:+ nl +:+
      "  " +:+ quoted "records" +:+ ": []" +:+ nl +:+
      "}"
  | _ =>
      "{" +:+ nl +:+
      "  " +:+ quoted "records" +:+ ": [" +:+ nl +:+
      Json.join ("," +:+ nl) (map json_entry records) +:+ nl +:+
      "  ]" +:+ nl +:+
      "}"
  end.

(** [format_to_yaml]: [yaml_scalar column value] is the text the YAML
    emitter writes for a value behind a key that ends in [column], inside an
    entry (indentation 2). *)
Definition yaml_scalar (column : nat) (value : string) : string :=
  Yaml.stream
    (Yaml.expect_scalar value false false (Some 2%nat)
       (Yaml.Emitter EmptyString column false false false)).

Definition yaml_entry (r : record) : string :=
  "- name:" +:+ yaml_scalar 7 (name r) +:+ nl +:+
  "  details:" +:+ yaml_scalar 10 (details r) +:+ nl.

Fixpoint concat (texts : list string) : string :=
  match texts with
  | [] => EmptyString
  | text :: texts' => text +:+ concat texts'
  end.

Definition yaml_document (records : list record) : string :=
  match records with
  | [] => "records: []" +:+ nl
  | _ => "records:" +:+ nl +:+ concat (map yaml_entry records)
  end.

End Layout.

(** ** The scalars of YAML as texts, and the rounds of the scanner *)

(** The vocabulary of the properties that relate [yaml.dump] to
    [yaml.safe_load]: what it means for a text to be a scalar written in one
    of the three styles, with its lines folded at an indentation, and how
    the scanner stands between two tokens. *)

Module YamlText.
Import Renderer Parsers Parsers.Yaml.
Local Open Scope nat_scope.

Local Abbreviation next_is := Renderer.Yaml.next_is.
Local Abbreviation spaces := Renderer.Json.spaces.
Local Abbreviation is_space := Renderer.Yaml.is_space.

(** The text starts with a character that is no blank and no line break. *)
Definition solid (s : string) : bool :=
  next_is (λ ch, negb (is_blank_or_end ch)) s.

(** [n] line feeds. *)
Fixpoint line_feeds (n : nat) : string :=
  match n with
  | O => EmptyString
  | S n => String "010" (line_feeds n)
  end.

(** [double_quoted n enc text]: [enc] is [text] between double quotes, with
    lines folded at the indentation [n]. *)
Inductive double_quoted (n : nat) : string → string → Prop :=
  | dq_end : double_quoted n EmptyString EmptyString
  | dq_direct ch enc text :
      Renderer.Yaml.is_direct ch = true → is_space ch = false →
      double_quoted n enc text →
      double_quoted n (String ch enc) (String ch text)
  | dq_spaces k enc text :
      double_quoted n enc text → next_is is_space enc = false →
      double_quoted n (spaces (S k) +:+ enc) (spaces (S k) +:+ text)
  | dq_escape ch enc text :
      double_quoted n enc text →
      double_quoted n (Renderer.Yaml.escape ch +:+ enc) (String ch text)
  | dq_escaped_space enc text :
      double_quoted n enc text →
      double_quoted n (String "\" (String " " enc)) (String " " text)
  | dq_fold enc text :
      double_quoted n enc text → next_is is_space enc = false →
      double_quoted n (String "\" (String "010" (spaces n +:+ enc))) text.

(** The characters of a single-quoted scalar that stand for themselves. *)
Definition is_plain_char (ch : ascii) : bool :=
  Renderer.Yaml.is_printable_ascii ch && negb (is_space ch)
  && negb (Ascii.eqb ch "'").

(** [single_quoted n enc text]: [enc] is [text] between single quotes, with
    lines folded at the indentation [n]. *)
Inductive single_quoted (n : nat) : string → string → Prop :=
  | sq_end : single_quoted n EmptyString EmptyString
  | sq_char ch enc text :
      is_plain_char ch = true → single_quoted n enc text →
      single_quoted n (String ch enc) (String ch text)
  | sq_quote enc text :
      single_quoted n enc text →
      single_quoted n (String "'" (String "'" enc)) (String "'" text)
  | sq_spaces k enc text :
      single_quoted n enc text → next_is is_blank_or_end enc = false →
      single_quoted n (spaces (S k) +:+ enc) (spaces (S k) +:+ text)
  | sq_fold enc text :
      single_quoted n enc text → next_is is_blank_or_end enc = false →
      single_quoted n (String "010" (spaces n +:+ enc)) (String " " text)
  | sq_breaks k enc text :
      single_quoted n enc text → next_is is_blank_or_end enc = false →
      single_quoted n
        (String "010" (line_feeds (S k) +:+ spaces n +:+ enc))
        (line_feeds (S k) +:+ text).

(** A chunk of a plain scalar: no blank, no line break, and no colon at the
    end. *)
Fixpoint is_chunk (w : string) : bool :=
  match w with
  | EmptyString => true
  | String ch rest =>
      negb (is_blank_or_end ch)
      && negb (Ascii.eqb ch ":"
               && match rest with EmptyString => true | _ => false end)
      && is_chunk rest
  end.

(** A word of a plain scalar: a chunk that is not empty and does not look
    like a comment. *)
Definition is_word (w : string) : bool :=
  match w with
  | EmptyString => false
  | String ch _ => negb (Ascii.eqb ch "#") && is_chunk w
  end.

(** [plain_folded n enc text]: [enc] is the plain scalar [text] with lines
    folded at the indentation [n]. *)
Inductive plain_folded (n : nat) : string → string → Prop :=
  | pf_word w : is_word w = true → plain_folded n w w
  | pf_spaces w k enc text :
      is_word w = true → plain_folded n enc text →
      plain_folded n (w +:+ spaces (S k) +:+ enc) (w +:+ spaces (S k) +:+ text)
  | pf_fold w enc text :
      is_word w = true → plain_folded n enc text →
      plain_folded n (w +:+ String "010" (spaces n +:+ enc))
        (w +:+ String " " text).

(** The text starts a line: with a character that is neither a space nor a
    line break, or it is empty. *)
Definition starts_line (s : string) : bool :=
  negb (next_is (λ ch, Ascii.eqb ch " " || is_line_break ch) s).

(** The text starts a token: it is empty, or its first character is no
    space, no line break and no [#]. *)
Definition starts_token (s : string) : bool :=
  negb (next_is (λ ch, Ascii.eqb ch " " || Ascii.eqb ch "#"
                       || is_line_break ch) s).

(** A key of the document: lower-case letters. *)
Definition is_letter (ch : ascii) : bool := Loader.in_range "a" "z" ch.

(** The choice of the fetcher in [fetch_more_tokens], at the start of the
    token. *)
Definition fetch_token (st : scanner) : option scanner :=
  let ch := peek 0 (input st) in
  if Ascii.eqb ch nul then fetch_stream_end st
  else if Ascii.eqb ch "%" && check_directive st then None
  else if Ascii.eqb ch "-" && check_document_start st then None
  else if Ascii.eqb ch "." && check_document_end st then None
  else if Ascii.eqb ch "[" then fetch_flow_sequence_start st
  else if Ascii.eqb ch "{" then None
  else if Ascii.eqb ch "]" then fetch_flow_sequence_end st
  else if Ascii.eqb ch "}" then None
  else if Ascii.eqb ch "," then fetch_flow_entry st
  else if Ascii.eqb ch "-" && check_block_entry st then fetch_block_entry st
  else if Ascii.eqb ch "?" && check_key st then fetch_key st
  else if Ascii.eqb ch ":" && check_value st then fetch_value st
  else if Renderer.Yaml.mem ch "*&!" then None
  else if Renderer.Yaml.mem ch "|>" && in_block st then None
  else if Ascii.eqb ch "'" then fetch_flow_scalar false st
  else if Ascii.eqb ch quote then fetch_flow_scalar true st
  else if check_plain st then fetch_plain st
  else None.

(** One round of the scanner's loop. *)
Definition step (st st' : scanner) : Prop :=
  done st = false ∧ fetch_more_tokens st = Some st'.

(** The scanner stands at the end of a line or at the start of the next
    one: the coming token starts at column [m], in front of [tail], and may
    be a key. *)
Definition line_start (st : scanner) (ts : list token) (n : Z) (ns : list Z)
    (m : nat) (tail : string) : Prop :=
  done st = false ∧
  ∃ r, scan_to_next_token (S (String.length (buffer (input st)))) st
       = Some (Scanner r false 0 ts n ns true ∅)
       ∧ buffer r = tail ∧ column r = m.

(** The style of a value is plain. *)
Definition is_plain (value : string) : bool :=
  match Renderer.Yaml.choose_scalar_style value false with
  | Renderer.Yaml.Plain => true
  | _ => false
  end.

(** What follows an entry: the next entry or the end of the text. *)
Definition entry_or_end (tail : string) : bool :=
  match tail with
  | EmptyString => true
  | String ch rest => Ascii.eqb ch "-" && next_is (Ascii.eqb " ") rest
  end.

(** The tokens of an entry, behind the end of the entry in front of it. *)
Definition entry_tokens (r : record) : list token :=
  [BlockEntry; BlockMappingStart;
   Key; Scalar "name" true; Value;
   Scalar (Layout.name r) (is_plain (Layout.name r));
   Key; Scalar "details" true; Value;
   Scalar (Layout.details r) (is_plain (Layout.details r))].

(** The tokens of the entries and of the end of the stream; [deep] tells
    whether the mapping of an entry is still open. *)
Fixpoint entries_tokens (deep : bool) (records : list record) : list token :=
  (if deep then [BlockEnd] else []) ++
  match records with
  | [] => [BlockEnd; StreamEnd]
  | r :: records => entry_tokens r ++ entries_tokens true records
  end.

End YamlText.

(** ** The texts the analysis of the emitter lets pass *)

Module YamlStyle.
Import Renderer Renderer.Yaml.
Local Open Scope nat_scope.

(** The texts [choose_scalar_style] lets stand between single quotes: line
    feeds and printable ASCII characters, with no space next to a line
    feed.  [prev_space] and [prev_break] tell what the character in front
    of the text is. *)
Fixpoint single_ok (prev_space prev_break : bool) (s : string) : bool :=
  match s with
  | EmptyString => true
  | String ch rest =>
      (Ascii.eqb ch newline || is_printable_ascii ch)
      && negb (is_space ch && prev_break)
      && negb (Ascii.eqb ch newline && prev_space)
      && single_ok (is_space ch) (Ascii.eqb ch newline) rest
  end.

(** The texts [choose_scalar_style] lets stand as they are: printable ASCII
    characters, no space at either end, no colon in front of a space or at
    the end, no [#] at the start or behind a space.  [first] tells whether
    the text starts the scalar, [prev_space] and [prev_colon] what the
    character in front of it is. *)
Fixpoint plain_ok (first prev_space prev_colon : bool) (s : string) : bool :=
  match s with
  | EmptyString => negb prev_space && negb prev_colon
  | String ch rest =>
      is_printable_ascii ch
      && negb (is_space ch && (first || prev_colon))
      && negb (Ascii.eqb ch "#" && prev_space)
      && plain_ok false (is_space ch) (Ascii.eqb ch ":") rest
  end.

(** The last character of the text is a colon. *)
Fixpoint ends_with_colon (s : string) : bool :=
  match s with
  | EmptyString => false
  | String ch EmptyString => Ascii.eqb ch ":"
  | String _ rest => ends_with_colon rest
  end.

(** The first characters of a plain scalar: no indicator at the start, and
    no [-], [?] or [:] in front of white space or alone. *)
Definition plain_start (s : string) : bool :=
  match s with
  | EmptyString => false
  | String ch rest =>
      negb (mem ch (String quote "#,[]{}&*!|>'%@`"))
      && negb ((mem ch "?:" || Ascii.eqb ch "-") && followed_by_whitespace rest)
  end.

End YamlStyle.

(** ** The document as the specification describes it *)

(** The specification gives the output document as

      { "records": [ { "name": "<first> <last>", "details":
        "In division <division> from <date> performing <summary>" }, ... ] }

    with the entries in input order and [name] before [details], in
    notation A (block-structured) and in notation B (indented by 2 spaces),
    every text written by the rules of the notation.  The definitions of
    this module follow that description and the grammar of JSON; they use
    nothing of the renderer but the type of the objects. *)

Module Spec.

(** The text of a field.  A field that has no cell is written as Python
    prints the missing value. *)
Definition text (c : cell) : string :=
  match c with
  | Str s => s
  | PyNone => "None"
  end.

(** The decimal digit of a number below ten. *)
Definition digit (k : N) : ascii := ascii_of_N (48 + k).

(** The digits of [n] in front of [acc], the last digit first; [fuel] bounds
    their number. *)
Fixpoint digits (fuel : nat) (n : N) (acc : string) : string :=
  match fuel with
  | O => acc
  | S fuel =>
      let acc := String (digit (n mod 10)) acc in
      if (n <? 10)%N then acc else digits fuel (n / 10) acc
  end.

(** The decimal numeral of an integer: a minus sign for a negative number,
    no zero in front.  A number has no more decimal digits than binary
    ones. *)
Definition decimal (z : Z) : string :=
  let n := Z.abs_N z in
  let s := digits (S (N.to_nat (N.log2 n))) n EmptyString in
  if z <? 0 then String "-" s else s.

Definition name (r : record) : string :=
  text (firstname r) +:+ " " +:+ text (lastname r).

Definition details (r : record) : string :=
  "In division " +:+ decimal (division r) +:+ " from " +:+ text (date r)
  +:+ " performing " +:+ text (summary r).

Definition entry (r : record) : Renderer.pyobj :=
  Renderer.PDict [("name", Renderer.PStr (name r));
                  ("details", Renderer.PStr (details r))].

Definition document (records : list record) : Renderer.pyobj :=
  Renderer.PDict [("records", Renderer.PList (map entry records))].

(** *** The string literals of JSON *)

Definition quote : ascii := "034".
Definition backslash : ascii := "\".

(** A character that may stand for itself between the quotes: no quote, no
    backslash, no control character. *)
Definition unescaped (c : ascii) : bool :=
  negb (Ascii.eqb c quote) && negb (Ascii.eqb c backslash)
  && (32 <=? N_of_ascii c)%N.

(** The character a letter behind a backslash stands for. *)
Definition escaped (e : ascii) : option ascii :=
  if Ascii.eqb e quote then Some quote
  else if Ascii.eqb e backslash then Some backslash
  else if Ascii.eqb e "/" then Some "/"%char
  else if Ascii.eqb e "b" then Some "008"%char
  else if Ascii.eqb e "f" then Some "012"%char
  else if Ascii.eqb e "n" then Some "010"%char
  else if Ascii.eqb e "r" then Some "013"%char
  else if Ascii.eqb e "t" then Some "009"%char
  else None.

(** The value of a hexadecimal digit. *)
Definition hex (c : ascii) : option N :=
  let n := N_of_ascii c in
  if ((48 <=? n) && (n <=? 57))%N then Some (n - 48)%N
  else if ((65 <=? n) && (n <=? 70))%N then Some (n - 55)%N
  else if ((97 <=? n) && (n <=? 102))%N then Some (n - 87)%N
  else None.

(** [json_chars body s]: the characters [body] between the quotes of a
    literal stand for the text [s]. *)
Inductive json_chars : string → string → Prop :=
  | json_end : json_chars EmptyString EmptyString
  | json_unescaped c body s :
      unescaped c = true → json_chars body s →
      json_chars (String c body) (String c s)
  | json_escaped e c body s :
      escaped e = Some c → json_chars body s →
      json_chars (String backslash (String e body)) (String c s)
  | json_unicode h1 h2 h3 h4 d1 d2 d3 d4 c body s :
      hex h1 = Some d1 → hex h2 = Some d2 → hex h3 = Some d3 →
      hex h4 = Some d4 →
      N_of_ascii c = (((d1 * 16 + d2) * 16 + d3) * 16 + d4)%N →
      json_chars body s →
      json_chars
        (String backslash
           (String "u" (String h1 (String h2 (String h3 (String h4 body))))))
        (String c s).

(** [json_string literal s]: [literal] is a string literal of JSON for the
    text [s]. *)
Definition json_string (literal s : string) : Prop :=
  ∃ body, literal = String quote (body +:+ String quote EmptyString)
          ∧ json_chars body s.

(** *** The layout of the two notations *)

Definition nl : string := String "010" EmptyString.

(** The entries of notation B, each an object of its own on the second
    level of indentation, with a comma between two of them.  [literals]
    holds the literal of the name and the literal of the details. *)
Definition json_entry (literals : string * string) : string :=
  "    {" +:+ nl
  +:+ "      " +:+ String quote ("name" +:+ String quote ": ")
  +:+ literals.1 +:+ "," +:+ nl
  +:+ "      " +:+ String quote ("details" +:+ String quote ": ")
  +:+ literals.2 +:+ nl
  +:+ "    }".

Fixpoint json_entries (literals : list (string * string)) : string :=
  match literals with
  | [] => EmptyString
  | [entry] => json_entry entry
  | entry :: literals =>
      json_entry entry +:+ "," +:+ nl +:+ json_entries literals
  end.

(** Notation B: the document with an indentation of 2 spaces per level. *)
Definition json_text (literals : list (string * string)) : string :=
  match literals with
  | [] =>
      "{" +:+ nl +:+ "  " +:+ String quote ("records" +:+ String quote ": []")
      +:+ nl +:+ "}"
  | _ =>
      "{" +:+ nl +:+ "  " +:+ String quote ("records" +:+ String quote ": [")
      +:+ nl +:+ json_entries literals +:+ nl +:+ "  ]" +:+ nl +:+ "}"
  end.

(** Notation A: a block sequence under the key [records]; an entry starts
    with a dash and has its two keys in the same column.  [scalars] holds
    the two values as they are written. *)
Definition yaml_entry (scalars : string * string) : string :=
  "- name: " +:+ scalars.1 +:+ nl +:+ "  details: " +:+ scalars.2 +:+ nl.

Fixpoint yaml_entries (scalars : list (string * string)) : string :=
  match scalars with
  | [] => EmptyString
  | entry :: scalars => yaml_entry entry +:+ yaml_entries scalars
  end.

Definition yaml_text (scalars : list (string * string)) : string :=
  match scalars with
  | [] => "records: []" +:+ nl
  | _ => "records:" +:+ nl +:+ yaml_entries scalars
  end.

End Spec.

(** ** Vocabulary for the comparison with the specification *)

Module Compare.
Import Renderer.

(** The digit [k] in front of a number in the representation of the
    library. *)
Definition dig (k : N) (d : uint) : uint :=
  match k with
  | 0 => D0 d | 1 => D1 d | 2 => D2 d | 3 => D3 d | 4 => D4 d
  | 5 => D5 d | 6 => D6 d | 7 => D7 d | 8 => D8 d | _ => D9 d
  end%N.

(** The digits of [n], the last digit first. *)
Fixpoint little (fuel : nat) (n : N) : uint :=
  match fuel with
  | O => Nil
  | S fuel =>
      dig (n mod 10) (if (n <? 10)%N then Nil else little fuel (n / 10))
  end.

(** The literals [json.dumps] writes for the two values of a record. *)
Definition json_literals (r : record) : string * string :=
  (Json.encode_basestring_ascii (Spec.name r),
   Json.encode_basestring_ascii (Spec.details r)).

End Compare.

(** ** The top-level flow: [main] *)

Module Main.
Import Loader Ranker Renderer.

(** Where the rendered document goes. *)
Inductive destination :=
  | Printed (output : string)
  | Written (output_file : string) (output : string).

(** [main], after [interactive_menu] has returned its four values.
    [file_path] stands for what opening it gives; [write_error] is the
    exception raised when the output file is opened and written, if any. *)
Definition main (file_path : file) (top_n : Z) (output_format : string)
    (output_file : option string) (write_error : option exn) : M destination :=
  logging InfoProcessingFile;;
  records ← read_csv file_path;
  (if bool_decide (records = [])
   then logging ErrorNoValidRecords;; raise (SystemExit 1)
   else mret tt);;
  logging (InfoReadRecords (length records));;
  let top_records := get_top_records records top_n in
  logging (InfoSelectedTop top_n);;
  let output :=
    if String.eqb output_format "json" then format_to_json top_records
    else format_to_yaml top_records in
  logging (InfoFormatted output_format);;
  match output_file with
  | Some (String c path) =>
      try_except
        (match write_error with
         | Some e => raise e
         | None => logging InfoWritten;; mret (Written (String c path) output)
         end)
        (λ e, match e with OSError => true | _ => false end)
        (λ e, logging ErrorWriteFailed;; raise (SystemExit 1))
  | _ => logging InfoPrinted;; mret (Printed output)
  end.

End Main.

(** ** The questions: [interactive_menu] *)

Module Menu.
Import Loader Main.

(** *** [str.strip()] and [str.lower()] *)

(** The characters [str.strip()] removes: those [str.isspace] accepts, which
    for the code points below 256 are the ASCII white space, the four
    separators U+001C to U+001F, U+0085 and U+00A0. *)
Definition is_whitespace (c : ascii) : bool :=
  let n := code c in
  ((9 <=? n) && (n <=? 13) || (28 <=? n) && (n <=? 32)
   || (n =? 133) || (n =? 160))%N.

Fixpoint lstrip (s : string) : string :=
  match s with
  | String c s' => if is_whitespace c then lstrip s' else s
  | EmptyString => EmptyString
  end.

Fixpoint rstrip (s : string) : string :=
  match s with
  | String c s' =>
      match rstrip s' with
      | EmptyString =>
          if is_whitespace c then EmptyString else String c EmptyString
      | r => String c r
      end
  | EmptyString => EmptyString
  end.

Definition strip (s : string) : string := rstrip (lstrip s).

(** [str.lower()] on one character: the capital letters of ASCII and of
    Latin-1 (U+00C0 to U+00DE without the multiplication sign U+00D7) move
    up by 32. *)
Definition lower_char (c : ascii) : ascii :=
  let n := code c in
  if ((65 <=? n) && (n <=? 90)
      || (192 <=? n) && (n <=? 222) && negb (n =? 215))%N
  then ascii_of_N (n + 32) else c.

Fixpoint lower (s : string) : string :=
  match s with
  | String c s' => String (lower_char c) (lower s')
  | EmptyString => EmptyString
  end.

(** *** The terminal *)

(** What the program writes to the terminal: the prompt of an [input], or a
    line of [print]. *)
Inductive event :=
  | Prompt (text : string)
  | Print (text : string).

(** The lines the user will type, and what has been written so far, oldest
    first. *)
Record console := Console {
  stdin : list string;
  stdout : list event
}.

(** A computation at the terminal.  It gives no value when [input] finds the
    input at its end and raises [EOFError], which nothing in the program
    catches. *)
Definition IO (A : Type) : Type := console → option A * console.

Definition io_ret {A} (a : A) : IO A := λ c, (Some a, c).

Definition io_bind {A B} (m : IO A) (f : A → IO B) : IO B :=
  λ c, match m c with
       | (Some a, c') => f a c'
       | (None, c') => (None, c')
       end.

#[global] Instance IO_ret : MRet IO := @io_ret.
#[global] Instance IO_bind : MBind IO := λ A B f m, io_bind m f.

(** [print(text)] *)
Definition print (text : string) : IO unit :=
  λ c, (Some tt, Console (stdin c) (stdout c ++ [Print text])).

(** [input(prompt)]: the prompt is written, then a line is read. *)
Definition input (prompt : string) : IO string :=
  λ c, let out := stdout c ++ [Prompt prompt] in
       match stdin c with
       | [] => (None, Console [] out)
       | line :: lines => (Some line, Console lines out)
       end.

(** *** [interactive_menu] *)

(** [int(line or "3")] with the handler for [ValueError]: the empty line
    is the only one [or] replaces. *)
Definition read_top_n (line : string) : IO Z :=
  match int_of_string (if String.eqb line EmptyString then "3" else line) with
  | Some n => mret n
  | None => print "Invalid input. Defaulting to 3.";; mret 3
  end.

Definition interactive_menu : IO (string * Z * string * option string) :=
  line ← input "Enter the path to the CSV file: ";
  let file_path := strip line in
  line ← input "Enter the number of top records to display (default is 3): ";
  top_n ← read_top_n line;
  print "Choose output format:";;
  print "1) YAML (default)";;
  print "2) JSON";;
  line ← input "Enter your choice (1 or 2): ";
  let format_choice := strip line in
  let output_format :=
    if String.eqb format_choice "2" then "json" else "yaml" in
  line ← input "Would you like to save the output to a file? (y/n, default is n): ";
  let save_choice := lower (strip line) in
  output_file ←
    (if String.eqb save_choice "y"
     then line ← input "Enter the output file path: "; mret (Some (strip line))
     else mret None);
  mret (file_path, top_n, output_format, output_file).

(** *** [main] from its first line *)

(** The questions, then the rest of [main].  [open_file] tells what opening
    a path for reading gives, [write_error] what goes wrong when a path is
    written. *)
Definition main_with_menu (open_file : string → file)
    (write_error : string → option exn) (c : console)
    : option (M destination) :=
  match (interactive_menu c).1 with
  | Some (file_path, top_n, output_format, output_file) =>
      Some (main (open_file file_path) top_n output_format output_file
              (output_file ≫= write_error))
  | None => None
  end.

(** *** Vocabulary for the properties of the menu *)

(** The text of the document, wherever it goes. *)
Definition output_of (d : destination) : string :=
  match d with
  | Printed output => output
  | Written _ output => output
  end.

(** What the menu writes up to its fourth question, when the second line
    typed is [line]. *)
Definition questions (line : string) : list event :=
  [Prompt "Enter the path to the CSV file: ";
   Prompt "Enter the number of top records to display (default is 3): "]
  ++ (if bool_decide (line ≠ EmptyString ∧ int_of_string line = None)
      then [Print "Invalid input. Defaulting to 3."] else [])
  ++ [Print "Choose output format:"; Print "1) YAML (default)";
      Print "2) JSON"; Prompt "Enter your choice (1 or 2): ";
      Prompt "Would you like to save the output to a file? (y/n, default is n): "].

End Menu.

(** ** The sample data of [test_cli_tool.py] *)

Module Samples.

Definition john : record :=
  Record_ "John" "Doe" "2023-05-05" 1 90 "Task A".
Definition jane : record :=
  Record_ "Jane" "Smith" "2023-06-06" 2 85 "Task B".
Definition alex : record :=
  Record_ "Alex" "Johnson" "2023-07-07" 1 80 "Task C".
Definition taylor : record :=
  Record_ "Taylor" "Brown" "2023-08-08" 2 70 "Task D".

Definition sample_records : list record := [john; jane; alex; taylor].

Import Loader.

Definition header : reader_item :=
  Line ["firstname"; "lastname"; "date"; "division"; "points"; "summary"].

(** The file written by [setUp]. *)
Definition test_sample_csv : file :=
  Opened [header;
          Line ["John"; "Doe"; "2023-05-05"; "1"; "90"; "Task A"];
          Line ["Jane"; "Smith"; "2023-06-06"; "2"; "85"; "Task B"]].

(** The file written by [test_read_csv_with_invalid_data]. *)
Definition invalid_csv : file :=
  Opened [header;
          Line ["Invalid"; "User"; "2023-05-05"; "invalid_division";
                "invalid_points"; "Task X"]].

(** A file whose only data line stops after the date. *)
Definition short_row_csv : file :=
  Opened [header; Line ["John"; "Doe"; "2023-05-05"]].

(** A file with a short line between two valid ones. *)
Definition short_row_between_csv : file :=
  Opened [header;
          Line ["John"; "Doe"; "2023-05-05"; "1"; "90"; "Task A"];
          Line ["Alex"; "Johnson"; "2023-07-07"];
          Line ["Jane"; "Smith"; "2023-06-06"; "2"; "85"; "Task B"]].

(** A directory that holds the file of [setUp] under the name [a.csv] and
    nothing else. *)
Definition sample_files (path : string) : file :=
  if String.eqb path "a.csv" then test_sample_csv else OpenFails SystemFails.


End Samples.

(** ** Properties of the ranker *)

Module RankerFacts.
Import Ranker.

Lemma tuple_lt_spec a b :
  tuple_lt a b = true ↔ a.1 < b.1 ∨ (a.1 = b.1 ∧ a.2 < b.2).
Proof.
  unfold tuple_lt. destruct (Z.eqb_spec a.1 b.1) as [->|Hne].
  - rewrite Z.ltb_lt. lia.
  - rewrite Z.ltb_lt. lia.
Qed.

Lemma tuple_lt_false a b :
  tuple_lt a b = false ↔ b.1 < a.1 ∨ (a.1 = b.1 ∧ b.2 ≤ a.2).
Proof.
  rewrite <-not_true_iff_false, tuple_lt_spec. lia.
Qed.

Section sorted_facts.
Context {A : Type} (key : A → Z * Z).
Local Abbreviation key_le := (Ranker.key_le key).

Lemma key_le_trans x y z : key_le x y → key_le y z → key_le x z.
Proof. unfold key_le. rewrite !tuple_lt_false. lia. Qed.

Lemma key_le_total x y : key_le x y ∨ key_le y x.
Proof. unfold key_le. rewrite !tuple_lt_false. lia. Qed.

Lemma key_le_antisym x y : key_le x y → key_le y x → key x = key y.
Proof.
  unfold key_le. rewrite !tuple_lt_false. intros ??.
  destruct (key x), (key y); simpl in *. f_equal; lia.
Qed.

Lemma insert_stable_perm x l : insert_stable key x l ≡ₚ x :: l.
Proof.
  induction l as [|y l IH]; simpl; [done|].
  destruct (tuple_lt _ _); [|done].
  rewrite IH. apply Permutation_swap.
Qed.

Lemma sorted_perm l : sorted key l ≡ₚ l.
Proof.
  induction l as [|x l IH]; simpl; [done|].
  by rewrite insert_stable_perm, IH.
Qed.

Lemma sorted_length l : length (sorted key l) = length l.
Proof. by rewrite sorted_perm. Qed.

Lemma insert_stable_sorted x l :
  StronglySorted key_le l → StronglySorted key_le (insert_stable key x l).
Proof.
  induction 1 as [|y l Hl IH Hy]; simpl.
  - repeat constructor.
  - destruct (tuple_lt (key y) (key x)) eqn:Hlt.
    + constructor; [done|].
      rewrite insert_stable_perm. constructor; [|done].
      unfold key_le. apply tuple_lt_spec in Hlt.
      apply tuple_lt_false. lia.
    + constructor; [by constructor|].
      constructor; [done|].
      eapply Forall_impl; [done|]. intros z Hz.
      by apply key_le_trans with y.
Qed.

Lemma sorted_sorted l : StronglySorted key_le (sorted key l).
Proof.
  induction l; simpl; [constructor|by apply insert_stable_sorted].
Qed.

(** Insertion leaves the elements of every key in their order. *)
Lemma insert_stable_filter (P : A → Prop) `{!∀ x, Decision (P x)} x l :
  (∀ y, P x → P y → key x = key y) →
  filter P (insert_stable key x l) = filter P (x :: l).
Proof.
  intros HP. induction l as [|y l IH]; simpl; [done|].
  destruct (tuple_lt (key y) (key x)) eqn:Hlt; [|done].
  rewrite !filter_cons in *. rewrite IH.
  destruct (decide (P x)) as [Hx|]; [|done].
  destruct (decide (P y)) as [Hy|]; [|done].
  rewrite (HP y Hx Hy) in Hlt. apply tuple_lt_spec in Hlt. lia.
Qed.

Lemma sorted_filter k l :
  filter (λ x, key x = k) (sorted key l) = filter (λ x, key x = k) l.
Proof.
  induction l as [|x l IH]; simpl; [done|].
  rewrite insert_stable_filter by congruence.
  by rewrite !filter_cons, IH.
Qed.

(** A sorted list is left as it is. *)
Lemma sorted_id l : StronglySorted key_le l → sorted key l = l.
Proof.
  induction 1 as [|x l Hl IH Hx]; simpl; [done|].
  rewrite IH. destruct Hx as [|y l Hy _]; simpl; [done|].
  by rewrite Hy.
Qed.

(** Every stable sort by the key computes [sorted]: a list that is sorted
    and keeps the elements of each key in their input order is the result
    of [sorted]. *)
Lemma stable_unique s1 s2 :
  StronglySorted key_le s1 → StronglySorted key_le s2 →
  (∀ k, filter (λ x, key x = k) s1 = filter (λ x, key x = k) s2) →
  s1 = s2.
Proof.
  intros H1. revert s2. induction H1 as [|a s1 Hs1 IH Ha]; intros s2 H2 Hf.
  - destruct s2 as [|b s2]; [done|].
    specialize (Hf (key b)). rewrite filter_cons_True in Hf by done. done.
  - destruct H2 as [|b s2 Hs2 Hb].
    { specialize (Hf (key a)). rewrite filter_cons_True in Hf by done. done. }
    assert (key a = key b) as Hab.
    { apply key_le_antisym.
      - assert (b ∈ a :: s1) as Hin.
        { eapply (proj1 (list_elem_of_filter (λ x, key x = key b) _ _)).
          rewrite Hf, filter_cons_True by done. left. }
        apply elem_of_cons in Hin as [->|Hin]; [by apply tuple_lt_false; lia|].
        by eapply Forall_forall in Ha.
      - assert (a ∈ b :: s2) as Hin.
        { eapply (proj1 (list_elem_of_filter (λ x, key x = key a) _ _)).
          rewrite <-Hf, filter_cons_True by done. left. }
        apply elem_of_cons in Hin as [->|Hin]; [by apply tuple_lt_false; lia|].
        by eapply Forall_forall in Hb. }
    assert (a = b) as ->.
    { specialize (Hf (key a)).
      rewrite !filter_cons_True in Hf by done. congruence. }
    f_equal. apply IH; [done|]. intros k. specialize (Hf k).
    rewrite !filter_cons in Hf. destruct (decide (key b = k)); congruence.
Qed.

Lemma sorted_unique l s :
  StronglySorted key_le s →
  (∀ k, filter (λ x, key x = k) s = filter (λ x, key x = k) l) →
  s = sorted key l.
Proof.
  intros Hs Hf. apply stable_unique; [done|apply sorted_sorted|].
  intros k. by rewrite sorted_filter.
Qed.

Lemma slice_to_nonneg (l : list A) n :
  0 ≤ n → slice_to l n = take (Z.to_nat n) l.
Proof.
  intros Hn. unfold slice_to.
  destruct (Z.ltb_spec n 0); [lia|].
  destruct (Z.le_gt_cases n (Z.of_nat (length l))).
  - by rewrite Z.min_l.
  - rewrite Z.min_r, Nat2Z.id, !take_ge by lia. done.
Qed.

Lemma slice_to_neg (l : list A) n :
  n < 0 → slice_to l n = take (length l - Z.to_nat (- n)) l.
Proof.
  intros Hn. unfold slice_to.
  destruct (Z.ltb_spec n 0); [|lia]. f_equal. lia.
Qed.

Lemma slice_to_take (l : list A) n : ∃ m, slice_to l n = take m l.
Proof. unfold slice_to. eauto. Qed.
End sorted_facts.

Lemma key_le_rank_le r1 r2 : key_le sort_key r1 r2 ↔ rank_le r1 r2.
Proof. unfold key_le, rank_le. rewrite tuple_lt_false. simpl. lia. Qed.

Lemma StronglySorted_mono {A} (R1 R2 : relation A) l :
  (∀ x y, R1 x y → R2 x y) → StronglySorted R1 l → StronglySorted R2 l.
Proof.
  intros HR. induction 1 as [|x l Hl IH Hx]; constructor; [done|].
  eapply Forall_impl; [done|]. auto.
Qed.

Lemma StronglySorted_lookup {A} (R : relation A) l (i j : nat) x y :
  StronglySorted R l → l !! i = Some x → l !! j = Some y → (i < j)%nat →
  R x y.
Proof.
  intros Hl. revert i j. induction Hl as [|z l Hl IH Hz]; intros i j Hi Hj Hij.
  - done.
  - destruct j as [|j]; [lia|]. destruct i as [|i]; simpl in *.
    + simplify_eq. eapply Forall_forall in Hz; [done|].
      by eapply list_elem_of_lookup_2.
    + eapply IH; [done..|lia].
Qed.

Lemma sorted_rank_le rs : StronglySorted rank_le (sorted sort_key rs).
Proof.
  eapply StronglySorted_mono, sorted_sorted.
  intros ??. apply key_le_rank_le.
Qed.

Lemma take_rank_le n rs :
  StronglySorted rank_le rs → StronglySorted rank_le (take n rs).
Proof.
  intros H. rewrite <-(take_drop n rs) in H.
  by apply StronglySorted_app_1_l in H.
Qed.

(** *** Tagged runs: the ranker on records that carry their input position *)

Section tagged_facts.
Context {A : Type} (key : A → Z * Z).
Local Abbreviation before := (Ranker.before key).

Lemma insert_stable_snd (x : nat * A) l :
  (insert_stable (key ∘ snd) x l).*2 = insert_stable key x.2 l.*2.
Proof.
  induction l as [|y l IH]; csimpl; [done|].
  destruct (tuple_lt _ _); csimpl; by rewrite ?IH.
Qed.

Lemma sorted_snd (l : list (nat * A)) :
  (sorted (key ∘ snd) l).*2 = sorted key l.*2.
Proof.
  induction l as [|x l IH]; csimpl; [done|].
  by rewrite insert_stable_snd, IH.
Qed.

Lemma slice_to_snd (l : list (nat * A)) n :
  (slice_to l n).*2 = slice_to l.*2 n.
Proof. unfold slice_to. by rewrite fmap_take, length_fmap. Qed.

Lemma top_by_snd (l : list (nat * A)) n :
  (top_by (key ∘ snd) l n).*2 = top_by key l.*2 n.
Proof. unfold top_by. by rewrite slice_to_snd, sorted_snd. Qed.

Lemma insert_stable_before x l :
  Forall (λ b, (x.1 < b.1)%nat) l →
  StronglySorted before l →
  StronglySorted before (insert_stable (key ∘ snd) x l).
Proof.
  intros Hx Hl. induction Hl as [|y l Hl IH Hy]; simpl.
  - repeat constructor.
  - apply Forall_cons in Hx as [Hxy Hx].
    destruct (tuple_lt _ _) eqn:Hlt.
    + constructor; [by apply IH|].
      rewrite insert_stable_perm. constructor; [|done].
      apply tuple_lt_spec in Hlt. unfold compose in Hlt. split.
      * apply tuple_lt_false. unfold compose. lia.
      * intros Heq. rewrite Heq in Hlt. lia.
    + constructor; [by constructor|].
      constructor; [done|].
      apply Forall_forall. intros z Hz. split.
      * apply key_le_trans with y; [done|].
        eapply Forall_forall in Hy; [|done]. apply Hy.
      * intros _. by eapply Forall_forall in Hx.
Qed.

Lemma sorted_before l :
  StronglySorted (λ a b : nat * A, (a.1 < b.1)%nat) l →
  StronglySorted before (sorted (key ∘ snd) l).
Proof.
  induction 1 as [|x l Hl IH Hx]; simpl; [constructor|].
  apply insert_stable_before; [|done]. by rewrite sorted_perm.
Qed.
End tagged_facts.

Lemma imap_pair_snd {A} (l : list A) n :
  (imap (λ i x, ((n + i)%nat, x)) l).*2 = l.
Proof.
  revert n. induction l as [|x l IH]; intros n; csimpl; [done|].
  f_equal. rewrite <-(IH (S n)) at 2. f_equal.
  apply imap_ext. intros; simpl. f_equal. lia.
Qed.

Lemma imap_pair_increasing {A} (l : list A) n :
  StronglySorted (λ a b : nat * A, (a.1 < b.1)%nat)
    (imap (λ i x, ((n + i)%nat, x)) l).
Proof.
  revert n. induction l as [|x l IH]; intros n; simpl; [constructor|].
  constructor.
  - erewrite imap_ext; [apply (IH (S n))|]. intros; simpl. f_equal. lia.
  - apply Forall_forall. intros [i y] Hin.
    apply list_elem_of_lookup in Hin as [j Hj].
    rewrite list_lookup_imap in Hj.
    destruct (l !! j); simplify_eq/=. lia.
Qed.

Lemma tagged_snd rs : (tagged rs).*2 = rs.
Proof. apply (imap_pair_snd rs 0). Qed.

Lemma tagged_lookup rs i r : (i, r) ∈ tagged rs → rs !! i = Some r.
Proof.
  intros Hin. apply list_elem_of_lookup in Hin as [j Hj].
  unfold tagged in Hj. rewrite list_lookup_imap in Hj.
  destruct (rs !! j) eqn:E; by simplify_eq/=.
Qed.

Lemma top_by_subseteq {A} (key : A → Z * Z) l n : top_by key l n ⊆ l.
Proof.
  unfold top_by, slice_to. intros x Hx.
  apply subseteq_take in Hx. by rewrite sorted_perm in Hx.
Qed.

(** *** The keys of the sorted list *)

Lemma insert_stable_fmap {A} (key : A → Z * Z) x l :
  key <$> insert_stable key x l = insert_stable id (key x) (key <$> l).
Proof.
  induction l as [|y l IH]; csimpl; [done|].
  destruct (tuple_lt _ _); csimpl; by rewrite ?IH.
Qed.

Lemma sorted_fmap {A} (key : A → Z * Z) l :
  key <$> sorted key l = sorted id (key <$> l).
Proof.
  induction l as [|x l IH]; csimpl; [done|].
  by rewrite insert_stable_fmap, IH.
Qed.

Lemma filter_eq_replicate {A} `{EqDecision A} (k : A) (l : list A) :
  filter (λ x, x = k) l = replicate (length (filter (λ x, x = k) l)) k.
Proof.
  induction l as [|x l IH]; [done|]. rewrite filter_cons.
  destruct (decide (x = k)) as [->|]; simpl; by rewrite <-?IH.
Qed.

(** Sorting the keys forgets the order of the input. *)
Lemma sorted_keys_perm (l1 l2 : list (Z * Z)) :
  l1 ≡ₚ l2 → sorted id l1 = sorted id l2.
Proof.
  intros Hp. apply sorted_unique; [apply sorted_sorted|].
  intros k. rewrite sorted_filter.
  change (λ x : Z * Z, id x = k) with (λ x : Z * Z, x = k).
  rewrite (filter_eq_replicate k l1), (filter_eq_replicate k l2).
  by rewrite Hp.
Qed.

End RankerFacts.

(** ** Properties of the loader *)

Module LoaderFacts.
Import Loader.

Ltac unfold_M :=
  unfold mbind, M_bind, bind, mret, M_ret, ret, raise, logging, lift,
    try_except in *.

Lemma int_outcome x : (∃ z, int x = Ok z) ∨ int x = Raise ValueError
                      ∨ (x = PyNone ∧ int x = Raise TypeError).
Proof.
  destruct x as [|s]; simpl; [by auto|].
  destruct (int_of_string s); eauto.
Qed.

Lemma strptime_outcome x :
  (∃ d, strptime x = Ok d) ∨ strptime x = Raise ValueError
  ∨ (x = PyNone ∧ strptime x = Raise TypeError).
Proof.
  destruct x as [|s]; simpl; [by auto|].
  destruct (date_of_string s); eauto.
Qed.

(** A row raises nothing but [ValueError], [TypeError] and [KeyError]. *)
Lemma parse_row_raises row e :
  parse_row row = Raise e → e = ValueError ∨ e = TypeError ∨ e = KeyError.
Proof.
  unfold parse_row, getitem, mbind, result_bind, mret, result_ret.
  repeat match goal with
  | |- context [row !! ?k] => destruct (row !! k) as [?|]
  | |- context [int ?x] =>
      destruct (int_outcome x) as [[? ->]|[->|[_ ->]]]
  | |- context [strptime ?x] =>
      destruct (strptime_outcome x) as [[? ->]|[->|[_ ->]]]
  end; intros; simplify_eq; auto.
Qed.

Lemma parse_row_Exception row e : parse_row row = Raise e → is_Exception e = true.
Proof. intros [->|[->| ->]]%parse_row_raises; done. Qed.

(** *** One round of the loop *)

Lemma read_rows_blank fieldnames items records :
  read_rows fieldnames (Line [] :: items) records
  = read_rows fieldnames items records.
Proof. done. Qed.

Lemma read_rows_keep fieldnames cells items records r :
  cells ≠ [] →
  parse_row (row_dict fieldnames cells) = Ok r →
  read_rows fieldnames (Line cells :: items) records
  = read_rows fieldnames items (records ++ [r]).
Proof.
  intros Hc Hr. destruct cells as [|c cells]; [done|]. simpl.
  rewrite Hr. unfold_M. simpl.
  by destruct (read_rows _ _ _).
Qed.

Lemma read_rows_skip fieldnames cells items records :
  cells ≠ [] →
  parse_row (row_dict fieldnames cells) = Raise ValueError →
  read_rows fieldnames (Line cells :: items) records
  = ((read_rows fieldnames items records).1,
     WarningSkippingRow (row_dict fieldnames cells)
       :: (read_rows fieldnames items records).2).
Proof.
  intros Hc Hr. destruct cells as [|c cells]; [done|]. simpl.
  rewrite Hr. unfold_M. simpl.
  by destruct (read_rows _ _ _).
Qed.

Lemma read_rows_raise fieldnames cells items records e :
  cells ≠ [] →
  parse_row (row_dict fieldnames cells) = Raise e → e ≠ ValueError →
  read_rows fieldnames (Line cells :: items) records = (Raise e, []).
Proof.
  intros Hc Hr He. destruct cells as [|c cells]; [done|]. simpl.
  rewrite Hr. unfold_M. simpl. by destruct e.
Qed.

Lemma read_rows_read_fails fieldnames e items records :
  read_rows fieldnames (ReadFails e :: items) records = (Raise (exn_of e), []).
Proof. done. Qed.

(** The three ways a line with cells can go. *)
Lemma read_rows_cases fieldnames cells items records :
  cells ≠ [] →
  (∃ r, parse_row (row_dict fieldnames cells) = Ok r ∧
        read_rows fieldnames (Line cells :: items) records
        = read_rows fieldnames items (records ++ [r])) ∨
  (parse_row (row_dict fieldnames cells) = Raise ValueError ∧
   read_rows fieldnames (Line cells :: items) records
   = ((read_rows fieldnames items records).1,
      WarningSkippingRow (row_dict fieldnames cells)
        :: (read_rows fieldnames items records).2)) ∨
  (∃ e, parse_row (row_dict fieldnames cells) = Raise e ∧ e ≠ ValueError ∧
        read_rows fieldnames (Line cells :: items) records = (Raise e, [])).
Proof.
  intros Hc. destruct (parse_row (row_dict fieldnames cells)) as [r|e] eqn:Hr.
  - left. eauto using read_rows_keep.
  - destruct (decide (e = ValueError)) as [->|He].
    + right; left. eauto using read_rows_skip.
    + right; right. eauto using read_rows_raise.
Qed.

(** The loop ends by returning or by an [Exception]; it returns only when
    the reader never fails; and it logs nothing but warnings. *)
Lemma read_rows_outcome fieldnames items records :
  match (read_rows fieldnames items records).1 with
  | Ok _ => ∀ e, ReadFails e ∉ items
  | Raise e => is_Exception e = true
  end ∧
  Forall (λ entry, is_warning entry = true)
    (read_rows fieldnames items records).2.
Proof.
  revert records. induction items as [|[cells|e] items IH]; intros records.
  - simpl. split; [|done]. intros e. apply not_elem_of_nil.
  - destruct (decide (cells = [])) as [->|Hc].
    { rewrite read_rows_blank. destruct (IH records) as [H1 H2]. split; [|done].
      destruct (read_rows _ _ _).1; [|done].
      intros e [?|?]%elem_of_cons; [done|]. by eapply H1. }
    destruct (read_rows_cases fieldnames cells items records Hc)
      as [(r & _ & ->)|[[_ ->]|(e & Hr & _ & ->)]].
    + destruct (IH (records ++ [r])) as [H1 H2]. split; [|done].
      destruct (read_rows _ _ _).1; [|done].
      intros e [?|?]%elem_of_cons; [done|]. by eapply H1.
    + destruct (IH records) as [H1 H2]. simpl. split; [|by constructor].
      destruct (read_rows _ _ _).1; [|done].
      intros e [?|?]%elem_of_cons; [done|]. by eapply H1.
    + simpl. split; [|done]. by eapply parse_row_Exception.
  - rewrite read_rows_read_fails. simpl. split; [|done]. by destruct e.
Qed.

(** *** Rows that reach every column *)

Lemma foldl_insert_lookup_ne (l : list (string * string)) (d : gmap string cell) key :
  key ∉ l.*1 →
  foldl (λ d kv, <[kv.1 := Str kv.2]> d) d l !! key = d !! key.
Proof.
  revert d. induction l as [|[k v] l IH]; intros d Hk; csimpl in *; [done|].
  apply not_elem_of_cons in Hk as [? ?].
  rewrite IH by done. by rewrite lookup_insert_ne.
Qed.

Lemma foldl_insert_lookup (l : list (string * string)) (d : gmap string cell) key :
  key ∈ l.*1 →
  ∃ s, foldl (λ d kv, <[kv.1 := Str kv.2]> d) d l !! key = Some (Str s).
Proof.
  revert d. induction l as [|[k v] l IH]; intros d Hk; csimpl in *.
  - by apply elem_of_nil in Hk.
  - destruct (decide (key ∈ l.*1)) as [Hin|Hout]; [by apply IH|].
    apply elem_of_cons in Hk as [->|?]; [|done].
    rewrite foldl_insert_lookup_ne by done.
    exists v. by rewrite lookup_insert_eq.
Qed.

(** A line with a cell for every column gives a string under every column
    name. *)
Lemma row_dict_full fieldnames cells key :
  (length fieldnames ≤ length cells)%nat → key ∈ fieldnames →
  ∃ s, row_dict fieldnames cells !! key = Some (Str s).
Proof.
  intros Hlen Hk. unfold row_dict.
  rewrite drop_ge by done. simpl.
  apply foldl_insert_lookup. by rewrite fst_zip.
Qed.

Lemma header_complete_elem fieldnames key :
  header_complete fieldnames → key ∈ required_columns → key ∈ fieldnames.
Proof.
  intros H Hk. apply H in Hk. by apply elem_of_list_to_set in Hk.
Qed.

(** Such a row is accepted or raises [ValueError]: it is never fatal. *)
Lemma parse_row_full fieldnames cells :
  header_complete fieldnames →
  (length fieldnames ≤ length cells)%nat →
  (∃ r, parse_row (row_dict fieldnames cells) = Ok r) ∨
  parse_row (row_dict fieldnames cells) = Raise ValueError.
Proof.
  intros Hh Hlen.
  assert (∀ key, key ∈ required_columns →
            ∃ s, getitem (row_dict fieldnames cells) key = Ok (Str s)) as Hget.
  { intros key Hk. unfold getitem.
    destruct (row_dict_full fieldnames cells key) as [s ->];
      eauto using header_complete_elem. }
  unfold parse_row, mbind, result_bind, mret, result_ret.
  destruct (Hget "division") as [s1 ->]; [set_solver|].
  destruct (int_outcome (Str s1)) as [[? ->]|[->|[? _]]]; [|by auto|done].
  destruct (Hget "points") as [s2 ->]; [set_solver|].
  destruct (int_outcome (Str s2)) as [[? ->]|[->|[? _]]]; [|by auto|done].
  destruct (Hget "date") as [s3 ->]; [set_solver|].
  destruct (strptime_outcome (Str s3)) as [[? ->]|[->|[? _]]]; [|by auto|done].
  destruct (Hget "firstname") as [s4 ->]; [set_solver|].
  destruct (Hget "lastname") as [s5 ->]; [set_solver|].
  destruct (Hget "summary") as [s6 ->]; [set_solver|].
  eauto.
Qed.

(** On such a file the loop returns: malformed rows are skipped. *)
Lemma read_rows_full_width fieldnames items records :
  header_complete fieldnames → full_width fieldnames items →
  ∃ records', (read_rows fieldnames items records).1 = Ok records'.
Proof.
  intros Hh Hf. revert records.
  induction Hf as [|item items (cells & -> & Hc) _ IH]; intros records.
  - by eexists.
  - destruct (decide (cells = [])) as [->|Hne]; [by rewrite read_rows_blank|].
    destruct Hc as [?|Hlen]; [done|].
    destruct (parse_row_full fieldnames cells Hh Hlen) as [[r Hr]|Hr].
    + rewrite (read_rows_keep _ _ _ _ r) by done. apply IH.
    + rewrite read_rows_skip by done. apply IH.
Qed.

Lemma read_rows_all_invalid fieldnames items records :
  all_invalid fieldnames items →
  (read_rows fieldnames items records).1 = Ok records ∧
  Forall (λ entry, ∃ row, entry = WarningSkippingRow row)
    (read_rows fieldnames items records).2.
Proof.
  induction 1 as [|item items (cells & -> & Hc) _ IH]; [done|].
  destruct (decide (cells = [])) as [->|Hne]; [by rewrite read_rows_blank|].
  destruct Hc as [?|Hr]; [done|].
  rewrite read_rows_skip by done. simpl. destruct IH as [-> IH].
  split; [done|]. constructor; eauto.
Qed.

(** *** [read_csv] behind a complete header *)

Lemma read_csv_header_complete fieldnames items :
  header_complete fieldnames →
  read_csv (Opened (Line fieldnames :: items))
  = match read_rows fieldnames items [] with
    | (Ok records, log) =>
        (Ok records,
         log ++ if bool_decide (records = []) then [WarningNoValidRecords]
                else [])
    | (Raise e, log) => (Raise (SystemExit 1), log ++ [ErrorReadingCsv e])
    end.
Proof.
  intros Hh. unfold read_csv. simpl.
  rewrite bool_decide_eq_true_2 by done.
  pose proof (read_rows_outcome fieldnames items []) as [Ho _].
  unfold_M. simpl.
  destruct (read_rows fieldnames items []) as [[records|e] log]; simpl in *.
  - case_bool_decide; simpl; by rewrite ?app_nil_r.
  - by rewrite Ho.
Qed.

Lemma read_csv_header_incomplete fieldnames items :
  ¬ header_complete fieldnames →
  read_csv (Opened (Line fieldnames :: items))
  = (Raise (SystemExit 1),
     [ErrorMissingColumns (required_columns ∖ list_to_set fieldnames)]).
Proof.
  intros Hh. unfold read_csv. simpl.
  by rewrite bool_decide_eq_false_2 by done.
Qed.

(** *** What the loop keeps *)

Lemma read_rows_accepted fieldnames items records rs :
  (read_rows fieldnames items records).1 = Ok rs →
  rs = records ++ accepted fieldnames items ∧
  (length rs + length (List.filter is_skip (read_rows fieldnames items records).2)
   = length records + length (List.filter has_cells items))%nat.
Proof.
  revert records. induction items as [|[cells|e] items IH]; intros records.
  - simpl. intros [= <-]. by rewrite app_nil_r.
  - destruct (decide (cells = [])) as [->|Hc].
    { rewrite read_rows_blank. apply IH. }
    destruct (read_rows_cases fieldnames cells items records Hc)
      as [(r & Hr & ->)|[[Hr ->]|(e & Hr & _ & ->)]]; [| |done].
    + intros [-> Hn]%IH. destruct cells as [|c cells]; [done|].
      unfold accepted. cbn [omap list_omap accepted_row List.filter has_cells].
      rewrite Hr. fold (accepted fieldnames items).
      split; [by rewrite <-app_assoc|]. rewrite Hn, length_app. simpl. lia.
    + simpl. intros [-> Hn]%IH. destruct cells as [|c cells]; [done|].
      unfold accepted. cbn [omap list_omap accepted_row List.filter has_cells].
      rewrite Hr. fold (accepted fieldnames items).
      split; [done|]. simpl. lia.
  - done.
Qed.

(** How [read_csv] can return. *)
Lemma read_csv_returns f rs :
  (read_csv f).1 = Ok rs →
  ∃ fieldnames items,
    f = Opened (Line fieldnames :: items) ∧ header_complete fieldnames ∧
    (read_rows fieldnames items []).1 = Ok rs ∧
    (read_csv f).2
    = (read_rows fieldnames items []).2
      ++ if bool_decide (rs = []) then [WarningNoValidRecords] else [].
Proof.
  destruct f as [e|[|[fieldnames|e] items]]; [by destruct e|done| |by destruct e].
  destruct (decide (header_complete fieldnames)) as [Hh|Hh].
  - rewrite read_csv_header_complete by done.
    destruct (read_rows fieldnames items []) as [[records|e] log] eqn:E; [|done].
    simpl. intros [= ->]. exists fieldnames, items. by rewrite E.
  - by rewrite read_csv_header_incomplete.
Qed.

Lemma read_csv_returns_accepted f rs :
  (read_csv f).1 = Ok rs →
  ∃ fieldnames items,
    f = Opened (Line fieldnames :: items) ∧ header_complete fieldnames ∧
    rs = accepted fieldnames items.
Proof.
  intros (fieldnames & items & -> & Hh & Hr & _)%read_csv_returns.
  exists fieldnames, items. split; [done|]. split; [done|].
  by apply read_rows_accepted in Hr as [-> _].
Qed.

Lemma filter_is_skip_app l1 l2 :
  List.filter is_skip (l1 ++ l2)
  = List.filter is_skip l1 ++ List.filter is_skip l2.
Proof.
  induction l1 as [|x l1 IH]; simpl; [done|].
  destruct (is_skip x); simpl; by rewrite IH.
Qed.

(** *** The log of [read_csv] *)

(** [read_csv] returns without an error in its log, or it leaves through
    [sys.exit(1)] behind exactly one error, its last entry. *)
Lemma read_csv_log f :
  match (read_csv f).1 with
  | Ok _ => Forall (λ entry, is_error entry = false) (read_csv f).2
  | Raise e =>
      e = SystemExit 1 ∧
      ∃ log entry, (read_csv f).2 = log ++ [entry] ∧ is_error entry = true ∧
                   Forall (λ entry, is_error entry = false) log
  end.
Proof.
  assert (∀ l, Forall (λ entry, is_warning entry = true) l →
               Forall (λ entry, is_error entry = false) l) as Hw.
  { intros l Hl. eapply Forall_impl; [done|]. by intros []. }
  destruct f as [e|[|[fieldnames|e] items]].
  - destruct e; simpl; (split; [done|]); by eexists [], _.
  - simpl. split; [done|]. by eexists [], _.
  - destruct (decide (header_complete fieldnames)) as [Hh|Hh].
    + rewrite read_csv_header_complete by done.
      pose proof (read_rows_outcome fieldnames items []) as [_ Hlog].
      destruct (read_rows fieldnames items []) as [[records|e] log]; simpl in *.
      * apply Forall_app. split; [by apply Hw|].
        case_bool_decide; by repeat constructor.
      * split; [done|]. eexists log, _. split_and!; [done..|by apply Hw].
    + rewrite read_csv_header_incomplete by done. simpl.
      split; [done|]. by eexists [], _.
  - destruct e; simpl; (split; [done|]); by eexists [], _.
Qed.

(** *** The dates [strptime] accepts *)

Lemma in_range_digit lo hi c :
  in_range lo hi c = true →
  Z.of_N (code lo) - 48 ≤ digit_value c ≤ Z.of_N (code hi) - 48.
Proof.
  unfold in_range, digit_value. intros [?%N.leb_le ?%N.leb_le]%andb_true_iff.
  lia.
Qed.

Lemma month_matches_range s m s' :
  (m, s') ∈ month_matches s → 1 ≤ m ≤ 12.
Proof.
  destruct s as [|a [|b s2]]; simpl.
  - by intros ?%elem_of_nil.
  - destruct (in_range "1" "9" a) eqn:Ha; [|by intros ?%elem_of_nil].
    intros [= -> ->]%list_elem_of_singleton.
    apply in_range_digit in Ha. simpl in Ha. lia.
  - rewrite !elem_of_app. intros [[H|H]|H].
    + destruct (_ && _) eqn:E; [|by apply elem_of_nil in H].
      apply list_elem_of_singleton in H as [= -> ->].
      apply andb_true_iff in E as [_ Hb].
      apply in_range_digit in Hb. simpl in Hb. lia.
    + destruct (_ && _) eqn:E; [|by apply elem_of_nil in H].
      apply list_elem_of_singleton in H as [= -> ->].
      apply andb_true_iff in E as [_ Hb].
      apply in_range_digit in Hb. simpl in Hb. lia.
    + destruct (in_range "1" "9" a) eqn:Ha; [|by apply elem_of_nil in H].
      apply list_elem_of_singleton in H as [= -> ->].
      apply in_range_digit in Ha. simpl in Ha. lia.
Qed.

Lemma date_of_string_range s y m d :
  date_of_string s = Some (y, m, d) →
  1 ≤ y ∧ 1 ≤ m ≤ 12 ∧ 1 ≤ d ≤ days_in_month y m.
Proof.
  unfold date_of_string.
  destruct (match_date s) as [[[[y' m'] d'] [|??]]|] eqn:E; [|done..].
  destruct (_ && _) eqn:Hc; [|done]. intros [= -> -> ->].
  apply andb_true_iff in Hc as [[?%Z.leb_le ?%Z.leb_le]%andb_true_iff ?%Z.leb_le].
  split; [done|]. split; [|done].
  unfold match_date in E. repeat (case_match; try done).
  apply head_Some_elem_of in E.
  apply list_elem_of_bind in E as ([mm sm] & Hin & Hm).
  simpl in Hin. repeat (case_match; try by apply elem_of_nil in Hin).
  apply list_elem_of_bind in Hin as ([dd sd] & Hin & _).
  apply list_elem_of_singleton in Hin. simplify_eq.
  by eapply month_matches_range.
Qed.

(** The date of an accepted row is a text [strptime] accepts. *)
Lemma parse_row_date row r :
  parse_row row = Ok r →
  ∃ s d, date r = Str s ∧ date_of_string s = Some d.
Proof.
  unfold parse_row, getitem, mbind, result_bind, mret, result_ret.
  destruct (row !! "division") as [c1|]; [|done].
  destruct (int c1) as [z1|]; [|done].
  destruct (row !! "points") as [c2|]; [|done].
  destruct (int c2) as [z2|]; [|done].
  destruct (row !! "date") as [[|s]|]; [done| |done]. simpl.
  destruct (date_of_string s) as [d|] eqn:E; [|done].
  destruct (row !! "firstname") as [c4|]; [|done].
  destruct (row !! "lastname") as [c5|]; [|done].
  destruct (row !! "summary") as [c6|]; [|done].
  intros [= <-]. simpl. eauto.
Qed.

(** *** The integers [int] returns *)

Lemma digit_value_range c : is_digit c = true → 0 ≤ digit_value c ≤ 9.
Proof.
  unfold is_digit, digit_value.
  intros [?%N.leb_le ?%N.leb_le]%andb_true_iff. lia.
Qed.

(** The value of a literal lies between the value read so far, followed by
    zeros, and the next one. *)
Lemma digits_range s : ∀ acc after_digit z,
  0 ≤ acc → digits acc after_digit s = Some z →
  acc * 10 ^ Z.of_nat (count_digits s) ≤ z
  < (acc + 1) * 10 ^ Z.of_nat (count_digits s).
Proof.
  induction s as [|c s IH]; intros acc after_digit z Hacc H.
  { cbn in *. destruct after_digit; [|done]. injection H as <-. lia. }
  cbn [digits count_digits] in *.
  destruct (is_digit c) eqn:Hc.
  - pose proof (digit_value_range c Hc) as Hd.
    apply IH in H; [|lia].
    rewrite Nat2Z.inj_add, Z.pow_add_r by lia.
    change (10 ^ Z.of_nat 1) with 10. nia.
  - destruct (Ascii.eqb c "_" && after_digit); [|done].
    by apply IH in H.
Qed.

Lemma literal_range s z :
  literal s = Some z → 0 ≤ z < 10 ^ Z.of_nat max_str_digits.
Proof.
  unfold literal. destruct (Nat.leb_spec (count_digits s) max_str_digits)
    as [Hle|]; [|done].
  intros H%digits_range; [|done].
  assert (10 ^ Z.of_nat (count_digits s) ≤ 10 ^ Z.of_nat max_str_digits).
  { apply Z.pow_le_mono_r; lia. }
  lia.
Qed.

(** [int] returns no integer of more than [max_str_digits] digits. *)
Lemma int_of_string_range s z :
  int_of_string s = Some z → Z.abs z < 10 ^ Z.of_nat max_str_digits.
Proof.
  unfold int_of_string.
  assert (∀ r, literal r = Some z → Z.abs z < 10 ^ Z.of_nat max_str_digits)
    as Hpos.
  { intros r Hr%literal_range. lia. }
  assert (∀ r, Z.opp <$> literal r = Some z →
               Z.abs z < 10 ^ Z.of_nat max_str_digits) as Hneg.
  { intros r Hr. destruct (literal r) as [z'|] eqn:E; [|done].
    injection Hr as <-. apply literal_range in E. lia. }
  destruct (rstrip (lstrip s)) as [|c r] eqn:E; [apply Hpos|].
  destruct c as [[] [] [] [] [] [] [] []]; try apply Hpos; apply Hneg.
Qed.

Lemma int_range c z :
  int c = Ok z → Z.abs z < 10 ^ Z.of_nat max_str_digits.
Proof.
  destruct c as [|s]; [done|]. simpl.
  destruct (int_of_string s) as [z'|] eqn:E; [|done].
  intros [= <-]. by eapply int_of_string_range.
Qed.

(** The integers of an accepted row are what [int] returns. *)
Lemma parse_row_integers row r :
  parse_row row = Ok r →
  ∃ c1 c2, int c1 = Ok (division r) ∧ int c2 = Ok (points r).
Proof.
  unfold parse_row, getitem, mbind, result_bind, mret, result_ret.
  destruct (row !! "division") as [c1|]; [|done].
  destruct (int c1) as [z1|] eqn:E1; [|done].
  destruct (row !! "points") as [c2|]; [|done].
  destruct (int c2) as [z2|] eqn:E2; [|done].
  destruct (row !! "date") as [[|s]|]; [done| |done]. simpl.
  destruct (date_of_string s) as [d|]; [|done].
  destruct (row !! "firstname") as [c4|]; [|done].
  destruct (row !! "lastname") as [c5|]; [|done].
  destruct (row !! "summary") as [c6|]; [|done].
  intros [= <-]. simpl. eauto.
Qed.

(** *** Literals that are too long *)




End LoaderFacts.

(** ** Properties of the renderer *)

Module RendererFacts.
Import Renderer.

Lemma append_assoc (s1 s2 s3 : string) : (s1 +:+ s2) +:+ s3 = s1 +:+ s2 +:+ s3.
Proof.
  induction s1 as [|c s1 IH]; [done|].
  change (String c ((s1 +:+ s2) +:+ s3) = String c (s1 +:+ s2 +:+ s3)).
  by rewrite IH.
Qed.

Lemma append_nil_r (s : string) : s +:+ EmptyString = s.
Proof.
  induction s as [|c s IH]; [done|].
  change (String c (s +:+ EmptyString) = String c s). by rewrite IH.
Qed.

Lemma append_cons (c : ascii) (s1 s2 : string) :
  String c s1 +:+ s2 = String c (s1 +:+ s2).
Proof. done. Qed.

Lemma length_append (s1 s2 : string) :
  String.length (s1 +:+ s2) = (String.length s1 + String.length s2)%nat.
Proof.
  induction s1 as [|c s1 IH]; [done|].
  change (S (String.length (s1 +:+ s2))
          = S (String.length s1 + String.length s2)).
  by rewrite IH.
Qed.

(** *** The object built by the loop *)

Lemma foldl_append_entry output records :
  foldl append_entry output records = output ++ map Layout.entry records.
Proof.
  revert output. induction records as [|r records IH]; intros output; simpl.
  - by rewrite app_nil_r.
  - rewrite IH. unfold append_entry. by rewrite <-app_assoc.
Qed.

Lemma build_output_document records :
  build_output records = Layout.document records.
Proof. unfold build_output. by rewrite foldl_append_entry. Qed.

(** *** JSON *)

Lemma json_join_indent (indent : string) (f : record → string) r records :
  indent +:+ Json.join ("," +:+ Layout.nl +:+ indent) (map f (r :: records))
  = Json.join ("," +:+ Layout.nl) (map (λ r, indent +:+ f r) (r :: records)).
Proof.
  revert r. induction records as [|r' records IH]; intros r; [done|].
  change (indent +:+ f r +:+ ("," +:+ Layout.nl +:+ indent)
            +:+ Json.join ("," +:+ Layout.nl +:+ indent) (map f (r' :: records))
          = (indent +:+ f r) +:+ ("," +:+ Layout.nl)
            +:+ Json.join ("," +:+ Layout.nl)
                  (map (λ r, indent +:+ f r) (r' :: records))).
  rewrite <-IH. by rewrite !append_assoc.
Qed.

Lemma json_entry_encode r :
  "    " +:+ Json.iterencode 2 2 (Layout.entry r) = Layout.json_entry r.
Proof. unfold Layout.json_entry. cbn. by rewrite !append_assoc. Qed.

Lemma format_to_json_document records :
  format_to_json records = Layout.json_document records.
Proof.
  unfold format_to_json, Json.dumps, items_order.
  rewrite build_output_document.
  destruct records as [|r records]; [done|].
  unfold Layout.json_document, Layout.document.
  rewrite <-(map_ext _ _ json_entry_encode), <-json_join_indent.
  cbn [Json.iterencode map]. rewrite map_map.
  cbn. by rewrite !append_assoc.
Qed.

(** *** YAML: the writers only add to the stream *)

Import Yaml.

Lemma prefixed_stream e : prefixed (stream e)
  (Emitter EmptyString (column e) (whitespace e) (indention e) (open_ended e))
  = e.
Proof. destruct e. unfold prefixed. simpl. by rewrite append_nil_r. Qed.

Lemma write_prefixed s data e : write data (prefixed s e) = prefixed s (write data e).
Proof. unfold write, prefixed. simpl. by rewrite append_assoc. Qed.

Lemma set_flags_prefixed s w i e :
  set_flags w i (prefixed s e) = prefixed s (set_flags w i e).
Proof. done. Qed.

Lemma write_indicator_prefixed s ind n w i e :
  write_indicator ind n w i (prefixed s e)
  = prefixed s (write_indicator ind n w i e).
Proof. unfold write_indicator, prefixed. simpl. by rewrite append_assoc. Qed.

Lemma write_line_break_prefixed s e :
  write_line_break (prefixed s e) = prefixed s (write_line_break e).
Proof. unfold write_line_break, prefixed. simpl. by rewrite append_assoc. Qed.

Lemma write_indent_prefixed s indent e :
  write_indent indent (prefixed s e) = prefixed s (write_indent indent e).
Proof.
  unfold write_indent.
  change (indention (prefixed s e)) with (indention e).
  change (column (prefixed s e)) with (column e).
  change (whitespace (prefixed s e)) with (whitespace e).
  destruct (_ || _ || _).
  - rewrite write_line_break_prefixed.
    change (column (prefixed s ?x)) with (column x).
    destruct (_ <? _)%nat; [|done].
    unfold prefixed. simpl. by rewrite append_assoc.
  - destruct (_ <? _)%nat; [|done].
    unfold prefixed. simpl. by rewrite append_assoc.
Qed.

Lemma write_breaks_prefixed s indent pending e :
  write_breaks indent pending (prefixed s e)
  = prefixed s (write_breaks indent pending e).
Proof.
  unfold write_breaks.
  assert (∀ l e, fold_left
      (λ e br, if Ascii.eqb br newline then write_line_break e
               else Emitter (stream e +:+ String br EmptyString) 0
                      true true (open_ended e)) l (prefixed s e)
    = prefixed s (fold_left
      (λ e br, if Ascii.eqb br newline then write_line_break e
               else Emitter (stream e +:+ String br EmptyString) 0
                      true true (open_ended e)) l e)) as Hfold.
  { induction l as [|br l IH]; intros e'; [done|]. simpl.
    destruct (Ascii.eqb br newline).
    - by rewrite write_line_break_prefixed, IH.
    - rewrite <-IH. f_equal. unfold prefixed. simpl. by rewrite append_assoc. }
  destruct (next_is _ pending).
  - by rewrite write_line_break_prefixed, Hfold, write_indent_prefixed.
  - by rewrite Hfold, write_indent_prefixed.
Qed.

Lemma mark_open_ended_prefixed s e :
  mark_open_ended (prefixed s e) = prefixed s (mark_open_ended e).
Proof. done. Qed.

Ltac push_prefixed :=
  repeat first
    [ rewrite write_prefixed | rewrite set_flags_prefixed
    | rewrite mark_open_ended_prefixed
    | rewrite write_indicator_prefixed | rewrite write_line_break_prefixed
    | rewrite write_indent_prefixed | rewrite write_breaks_prefixed ].

Ltac prefixed_fields :=
  repeat match goal with
  | |- context [column (prefixed ?s ?e)] =>
      change (column (prefixed s e)) with (column e)
  | |- context [whitespace (prefixed ?s ?e)] =>
      change (whitespace (prefixed s e)) with (whitespace e)
  | |- context [indention (prefixed ?s ?e)] =>
      change (indention (prefixed s e)) with (indention e)
  | |- context [open_ended (prefixed ?s ?e)] =>
      change (open_ended (prefixed s e)) with (open_ended e)
  end.

Ltac prefixed_norm :=
  repeat first [progress push_prefixed | progress prefixed_fields].

Ltac prefixed_cases IH :=
  prefixed_norm;
  repeat (case_match; simplify_eq; prefixed_norm);
  rewrite ?IH; try done.

Lemma plain_loop_prefixed s split indent spaces breaks pending rest e :
  plain_loop split indent spaces breaks pending rest (prefixed s e)
  = prefixed s (plain_loop split indent spaces breaks pending rest e).
Proof.
  revert spaces breaks pending e.
  induction rest as [|ch rest IH]; intros spaces breaks pending e;
    cbn [plain_loop]; prefixed_cases IH.
Qed.

Lemma single_quoted_loop_prefixed s split indent spaces breaks at_start
    pending rest e :
  single_quoted_loop split indent spaces breaks at_start pending rest
    (prefixed s e)
  = prefixed s
      (single_quoted_loop split indent spaces breaks at_start pending rest e).
Proof.
  revert spaces breaks at_start pending e.
  induction rest as [|ch rest IH]; intros spaces breaks at_start pending e;
    cbn [single_quoted_loop]; prefixed_cases IH.
Qed.

Lemma double_quoted_loop_prefixed s split indent first pending rest e :
  double_quoted_loop split indent first pending rest (prefixed s e)
  = prefixed s (double_quoted_loop split indent first pending rest e).
Proof.
  revert first pending e.
  induction rest as [|ch rest IH]; intros first pending e;
    cbn [double_quoted_loop]; prefixed_cases IH.
Qed.

Lemma expect_scalar_prefixed s value root simple_key indent e :
  expect_scalar value root simple_key indent (prefixed s e)
  = prefixed s (expect_scalar value root simple_key indent e).
Proof.
  unfold expect_scalar. destruct (choose_scalar_style _ _).
  - unfold write_plain. destruct root, value; prefixed_norm; try done.
    + destruct (whitespace (mark_open_ended e));
        prefixed_norm; by rewrite plain_loop_prefixed.
    + destruct (whitespace e);
        prefixed_norm; by rewrite plain_loop_prefixed.
  - unfold write_single_quoted. prefixed_norm.
    by rewrite single_quoted_loop_prefixed, write_indicator_prefixed.
  - unfold write_double_quoted. prefixed_norm.
    by rewrite double_quoted_loop_prefixed, write_indicator_prefixed.
Qed.

(** *** YAML: the state behind a scalar *)

Lemma write_indent_open_ended indent e :
  open_ended (write_indent indent e) = open_ended e.
Proof. unfold write_indent, write_line_break. by repeat case_match. Qed.

Lemma write_breaks_open_ended indent pending e :
  open_ended (write_breaks indent pending e) = open_ended e.
Proof.
  unfold write_breaks. rewrite write_indent_open_ended.
  assert (∀ l e, open_ended (fold_left
      (λ e br, if Ascii.eqb br newline then write_line_break e
               else Emitter (stream e +:+ String br EmptyString) 0
                      true true (open_ended e)) l e) = open_ended e) as Hfold.
  { induction l as [|br l IH]; intros e'; [done|]. simpl. rewrite IH.
    by destruct (Ascii.eqb br newline). }
  rewrite Hfold. by destruct (next_is _ pending).
Qed.

Ltac open_ended_norm :=
  repeat first
    [ rewrite write_indent_open_ended | rewrite write_breaks_open_ended
    | progress change (open_ended (write ?d ?e)) with (open_ended e)
    | progress change (open_ended (set_flags ?w ?i ?e)) with (open_ended e) ].

Lemma plain_loop_open_ended split indent spaces breaks pending rest e :
  open_ended (plain_loop split indent spaces breaks pending rest e)
  = open_ended e.
Proof.
  revert spaces breaks pending e.
  induction rest as [|ch rest IH]; intros spaces breaks pending e;
    cbn [plain_loop]; repeat (case_match; simplify_eq);
    rewrite ?IH; open_ended_norm; done.
Qed.

Lemma plain_loop_indention split indent spaces breaks pending rest e :
  indention e = false →
  indention (plain_loop split indent spaces breaks pending rest e) = false.
Proof.
  revert spaces breaks pending e.
  induction rest as [|ch rest IH]; intros spaces breaks pending e He;
    cbn [plain_loop]; repeat (case_match; simplify_eq);
    try apply IH; done.
Qed.

Lemma choose_scalar_style_empty simple_key :
  choose_scalar_style EmptyString simple_key ≠ Plain.
Proof. by destruct simple_key. Qed.

(** Behind a scalar that is not the root, the line has content and the
    document is not open-ended. *)
Lemma expect_scalar_flags value simple_key indent e :
  open_ended e = false →
  indention (expect_scalar value false simple_key indent e) = false ∧
  open_ended (expect_scalar value false simple_key indent e) = false.
Proof.
  intros He. unfold expect_scalar.
  destruct (choose_scalar_style value simple_key) eqn:Hstyle.
  - destruct value as [|c value].
    { by apply choose_scalar_style_empty in Hstyle. }
    unfold write_plain. rewrite plain_loop_open_ended.
    split; [by apply plain_loop_indention|].
    open_ended_norm. by destruct (whitespace e).
  - unfold write_single_quoted, write_indicator. simpl.
    by rewrite andb_false_r.
  - unfold write_double_quoted, write_indicator. simpl.
    by rewrite andb_false_r.
Qed.

(** Behind a scalar [write_indent] starts a new line. *)
Lemma write_indent_new_line indent e :
  indention e = false →
  write_indent indent e
  = Emitter (stream e +:+ Layout.nl +:+ Json.spaces (default 0%nat indent))
      (default 0%nat indent) true true (open_ended e).
Proof.
  intros He. unfold write_indent. rewrite He. simpl.
  destruct (default 0%nat indent) as [|n] eqn:Hn.
  - simpl. unfold write_line_break, Layout.nl. by rewrite append_nil_r.
  - simpl. by rewrite append_assoc.
Qed.

(** *** YAML: the layout of the document *)

Lemma emitter_prefixed s c w i o :
  Emitter s c w i o = prefixed s (Emitter EmptyString c w i o).
Proof. unfold prefixed. simpl. by rewrite append_nil_r. Qed.

Lemma prefixed_prefixed s1 s2 e :
  prefixed s1 (prefixed s2 e) = prefixed (s1 +:+ s2) e.
Proof. unfold prefixed. simpl. by rewrite append_assoc. Qed.

(** From the end of the previous line to the value of [name]. *)
Lemma expect_name_key e :
  indention e = false →
  write_indicator ":" false false false
    (expect_scalar "name" false true (Some 2%nat)
       (write_indent (Some 2%nat)
          (write_indicator "-" true false true
             (write_indent (Some 0%nat) e))))
  = prefixed (stream e +:+ Layout.nl +:+ "- name:")
      (Emitter EmptyString 7 false false false).
Proof.
  destruct e as [s c w i o]. simpl. intros ->.
  rewrite (emitter_prefixed s). push_prefixed.
  rewrite expect_scalar_prefixed. push_prefixed.
  rewrite <-prefixed_prefixed. f_equal; by destruct o, w.
Qed.

(** From the end of the value of [name] to the value of [details]. *)
Lemma expect_details_key e :
  indention e = false →
  write_indicator ":" false false false
    (expect_scalar "details" false true (Some 2%nat)
       (write_indent (Some 2%nat) e))
  = prefixed (stream e +:+ Layout.nl +:+ "  details:")
      (Emitter EmptyString 10 false false false).
Proof.
  destruct e as [s c w i o]. simpl. intros ->.
  rewrite (emitter_prefixed s). push_prefixed.
  rewrite expect_scalar_prefixed. push_prefixed.
  rewrite <-prefixed_prefixed. f_equal; by destruct o, w.
Qed.

(** One entry of the sequence. *)
Lemma expect_entry r e :
  indention e = false → open_ended e = false →
  let e' := expect_node (Layout.entry r) false false (Some 0%nat)
              (write_indicator "-" true false true
                 (write_indent (Some 0%nat) e)) in
  stream e' = stream e +:+ Layout.nl
              +:+ "- name:" +:+ Layout.yaml_scalar 7 (Layout.name r) +:+ Layout.nl
              +:+ "  details:" +:+ Layout.yaml_scalar 10 (Layout.details r)
  ∧ indention e' = false ∧ open_ended e' = false.
Proof.
  intros He Ho.
  cbn [expect_node Layout.entry expect_block_mapping_key increase_indent].
  change (check_simple_key "name") with true.
  change (check_simple_key "details") with true.
  change (0 + best_indent)%nat with 2%nat. cbv iota.
  rewrite expect_name_key by done.
  rewrite expect_scalar_prefixed.
  destruct (expect_scalar_flags (Layout.name r) false (Some 2%nat)
              (Emitter EmptyString 7 false false false) eq_refl) as [Hi1 Ho1].
  rewrite expect_details_key by done.
  rewrite expect_scalar_prefixed.
  destruct (expect_scalar_flags (Layout.details r) false (Some 2%nat)
              (Emitter EmptyString 10 false false false) eq_refl) as [Hi2 Ho2].
  split_and!; [|done..].
  unfold Layout.yaml_scalar. simpl. by rewrite !append_assoc.
Qed.

(** The entries of the sequence, each on new lines. *)
Lemma expect_entries records e :
  indention e = false → open_ended e = false →
  let e' := expect_block_sequence_item
              (λ item e, expect_node item false false (Some 0%nat) e)
              (Some 0%nat) (map Layout.entry records) e in
  stream e' = stream e +:+ Layout.concat (map (λ r, Layout.nl +:+ 
                "- name:" +:+ Layout.yaml_scalar 7 (Layout.name r) +:+ Layout.nl
                +:+ "  details:" +:+ Layout.yaml_scalar 10 (Layout.details r))
                records)
  ∧ indention e' = false ∧ open_ended e' = false.
Proof.
  revert e. induction records as [|r records IH]; intros e He Ho.
  - simpl. by rewrite append_nil_r.
  - cbn [map expect_block_sequence_item].
    destruct (expect_entry r e He Ho) as (Hs & Hi & Hoe).
    destruct (IH _ Hi Hoe) as (Hs' & Hi' & Hoe').
    split_and!; [|done..].
    rewrite Hs', Hs. cbn [Layout.concat]. by rewrite !append_assoc.
Qed.

Lemma concat_shift (f : record → string) records :
  Layout.concat (map (λ r, Layout.nl +:+ f r) records) +:+ Layout.nl
  = Layout.nl +:+ Layout.concat (map (λ r, f r +:+ Layout.nl) records).
Proof.
  induction records as [|r records IH]; [done|].
  cbn [map Layout.concat]. by rewrite !append_assoc, IH.
Qed.

Lemma format_to_yaml_document records :
  format_to_yaml records = Layout.yaml_document records.
Proof.
  unfold format_to_yaml, dump, items_order, emit.
  rewrite build_output_document.
  destruct records as [|r records]; [by vm_compute|].
  unfold Layout.document.
  cbn [expect_node expect_block_mapping_key increase_indent].
  change (check_simple_key "records") with true. cbv iota.
  change (write_indicator ":" false false false
            (expect_scalar "records" false true (Some 0%nat)
               (write_indent (Some 0%nat) initial)))
    with (Emitter "records:" 8 false false false).
  change (map Layout.entry (r :: records))
    with (Layout.entry r :: map Layout.entry records).
  cbn [indention negb andb increase_indent].
  change (Layout.entry r :: map Layout.entry records)
    with (map Layout.entry (r :: records)).
  destruct (expect_entries (r :: records)
              (Emitter "records:" 8 false false false) eq_refl eq_refl)
    as (Hs & Hi & Ho).
  set (e' := expect_block_sequence_item _ _ _ _) in *.
  rewrite write_indent_new_line by done. cbn [open_ended stream default].
  rewrite Ho, Hs. unfold Layout.yaml_document, Layout.yaml_entry.
  cbn [stream Json.spaces]. rewrite append_nil_r, append_assoc, concat_shift.
  do 3 f_equal. apply map_ext. intros r'. by rewrite !append_assoc.
Qed.

(** *** The characters of the JSON text *)

Lemma all_chars_app p s1 s2 :
  all_chars p (s1 +:+ s2) = all_chars p s1 && all_chars p s2.
Proof.
  induction s1 as [|c s1 IH]; simpl; [done|]. by rewrite IH, andb_assoc.
Qed.

Lemma escape_ascii c : all_chars is_ascii_text (Renderer.Json.escape c) = true.
Proof. destruct c as [[] [] [] [] [] [] [] []]; vm_compute; reflexivity. Qed.

Lemma escape_all_ascii s :
  all_chars is_ascii_text (Renderer.Json.escape_all s) = true.
Proof.
  induction s as [|c s IH]; simpl; [done|].
  by rewrite all_chars_app, escape_ascii, IH.
Qed.

Lemma encode_ascii s :
  all_chars is_ascii_text (Renderer.Json.encode_basestring_ascii s) = true.
Proof.
  unfold Renderer.Json.encode_basestring_ascii. cbn [all_chars].
  by rewrite all_chars_app, escape_all_ascii.
Qed.

Lemma join_ascii sep texts :
  all_chars is_ascii_text sep = true →
  Forall (λ text, all_chars is_ascii_text text = true) texts →
  all_chars is_ascii_text (Renderer.Json.join sep texts) = true.
Proof.
  intros Hsep. induction 1 as [|text texts Ht _ IH]; [done|].
  destruct texts as [|text' texts]; [done|].
  change (Renderer.Json.join sep (text :: text' :: texts))
    with (text +:+ sep +:+ Renderer.Json.join sep (text' :: texts)).
  by rewrite !all_chars_app, Ht, Hsep, IH.
Qed.

(** *** Lists with the same image *)

Lemma map_eq_transfer {A B C} (f : A → B) (g : A → C) (l l' : list A) :
  (∀ x y, f x = f y → g x = g y) → map f l = map f l' → map g l = map g l'.
Proof.
  intros Hfg. revert l'.
  induction l as [|x l IH]; intros [|y l'] H; try done.
  injection H as Hx Hl. simpl. f_equal; auto.
Qed.

End RendererFacts.

(** ** Reading JSON back *)

Module JsonRoundTrip.
Import Renderer RendererFacts Parsers.
#[local] Open Scope nat_scope.

Lemma append_nil_l (s : string) : EmptyString +:+ s = s.
Proof. done. Qed.

(** Bring a text to the form [String c1 (String c2 (... +:+ rest))]. *)
Ltac norm_str :=
  repeat first
    [ rewrite append_cons | rewrite append_nil_l | rewrite append_assoc ].

(** The escape of a character reads back as the character. *)
Lemma scanstring_escape c rest :
  Json.scanstring (Renderer.Json.escape c +:+ rest)
  = Json.prepend c (Json.scanstring rest).
Proof.
  destruct c as [b0 b1 b2 b3 b4 b5 b6 b7].
  destruct b0, b1, b2, b3, b4, b5, b6, b7; reflexivity.
Qed.

Lemma scanstring_escape_all text rest :
  Json.scanstring
    (Renderer.Json.escape_all text +:+ String Json.quote rest)
  = Some (text, rest).
Proof.
  induction text as [|c text IH]; [done|].
  cbn [Renderer.Json.escape_all].
  by rewrite append_assoc, scanstring_escape, IH.
Qed.

(** A string value reads back. *)
Lemma scan_once_string fuel text rest :
  Json.scan_once (S fuel)
    (Renderer.Json.encode_basestring_ascii text +:+ rest)
  = Some (PStr text, rest).
Proof.
  unfold Renderer.Json.encode_basestring_ascii. norm_str.
  cbn [Json.scan_once]. change (Ascii.eqb Renderer.Json.quote Json.quote) with true.
  cbv iota. by rewrite scanstring_escape_all.
Qed.

Lemma skip_whitespace_spaces n s :
  Json.skip_whitespace (Renderer.Json.spaces n +:+ s) = Json.skip_whitespace s.
Proof.
  induction n as [|n IH]; [done|].
  cbn [Renderer.Json.spaces]. rewrite append_cons. cbn [Json.skip_whitespace].
  by change (Json.is_whitespace " ") with true.
Qed.

Lemma skip_whitespace_newline_indent indent level s :
  Json.skip_whitespace (Renderer.Json.newline_indent indent level +:+ s)
  = Json.skip_whitespace s.
Proof.
  unfold Renderer.Json.newline_indent. rewrite append_cons.
  cbn [Json.skip_whitespace]. change (Json.is_whitespace "010") with true.
  cbv iota. apply skip_whitespace_spaces.
Qed.

Lemma iterencode_head indent level o :
  ∃ c s, Renderer.Json.iterencode indent level o = String c s ∧ Json.value_head c.
Proof.
  destruct o as [text|[|item items]|[|[key value] items]]; cbn;
    eexists _, _; (split; [reflexivity|]); unfold Json.value_head; auto.
Qed.

Lemma skip_whitespace_head c s :
  Json.value_head c → Json.skip_whitespace (String c s) = String c s.
Proof. by intros [->|[->| ->]]. Qed.

Lemma skip_whitespace_iterencode indent level o rest :
  Json.skip_whitespace (Renderer.Json.iterencode indent level o +:+ rest)
  = Renderer.Json.iterencode indent level o +:+ rest.
Proof.
  destruct (iterencode_head indent level o) as (c & s & -> & Hc).
  rewrite append_cons. by apply skip_whitespace_head.
Qed.

Lemma join_cons sep (texts : list string) text :
  ∃ s, Renderer.Json.join sep (text :: texts) = text +:+ s.
Proof.
  destruct texts as [|text' texts].
  - exists EmptyString. simpl. by rewrite append_nil_r.
  - by eexists.
Qed.

Lemma skip_whitespace_join indent level sep item items rest :
  Json.skip_whitespace
    (Renderer.Json.join sep (map (Renderer.Json.iterencode indent level) (item :: items)) +:+ rest)
  = Renderer.Json.join sep (map (Renderer.Json.iterencode indent level) (item :: items)) +:+ rest.
Proof.
  cbn [map].
  destruct (join_cons sep (map (Renderer.Json.iterencode indent level) items)
              (Renderer.Json.iterencode indent level item)) as [s ->].
  rewrite append_assoc. apply skip_whitespace_iterencode.
Qed.

Lemma array_items_S fuel s values :
  Json.array_items (S fuel) s values
  = '(value, s1) ← Json.scan_once fuel s;
    match Json.skip_whitespace s1 with
    | String c s2 =>
        if Ascii.eqb c "]" then Some (values ++ [value], s2)
        else if Ascii.eqb c ","
        then Json.array_items fuel (Json.skip_whitespace s2) (values ++ [value])
        else None
    | EmptyString => None
    end.
Proof. done. Qed.

Lemma object_items_S fuel s pairs :
  Json.object_items (S fuel) s pairs
  = '(key, s1) ← Json.scanstring s;
    match Json.skip_whitespace s1 with
    | String ":" s2 =>
        '(value, s3) ← Json.scan_once fuel (Json.skip_whitespace s2);
        match Json.skip_whitespace s3 with
        | String c s4 =>
            if Ascii.eqb c "}" then Some (pairs ++ [(key, value)], s4)
            else if Ascii.eqb c "," then
              match Json.skip_whitespace s4 with
              | String c' s5 =>
                  if Ascii.eqb c' Json.quote
                  then Json.object_items fuel s5 (pairs ++ [(key, value)])
                  else None
              | EmptyString => None
              end
            else None
        | EmptyString => None
        end
    | _ => None
    end.
Proof. done. Qed.

Section items.
Context (indent level : nat).
Context (P : pyobj → Prop).
Context (HP : ∀ item fuel rest, P item → size item ≤ fuel →
  Json.scan_once fuel (Renderer.Json.iterencode indent (S level) item +:+ rest)
  = Some (item, rest)).

Lemma array_items_join items values fuel rest :
  items ≠ [] → Forall P items →
  list_sum (map (λ item, S (size item)) items) ≤ fuel →
  Json.array_items fuel
    (Renderer.Json.join (String "," (Renderer.Json.newline_indent indent (S level)))
       (map (Renderer.Json.iterencode indent (S level)) items)
     +:+ Renderer.Json.newline_indent indent level +:+ String "]" rest) values
  = Some (values ++ items, rest).
Proof.
  revert values fuel. induction items as [|item items IH]; [done|].
  intros values fuel _ [Hitem Hitems]%Forall_cons Hfuel.
  simpl in Hfuel. destruct fuel as [|fuel]; [lia|].
  rewrite array_items_S.
  destruct items as [|item' items].
  - cbn [map Renderer.Json.join]. rewrite HP by (done || simpl in *; lia).
    cbn [mbind option_bind]. rewrite skip_whitespace_newline_indent.
    done.
  - change (Renderer.Json.join ?sep (map ?f (item :: item' :: items)))
      with (f item +:+ sep +:+ Renderer.Json.join sep (map f (item' :: items))).
    norm_str. rewrite HP by (done || simpl in *; lia).
    cbn [mbind option_bind].
    change (Json.skip_whitespace (String "," ?s)) with (String "," s).
    cbv iota. change (Ascii.eqb "," "]") with false.
    change (Ascii.eqb "," ",") with true. cbv iota.
    rewrite skip_whitespace_newline_indent, skip_whitespace_join.
    rewrite IH; [by rewrite <-app_assoc|done|done|simpl in *; lia].
Qed.
End items.

(** The same for the pairs of an object. *)
Section pairs.
Context (indent level : nat).
Context (P : pyobj → Prop).
Context (HP : ∀ item fuel rest, P item → size item ≤ fuel →
  Json.scan_once fuel (Renderer.Json.iterencode indent (S level) item +:+ rest)
  = Some (item, rest)).

Local Abbreviation encode_pair := (Json.encode_pair indent level).

Lemma object_items_join items pairs fuel rest :
  items ≠ [] → Forall (λ kv, P kv.2) items →
  list_sum (map (λ kv, S (size kv.2)) items) ≤ fuel →
  ∃ s, Renderer.Json.join (String "," (Renderer.Json.newline_indent indent (S level)))
         (map encode_pair items)
       +:+ Renderer.Json.newline_indent indent level +:+ String "}" rest
       = String Json.quote s ∧
       Json.object_items fuel s pairs = Some (pairs ++ items, rest).
Proof.
  revert pairs fuel. induction items as [|[key value] items IH]; [done|].
  intros pairs fuel _ [Hitem Hitems]%Forall_cons Hfuel.
  simpl in Hfuel. destruct fuel as [|fuel]; [lia|].
  destruct items as [|kv' items].
  - cbn [map Renderer.Json.join Json.encode_pair]. unfold Renderer.Json.encode_basestring_ascii.
    norm_str. eexists. split; [reflexivity|].
    rewrite object_items_S, scanstring_escape_all.
    cbn [mbind option_bind].
    change (Json.skip_whitespace (String ":" ?s)) with (String ":" s).
    cbv iota.
    change (Json.skip_whitespace (String " " ?s)) with (Json.skip_whitespace s).
    rewrite skip_whitespace_iterencode.
    rewrite HP by (done || lia). cbn [mbind option_bind].
    rewrite skip_whitespace_newline_indent. done.
  - change (Renderer.Json.join ?sep (map ?f ((key, value) :: kv' :: items)))
      with (f (key, value) +:+ sep +:+ Renderer.Json.join sep (map f (kv' :: items))).
    cbn [Json.encode_pair]. unfold Renderer.Json.encode_basestring_ascii at 1.
    norm_str. eexists. split; [reflexivity|].
    rewrite object_items_S, scanstring_escape_all.
    cbn [mbind option_bind].
    change (Json.skip_whitespace (String ":" ?s)) with (String ":" s).
    cbv iota.
    change (Json.skip_whitespace (String " " ?s)) with (Json.skip_whitespace s).
    rewrite skip_whitespace_iterencode.
    rewrite HP by (done || lia). cbn [mbind option_bind].
    change (Json.skip_whitespace (String "," ?s)) with (String "," s).
    cbv iota. change (Ascii.eqb "," "}") with false.
    change (Ascii.eqb "," ",") with true. cbv iota.
    rewrite skip_whitespace_newline_indent.
    destruct (IH (pairs ++ [(key, value)]) fuel) as (s & Hs & Hitems');
      [done|done|simpl in *; lia|].
    rewrite Hs.
    change (Json.skip_whitespace (String Json.quote ?s)) with (String Json.quote s).
    cbv iota. change (Ascii.eqb Json.quote Json.quote) with true. cbv iota.
    by rewrite Hitems', <-app_assoc.
Qed.
End pairs.

Lemma dict_set_fresh key value items :
  key ∉ items.*1 → dict_set key value items = items ++ [(key, value)].
Proof.
  induction items as [|[k v] items IH]; intros Hk; csimpl in *; [done|].
  apply not_elem_of_cons in Hk as [Hne Hk].
  rewrite (proj2 (String.eqb_neq k key)) by done. by rewrite IH.
Qed.

Lemma dict_NoDup_aux items pairs :
  NoDup (items ++ pairs).*1 →
  foldl (λ items kv, dict_set kv.1 kv.2 items) items pairs = items ++ pairs.
Proof.
  revert items. induction pairs as [|[k v] pairs IH]; intros items Hnd.
  - by rewrite app_nil_r.
  - simpl. rewrite dict_set_fresh.
    + rewrite IH; rewrite <-app_assoc; done.
    + rewrite fmap_app in Hnd. apply NoDup_app in Hnd as (_ & Hd & _).
      intros Hin. eapply Hd; [done|]. csimpl. left.
Qed.

Lemma dict_NoDup pairs : NoDup pairs.*1 → dict pairs = pairs.
Proof. intros H. by apply (dict_NoDup_aux []). Qed.

Lemma well_keyed_list items :
  well_keyed (PList items) ↔ Forall well_keyed items.
Proof.
  induction items as [|item items IH]; simpl; [by split|].
  rewrite Forall_cons. simpl in IH. by rewrite IH.
Qed.

Lemma well_keyed_dict items :
  well_keyed (PDict items)
  ↔ NoDup items.*1 ∧ Forall (λ kv, well_keyed kv.2) items.
Proof.
  simpl. apply and_iff_compat_l.
  induction items as [|[k v] items IH]; simpl; [by split|].
  by rewrite Forall_cons, IH.
Qed.

Lemma size_list_item item items :
  item ∈ items → size item < size (PList items).
Proof.
  intros Hin. simpl. induction Hin as [item items|item item' items _ IH];
    simpl; lia.
Qed.

Lemma size_dict_value kv items :
  kv ∈ items → size kv.2 < size (PDict items).
Proof.
  intros Hin. simpl.
  induction Hin as [[k v] items|[k v] [k' v'] items _ IH]; simpl in *; lia.
Qed.

Lemma scan_once_bracket fuel c s s1 :
  Json.skip_whitespace s1 = String c s → Json.value_head c →
  Json.scan_once (S fuel) (String "[" s1)
  = Json.array_items fuel (String c s) []
      ≫= λ '(values, rest), Some (PList values, rest).
Proof.
  intros Hs [->|[->| ->]]; cbn [Json.scan_once]; rewrite Hs; reflexivity.
Qed.

Lemma scan_once_brace fuel s s1 :
  Json.skip_whitespace s1 = String Json.quote s →
  Json.scan_once (S fuel) (String "{" s1)
  = '(pairs, rest) ← Json.object_items fuel s [];
    Some (PDict (dict pairs), rest).
Proof. intros Hs. cbn [Json.scan_once]. rewrite Hs. reflexivity. Qed.

(** Every value reads back, with the text behind it left over. *)
Lemma scan_once_iterencode indent n :
  ∀ o, size o ≤ n → well_keyed o →
  ∀ fuel level rest, size o ≤ fuel →
  Json.scan_once fuel (Renderer.Json.iterencode indent level o +:+ rest) = Some (o, rest).
Proof.
  induction n as [|n IH]; intros o Hn Hk fuel level rest Hfuel.
  { destruct o; simpl in Hn; lia. }
  destruct fuel as [|fuel]; [destruct o; simpl in Hfuel; lia|].
  destruct o as [text|items|items].
  - apply scan_once_string.
  - destruct items as [|item items]; [done|].
    apply well_keyed_list in Hk.
    cbn [Renderer.Json.iterencode]. norm_str.
    assert (∃ c s, Json.value_head c ∧
      Renderer.Json.join (String "," (Renderer.Json.newline_indent indent (S level)))
        (map (Renderer.Json.iterencode indent (S level)) (item :: items))
      +:+ Renderer.Json.newline_indent indent level +:+ String "]" rest = String c s)
      as (c & s & Hc & Hs).
    { cbn [map].
      destruct (join_cons (String "," (Renderer.Json.newline_indent indent (S level)))
        (map (Renderer.Json.iterencode indent (S level)) items)
        (Renderer.Json.iterencode indent (S level) item)) as [s ->].
      destruct (iterencode_head indent (S level) item) as (c & s' & -> & Hc).
      norm_str. eauto. }
    rewrite (scan_once_bracket fuel c s); [|
      by rewrite skip_whitespace_newline_indent, skip_whitespace_join|done].
    rewrite <-Hs.
    rewrite (array_items_join indent level
               (λ item, size item ≤ n ∧ well_keyed item)); [done|..].
    + intros item' fuel' rest' [??] ?. by apply IH.
    + done.
    + apply Forall_forall. intros item' Hin. split.
      * apply size_list_item in Hin. lia.
      * by eapply Forall_forall in Hk.
    + simpl in *. lia.
  - destruct items as [|kv items]; [done|].
    apply well_keyed_dict in Hk as [Hnd Hk].
    cbn [Renderer.Json.iterencode]. norm_str.
    destruct (object_items_join indent level
                (λ item, size item ≤ n ∧ well_keyed item)) with
      (items := kv :: items) (pairs := @nil (string * pyobj))
      (fuel := fuel) (rest := rest) as (s & Hs & Hitems).
    + intros item' fuel' rest' [??] ?. by apply IH.
    + done.
    + apply Forall_forall. intros kv' Hin. split.
      * apply size_dict_value in Hin. lia.
      * by eapply Forall_forall in Hk.
    + simpl in *. lia.
    + rewrite (scan_once_brace fuel s).
      * rewrite Hitems. cbn [mbind option_bind app]. by rewrite dict_NoDup.
      * rewrite skip_whitespace_newline_indent. unfold Json.encode_pair in Hs.
        etrans; [|by rewrite <-Hs].
        rewrite Hs. done.
Qed.

Lemma length_join {A} (sep : string) (f : A → string) (g : A → nat) l :
  (1 ≤ String.length sep)%nat → Forall (λ x, g x ≤ String.length (f x)) l →
  list_sum (map (λ x, S (g x)) l) ≤ S (String.length (Renderer.Json.join sep (map f l))).
Proof.
  intros Hsep. induction 1 as [|x l Hx Hl IH]; [simpl; lia|].
  destruct l as [|y l].
  - simpl in *. lia.
  - change (Renderer.Json.join sep (map f (x :: y :: l)))
      with (f x +:+ sep +:+ Renderer.Json.join sep (map f (y :: l))).
    rewrite !length_append. 
    change (list_sum (map (λ x, S (g x)) (x :: y :: l)))
      with (S (g x) + list_sum (map (λ x, S (g x)) (y :: l)))%nat.
    lia.
Qed.

Lemma length_newline_indent indent level :
  1 ≤ String.length (Renderer.Json.newline_indent indent level).
Proof. unfold Renderer.Json.newline_indent. simpl. lia. Qed.

(** The encoding of a value has at least as many characters as the value
    has parts. *)
Lemma size_le_length indent n :
  ∀ o level, size o ≤ n → size o ≤ String.length (Renderer.Json.iterencode indent level o).
Proof.
  induction n as [|n IH]; intros o level Hn.
  { destruct o; simpl in Hn; lia. }
  destruct o as [text|[|item items]|[|kv items]]; try (simpl; lia).
  - cbn [Renderer.Json.iterencode]. change ("," +:+ ?x) with (String "," x).
    rewrite !length_append.
    change (String.length "[") with 1%nat.
    change (String.length "]") with 1%nat.
    pose proof (length_join (String "," (Renderer.Json.newline_indent indent (S level)))
      (Renderer.Json.iterencode indent (S level)) size (item :: items)) as Hj.
    change (size (PList (item :: items)))
      with (S (list_sum (map (λ x, S (size x)) (item :: items)))).
    pose proof (length_newline_indent indent (S level)).
    pose proof (length_newline_indent indent level).
    assert (Forall (λ x, size x ≤ String.length (Renderer.Json.iterencode indent (S level) x))
              (item :: items)) as HF.
    { apply Forall_forall. intros x Hin. apply IH.
      apply size_list_item in Hin. lia. }
    specialize (Hj ltac:(simpl; lia) HF). lia.
  - cbn [Renderer.Json.iterencode]. change ("," +:+ ?x) with (String "," x).
    rewrite !length_append.
    change (String.length "{") with 1%nat.
    change (String.length "}") with 1%nat.
    pose proof (length_join (String "," (Renderer.Json.newline_indent indent (S level)))
      (λ '(key, value), Renderer.Json.encode_basestring_ascii key +:+ ": "
                        +:+ Renderer.Json.iterencode indent (S level) value)
      (λ kv, size kv.2) (kv :: items)) as Hj.
    change (size (PDict (kv :: items)))
      with (S (list_sum (map (λ kv, S (size kv.2)) (kv :: items)))).
    pose proof (length_newline_indent indent (S level)).
    pose proof (length_newline_indent indent level).
    assert (Forall (λ kv : string * pyobj, size kv.2 ≤ String.length
              (let '(key, value) := kv in Renderer.Json.encode_basestring_ascii key
                 +:+ ": " +:+ Renderer.Json.iterencode indent (S level) value))
              (kv :: items)) as HF.
    { apply Forall_forall. intros [k v] Hin. rewrite !length_append.
      pose proof (IH v (S level)) as Hv.
      apply size_dict_value in Hin. simpl in *. lia. }
    specialize (Hj ltac:(simpl; lia) HF). lia.
Qed.

(** [json.loads(json.dumps(obj, indent=indent))] is [obj]. *)
Lemma loads_dumps o indent :
  well_keyed o → Json.loads (Renderer.Json.dumps o indent false) = Some o.
Proof.
  intros Hk. unfold Json.loads, Renderer.Json.dumps, items_order.
  rewrite <-(append_nil_r (Renderer.Json.iterencode indent 0 o)) at 2.
  rewrite skip_whitespace_iterencode.
  rewrite (scan_once_iterencode indent (size o)); [done|done|done|].
  pose proof (size_le_length indent (size o) o 0). lia.
Qed.

(** The object of the formatters has no key twice. *)
Lemma document_well_keyed records : well_keyed (build_output records).
Proof.
  rewrite RendererFacts.build_output_document. simpl.
  split; [apply NoDup_singleton|]. split; [|done].
  induction records as [|r records IH]; simpl; [done|]. split; [|done].
  split; [|done]. apply NoDup_cons. split; [|apply NoDup_singleton].
  by intros [=]%list_elem_of_singleton.
Qed.

End JsonRoundTrip.

(** ** Properties of [main] *)

Module MainFacts.
Import Loader LoaderFacts Ranker Renderer Main.

(** How [main] goes on once [read_csv] has returned records. *)
Lemma main_after_read_csv f top_n output_format output_file write_error rs log :
  read_csv f = (Ok rs, log) → rs ≠ [] →
  main f top_n output_format output_file write_error
  = let output :=
      if String.eqb output_format "json"
      then format_to_json (get_top_records rs top_n)
      else format_to_yaml (get_top_records rs top_n) in
    let head := InfoProcessingFile :: log
                ++ [InfoReadRecords (length rs); InfoSelectedTop top_n;
                    InfoFormatted output_format] in
    match output_file with
    | Some (String c path) =>
        match write_error with
        | Some OSError => (Raise (SystemExit 1), head ++ [ErrorWriteFailed])
        | Some e => (Raise e, head)
        | None => (Ok (Written (String c path) output), head ++ [InfoWritten])
        end
    | _ => (Ok (Printed output), head ++ [InfoPrinted])
    end.
Proof.
  intros Hr Hn. unfold main. rewrite Hr. unfold_M.
  rewrite bool_decide_eq_false_2 by done.
  destruct output_file as [[|c path]|]; simpl.
  - by rewrite <-!app_assoc.
  - destruct write_error as [[]|]; simpl; by rewrite <-?app_assoc.
  - by rewrite <-!app_assoc.
Qed.

Lemma main_after_read_csv_fails f top_n output_format output_file write_error
    e log :
  read_csv f = (Raise e, log) →
  main f top_n output_format output_file write_error
  = (Raise e, InfoProcessingFile :: log).
Proof. intros Hr. unfold main. rewrite Hr. by unfold_M. Qed.

Lemma main_after_read_csv_empty f top_n output_format output_file write_error
    log :
  read_csv f = (Ok [], log) →
  main f top_n output_format output_file write_error
  = (Raise (SystemExit 1), InfoProcessingFile :: log ++ [ErrorNoValidRecords]).
Proof.
  intros Hr. unfold main. rewrite Hr. unfold_M. simpl.
  by rewrite <-?app_assoc.
Qed.

(** How [main] can return. *)
Lemma main_returns f top_n output_format output_file write_error dest :
  (main f top_n output_format output_file write_error).1 = Ok dest →
  ∃ fieldnames items,
    f = Opened (Line fieldnames :: items) ∧
    accepted fieldnames items ≠ [] ∧
    dest = match output_file with
           | Some (String c path) =>
               Written (String c path)
                 ((if String.eqb output_format "json" then format_to_json
                   else format_to_yaml)
                    (get_top_records (accepted fieldnames items) top_n))
           | _ =>
               Printed
                 ((if String.eqb output_format "json" then format_to_json
                   else format_to_yaml)
                    (get_top_records (accepted fieldnames items) top_n))
           end.
Proof.
  destruct (read_csv f) as [[rs|e] log] eqn:Hr.
  - destruct (decide (rs = [])) as [->|Hn].
    { by rewrite (main_after_read_csv_empty _ _ _ _ _ _ Hr). }
    rewrite (main_after_read_csv _ _ _ _ _ _ _ Hr Hn).
    destruct (read_csv_returns_accepted f rs) as (fieldnames & items & -> & _ & ->);
      [by rewrite Hr|].
    intros H. exists fieldnames, items. split; [done|]. split; [done|].
    cbn zeta in *.
    destruct output_file as [[|c path]|]; [| |];
      [|destruct write_error as [[]|]|]; simplify_eq/=;
      by destruct (String.eqb output_format "json").
  - by rewrite (main_after_read_csv_fails _ _ _ _ _ _ _ Hr).
Qed.

End MainFacts.

(** ** Properties of the menu *)

Module MenuFacts.
Import Loader Main Menu.

Lemma read_top_n_value line c :
  read_top_n line c
  = (Some (default 3 (int_of_string line)),
     Console (stdin c)
       (stdout c
        ++ if bool_decide (line ≠ EmptyString ∧ int_of_string line = None)
           then [Print "Invalid input. Defaulting to 3."] else [])).
Proof.
  unfold read_top_n. destruct c as [lines out]. destruct line as [|ch line].
  { simpl. by rewrite app_nil_r. }
  change (String.eqb (String ch line) EmptyString) with false. cbv iota.
  case_bool_decide as Hd.
  - by destruct Hd as [_ ->].
  - destruct (int_of_string (String ch line)) as [n|]; simpl.
    + by rewrite app_nil_r.
    + by destruct Hd.
Qed.

(** The menu on an input of at least four lines. *)
Lemma interactive_menu_run l1 l2 l3 l4 rest out :
  let answers output_file :=
    (strip l1, default 3 (int_of_string l2),
     if String.eqb (strip l3) "2" then "json" else "yaml", output_file) in
  interactive_menu (Console (l1 :: l2 :: l3 :: l4 :: rest) out)
  = if String.eqb (lower (strip l4)) "y"
    then match rest with
         | [] =>
             (None,
              Console [] (out ++ questions l2
                          ++ [Prompt "Enter the output file path: "]))
         | l5 :: rest' =>
             (Some (answers (Some (strip l5))),
              Console rest' (out ++ questions l2
                             ++ [Prompt "Enter the output file path: "]))
         end
    else (Some (answers None), Console rest (out ++ questions l2)).
Proof.
  cbn zeta.
  unfold interactive_menu, mbind, IO_bind, io_bind, mret, IO_ret, io_ret.
  cbn [input print stdin stdout]. rewrite read_top_n_value.
  cbn [input print stdin stdout]. unfold questions.
  destruct (String.eqb (lower (strip l4)) "y").
  - destruct rest; cbn [input print stdin stdout]; by rewrite <-?app_assoc.
  - by rewrite <-?app_assoc.
Qed.

(** With fewer than four lines the input ends under a question. *)
Lemma interactive_menu_eof c :
  (length (stdin c) < 4)%nat → (interactive_menu c).1 = None.
Proof.
  destruct c as [lines out]. simpl. intros Hl.
  unfold interactive_menu, mbind, IO_bind, io_bind, mret, IO_ret, io_ret.
  destruct lines as [|l1 [|l2 lines]]; [done..|].
  cbn [input print stdin stdout]. rewrite read_top_n_value.
  cbn [input print stdin stdout].
  destruct lines as [|l3 [|l4 lines]]; [done..|]. simpl in Hl. lia.
Qed.

(** How the menu can return. *)
Lemma interactive_menu_returns c file_path top_n output_format output_file :
  (interactive_menu c).1 = Some (file_path, top_n, output_format, output_file) →
  ∃ l1 l2 l3 l4 rest,
    stdin c = l1 :: l2 :: l3 :: l4 :: rest ∧
    file_path = strip l1 ∧ top_n = default 3 (int_of_string l2) ∧
    output_format = (if String.eqb (strip l3) "2" then "json" else "yaml") ∧
    ((lower (strip l4) ≠ "y" ∧ output_file = None ∧
      interactive_menu c
      = (Some (file_path, top_n, output_format, output_file),
         Console rest (stdout c ++ questions l2))) ∨
     (lower (strip l4) = "y" ∧
      ∃ l5 rest', rest = l5 :: rest' ∧ output_file = Some (strip l5) ∧
        interactive_menu c
        = (Some (file_path, top_n, output_format, output_file),
           Console rest' (stdout c ++ questions l2
                          ++ [Prompt "Enter the output file path: "])))).
Proof.
  destruct (decide (length (stdin c) < 4)%nat) as [Hl|Hl].
  { by rewrite interactive_menu_eof. }
  destruct c as [[|l1 [|l2 [|l3 [|l4 rest]]]] out]; simpl in Hl; try lia.
  rewrite interactive_menu_run. cbn zeta.
  destruct (String.eqb_spec (lower (strip l4)) "y") as [Hy|Hy].
  - destruct rest as [|l5 rest']; [done|]. simpl. intros [= <- <- <- <-].
    exists l1, l2, l3, l4, (l5 :: rest'). split_and!; [done..|].
    right. split; [done|]. by exists l5, rest'.
  - simpl. intros [= <- <- <- <-].
    exists l1, l2, l3, l4, rest. split_and!; [done..|]. by left.
Qed.

(** The answers [lower] turns into [y]. *)
Lemma lower_is_y s : lower s = "y" ↔ s = "y" ∨ s = "Y".
Proof.
  split; [|by intros [->| ->]].
  destruct s as [|ch [|ch' s]]; [done| |done].
  destruct ch as [[] [] [] [] [] [] [] []]; vm_compute; intros [=]; auto.
Qed.

(** The answer that names an output file, and the line that holds the
    path. *)
Lemma interactive_menu_save c file_path top_n output_format output_file :
  (interactive_menu c).1 = Some (file_path, top_n, output_format, output_file) →
  ∃ answer,
    stdin c !! 3%nat = Some answer ∧
    match output_file with
    | None => strip answer ≠ "y" ∧ strip answer ≠ "Y"
    | Some path =>
        (strip answer = "y" ∨ strip answer = "Y") ∧
        ∃ line, stdin c !! 4%nat = Some line ∧ path = strip line
    end.
Proof.
  intros (l1 & l2 & l3 & l4 & rest & Hin & _ & _ & _ & H)%interactive_menu_returns.
  exists l4. rewrite Hin. split; [done|].
  destruct H as [(Hy & -> & _)|(Hy & l5 & rest' & -> & -> & _)].
  - rewrite lower_is_y in Hy. split; by auto.
  - rewrite lower_is_y in Hy. split; [done|]. by exists l5.
Qed.

(** [strip] leaves nothing to strip. *)
Lemma rstrip_lstrip_stable s :
  lstrip s = s → lstrip (rstrip s) = rstrip s.
Proof.
  destruct s as [|ch s]; [done|]. simpl.
  destruct (is_whitespace ch) eqn:Hch.
  - intros H. exfalso.
    assert (∀ t, (String.length (lstrip t) ≤ String.length t)%nat) as Hlen.
    { clear. induction t as [|c t IH]; simpl; [done|].
      destruct (is_whitespace c); simpl; lia. }
    specialize (Hlen s). rewrite H in Hlen. simpl in Hlen. lia.
  - intros _. destruct (rstrip s); simpl; by rewrite Hch.
Qed.

Lemma lstrip_lstrip s : lstrip (lstrip s) = lstrip s.
Proof.
  induction s as [|ch s IH]; simpl; [done|].
  destruct (is_whitespace ch) eqn:Hch; [done|]. simpl. by rewrite Hch.
Qed.

Lemma rstrip_rstrip s : rstrip (rstrip s) = rstrip s.
Proof.
  induction s as [|ch s IH]; simpl; [done|].
  destruct (rstrip s) as [|ch' r] eqn:Hr.
  - destruct (is_whitespace ch) eqn:Hch; simpl; [done|]. by rewrite Hch.
  - change (rstrip (String ch (String ch' r)))
      with (match rstrip (String ch' r) with
            | EmptyString =>
                if is_whitespace ch then EmptyString else String ch EmptyString
            | r' => String ch r'
            end).
    by rewrite IH.
Qed.

Lemma strip_strip s : strip (strip s) = strip s.
Proof.
  unfold strip.
  rewrite (rstrip_lstrip_stable (lstrip s)) by apply lstrip_lstrip.
  apply rstrip_rstrip.
Qed.

End MenuFacts.

(** ** The document of the renderer is the document of the specification *)

Module SpecFacts.
Import Renderer RendererFacts Compare.

(** *** [str] of an integer is its decimal numeral *)

Ltac digit_cases k H :=
  let E := fresh in
  assert (k = 0 ∨ k = 1 ∨ k = 2 ∨ k = 3 ∨ k = 4 ∨ k = 5 ∨ k = 6 ∨ k = 7
          ∨ k = 8 ∨ k = 9)%N as E by lia;
  clear H;
  destruct E as [E|[E|[E|[E|[E|[E|[E|[E|[E|E]]]]]]]]]; rewrite E in *.

Lemma of_lu_dig k d :
  (k < 10)%N → Unsigned.of_lu (dig k d) = (k + 10 * Unsigned.of_lu d)%N.
Proof. intros H. digit_cases k H; reflexivity. Qed.

Lemma string_of_dig k d :
  (k < 10)%N →
  NilEmpty.string_of_uint (dig k d)
  = String (Spec.digit k) (NilEmpty.string_of_uint d).
Proof. intros H. digit_cases k H; reflexivity. Qed.

Lemma revapp_dig k d acc :
  (k < 10)%N → revapp (dig k d) acc = revapp d (dig k acc).
Proof. intros H. digit_cases k H; reflexivity. Qed.

Lemma nztail_dig k d :
  (k < 10)%N → (k ≠ 0%N ∨ d ≠ Nil) → nztail d = d →
  nztail (dig k d) = dig k d.
Proof.
  intros H Hn Hd. digit_cases k H; cbn [dig nztail]; rewrite ?Hd; try done.
  destruct d; [by destruct Hn|done..].
Qed.

Lemma dig_not_nil k d : dig k d ≠ Nil.
Proof. by destruct k as [|[[[[]|[]|]|[[]|[]|]|]|[[[]|[]|]|[[]|[]|]|]|]]. Qed.

Lemma mod_10_lt n : (n mod 10 < 10)%N.
Proof. by apply N.mod_lt. Qed.

Lemma little_value fuel n :
  (n < 2 ^ N.of_nat fuel)%N → Unsigned.of_lu (little fuel n) = n.
Proof.
  revert n. induction fuel as [|fuel IH]; intros n Hn.
  { cbn in *. lia. }
  cbn [little]. rewrite of_lu_dig by apply mod_10_lt.
  destruct (N.ltb_spec n 10) as [Hlt|Hge].
  - cbn [Unsigned.of_lu]. rewrite N.mod_small by done. lia.
  - rewrite IH.
    + pose proof (N.div_mod n 10). lia.
    + apply N.Div0.div_lt_upper_bound.
      rewrite Nat2N.inj_succ, N.pow_succ_r' in Hn. lia.
Qed.

Lemma little_normal fuel n :
  (1 ≤ n)%N → (n < 2 ^ N.of_nat fuel)%N →
  nztail (little fuel n) = little fuel n ∧ little fuel n ≠ Nil.
Proof.
  revert n. induction fuel as [|fuel IH]; intros n H1 Hn.
  { cbn in *. lia. }
  cbn [little]. split; [|apply dig_not_nil].
  destruct (N.ltb_spec n 10) as [Hlt|Hge].
  - apply nztail_dig; [apply mod_10_lt| |done].
    left. rewrite N.mod_small by done. lia.
  - assert (1 ≤ n / 10)%N as Hq.
    { apply N.div_le_lower_bound; lia. }
    destruct (IH (n / 10)%N Hq) as [Ht Hnil].
    { apply N.Div0.div_lt_upper_bound.
      rewrite Nat2N.inj_succ, N.pow_succ_r' in Hn. lia. }
    apply nztail_dig; [apply mod_10_lt|by right|done].
Qed.

Lemma digits_little fuel n acc :
  NilEmpty.string_of_uint (revapp (little fuel n) acc)
  = Spec.digits fuel n (NilEmpty.string_of_uint acc).
Proof.
  revert n acc. induction fuel as [|fuel IH]; intros n acc; [done|].
  cbn [little Spec.digits]. rewrite revapp_dig by apply mod_10_lt.
  destruct (n <? 10)%N.
  - cbn [revapp]. by rewrite string_of_dig by apply mod_10_lt.
  - by rewrite IH, string_of_dig by apply mod_10_lt.
Qed.

Lemma to_uint_little fuel n :
  (1 ≤ n)%N → (n < 2 ^ N.of_nat fuel)%N → N.to_uint n = Decimal.rev (little fuel n).
Proof.
  intros H1 Hn.
  destruct (little_normal fuel n H1 Hn) as [Ht Hnil].
  assert (N.to_uint n = Decimal.rev (Unsigned.to_lu n)) as -> by by destruct n.
  rewrite <-(little_value fuel n Hn) at 1.
  rewrite Unsigned.to_of_lu. unfold lnorm. rewrite Ht.
  by destruct (little fuel n).
Qed.

(** The numeral of a natural number. *)
Lemma string_of_to_uint n :
  NilZero.string_of_uint (N.to_uint n)
  = Spec.digits (S (N.to_nat (N.log2 n))) n EmptyString.
Proof.
  destruct (N.eq_dec n 0%N) as [->|Hn]; [done|].
  assert (n < 2 ^ N.of_nat (S (N.to_nat (N.log2 n))))%N as Hlt.
  { rewrite Nat2N.inj_succ, N2Nat.id. apply N.log2_spec. lia. }
  rewrite (to_uint_little _ n) by (done || lia).
  pose proof (digits_little (S (N.to_nat (N.log2 n))) n Nil) as Hd.
  cbn [NilEmpty.string_of_uint] in Hd. rewrite <-Hd.
  unfold Decimal.rev. unfold NilZero.string_of_uint.
  destruct (little_normal _ n ltac:(lia) Hlt) as [_ Hnil].
  destruct (revapp _ Nil) eqn:E; [|done..].
  by apply revapp_nil_inv in E as [? _].
Qed.

(** [str(z)] is the decimal numeral of [z]. *)
Lemma str_of_int_decimal z : str_of_int z = Spec.decimal z.
Proof.
  unfold str_of_int, Spec.decimal.
  destruct z as [|p|p]; [done| |].
  - change (Z.to_int (Z.pos p)) with (Pos (N.to_uint (N.pos p))).
    cbn [NilZero.string_of_int Z.ltb Z.compare Z.abs_N].
    apply string_of_to_uint.
  - change (Z.to_int (Z.neg p)) with (Neg (N.to_uint (N.pos p))).
    cbn [NilZero.string_of_int Z.ltb Z.compare Z.abs_N].
    f_equal. apply string_of_to_uint.
Qed.

Lemma str_text c : Loader.str c = Spec.text c.
Proof. by destruct c. Qed.

Lemma name_of_name r : name_of r = Spec.name r.
Proof. unfold name_of, Spec.name. by rewrite !str_text. Qed.

Lemma details_of_details r : details_of r = Spec.details r.
Proof.
  unfold details_of, Spec.details. by rewrite !str_text, str_of_int_decimal.
Qed.

(** The object the formatters build is the document of the specification. *)
Lemma build_output_spec records :
  build_output records = Spec.document records.
Proof.
  rewrite build_output_document. unfold Layout.document, Spec.document.
  assert (map Layout.entry records = map Spec.entry records) as ->; [|done].
  apply map_ext. intros r.
  unfold Layout.entry, Spec.entry.
  change (Layout.name r) with (name_of r).
  change (Layout.details r) with (details_of r).
  by rewrite name_of_name, details_of_details.
Qed.

(** *** The literals of [json.dumps] are literals of JSON *)

Lemma escape_json_chars c body s :
  Spec.json_chars body s →
  Spec.json_chars (Json.escape c +:+ body) (String c s).
Proof.
  intros H.
  destruct c as [[] [] [] [] [] [] [] []];
    first
      [ by apply Spec.json_unescaped
      | by eapply Spec.json_escaped
      | by eapply Spec.json_unicode ].
Qed.

Lemma escape_all_json_chars s : Spec.json_chars (Json.escape_all s) s.
Proof.
  induction s as [|c s IH]; [constructor|].
  cbn [Json.escape_all]. by apply escape_json_chars.
Qed.

Lemma encode_json_string s :
  Spec.json_string (Json.encode_basestring_ascii s) s.
Proof. exists (Json.escape_all s). split; [done|apply escape_all_json_chars]. Qed.

(** *** The layout of [format_to_json] *)

Lemma json_entry_literals r :
  Layout.json_entry r = Spec.json_entry (json_literals r).
Proof.
  unfold Layout.json_entry, Spec.json_entry, json_literals.
  change (Layout.name r) with (name_of r).
  change (Layout.details r) with (details_of r).
  rewrite name_of_name, details_of_details. cbn [fst snd].
  unfold Layout.quoted, Layout.nl, Spec.nl.
  change Json.quote with Spec.quote. JsonRoundTrip.norm_str. done.
Qed.

Lemma json_entries_literals records :
  Json.join ("," +:+ Layout.nl) (map Layout.json_entry records)
  = Spec.json_entries (map json_literals records).
Proof.
  induction records as [|r [|r' records] IH]; [done| |].
  - cbn [map Json.join Spec.json_entries]. apply json_entry_literals.
  - change (Json.join ("," +:+ Layout.nl)
              (map Layout.json_entry (r :: r' :: records)))
      with (Layout.json_entry r +:+ ("," +:+ Layout.nl)
            +:+ Json.join ("," +:+ Layout.nl)
                  (map Layout.json_entry (r' :: records))).
    rewrite IH, json_entry_literals. cbn [map Spec.json_entries].
    by rewrite append_assoc.
Qed.

(** The text of [format_to_json] is the layout of notation B around the
    literals of the values. *)
Lemma format_to_json_text records :
  format_to_json records = Spec.json_text (map json_literals records).
Proof.
  rewrite format_to_json_document. unfold Layout.json_document, Spec.json_text.
  destruct records as [|r records].
  - cbn [map]. unfold Layout.quoted, Layout.nl, Spec.nl.
    change Json.quote with Spec.quote. JsonRoundTrip.norm_str. done.
  - rewrite json_entries_literals. cbn [map].
    unfold Layout.quoted, Layout.nl, Spec.nl.
    change Json.quote with Spec.quote. JsonRoundTrip.norm_str. done.
Qed.

End SpecFacts.

(** ** The scanner of YAML on the scalars *)

Module ScannerFacts.
Import YamlText.
Import Renderer RendererFacts Parsers Parsers.Yaml.
Local Open Scope nat_scope.

Local Abbreviation next_is := Renderer.Yaml.next_is.
Local Abbreviation spaces := Renderer.Json.spaces.
Local Abbreviation NS := scan_flow_scalar_non_spaces.
Local Abbreviation nl := Parsers.Yaml.newline.
Local Abbreviation is_space := Renderer.Yaml.is_space.

(** ** The reader *)

Ltac norm_in H :=
  cbn [Renderer.Json.spaces] in H;
  repeat first
    [ rewrite append_cons in H | rewrite JsonRoundTrip.append_nil_l in H
    | rewrite append_assoc in H ].

Lemma forward_0 r : forward 0 r = r.
Proof. by destruct r. Qed.

Lemma forward_S n r ch rest :
  buffer r = String ch rest →
  ∃ r1, forward (S n) r = forward n r1 ∧ forward 1 r = r1 ∧ buffer r1 = rest.
Proof.
  destruct r as [b i l c]; simpl; intros ->.
  eexists; split; [done|]. split; [done|]. by case_match.
Qed.

Lemma buffer_forward_1 r ch rest :
  buffer r = String ch rest → buffer (forward 1 r) = rest.
Proof. intros H. by destruct (forward_S 0 r ch rest H) as (r1 & _ & -> & ?). Qed.

Lemma forward_add n m r : forward (n + m) r = forward m (forward n r).
Proof.
  revert r; induction n as [|n IH]; intros r; [by rewrite forward_0|].
  destruct r as [[|ch b] i l c]; simpl.
  - by destruct m.
  - apply IH.
Qed.

Lemma buffer_forward_app w s r :
  buffer r = w +:+ s → buffer (forward (String.length w) r) = s.
Proof.
  revert r; induction w as [|ch w IH]; intros r H; [by rewrite forward_0|].
  destruct (forward_S (String.length w) r ch (w +:+ s) H) as (r1 & E & _ & ?).
  cbn [String.length]. rewrite E. by apply IH.
Qed.

#[global] Arguments forward : simpl never.

Lemma peek_0 r : peek 0 r = match buffer r with String ch _ => ch | EmptyString => nul end.
Proof. by destruct r as [[|??] ???]. Qed.

Lemma peek_0_cons r ch rest : buffer r = String ch rest → peek 0 r = ch.
Proof. rewrite peek_0. by intros ->. Qed.

Lemma count_while_app p w s :
  all_chars p w = true → next_is p s = false →
  count_while p (w +:+ s) = String.length w.
Proof.
  induction w as [|ch w IH]; simpl; intros Hw Hs.
  - destruct s as [|ch s]; [done|]. simpl in *. by rewrite Hs.
  - apply andb_true_iff in Hw as [-> Hw]. by rewrite IH.
Qed.

Lemma slice_to_app w s : slice_to (String.length w) (w +:+ s) = w.
Proof.
  induction w as [|ch w IH]; simpl; [by destruct s|].
  by rewrite IH.
Qed.

Lemma all_chars_spaces p n : p " "%char = true → all_chars p (spaces n) = true.
Proof. intros Hp. induction n as [|n IH]; simpl; [done|]. by rewrite Hp. Qed.

Lemma length_spaces n : String.length (spaces n) = n.
Proof. induction n; simpl; congruence. Qed.

Lemma count_while_stop p s : next_is p s = false → count_while p s = 0.
Proof. destruct s as [|ch s]; simpl; [done|]. by intros ->. Qed.

Lemma count_while_spaces p n s :
  p " "%char = true → next_is p s = false → count_while p (spaces n +:+ s) = n.
Proof.
  intros. rewrite count_while_app, length_spaces; auto using all_chars_spaces.
Qed.

Lemma NS_S f d r :
  NS (S f) d r =
  let length := count_while is_ordinary (buffer r) in
  let chunk := prefix length r in
  let r := forward length r in
  piece ← scan_flow_scalar_escape d r;
  match piece with
  | Some (piece, r) =>
      '(chunks, r) ← NS f d r; Some (chunk +:+ piece +:+ chunks, r)
  | None => Some (chunk, r)
  end.
Proof. done. Qed.

Lemma breaks_S f r :
  scan_flow_scalar_breaks (S f) r =
  if document_separator r then None
  else
    let r := forward (count_while is_blank (buffer r)) r in
    if is_line_break (peek 0 r) then
      let '(line_break, r) := scan_line_break r in
      '(chunks, r) ← scan_flow_scalar_breaks f r;
      Some (line_break +:+ chunks, r)
    else Some (EmptyString, r).
Proof. done. Qed.

Lemma loop_S f d q r :
  scan_flow_scalar_loop (S f) d q r
  = scan_flow_scalar_round (scan_flow_scalar_loop f d q) f d q r.
Proof. done. Qed.

#[global] Arguments scan_flow_scalar_non_spaces : simpl never.
#[global] Arguments scan_flow_scalar_breaks : simpl never.
#[global] Arguments scan_flow_scalar_loop : simpl never.

(** ** Quoted scalars: the chunks *)

Lemma NS_ordinary f d r ch rest x r' :
  buffer r = String ch rest → is_ordinary ch = true →
  NS (S f) d (forward 1 r) = Some (x, r') →
  NS (S f) d r = Some (String ch x, r').
Proof.
  intros Hb Hch.
  destruct (forward_S (count_while is_ordinary rest) r ch rest Hb)
    as (r1 & E1 & -> & Hb1).
  rewrite !NS_S. unfold prefix. rewrite Hb, Hb1.
  cbn [count_while slice_to]. rewrite Hch. cbn zeta. rewrite E1.
  destruct (scan_flow_scalar_escape d _) as [[[piece r2]|]|]; simpl; [|naive_solver..].
  destruct (NS f d r2) as [[chunks r3]|]; simpl; naive_solver.
Qed.

Lemma NS_piece f d r piece r1 x r' :
  next_is is_ordinary (buffer r) = false →
  scan_flow_scalar_escape d r = Some (Some (piece, r1)) →
  NS f d r1 = Some (x, r') →
  NS (S f) d r = Some (piece +:+ x, r').
Proof.
  intros Hb He Hx. rewrite NS_S. cbn zeta.
  rewrite (count_while_stop _ _ Hb), forward_0, He. simpl. by rewrite Hx.
Qed.

Lemma NS_return f d r :
  next_is is_ordinary (buffer r) = false →
  scan_flow_scalar_escape d r = Some None →
  NS (S f) d r = Some (EmptyString, r).
Proof.
  intros Hb He. rewrite NS_S. cbn zeta.
  by rewrite (count_while_stop _ _ Hb), forward_0, He.
Qed.

Lemma round_prepend loop f f' d q r r1 w text r' :
  (∀ x r', NS f d r1 = Some (x, r') → NS f' d r = Some (w +:+ x, r')) →
  scan_flow_scalar_round loop f d q r1 = Some (text, r') →
  scan_flow_scalar_round loop f' d q r = Some (w +:+ text, r').
Proof.
  intros H. unfold scan_flow_scalar_round.
  destruct (NS f d r1) as [[ns r2]|]; simpl; [|done].
  rewrite (H ns r2 eq_refl). simpl.
  destruct (Ascii.eqb _ _); [naive_solver|].
  destruct (scan_flow_scalar_spaces r2) as [[sp r3]|]; simpl; [|done].
  destruct (loop r3) as [[chunks r4]|]; simpl; [|done].
  intros [= <- <-]. by rewrite !append_assoc.
Qed.

Lemma slice_to_spaces k s : slice_to k (Renderer.Json.spaces k +:+ s) = Renderer.Json.spaces k.
Proof.
  induction k as [|k IH]; [by destruct s|].
  cbn [Renderer.Json.spaces]. rewrite append_cons. cbn [slice_to]. by rewrite IH.
Qed.

Lemma escape_replacement_piece r x s c :
  buffer r = String "\" (String x s) → escape_replacement x = Some c →
  ∃ r', scan_flow_scalar_escape true r = Some (Some (String c EmptyString, r'))
        ∧ buffer r' = s.
Proof.
  intros Hb Hx. unfold scan_flow_scalar_escape.
  pose proof (buffer_forward_1 _ _ _ Hb) as Hb1.
  rewrite (peek_0_cons _ _ _ Hb). remember (forward 1 r) as r1. simpl.
  rewrite (peek_0_cons _ _ _ Hb1), Hx.
  eexists; split; [done|]. by eapply buffer_forward_1.
Qed.

Lemma hex_number_2 h1 h2 :
  hex_number (String h1 (String h2 EmptyString))
  = d1 ← Json.hex_value h1; d2 ← Json.hex_value h2; Some (d1 * 16 + d2)%N.
Proof.
  unfold hex_number. simpl.
  destruct (Json.hex_value h1) as [d1|]; simpl; [|done].
  by destruct (Json.hex_value h2).
Qed.

Lemma escape_cases ch :
  (∃ x, Renderer.Yaml.escape ch = String "\" (String x EmptyString)
        ∧ escape_replacement x = Some ch)
  ∨ (∃ h1 h2, Renderer.Yaml.escape ch
              = String "\" (String "x" (String h1 (String h2 EmptyString)))
        ∧ hex_number (String h1 (String h2 EmptyString))
          = Some (N_of_ascii ch)).
Proof.
  destruct ch as [[] [] [] [] [] [] [] []];
    first [ left; eexists; split; [vm_compute; reflexivity|];
            vm_compute; reflexivity
          | right; do 2 eexists; split; [vm_compute; reflexivity|];
            vm_compute; reflexivity ].
Qed.

Lemma escape_code_piece r h1 h2 s code :
  buffer r = String "\" (String "x" (String h1 (String h2 s))) →
  hex_number (String h1 (String h2 EmptyString)) = Some code →
  (code < 256)%N →
  ∃ r', scan_flow_scalar_escape true r
        = Some (Some (String (ascii_of_N code) EmptyString, r'))
        ∧ buffer r' = s.
Proof.
  intros Hb Hx Hc. unfold scan_flow_scalar_escape.
  pose proof (buffer_forward_1 _ _ _ Hb) as Hb1.
  pose proof (buffer_forward_1 _ _ _ Hb1) as Hb2.
  rewrite (peek_0_cons _ _ _ Hb). remember (forward 1 r) as r1.
  remember (forward 1 r1) as r2. simpl.
  rewrite (peek_0_cons _ _ _ Hb1). simpl.
  unfold prefix. rewrite Hb2. cbn [slice_to String.length Nat.eqb].
  rewrite Hx. simpl.
  apply N.ltb_lt in Hc. rewrite Hc.
  eexists; split; [done|].
  apply (buffer_forward_app (String h1 (String h2 EmptyString)) s). done.
Qed.

Lemma escape_piece r ch s :
  buffer r = Renderer.Yaml.escape ch +:+ s →
  ∃ r', scan_flow_scalar_escape true r
        = Some (Some (String ch EmptyString, r'))
        ∧ buffer r' = s.
Proof.
  destruct (escape_cases ch) as [(x & -> & Hx)|(h1 & h2 & -> & Hx)]; intros Hb.
  - change (buffer r = String "\" (String x s)) in Hb.
    by eapply escape_replacement_piece.
  - change (buffer r = String "\" (String "x" (String h1 (String h2 s)))) in Hb.
    destruct (escape_code_piece r h1 h2 s _ Hb Hx (N_ascii_bounded ch))
      as (r' & E & Hr').
    rewrite ascii_N_embedding in E. eauto.
Qed.

Lemma length_line_feeds k : String.length (line_feeds k) = k.
Proof. induction k; simpl; congruence. Qed.

(** ** Line breaks inside quoted scalars *)

Lemma scan_line_break_nl r rest :
  buffer r = String "010" rest → scan_line_break r = (nl, forward 1 r).
Proof.
  intros Hb. unfold scan_line_break, prefix.
  rewrite (peek_0_cons _ _ _ Hb), Hb. by destruct rest.
Qed.

Lemma document_separator_head r ch rest :
  buffer r = String ch rest → ch ≠ "-"%char → ch ≠ "."%char →
  document_separator r = false.
Proof.
  intros Hb H1 H2. unfold document_separator, prefix. rewrite Hb.
  apply Ascii.eqb_neq in H1, H2.
  apply andb_false_intro1, orb_false_intro; cbn [slice_to String.eqb].
  - by rewrite H1.
  - by rewrite H2.
Qed.

Lemma document_separator_spaces r n s :
  buffer r = spaces (S n) +:+ s → document_separator r = false.
Proof. intros Hb. norm_in Hb. by eapply document_separator_head. Qed.

Lemma next_is_blank_break s :
  next_is is_blank s = false → next_is is_line_break s = false →
  is_line_break (default nul (String.get 0 s)) = false.
Proof. by destruct s. Qed.

Lemma breaks_indent f r n s :
  buffer r = spaces (S n) +:+ s →
  next_is is_blank s = false → next_is is_line_break s = false →
  ∃ r', scan_flow_scalar_breaks (S f) r = Some (EmptyString, r')
        ∧ buffer r' = s.
Proof.
  intros Hb H1 H2. rewrite breaks_S.
  rewrite (document_separator_spaces _ _ _ Hb), Hb. cbn zeta.
  rewrite count_while_spaces by done.
  pose proof (buffer_forward_app (spaces (S n)) s r Hb) as Hb'.
  rewrite length_spaces in Hb'.
  unfold peek. rewrite Hb', next_is_blank_break by done. eauto.
Qed.

Lemma breaks_lines f r k n s :
  buffer r = line_feeds k +:+ spaces (S n) +:+ s →
  next_is is_blank s = false → next_is is_line_break s = false →
  ∃ r', scan_flow_scalar_breaks (S (k + f)) r = Some (line_feeds k, r')
        ∧ buffer r' = s.
Proof.
  intros Hb H1 H2. revert r Hb; induction k as [|k IH]; intros r Hb.
  { exact (breaks_indent f r n s Hb H1 H2). }
  change (S (S k + f)) with (S (S (k + f))). rewrite breaks_S.
  cbn [line_feeds] in Hb. rewrite append_cons in Hb.
  rewrite (document_separator_head _ _ _ Hb) by done.
  rewrite Hb. cbn [count_while].
  change (is_blank "010") with false. cbn match zeta.
  rewrite forward_0, (peek_0_cons _ _ _ Hb).
  change (is_line_break "010") with true. cbn match.
  rewrite (scan_line_break_nl _ _ Hb).
  destruct (IH (forward 1 r)) as (r' & -> & Hr'); [by eapply buffer_forward_1|].
  simpl. eauto.
Qed.

Lemma solid_spec s :
  solid s = true →
  next_is is_blank s = false ∧ next_is is_line_break s = false
  ∧ Ascii.eqb (default nul (String.get 0 s)) nul = false.
Proof.
  destruct s as [|ch s]; [done|]. unfold solid. simpl.
  destruct ch as [[] [] [] [] [] [] [] []]; by vm_compute.
Qed.

Lemma spaces_run r k s :
  buffer r = spaces k +:+ s → solid s = true →
  ∃ r', scan_flow_scalar_spaces r = Some (spaces k, r') ∧ buffer r' = s.
Proof.
  intros Hb (H1 & H2 & H3)%solid_spec. unfold scan_flow_scalar_spaces, prefix.
  rewrite Hb, count_while_spaces by done.
  pose proof (buffer_forward_app (spaces k) s r Hb) as Hb'.
  rewrite length_spaces in Hb'.
  rewrite slice_to_spaces.
  unfold peek. rewrite Hb', H3, next_is_blank_break by done. eauto.
Qed.

Lemma spaces_fold r n s :
  buffer r = String "010" (spaces (S n) +:+ s) →
  next_is is_blank s = false → next_is is_line_break s = false →
  ∃ r', scan_flow_scalar_spaces r = Some (" ", r') ∧ buffer r' = s.
Proof.
  intros Hb H1 H2. unfold scan_flow_scalar_spaces, prefix.
  rewrite Hb. cbn [count_while]. simpl is_blank. cbn match.
  rewrite forward_0, (peek_0_cons _ _ _ Hb). simpl.
  rewrite (scan_line_break_nl _ _ Hb).
  destruct (breaks_indent (String.length (buffer (forward 1 r))) (forward 1 r) n s)
    as (r' & -> & Hr'); [by eapply buffer_forward_1|done..|].
  simpl. eauto.
Qed.

Lemma spaces_breaks r k n s :
  buffer r = String "010" (line_feeds (S k) +:+ spaces (S n) +:+ s) →
  next_is is_blank s = false → next_is is_line_break s = false →
  ∃ r', scan_flow_scalar_spaces r = Some (line_feeds (S k), r')
        ∧ buffer r' = s.
Proof.
  intros Hb H1 H2. unfold scan_flow_scalar_spaces, prefix.
  rewrite Hb. cbn [count_while]. simpl is_blank. cbn match.
  rewrite forward_0, (peek_0_cons _ _ _ Hb). simpl.
  rewrite (scan_line_break_nl _ _ Hb).
  pose proof (buffer_forward_1 _ _ _ Hb) as Hb1.
  destruct (breaks_lines (String.length s + S n) (forward 1 r) (S k) n s)
    as (r' & E & Hr'); [done..|].
  replace (S (String.length (buffer (forward 1 r))))
    with (S (S k + (String.length s + S n))); last first.
  { rewrite Hb1, !length_append, length_spaces, length_line_feeds. lia. }
  rewrite E. simpl. eauto.
Qed.

Lemma direct_cases ch :
  Renderer.Yaml.is_direct ch = true →
  ch = " "%char ∨ ch = "'"%char ∨ is_ordinary ch = true.
Proof. destruct ch as [[] [] [] [] [] [] [] []]; vm_compute; auto. Qed.

Lemma escape_head ch :
  ∃ rest, Renderer.Yaml.escape ch = String "\" rest ∧ rest ≠ EmptyString.
Proof. unfold Renderer.Yaml.escape. eexists; split; [done|]. repeat case_match; done. Qed.

(** What an encoding starts with, the closing quote behind it. *)
Lemma double_quoted_solid n enc text tail :
  double_quoted n enc text → next_is is_space enc = false →
  solid (enc +:+ String quote tail) = true.
Proof.
  intros H Hs. destruct H as [|ch ? ? Hd ?| | ch ? ? ?| |]; try done.
  destruct (direct_cases ch Hd) as [->|[->|Ho]]; [done..|].
  revert Ho. clear. destruct ch as [[] [] [] [] [] [] [] []]; by vm_compute.
Qed.

Lemma double_quoted_scan n enc text :
  double_quoted (S n) enc text →
  ∀ f1 f2 r tail,
    buffer r = enc +:+ String quote tail →
    String.length enc < f1 → String.length enc < f2 →
    ∃ r', scan_flow_scalar_round (scan_flow_scalar_loop f2 true quote) f1
            true quote r = Some (text, r')
          ∧ buffer r' = String quote tail.
Proof.
  induction 1 as [|ch enc text Hd Hs _ IH|k enc text H IH Hs
                  |ch enc text _ IH|enc text _ IH|enc text H IH Hs];
    intros f1 f2 r tail Hb Hf1 Hf2.
  - destruct f1 as [|f1]; [lia|]. unfold scan_flow_scalar_round.
    rewrite NS_return; [|by rewrite Hb|].
    + simpl. rewrite (peek_0_cons _ _ _ Hb). simpl. eauto.
    + unfold scan_flow_scalar_escape. by rewrite (peek_0_cons _ _ _ Hb).
  - simpl in Hf1, Hf2.
    destruct (IH f1 f2 (forward 1 r) tail) as (r' & E & Hr');
      [by eapply buffer_forward_1|lia..|].
    destruct (direct_cases ch Hd) as [->|[->|Ho]]; [done| |].
    + destruct f1 as [|f1]; [lia|].
      destruct (IH f1 f2 (forward 1 r) tail) as (r'' & E' & Hr'');
        [by eapply buffer_forward_1|lia..|].
      exists r''. split; [|done].
      eapply (round_prepend _ _ _ _ _ _ _ "'") in E'; [done|].
      intros x r0 Hx. eapply NS_piece; [by rewrite Hb| |done].
      unfold scan_flow_scalar_escape. by rewrite (peek_0_cons _ _ _ Hb).
    + exists r'. split; [|done].
      eapply (round_prepend _ _ _ _ _ _ _ (String ch EmptyString)) in E; [done|].
      intros x r0 Hx. destruct f1 as [|f1]; [done|]. by eapply NS_ordinary.
  - rewrite length_append, length_spaces in Hf1, Hf2.
    destruct f1 as [|f1]; [lia|]. destruct f2 as [|f2]; [lia|].
    rewrite append_assoc in Hb.
    destruct (spaces_run r (S k) _ Hb) as (r1 & Hsp & Hb1).
    { by eapply double_quoted_solid. }
    destruct (IH f2 f2 r1 tail) as (r' & E & Hr'); [done|lia..|].
    exists r'. split; [|done].
    unfold scan_flow_scalar_round at 1.
    rewrite NS_return; [|by rewrite Hb|].
    + simpl. rewrite (peek_0_cons _ _ _ Hb). simpl.
      rewrite Hsp. simpl. rewrite loop_S, E. done.
    + unfold scan_flow_scalar_escape. by rewrite (peek_0_cons _ _ _ Hb).
  - rewrite length_append in Hf1, Hf2. rewrite append_assoc in Hb.
    destruct (escape_head ch) as (rest & Hrest & Hne).
    assert (0 < String.length (Renderer.Yaml.escape ch)) by (rewrite Hrest; simpl; lia).
    destruct f1 as [|f1]; [lia|].
    destruct (escape_piece r ch _ Hb) as (r1 & Hp & Hb1).
    destruct (IH f1 f2 r1 tail) as (r' & E & Hr'); [done|lia..|].
    exists r'. split; [|done].
    eapply (round_prepend _ _ _ _ _ _ _ (String ch EmptyString)) in E; [done|].
    intros x r0 Hx. eapply NS_piece; [by rewrite Hb, Hrest|done..].
  - simpl in Hf1, Hf2. destruct f1 as [|f1]; [lia|].
    destruct (escape_replacement_piece r " " (enc +:+ String quote tail) " ")
      as (r1 & Hp & Hb1); [done..|].
    destruct (IH f1 f2 r1 tail) as (r' & E & Hr'); [done|lia..|].
    exists r'. split; [|done].
    eapply (round_prepend _ _ _ _ _ _ _ " ") in E; [done|].
    intros x r0 Hx. eapply NS_piece; [by rewrite Hb|done..].
  - simpl in Hf1, Hf2. rewrite length_append in Hf1, Hf2.
    destruct f1 as [|f1]; [lia|].
    assert (∃ r1, scan_flow_scalar_escape true r
                  = Some (Some (EmptyString, r1))
                  ∧ buffer r1 = enc +:+ String quote tail) as (r1 & Hp & Hb1).
    { pose proof (double_quoted_solid _ _ _ tail H Hs) as (H1 & H2 & _)%solid_spec.
      unfold scan_flow_scalar_escape.
      pose proof (buffer_forward_1 _ _ _ Hb) as Hb1.
      rewrite (peek_0_cons _ _ _ Hb). remember (forward 1 r) as r1. simpl.
      rewrite (peek_0_cons _ _ _ Hb1). simpl.
      rewrite (scan_line_break_nl _ _ Hb1).
      rewrite append_assoc in Hb1.
      destruct (breaks_indent (String.length (buffer (forward 1 r1)))
                  (forward 1 r1) n (enc +:+ String quote tail))
        as (r' & -> & Hr'); [by eapply buffer_forward_1|done..|].
      simpl. eauto. }
    destruct (IH f1 f2 r1 tail) as (r' & E & Hr'); [done|lia..|].
    exists r'. split; [|done].
    eapply (round_prepend _ _ _ _ _ _ _ EmptyString) in E; [done|].
    intros x r0 Hx. eapply NS_piece; [by rewrite Hb|done..].
Qed.

Lemma solid_app enc s :
  next_is is_blank_or_end enc = false → solid s = true →
  solid (enc +:+ s) = true.
Proof. destruct enc as [|ch enc]; [done|]. unfold solid. simpl. by intros ->. Qed.

Lemma peek_1 r ch s : buffer r = String ch s → peek 1 r = default nul (String.get 0 s).
Proof. unfold peek. by intros ->. Qed.

Lemma plain_char_cases ch :
  is_plain_char ch = true →
  is_ordinary ch = true ∨ ch = quote ∨ ch = "\"%char.
Proof. destruct ch as [[] [] [] [] [] [] [] []]; vm_compute; auto. Qed.

Lemma single_return r ch s :
  buffer r = String ch s → is_ordinary ch = false →
  ch ≠ quote → ch ≠ "\"%char →
  (ch = "'"%char → next_is (Ascii.eqb "'") s = false) →
  scan_flow_scalar_escape false r = Some None.
Proof.
  intros Hb Ho H1 H2 H3. unfold scan_flow_scalar_escape.
  rewrite (peek_0_cons _ _ _ Hb), (peek_1 _ _ _ Hb).
  apply Ascii.eqb_neq in H1, H2. rewrite H1, H2. cbn [negb andb orb].
  destruct (Ascii.eqb_spec ch "'") as [->|]; [|done].
  cbn [negb andb orb]. specialize (H3 eq_refl).
  destruct s as [|c s]; [done|].
  change (default nul (String.get 0 (String c s))) with c.
  cbn [Renderer.Yaml.next_is] in H3. by rewrite Ascii.eqb_sym, H3.
Qed.

Lemma single_quoted_scan n enc text :
  single_quoted (S n) enc text →
  ∀ f1 f2 r tail,
    buffer r = enc +:+ String "'" tail →
    next_is (Ascii.eqb "'") tail = false →
    String.length enc < f1 → String.length enc < f2 →
    ∃ r', scan_flow_scalar_round (scan_flow_scalar_loop f2 false "'") f1
            false "'" r = Some (text, r')
          ∧ buffer r' = String "'" tail.
Proof.
  induction 1 as [|ch enc text Hd _ IH|enc text _ IH|k enc text H IH Hs
                  |enc text H IH Hs|k enc text H IH Hs];
    intros f1 f2 r tail Hb Ht Hf1 Hf2.
  - destruct f1 as [|f1]; [lia|]. unfold scan_flow_scalar_round.
    rewrite NS_return; [|by rewrite Hb|by eapply single_return].
    simpl. rewrite (peek_0_cons _ _ _ Hb). simpl. eauto.
  - simpl in Hf1, Hf2. rewrite append_cons in Hb.
    destruct f1 as [|f1]; [lia|].
    destruct (plain_char_cases ch Hd) as [Ho|Hq].
    + destruct (IH (S f1) f2 (forward 1 r) tail) as (r' & E & Hr');
        [by eapply buffer_forward_1|done|lia..|].
      exists r'. split; [|done].
      eapply (round_prepend _ _ _ _ _ _ _ (String ch EmptyString)) in E; [done|].
      intros x r0 Hx. by eapply NS_ordinary.
    + destruct (IH f1 f2 (forward 1 r) tail) as (r' & E & Hr');
        [by eapply buffer_forward_1|done|lia..|].
      exists r'. split; [|done].
      eapply (round_prepend _ _ _ _ _ _ _ (String ch EmptyString)) in E; [done|].
      intros x r0 Hx. eapply NS_piece; [| |by apply Hx].
      * rewrite Hb. by destruct Hq as [-> | ->].
      * unfold scan_flow_scalar_escape. rewrite (peek_0_cons _ _ _ Hb).
        by destruct Hq as [-> | ->].
  - simpl in Hf1, Hf2. rewrite !append_cons in Hb.
    destruct f1 as [|f1]; [lia|].
    destruct (IH f1 f2 (forward 2 r) tail) as (r' & E & Hr'); [|done|lia..|].
    { by apply (buffer_forward_app "''" _ r). }
    exists r'. split; [|done].
    eapply (round_prepend _ _ _ _ _ _ _ "'") in E; [done|].
    intros x r0 Hx. eapply NS_piece; [by rewrite Hb| |done].
    unfold scan_flow_scalar_escape.
    by rewrite (peek_0_cons _ _ _ Hb), (peek_1 _ _ _ Hb).
  - rewrite length_append, length_spaces in Hf1, Hf2.
    destruct f1 as [|f1]; [lia|]. destruct f2 as [|f2]; [lia|].
    rewrite append_assoc in Hb.
    destruct (spaces_run r (S k) _ Hb) as (r1 & Hsp & Hb1).
    { by apply solid_app. }
    destruct (IH f2 f2 r1 tail) as (r' & E & Hr'); [done..|lia|lia|].
    exists r'. split; [|done].
    unfold scan_flow_scalar_round at 1.
    norm_in Hb.
    rewrite NS_return; [|by rewrite Hb|by eapply single_return].
    simpl. rewrite (peek_0_cons _ _ _ Hb). simpl.
    rewrite Hsp. simpl. rewrite loop_S, E. done.
  - simpl in Hf1, Hf2. rewrite length_append, length_spaces in Hf1, Hf2.
    destruct f1 as [|f1]; [lia|]. destruct f2 as [|f2]; [lia|].
    rewrite append_cons, append_assoc in Hb.
    pose proof (solid_app enc (String "'" tail) Hs eq_refl) as (H1 & H2 & _)%solid_spec.
    destruct (spaces_fold r n _ Hb H1 H2) as (r1 & Hsp & Hb1).
    destruct (IH f2 f2 r1 tail) as (r' & E & Hr'); [done..|lia|lia|].
    exists r'. split; [|done].
    unfold scan_flow_scalar_round at 1.
    rewrite NS_return; [|by rewrite Hb|by eapply single_return].
    simpl. rewrite (peek_0_cons _ _ _ Hb). simpl.
    rewrite Hsp. simpl. rewrite loop_S, E. done.
  - cbn [String.length] in Hf1, Hf2.
    rewrite !length_append, length_spaces, length_line_feeds in Hf1, Hf2.
    destruct f1 as [|f1]; [lia|]. destruct f2 as [|f2]; [lia|].
    rewrite append_cons, !append_assoc in Hb.
    pose proof (solid_app enc (String "'" tail) Hs eq_refl) as (H1 & H2 & _)%solid_spec.
    destruct (spaces_breaks r k n _ Hb H1 H2) as (r1 & Hsp & Hb1).
    destruct (IH f2 f2 r1 tail) as (r' & E & Hr'); [done..|lia|lia|].
    exists r'. split; [|done].
    unfold scan_flow_scalar_round at 1.
    rewrite NS_return; [|by rewrite Hb|by eapply single_return].
    simpl. rewrite (peek_0_cons _ _ _ Hb). simpl.
    rewrite Hsp. simpl. rewrite loop_S, E. done.
Qed.

Lemma scan_plain_loop_S f flow indent chunks sp allow r :
  scan_plain_loop (S f) flow indent chunks sp allow r =
  if Ascii.eqb (peek 0 r) "#" then Some (chunks, allow, r)
  else
    let length := count_plain flow (buffer r) in
    if (length =? 0)%nat then Some (chunks, allow, r)
    else
      let allow := false in
      let chunks := chunks +:+ sp +:+ prefix length r in
      let r := forward length r in
      '(sp, allow, r) ← scan_plain_spaces allow r;
      match sp with
      | Some (String _ _ as sp) =>
          if Ascii.eqb (peek 0 r) "#"
             || (negb flow && (Z.of_nat (column r) <? indent)%Z)
          then Some (chunks, allow, r)
          else scan_plain_loop f flow indent chunks sp allow r
      | _ => Some (chunks, allow, r)
      end.
Proof. done. Qed.

Lemma scan_plain_breaks_S f r :
  scan_plain_breaks (S f) r =
  let ch := peek 0 r in
  if Ascii.eqb ch " " then scan_plain_breaks f (forward 1 r)
  else if is_line_break ch then
    let '(line_break, r) := scan_line_break r in
    if document_separator r then Some (None, r)
    else
      '(breaks, r) ← scan_plain_breaks f r;
      Some (option_map (String.append line_break) breaks, r)
  else Some (Some EmptyString, r).
Proof. done. Qed.

#[global] Arguments scan_plain_loop : simpl never.
#[global] Arguments scan_plain_breaks : simpl never.

(** ** The position of the reader *)

Lemma forward_1_plain r ch s :
  buffer r = String ch s → is_line_break ch = false →
  forward 1 r = Reader s (S (index r)) (line r) (S (column r)).
Proof.
  destruct r as [b i l c]. simpl. intros -> Hch. unfold forward. simpl.
  revert Hch. destruct ch as [[] [] [] [] [] [] [] []]; by vm_compute.
Qed.

Lemma forward_1_nl r s :
  buffer r = String "010" s →
  forward 1 r = Reader s (S (index r)) (S (line r)) 0.
Proof. destruct r as [b i l c]. simpl. by intros ->. Qed.

Lemma forward_plain w s r :
  buffer r = w +:+ s → all_chars (λ ch, negb (is_line_break ch)) w = true →
  forward (String.length w) r
  = Reader s (index r + String.length w) (line r)
      (column r + String.length w).
Proof.
  revert r; induction w as [|ch w IH]; intros r Hb Hw.
  { rewrite forward_0. destruct r; simpl in *; subst. f_equal; lia. }
  cbn [all_chars] in Hw. apply andb_true_iff in Hw as [Hch Hw].
  apply negb_true_iff in Hch. rewrite append_cons in Hb.
  change (String.length (String ch w)) with (1 + String.length w).
  rewrite forward_add, (forward_1_plain _ _ _ Hb Hch), IH by done.
  simpl. f_equal; lia.
Qed.

Lemma all_chars_impl (p q : ascii → bool) w :
  (∀ ch, p ch = true → q ch = true) →
  all_chars p w = true → all_chars q w = true.
Proof.
  intros Hpq. induction w as [|ch w IH]; simpl; [done|].
  intros [? ?]%andb_true_iff. rewrite Hpq, IH; done.
Qed.

Lemma forward_spaces k s r :
  buffer r = spaces k +:+ s →
  forward k r = Reader s (index r + k) (line r) (column r + k).
Proof.
  intros Hb.
  pose proof (forward_plain (spaces k) s r Hb (all_chars_spaces _ k eq_refl)) as H.
  by rewrite length_spaces in H.
Qed.

(** ** Chunks *)

Lemma is_chunk_chars w :
  is_chunk w = true →
  all_chars (λ ch, negb (is_line_break ch)) w = true.
Proof.
  induction w as [|ch w IH]; simpl; [done|].
  intros [[Hch _]%andb_true_iff Hw]%andb_true_iff. rewrite IH by done.
  rewrite andb_true_r. revert Hch. clear.
  destruct ch as [[] [] [] [] [] [] [] []]; by vm_compute.
Qed.

Lemma count_plain_chunk w s :
  is_chunk w = true → solid s = false →
  count_plain false (w +:+ s) = String.length w.
Proof.
  intros Hw Hs. induction w as [|ch w IH].
  { destruct s as [|ch s]; [done|]. unfold solid in Hs. simpl in *.
    apply negb_false_iff in Hs. by rewrite Hs. }
  cbn [is_chunk] in Hw.
  apply andb_true_iff in Hw as [[Hch Hc]%andb_true_iff Hw].
  rewrite append_cons. cbn [count_plain String.length].
  apply negb_true_iff in Hch. rewrite Hch. cbn [andb orb]. rewrite orb_false_r.
  rewrite IH by done.
  destruct (Ascii.eqb ch ":"); [|done]. cbn [andb] in *.
  destruct w as [|ch' w]; [done|]. cbn [is_chunk] in Hw.
  apply andb_true_iff in Hw as [[Hch' _]%andb_true_iff _].
  apply negb_true_iff in Hch'. rewrite append_cons. simpl. by rewrite Hch'.
Qed.

(** ** The white space between the chunks *)

Lemma starts_line_peek r s :
  buffer r = s → starts_line s = true →
  Ascii.eqb (peek 0 r) " " = false ∧ is_line_break (peek 0 r) = false.
Proof.
  intros Hb Hs. rewrite peek_0, Hb. destruct s as [|ch s]; [done|].
  unfold starts_line in Hs. simpl in Hs. apply negb_true_iff in Hs.
  by apply orb_false_iff in Hs.
Qed.

Lemma plain_breaks_spaces m f r s :
  buffer r = spaces m +:+ s → starts_line s = true →
  ∃ r', scan_plain_breaks (S (m + f)) r = Some (Some EmptyString, r')
        ∧ buffer r' = s ∧ column r' = column r + m.
Proof.
  revert r; induction m as [|m IH]; intros r Hb Hs.
  - rewrite scan_plain_breaks_S. cbn zeta.
    destruct (starts_line_peek r s Hb Hs) as [-> ->].
    exists r. split; [done|]. split; [done|lia].
  - change (S (S m + f)) with (S (S (m + f))).
    rewrite scan_plain_breaks_S. cbn zeta. norm_in Hb.
    rewrite (peek_0_cons _ _ _ Hb). cbn [Ascii.eqb Bool.eqb].
    destruct (IH (forward 1 r)) as (r' & -> & Hr' & Hc);
      [by eapply buffer_forward_1|done|].
    exists r'. split; [done|]. split; [done|].
    rewrite Hc, (forward_1_plain _ _ _ Hb) by done. simpl. lia.
Qed.

Lemma plain_spaces_run allow r k s :
  buffer r = spaces k +:+ s → solid s = true →
  scan_plain_spaces allow r
  = Some (Some (spaces k), allow,
          Reader s (index r + k) (line r) (column r + k)).
Proof.
  intros Hb Hs. pose proof Hs as (H1 & H2 & H3)%solid_spec.
  unfold scan_plain_spaces, prefix.
  assert (next_is (Ascii.eqb " ") s = false) as Hsp.
  { destruct s as [|ch s]; [done|]. cbn [Renderer.Yaml.next_is] in *.
    destruct (Ascii.eqb_spec " " ch) as [<-|]; done. }
  rewrite Hb, count_while_spaces, slice_to_spaces by done.
  rewrite (forward_spaces _ _ _ Hb).
  unfold peek. cbn [buffer]. by rewrite next_is_blank_break.
Qed.

Lemma plain_spaces_fold allow r m s :
  buffer r = String "010" (spaces m +:+ s) → starts_line s = true →
  (∀ r0, buffer r0 = spaces m +:+ s → document_separator r0 = false) →
  ∃ r', scan_plain_spaces allow r = Some (Some " ", true, r')
        ∧ buffer r' = s ∧ column r' = m.
Proof.
  intros Hb Hs Hsep. unfold scan_plain_spaces, prefix.
  rewrite Hb. cbn [count_while]. change (Ascii.eqb " " "010") with false.
  cbn match zeta. rewrite forward_0, (peek_0_cons _ _ _ Hb).
  change (is_line_break "010") with true. cbn match.
  rewrite (scan_line_break_nl _ _ Hb).
  pose proof (buffer_forward_1 _ _ _ Hb) as Hb1.
  rewrite (Hsep _ Hb1).
  destruct (plain_breaks_spaces m (String.length s) (forward 1 r) s Hb1 Hs)
    as (r' & E & Hr' & Hc).
  rewrite Hb1, length_append, length_spaces, E. simpl.
  exists r'. split; [done|]. split; [done|].
  rewrite Hc, (forward_1_nl _ _ Hb). simpl. lia.
Qed.

(** ** Plain scalars *)

Lemma is_word_head w :
  is_word w = true →
  ∃ ch rest, w = String ch rest ∧ Ascii.eqb ch "#" = false
             ∧ is_blank_or_end ch = false.
Proof.
  destruct w as [|ch w]; [done|]. simpl.
  intros [H1 [[H2 _]%andb_true_iff _]%andb_true_iff]%andb_true_iff.
  apply negb_true_iff in H1, H2. eauto.
Qed.

Lemma plain_folded_head n enc text s :
  plain_folded n enc text →
  ∃ ch rest, enc +:+ s = String ch rest ∧ Ascii.eqb ch "#" = false
             ∧ is_blank_or_end ch = false.
Proof.
  intros [w Hw|w k ? ? Hw _|w ? ? Hw _];
    destruct (is_word_head w Hw) as (ch & rest & -> & ? & ?);
    rewrite !append_cons; eauto.
Qed.

Lemma is_word_chunk w : is_word w = true → is_chunk w = true.
Proof. destruct w; [done|]. by intros [_ ?]%andb_true_iff. Qed.

Lemma is_word_length w : is_word w = true → 0 < String.length w.
Proof. destruct w; [done|]. simpl. lia. Qed.

Lemma blank_or_end_starts_line ch rest :
  is_blank_or_end ch = false → starts_line (String ch rest) = true.
Proof.
  unfold starts_line. simpl.
  destruct ch as [[] [] [] [] [] [] [] []]; by vm_compute.
Qed.

Lemma blank_or_end_solid ch rest :
  is_blank_or_end ch = false → solid (String ch rest) = true.
Proof. unfold solid. simpl. by intros ->. Qed.

Lemma plain_folded_scan n indent enc text :
  plain_folded (S n) enc text → (indent ≤ Z.of_nat (S n))%Z →
  ∀ f chunks sp allow r m tail,
    buffer r = enc +:+ String "010" (spaces m +:+ tail) →
    (Z.of_nat m < indent)%Z → (indent ≤ Z.of_nat (column r))%Z →
    starts_line tail = true →
    (∀ r0, buffer r0 = spaces m +:+ tail → document_separator r0 = false) →
    String.length enc < f →
    ∃ r', scan_plain_loop f false indent chunks sp allow r
          = Some (chunks +:+ sp +:+ text, true, r')
          ∧ buffer r' = tail ∧ column r' = m.
Proof.
  intros H Hn. induction H as [w Hw|w k enc text Hw H IH|w enc text Hw H IH];
    intros f chunks sp allow r m tail Hb Hm Hc Ht Hsep Hf;
    (destruct f as [|f]; [lia|]);
    destruct (is_word_head w Hw) as (ch & rest & Ew & Hch & _);
    pose proof (is_word_chunk w Hw) as Hchunk;
    pose proof (is_word_length w Hw) as Hlen;
    rewrite scan_plain_loop_S;
    (assert (peek 0 r = ch) as -> by
       (rewrite peek_0, Hb, Ew; by rewrite ?append_cons));
    rewrite Hch, Hb.
  - rewrite count_plain_chunk by done.
    cbn zeta.
    assert ((String.length w =? 0) = false) as -> by (apply Nat.eqb_neq; lia).
    unfold prefix. rewrite Hb, slice_to_app.
    pose proof (buffer_forward_app _ _ _ Hb) as Hb1.
    destruct (plain_spaces_fold false _ m tail Hb1 Ht Hsep)
      as (r' & -> & Hr' & Hcol).
    simpl. exists r'. rewrite Hcol.
    apply Z.ltb_lt in Hm. rewrite Hm, orb_true_r. done.
  - rewrite !append_assoc in *. rewrite count_plain_chunk by done.
    cbn zeta.
    assert ((String.length w =? 0) = false) as -> by (apply Nat.eqb_neq; lia).
    unfold prefix. rewrite Hb, slice_to_app.
    rewrite (forward_plain _ _ _ Hb) by by apply is_chunk_chars.
    destruct (plain_folded_head _ _ _ (String "010" (spaces m +:+ tail)) H)
      as (ch' & rest' & E' & Hch' & Hb').
    rewrite (plain_spaces_run false _ (S k)
               (enc +:+ String "010" (spaces m +:+ tail)));
      [|done|rewrite E'; by apply blank_or_end_solid].
    simpl. unfold peek at 1. cbn [buffer]. rewrite E'. simpl.
    rewrite Hch'. cbn [orb].
    rewrite !length_append, length_spaces in Hf.
    assert ((Z.of_nat (column r + String.length w + S k) <? indent)%Z = false)
      as -> by (apply Z.ltb_ge; lia).
    rewrite <-E'.
    destruct (IH f (chunks +:+ sp +:+ w) (String " " (spaces k)) false
                (Reader (enc +:+ String "010" (spaces m +:+ tail))
                   (index r + String.length w + S k) (line r)
                   (column r + String.length w + S k)) m tail)
      as (r' & -> & Hr'); [done|done|simpl; lia|done|done|lia|].
    exists r'. split; [|done]. by rewrite !append_assoc.
  - rewrite !append_assoc in *. rewrite count_plain_chunk by done.
    cbn zeta.
    assert ((String.length w =? 0) = false) as -> by (apply Nat.eqb_neq; lia).
    unfold prefix. rewrite Hb, slice_to_app.
    pose proof (buffer_forward_app _ _ _ Hb) as Hb1.
    rewrite append_cons, append_assoc in Hb1.
    destruct (plain_folded_head _ _ _ (String "010" (spaces m +:+ tail)) H)
      as (ch' & rest' & E' & Hch' & Hb').
    destruct (plain_spaces_fold false _ (S n) _ Hb1) as (r1 & -> & Hr1 & Hcol).
    { rewrite E'. by apply blank_or_end_starts_line. }
    { intros r0 Hr0. by eapply document_separator_spaces. }
    simpl. rewrite (peek_0_cons _ _ _ (eq_trans Hr1 E')), Hch', Hcol.
    cbn [orb].
    assert ((Z.of_nat (S n) <? indent)%Z = false) as ->
      by (apply Z.ltb_ge; lia).
    rewrite length_append in Hf. cbn [String.length] in Hf.
    rewrite length_append, length_spaces in Hf.
    destruct (IH f (chunks +:+ sp +:+ w) " " true r1 m tail)
      as (r' & -> & Hr'); [done|done|lia|done|done|lia|].
    exists r'. split; [|done]. by rewrite !append_assoc.
Qed.

End ScannerFacts.

(** ** The emitter of YAML on the scalars *)

Module EmitterFacts.
Import YamlText ScannerFacts.
Import Renderer RendererFacts Renderer.Yaml.
Import YamlStyle.
Local Open Scope nat_scope.

Local Abbreviation spaces := Renderer.Json.spaces.
Local Abbreviation append_nil_l := JsonRoundTrip.append_nil_l.
Local Abbreviation is_blank_or_end := Parsers.Yaml.is_blank_or_end.

(** ** What the writers of the emitter produce *)

(** A fold: the line ends and the next one starts at the indentation. *)
Lemma write_indent_fold n e :
  0 < n → n < column e →
  write_indent (Some n) e
  = Emitter (stream e +:+ String newline (spaces n)) n true true (open_ended e).
Proof.
  intros Hn Hc. unfold write_indent, default, id. cbv zeta.
  assert ((n <? column e) = true) as -> by by apply Nat.ltb_lt.
  rewrite orb_true_r. cbn [orb].
  unfold write_line_break. cbn [column stream indention open_ended].
  assert ((0 <? n) = true) as -> by by apply Nat.ltb_lt.
  rewrite Nat.sub_0_r. f_equal. by rewrite append_assoc.
Qed.

(** *** Double-quoted scalars *)

Lemma double_quoted_space n enc text :
  double_quoted n enc text →
  double_quoted n (String " " enc) (String " " text).
Proof.
  intros H. destruct (next_is is_space enc) eqn:Hs.
  - destruct H as [|ch enc text Hd Hch H|k enc text H Hn|ch enc text H
                   |enc text H|enc text H Hn].
    + done.
    + simpl in Hs. congruence.
    + by apply (dq_spaces n (S k)).
    + by destruct (escape_head ch) as (rest & -> & _).
    + done.
    + done.
  - by apply (dq_spaces n 0).
Qed.

Lemma double_quoted_direct n ch enc text :
  is_direct ch = true → double_quoted n enc text →
  double_quoted n (String ch enc) (String ch text).
Proof.
  intros Hd H. destruct (is_space ch) eqn:Hs.
  - apply Ascii.eqb_eq in Hs as ->. by apply double_quoted_space.
  - by apply dq_direct.
Qed.

Lemma double_quoted_prepend n pending enc text :
  all_chars is_direct pending = true → double_quoted n enc text →
  double_quoted n (pending +:+ enc) (pending +:+ text).
Proof.
  induction pending as [|ch pending IH]; simpl; [done|].
  intros [Hd Hp]%andb_true_iff H. apply double_quoted_direct; auto.
Qed.

(** An encoding that starts with a space stands for a text that does. *)
Lemma double_quoted_head_space n enc text :
  double_quoted n enc text → next_is is_space enc = true →
  next_is is_space text = true.
Proof.
  destruct 1 as [|ch enc text Hd Hch H|k enc text H Hn|ch enc text H
                 |enc text H|enc text H Hn]; try done.
Qed.

Lemma double_quoted_loop_step split indent first pending ch rest e :
  double_quoted_loop split indent first pending (String ch rest) e
  = let '(pending, escaped, e) :=
      if is_direct ch then (pending, false, e)
      else (EmptyString, true, write (escape ch) (write pending e)) in
    let '(pending, e) :=
      match rest with
      | String ch' _ =>
          if negb first
             && (is_space ch
                 || match pending with EmptyString => true | _ => false end)
             && (best_width <? (if escaped then column e - 1
                                else column e + String.length pending))
             && split
          then
            let e := write (pending +:+ "\") e in
            let e := set_flags false false (write_indent indent e) in
            (EmptyString,
             if is_space (if escaped then ch' else ch) then write "\" e else e)
          else (pending, e)
      | _ => (pending, e)
      end in
    double_quoted_loop split indent false
      (if escaped then EmptyString else pending +:+ String ch EmptyString)
      rest e.
Proof. done. Qed.

#[global] Arguments double_quoted_loop : simpl never.

Lemma double_quoted_loop_nil split indent first pending e :
  double_quoted_loop split indent first pending EmptyString e = write pending e.
Proof. done. Qed.

Lemma stream_write data e : stream (write data e) = stream e +:+ data.
Proof. done. Qed.

Lemma column_write data e : column (write data e) = column e + String.length data.
Proof. done. Qed.

Lemma double_quoted_loop_enc n split :
  0 < n → n < best_width →
  ∀ rest first pending e,
    ∃ enc,
      stream (double_quoted_loop split (Some n) first pending rest e)
      = stream e +:+ pending +:+ enc
      ∧ double_quoted n enc rest
      ∧ (column e + String.length pending ≤ best_width ∨ first = true →
         ∀ ch rest', rest = String ch rest' → is_direct ch = true →
         ∃ enc', enc = String ch enc' ∧ double_quoted n enc' rest').
Proof.
  intros Hn Hw. induction rest as [|ch rest IH]; intros first pending e.
  { exists EmptyString. rewrite double_quoted_loop_nil, stream_write.
    split; [by rewrite append_nil_r|]. split; [constructor|done]. }
  rewrite double_quoted_loop_step.
  destruct (is_direct ch) eqn:Hd.
  - (* a direct character *)
    set (fold := negb first
                 && (is_space ch
                     || match pending with EmptyString => true | _ => false end)
                 && (best_width <? column e + String.length pending) && split).
    assert (∃ enc,
              stream (double_quoted_loop split (Some n) false
                        (pending +:+ String ch EmptyString) rest e)
              = stream e +:+ pending +:+ enc
              ∧ double_quoted n enc (String ch rest)
              ∧ ∃ enc', enc = String ch enc' ∧ double_quoted n enc' rest)
      as Hkeep.
    { destruct (IH false (pending +:+ String ch EmptyString) e)
        as (enc & Hs & He & _).
      exists (String ch enc). rewrite Hs, !append_assoc.
      split; [done|]. split; [by apply double_quoted_direct|]. eauto. }
    destruct rest as [|ch' rest'].
    { destruct Hkeep as (enc & Hs & He & Hh). exists enc.
      split; [done|]. split; [done|]. by intros _ ? ? [= <- <-] _. }
    cbn zeta. fold fold. destruct fold eqn:Hf.
    + (* the line is folded in front of the character *)
      subst fold.
      apply andb_true_iff in Hf as [[[Hfirst _]%andb_true_iff Hc%Nat.ltb_lt]%andb_true_iff _].
      apply negb_true_iff in Hfirst.
      set (e1 := write (pending +:+ "\") e).
      assert (n < column e1) as Hc1.
      { unfold e1. rewrite column_write, length_append.
        cbn [String.append String.length]. unfold best_width in *. lia. }
      rewrite (write_indent_fold n e1 Hn Hc1).
      set (e3 := if is_space ch then write "\" _ else _).
      destruct (IH false (EmptyString +:+ String ch EmptyString) e3)
        as (enc & Hs & He & _).
      exists (String "\" (String newline
                (spaces n +:+ (if is_space ch then String "\" (String ch enc)
                               else String ch enc)))).
      split; [|split].
      * rewrite Hs. unfold e3, e1.
        destruct (is_space ch); cbn [stream write set_flags];
          rewrite ?append_assoc; simpl; by rewrite ?append_assoc.
      * destruct (is_space ch) eqn:Hsp.
        -- apply Ascii.eqb_eq in Hsp as ->.
           apply dq_fold; [|done]. by apply dq_escaped_space.
        -- apply dq_fold; [|simpl; by rewrite Hsp]. by apply dq_direct.
      * intros [?|?]; [|congruence]. unfold best_width in *. lia.
    + destruct Hkeep as (enc & Hs & He & Hh). exists enc.
      split; [done|]. split; [done|]. by intros _ ? ? [= <- <-] _.
  - (* a character that is escaped *)
    set (e1 := write (escape ch) (write pending e)).
    assert (stream e1 = stream e +:+ pending +:+ escape ch) as Hs1.
    { unfold e1. by rewrite !stream_write, append_assoc. }
    destruct rest as [|ch' rest'].
    { cbn zeta. destruct (IH false EmptyString e1) as (enc & Hs & He & _).
      exists (escape ch +:+ enc). rewrite Hs, Hs1, !append_assoc.
      split; [done|]. split; [by apply dq_escape|]. congruence. }
    cbn zeta.
    destruct (negb first && (is_space ch || true)
              && (best_width <? column e1 - 1) && split) eqn:Hf.
    + apply andb_true_iff in Hf as [[_ Hc%Nat.ltb_lt]%andb_true_iff _].
      set (e2 := write (EmptyString +:+ "\") e1).
      assert (n < column e2) as Hc2.
      { unfold e2. rewrite column_write. cbn [String.append String.length].
        unfold best_width in *. lia. }
      rewrite (write_indent_fold n e2 Hn Hc2).
      set (e4 := if is_space ch' then write "\" _ else _).
      destruct (IH false EmptyString e4) as (enc & Hs & He & Hh).
      assert (stream e4 = stream e +:+ pending +:+ escape ch
                          +:+ String "\" (String newline (spaces n))
                          +:+ (if is_space ch' then "\" else EmptyString))
        as Hs4.
      { unfold e4, e2. destruct (is_space ch'); cbn [stream write set_flags];
          rewrite Hs1, ?append_assoc; simpl; by rewrite ?append_assoc, ?append_nil_r. }
      destruct (is_space ch') eqn:Hsp.
      * destruct (Hh ltac:(left; unfold e4; simpl;
                                 unfold best_width in *; lia)
                      ch' rest' eq_refl) as (enc' & -> & He');
          [by apply Ascii.eqb_eq in Hsp as ->|].
        apply Ascii.eqb_eq in Hsp as ->.
        exists (escape ch +:+ String "\" (String newline
                  (spaces n +:+ String "\" (String " " enc')))).
        split; [|split; [|congruence]].
        -- rewrite Hs, Hs4, !append_assoc. simpl. by rewrite ?append_assoc.
        -- apply dq_escape. apply dq_fold; [|done]. by apply dq_escaped_space.
      * exists (escape ch +:+ String "\" (String newline (spaces n +:+ enc))).
        split; [|split; [|congruence]].
        -- rewrite Hs, Hs4, !append_assoc. simpl.
           by rewrite ?append_assoc, ?append_nil_l.
        -- apply dq_escape. apply dq_fold; [done|].
           destruct (next_is is_space enc) eqn:Hne; [|done].
           apply (double_quoted_head_space _ _ _ He) in Hne. simpl in Hne.
           congruence.
    + destruct (IH false EmptyString e1) as (enc & Hs & He & _).
      exists (escape ch +:+ enc). rewrite Hs, Hs1, !append_assoc.
      split; [done|]. split; [by apply dq_escape|]. congruence.
Qed.

(** *** Single-quoted scalars *)

Lemma single_quoted_loop_step split indent sp br at_start pending ch rest e :
  single_quoted_loop split indent sp br at_start pending (String ch rest) e
  = let '(pending, at_start, e) :=
      if sp then
        if is_space ch then (pending, at_start, e)
        else if (String.length pending =? 1)
                && (best_width <? column e) && split
                && negb at_start && negb false
        then (EmptyString, false, write_indent indent e)
        else (EmptyString, false, write pending e)
      else if br then
        if is_break ch then (pending, at_start, e)
        else (EmptyString, false, write_breaks indent pending e)
      else
        if is_space ch || is_break ch || Ascii.eqb ch "'"
        then (EmptyString,
              match pending with EmptyString => at_start | _ => false end,
              write pending e)
        else (pending, at_start, e) in
    if Ascii.eqb ch "'" then
      single_quoted_loop split indent false false false EmptyString rest
        (write "''" e)
    else
      single_quoted_loop split indent (is_space ch) (is_break ch) at_start
        (pending +:+ String ch EmptyString) rest e.
Proof. done. Qed.

Lemma single_quoted_loop_nil split indent sp br at_start pending e :
  single_quoted_loop split indent sp br at_start pending EmptyString e
  = if sp then write pending e
    else if br then write_breaks indent pending e
    else write pending e.
Proof. cbn. destruct sp, br; try done; by rewrite ?andb_false_r. Qed.

#[global] Arguments single_quoted_loop : simpl never.

Lemma spaces_snoc k : spaces k +:+ " " = spaces (S k).
Proof.
  induction k as [|k IH]; [done|].
  cbn [Renderer.Json.spaces]. rewrite append_cons. by rewrite IH.
Qed.

Lemma line_feeds_snoc k :
  line_feeds k +:+ String newline EmptyString = line_feeds (S k).
Proof.
  induction k as [|k IH]; [done|].
  cbn [line_feeds]. rewrite append_cons. by rewrite IH.
Qed.

Lemma write_breaks_line_feeds n k e :
  0 < n →
  stream (write_breaks (Some n) (line_feeds (S k)) e)
  = stream e +:+ String newline (line_feeds (S k) +:+ spaces n).
Proof.
  intros Hn. unfold write_breaks. cbn [line_feeds next_is].
  change (Ascii.eqb newline "010") with true. cbv iota.
  assert (∀ k e, fold_left
            (λ e br, if Ascii.eqb br newline then write_line_break e
                     else Emitter (stream e +:+ String br EmptyString) 0
                            true true (open_ended e))
            (list_ascii_of_string (line_feeds (S k))) e
          = Emitter (stream e +:+ line_feeds (S k)) 0 true true (open_ended e))
    as Hfold.
  { clear. induction k as [|k IH]; intros e; [done|].
    change (line_feeds (S (S k))) with (String newline (line_feeds (S k))).
    cbn [list_ascii_of_string fold_left].
    change (Ascii.eqb newline newline) with true. cbv iota.
    rewrite IH. unfold write_line_break. cbn [stream open_ended].
    by rewrite append_assoc. }
  change (String "010" (line_feeds k)) with (line_feeds (S k)).
  rewrite Hfold. destruct n as [|n]; [lia|].
  unfold write_indent, default, id. cbn.
  by rewrite !append_assoc.
Qed.

Ltac eval_at c :=
  let a := eval vm_compute in (is_space c) in
  let b := eval vm_compute in (is_break c) in
  let q := eval vm_compute in (Ascii.eqb c "'") in
  let l := eval vm_compute in (Ascii.eqb c newline) in
  change (is_space c) with a in *;
  change (is_break c) with b in *;
  change (Ascii.eqb c "'") with q in *;
  change (Ascii.eqb c newline) with l in *;
  cbv iota beta; cbn [orb andb negb] in *; cbv iota beta.

Lemma single_char_cases ch :
  Ascii.eqb ch newline || is_printable_ascii ch = true →
  ch = " "%char ∨ ch = newline ∨ ch = "'"%char
  ∨ (is_plain_char ch = true ∧ is_space ch = false ∧ is_break ch = false
     ∧ Ascii.eqb ch "'" = false ∧ Ascii.eqb ch newline = false
     ∧ is_blank_or_end ch = false).
Proof. destruct ch as [[] [] [] [] [] [] [] []]; vm_compute; auto 10. Qed.

Lemma single_quoted_prepend n pending enc text :
  all_chars is_plain_char pending = true → single_quoted n enc text →
  single_quoted n (pending +:+ enc) (pending +:+ text).
Proof.
  induction pending as [|ch pending IH]; simpl; [done|].
  intros [Hd Hp]%andb_true_iff H. apply sq_char; auto.
Qed.

Lemma single_quoted_loop_enc n split :
  0 < n → n < best_width →
  ∀ rest,
    (∀ pending at_start e,
       single_ok false false rest = true →
       ∃ enc,
         stream (single_quoted_loop split (Some n) false false at_start
                   pending rest e)
         = stream e +:+ pending +:+ enc
         ∧ single_quoted n enc rest)
    ∧ (∀ k at_start e,
         single_ok true false rest = true →
         ∃ enc,
           stream (single_quoted_loop split (Some n) true false at_start
                     (spaces (S k)) rest e)
           = stream e +:+ enc
           ∧ single_quoted n enc (spaces (S k) +:+ rest))
    ∧ (∀ k at_start e,
         single_ok false true rest = true →
         ∃ enc,
           stream (single_quoted_loop split (Some n) false true at_start
                     (line_feeds (S k)) rest e)
           = stream e +:+ enc
           ∧ single_quoted n enc (line_feeds (S k) +:+ rest)).
Proof.
  intros Hn Hw. induction rest as [|ch rest (IHW & IHS & IHB)].
  { split_and!.
    - intros pending at_start e _. exists EmptyString.
      rewrite single_quoted_loop_nil, stream_write, !append_nil_r.
      split; [done|constructor].
    - intros k at_start e _. exists (spaces (S k)).
      rewrite single_quoted_loop_nil, stream_write.
      split; [done|]. rewrite <-(append_nil_r (spaces (S k))) at 1.
      apply (sq_spaces n k); [constructor|done].
    - intros k at_start e _.
      exists (String newline (line_feeds (S k) +:+ spaces n)).
      rewrite single_quoted_loop_nil, write_breaks_line_feeds by done.
      split; [done|].
      pose proof (sq_breaks n k EmptyString EmptyString (sq_end n) eq_refl)
        as H.
      by rewrite !append_nil_r in *. }
  (* what follows a flush in front of a character that is no space and no
     line feed *)
  assert (∀ at_start e,
            single_ok false false rest = true →
            ch = "'"%char ∨ (is_plain_char ch = true ∧ is_space ch = false
                             ∧ is_break ch = false ∧ Ascii.eqb ch "'" = false
                             ∧ is_blank_or_end ch = false) →
            ∃ enc,
              stream (if Ascii.eqb ch "'" then
                        single_quoted_loop split (Some n) false false false
                          EmptyString rest (write "''" e)
                      else
                        single_quoted_loop split (Some n) (is_space ch)
                          (is_break ch) at_start
                          (EmptyString +:+ String ch EmptyString) rest e)
              = stream e +:+ enc
              ∧ single_quoted n enc (String ch rest)
              ∧ next_is is_blank_or_end enc = false) as Hcont.
  { intros at_start e Hok [->|(Hp & Hsp & Hbr & Hq & Hbl)].
    - change (Ascii.eqb "'" "'") with true. cbv iota.
      destruct (IHW EmptyString false (write "''" e) Hok) as (enc & Hs & He).
      exists (String "'" (String "'" enc)).
      rewrite Hs, stream_write, !append_assoc. split; [done|].
      split; [by apply sq_quote|done].
    - rewrite Hq, Hsp, Hbr.
      destruct (IHW (EmptyString +:+ String ch EmptyString) at_start e Hok)
        as (enc & Hs & He).
      exists (String ch enc). rewrite Hs. split; [done|].
      split; [by apply sq_char|]. simpl. done. }
  split_and!.
  - (* inside a word *)
    intros pending at_start e Hok. cbn [single_ok] in Hok.
    apply andb_true_iff in Hok as [[[Hch _]%andb_true_iff _]%andb_true_iff Hok].
    rewrite single_quoted_loop_step.
    destruct (single_char_cases ch Hch)
      as [->|[->|[->|(Hp & Hsp & Hbr & Hq & Hnl & Hbl)]]].
    + eval_at " "%char.
      destruct (IHS 0 (match pending with EmptyString => at_start | _ => false end)
                  (write pending e) Hok) as (enc & Hs & He).
      exists enc. cbn [Renderer.Json.spaces] in Hs.
      rewrite append_nil_l, Hs, stream_write, append_assoc. done.
    + eval_at newline.
      destruct (IHB 0 (match pending with EmptyString => at_start | _ => false end)
                  (write pending e) Hok) as (enc & Hs & He).
      exists enc. cbn [line_feeds] in Hs. unfold newline.
      rewrite append_nil_l, Hs, stream_write, append_assoc. done.
    + eval_at "'"%char.
      destruct (IHW EmptyString false (write "''" (write pending e)) Hok)
        as (enc & Hs & He).
      exists (String "'" (String "'" enc)).
      rewrite Hs, !stream_write, !append_assoc. split; [done|].
      by apply sq_quote.
    + rewrite Hsp, Hbr, Hq. cbv iota beta. cbn [orb]. cbv iota beta.
      rewrite Hsp, Hnl in Hok.
      destruct (IHW (pending +:+ String ch EmptyString) at_start e Hok)
        as (enc & Hs & He).
      exists (String ch enc). rewrite Hs, !append_assoc. split; [done|].
      by apply sq_char.
  - (* behind spaces *)
    intros k at_start e Hok. cbn [single_ok] in Hok.
    apply andb_true_iff in Hok as [[[Hch _]%andb_true_iff Hnb]%andb_true_iff Hok].
    rewrite single_quoted_loop_step. cbv iota.
    destruct (single_char_cases ch Hch)
      as [->|[->|[->|(Hp & Hsp & Hbr & Hq & Hnl & Hbl)]]].
    + eval_at " "%char.
      destruct (IHS (S k) at_start e Hok) as (enc & Hs & He).
      exists enc. rewrite spaces_snoc. split; [done|].
      by rewrite <-spaces_snoc, append_assoc in He.
    + done.
    + eval_at "'"%char.
      destruct ((String.length _ =? 1) && _ && _ && _ && _) eqn:Hfold.
      * apply andb_true_iff in Hfold
          as [[[[Hk%Nat.eqb_eq Hc%Nat.ltb_lt]%andb_true_iff
                _]%andb_true_iff _]%andb_true_iff _].
        rewrite length_spaces in Hk. injection Hk as ->.
        destruct (Hcont false (write_indent (Some n) e) Hok ltac:(by left))
          as (enc & Hs & He & Hb).
        exists (String newline (spaces n +:+ enc)).
        rewrite Hs, write_indent_fold by (unfold best_width in *; lia).
        cbn [stream]. rewrite !append_assoc. split; [done|].
        by apply sq_fold.
      * destruct (Hcont false (write (spaces (S k)) e) Hok ltac:(by left))
          as (enc & Hs & He & Hb).
        exists (spaces (S k) +:+ enc).
        rewrite Hs, stream_write, !append_assoc. split; [done|].
        by apply sq_spaces.
    + rewrite Hsp. cbv iota. rewrite Hsp, Hnl in Hok.
      destruct ((String.length _ =? 1) && _ && _ && _ && _) eqn:Hfold.
      * apply andb_true_iff in Hfold
          as [[[[Hk%Nat.eqb_eq Hc%Nat.ltb_lt]%andb_true_iff
                _]%andb_true_iff _]%andb_true_iff _].
        rewrite length_spaces in Hk. injection Hk as ->.
        destruct (Hcont false (write_indent (Some n) e) Hok
                    ltac:(by right))
          as (enc & Hs & He & Hb).
        rewrite Hsp in Hs.
        exists (String newline (spaces n +:+ enc)).
        rewrite Hs, write_indent_fold by (unfold best_width in *; lia).
        cbn [stream]. rewrite !append_assoc. split; [done|].
        by apply sq_fold.
      * destruct (Hcont false (write (spaces (S k)) e) Hok ltac:(by right))
          as (enc & Hs & He & Hb).
        rewrite Hsp in Hs.
        exists (spaces (S k) +:+ enc).
        rewrite Hs, stream_write, !append_assoc. split; [done|].
        by apply sq_spaces.
  - (* behind line feeds *)
    intros k at_start e Hok. cbn [single_ok] in Hok.
    apply andb_true_iff in Hok as [[[Hch Hnb]%andb_true_iff _]%andb_true_iff Hok].
    rewrite single_quoted_loop_step. cbv iota.
    destruct (single_char_cases ch Hch)
      as [->|[->|[->|(Hp & Hsp & Hbr & Hq & Hnl & Hbl)]]].
    + done.
    + eval_at newline.
      destruct (IHB (S k) at_start e Hok) as (enc & Hs & He).
      exists enc. rewrite line_feeds_snoc. split; [done|].
      by rewrite <-line_feeds_snoc, append_assoc in He.
    + eval_at "'"%char.
      destruct (Hcont false (write_breaks (Some n) (line_feeds (S k)) e) Hok
                  ltac:(by left))
        as (enc & Hs & He & Hb).
      exists (String newline (line_feeds (S k) +:+ spaces n +:+ enc)).
      rewrite Hs, write_breaks_line_feeds by done.
      rewrite !append_assoc. split; [by rewrite ?append_cons, ?append_assoc|].
      by apply sq_breaks.
    + rewrite Hbr. cbv iota. rewrite Hsp, Hnl in Hok.
      destruct (Hcont false (write_breaks (Some n) (line_feeds (S k)) e) Hok
                  ltac:(by right))
        as (enc & Hs & He & Hb).
      rewrite Hbr in Hs.
      exists (String newline (line_feeds (S k) +:+ spaces n +:+ enc)).
      rewrite Hs, write_breaks_line_feeds by done.
      rewrite !append_assoc. split; [by rewrite ?append_cons, ?append_assoc|].
      by apply sq_breaks.
Qed.

(** *** Plain scalars *)

Lemma ends_with_colon_snoc p ch :
  ends_with_colon (p +:+ String ch EmptyString) = Ascii.eqb ch ":".
Proof.
  induction p as [|c p IH]; [done|].
  rewrite append_cons. cbn [ends_with_colon]. rewrite IH.
  by destruct p.
Qed.

Lemma is_chunk_spec w :
  is_chunk w
  = all_chars (λ ch, negb (is_blank_or_end ch)) w && negb (ends_with_colon w).
Proof.
  induction w as [|ch w IH]; [done|].
  cbn [is_chunk all_chars ends_with_colon]. rewrite IH.
  destruct w as [|ch' w].
  - simpl. by destruct (is_blank_or_end ch), (Ascii.eqb ch ":").
  - rewrite andb_false_r. cbn [negb]. by rewrite andb_true_r, andb_assoc.
Qed.

Lemma is_word_spec w :
  w ≠ EmptyString →
  all_chars (λ ch, negb (is_blank_or_end ch)) w = true →
  next_is (Ascii.eqb "#") w = false → ends_with_colon w = false →
  is_word w = true.
Proof.
  intros Hw Ha Hh Hc. destruct w as [|ch w]; [done|].
  unfold is_word. rewrite is_chunk_spec, Ha, Hc.
  cbn [next_is] in Hh. rewrite Ascii.eqb_sym in Hh. by rewrite Hh.
Qed.

Lemma all_chars_snoc p w ch :
  all_chars p w = true → p ch = true →
  all_chars p (w +:+ String ch EmptyString) = true.
Proof. intros Hw Hch. rewrite all_chars_app, Hw. simpl. by rewrite Hch. Qed.

Lemma plain_loop_step split indent sp br pending ch rest e :
  plain_loop split indent sp br pending (String ch rest) e
  = let '(pending, e) :=
      if sp then
        if is_space ch then (pending, e)
        else if (String.length pending =? 1) && (best_width <? column e) && split
        then (EmptyString, set_flags false false (write_indent indent e))
        else (EmptyString, write pending e)
      else if br then
        if is_break ch then (pending, e)
        else (EmptyString, set_flags false false (write_breaks indent pending e))
      else
        if is_space ch || is_break ch then (EmptyString, write pending e)
        else (pending, e) in
    plain_loop split indent (is_space ch) (is_break ch)
      (pending +:+ String ch EmptyString) rest e.
Proof. done. Qed.

Lemma plain_loop_nil split indent pending e :
  plain_loop split indent false false pending EmptyString e = write pending e.
Proof. done. Qed.

#[global] Arguments plain_loop : simpl never.

Lemma printable_cases ch :
  is_printable_ascii ch = true →
  is_break ch = false
  ∧ (is_space ch = false → is_blank_or_end ch = false).
Proof. destruct ch as [[] [] [] [] [] [] [] []]; vm_compute; auto. Qed.

Lemma plain_loop_enc n split :
  0 < n → n < best_width →
  ∀ rest,
    (∀ pending e,
       pending ≠ EmptyString →
       all_chars (λ ch, negb (is_blank_or_end ch)) pending = true →
       next_is (Ascii.eqb "#") pending = false →
       plain_ok false false (ends_with_colon pending) rest = true →
       ∃ enc,
         stream (plain_loop split (Some n) false false pending rest e)
         = stream e +:+ enc
         ∧ plain_folded n enc (pending +:+ rest))
    ∧ (∀ k e,
         plain_ok false true false rest = true →
         ∃ enc,
           stream (plain_loop split (Some n) true false (spaces (S k)) rest e)
           = stream e +:+ enc
           ∧ ∀ w, is_word w = true →
                  plain_folded n (w +:+ enc) (w +:+ spaces (S k) +:+ rest)).
Proof.
  intros Hn Hw. induction rest as [|ch rest (IHW & IHS)].
  { split.
    - intros pending e Hp Ha Hh Hok. simpl in Hok.
      apply negb_true_iff in Hok.
      exists pending. rewrite plain_loop_nil, stream_write, append_nil_r.
      split; [done|]. apply pf_word. by apply is_word_spec.
    - by intros k e Hok. }
  split.
  - intros pending e Hp Ha Hh Hok. cbn [plain_ok] in Hok.
    apply andb_true_iff in Hok as [[[Hch Hsc]%andb_true_iff _]%andb_true_iff Hok].
    destruct (printable_cases ch Hch) as [Hbr Hbl].
    rewrite plain_loop_step, Hbr, orb_false_r.
    destruct (is_space ch) eqn:Hsp.
    + apply Ascii.eqb_eq in Hsp as ->. simpl in Hsc.
      apply negb_true_iff in Hsc.
      destruct (IHS 0 (write pending e) Hok) as (enc & Hs & He).
      exists (pending +:+ enc). cbn [Renderer.Json.spaces] in Hs.
      rewrite append_nil_l, Hs, stream_write, append_assoc. split; [done|].
      apply (He pending). by apply is_word_spec.
    + destruct (IHW (pending +:+ String ch EmptyString) e) as (enc & Hs & He).
      * by destruct pending.
      * apply all_chars_snoc; [done|]. by rewrite Hbl.
      * by destruct pending.
      * by rewrite ends_with_colon_snoc.
      * exists enc. split; [done|]. by rewrite append_assoc in He.
  - intros k e Hok. cbn [plain_ok] in Hok.
    apply andb_true_iff in Hok as [[[Hch _]%andb_true_iff Hh]%andb_true_iff Hok].
    rewrite andb_true_r in Hh. apply negb_true_iff in Hh.
    destruct (printable_cases ch Hch) as [Hbr Hbl].
    rewrite plain_loop_step. cbv iota.
    destruct (is_space ch) eqn:Hsp.
    + apply Ascii.eqb_eq in Hsp as ->.
      destruct (IHS (S k) e Hok) as (enc & Hs & He).
      exists enc. rewrite spaces_snoc. split; [done|].
      intros w Hword. specialize (He w Hword).
      by rewrite <-spaces_snoc, !append_assoc in He.
    + assert (∀ e1, ∃ enc,
                stream (plain_loop split (Some n) false (is_break ch)
                          (EmptyString +:+ String ch EmptyString) rest e1)
                = stream e1 +:+ enc
                ∧ plain_folded n enc (String ch rest)) as Hcont.
      { intros e1. rewrite Hbr.
        destruct (IHW (EmptyString +:+ String ch EmptyString) e1)
          as (enc & Hs & He).
        - done.
        - simpl. by rewrite Hbl.
        - rewrite append_nil_l. cbn [next_is]. by rewrite Ascii.eqb_sym.
        - done.
        - exists enc. split; [done|]. done. }
      destruct ((String.length _ =? 1) && _ && _) eqn:Hfold.
      * apply andb_true_iff in Hfold as [[Hk%Nat.eqb_eq Hc%Nat.ltb_lt]%andb_true_iff _].
        rewrite length_spaces in Hk. injection Hk as ->.
        destruct (Hcont (set_flags false false (write_indent (Some n) e)))
          as (enc & Hs & He).
        exists (String newline (spaces n +:+ enc)).
        rewrite Hs, write_indent_fold by (unfold best_width in *; lia).
        cbn [stream set_flags]. rewrite !append_assoc. split; [done|].
        intros w Hword. by apply pf_fold.
      * destruct (Hcont (write (spaces (S k)) e)) as (enc & Hs & He).
        exists (spaces (S k) +:+ enc).
        rewrite Hs, stream_write, !append_assoc. split; [done|].
        intros w Hword. by apply pf_spaces.
Qed.

(** ** What the analysis of a scalar admits *)

Lemma orb_false_elim_l (a b : bool) : a || b = false → a = false.
Proof. by destruct a. Qed.

Lemma orb_false_elim_r (a b : bool) : a || b = false → b = false.
Proof. by destruct a, b. Qed.

Lemma printable_whitespace ch :
  is_printable_ascii ch = true → is_whitespace ch = is_space ch.
Proof. destruct ch as [[] [] [] [] [] [] [] []]; vm_compute; auto. Qed.

Lemma not_break_printable ch :
  Ascii.eqb ch newline || is_printable_ascii ch = true → is_break ch = false →
  is_printable_ascii ch = true.
Proof. destruct ch as [[] [] [] [] [] [] [] []]; vm_compute; auto. Qed.

(** A flag that is not raised at the end was never raised. *)
Lemma analyze_loop_mono s :
  ∀ first pw ps pb f,
    let F := analyze_loop first pw ps pb s f in
    (block_indicators F = false → block_indicators f = false)
    ∧ (line_breaks F = false → line_breaks f = false)
    ∧ (special_characters F = false → special_characters f = false)
    ∧ (leading_space F = false → leading_space f = false)
    ∧ (trailing_space F = false → trailing_space f = false)
    ∧ (break_space F = false → break_space f = false)
    ∧ (space_break F = false → space_break f = false).
Proof.
  induction s as [|ch rest IH]; intros first pw ps pb f F; [done|].
  subst F. cbn [analyze_loop].
  destruct (IH false (is_whitespace ch) (Ascii.eqb ch " ")
              (negb (Ascii.eqb ch " ") && is_break ch)
              (analyze_char first pw ps pb ch rest f))
    as (H1 & H2 & H3 & H4 & H5 & H6 & H7).
  split_and!; intros H;
    [apply H1 in H|apply H2 in H|apply H3 in H|apply H4 in H|apply H5 in H
    |apply H6 in H|apply H7 in H];
    cbn [analyze_char block_indicators line_breaks special_characters
         leading_space trailing_space break_space space_break] in H;
    by apply orb_false_elim_l in H.
Qed.

Lemma analyze_loop_plain s :
  ∀ first pw ps pb f pc,
    let F := analyze_loop first pw ps pb s f in
    block_indicators F = false → line_breaks F = false →
    special_characters F = false → leading_space F = false →
    trailing_space F = false →
    (s = EmptyString → pw = false) →
    (pc = true → followed_by_whitespace s = false) →
    (first = true → pw = true) →
    plain_ok first pw pc s = true
    ∧ (first = true → plain_start s = true).
Proof.
  induction s as [|ch rest IH]; intros first pw ps pb f pc F.
  { subst F. simpl. intros Hb Hl Hs Hls Hts Hpw Hpc Hfirst.
    split.
    - rewrite Hpw by done. by destruct pc; [specialize (Hpc eq_refl)|].
    - intros ->. by rewrite Hfirst in Hpw by done; specialize (Hpw eq_refl). }
  subst F. cbn [analyze_loop].
  intros Hb Hl Hs Hls Hts Hpw Hpc Hfirst.
  destruct (analyze_loop_mono rest false (is_whitespace ch) (Ascii.eqb ch " ")
              (negb (Ascii.eqb ch " ") && is_break ch)
              (analyze_char first pw ps pb ch rest f))
    as (Hb' & Hl' & Hs' & Hls' & Hts' & _).
  specialize (Hb' Hb). specialize (Hl' Hl). specialize (Hs' Hs).
  specialize (Hls' Hls). specialize (Hts' Hts).
  cbn [analyze_char block_indicators line_breaks special_characters
       leading_space trailing_space] in Hb', Hl', Hs', Hls', Hts'.
  apply orb_false_elim_r in Hb', Hl', Hs', Hls', Hts'.
  change (Ascii.eqb ch " ") with (is_space ch) in *.
  apply negb_false_iff in Hs'.
  pose proof (not_break_printable ch Hs' Hl') as Hp.
  pose proof (printable_whitespace ch Hp) as Hws.
  destruct (IH false (is_whitespace ch) (Ascii.eqb ch " ")
              (negb (Ascii.eqb ch " ") && is_break ch)
              (analyze_char first pw ps pb ch rest f) (Ascii.eqb ch ":")
              Hb Hl Hs Hls Hts) as (Hok & _); clear IH.
  - intros ->. rewrite andb_true_r in Hts'. by rewrite Hws.
  - intros Hc%Ascii.eqb_eq. subst ch.
    destruct (followed_by_whitespace rest); [|done].
    by destruct first, pw.
  - done.
  - split.
    + cbn [plain_ok]. rewrite Hp, <-Hws, Hok, andb_true_r. cbn [andb].
      apply andb_true_iff. split.
      * apply negb_true_iff. destruct (is_whitespace ch) eqn:Hw; [|done].
        cbn [andb]. destruct first; [by rewrite <-Hws in Hls'|].
        cbn [orb]. destruct pc; [|done]. specialize (Hpc eq_refl).
        cbn [followed_by_whitespace] in Hpc. congruence.
      * apply negb_true_iff. destruct (Ascii.eqb ch "#") eqn:Hh; [|done].
        apply Ascii.eqb_eq in Hh as ->. cbn [andb].
        destruct first; [done|]. by destruct pw.
    + intros ->. unfold plain_start.
      destruct (mem ch _); [done|]. cbn [negb andb orb] in *.
      destruct (followed_by_whitespace rest); [|by rewrite andb_false_r].
      rewrite !andb_true_r in *. by destruct (mem ch "?:"), (Ascii.eqb ch "-").
Qed.

Lemma break_is_newline ch :
  Ascii.eqb ch newline || is_printable_ascii ch = true →
  negb (Ascii.eqb ch " ") && is_break ch = Ascii.eqb ch newline.
Proof. destruct ch as [[] [] [] [] [] [] [] []]; vm_compute; auto. Qed.

Lemma analyze_loop_single s :
  ∀ first pw ps pb f,
    let F := analyze_loop first pw ps pb s f in
    special_characters F = false → break_space F = false →
    space_break F = false →
    single_ok ps pb s = true.
Proof.
  induction s as [|ch rest IH]; intros first pw ps pb f F; [done|].
  subst F. cbn [analyze_loop]. intros Hs Hbs Hsb.
  destruct (analyze_loop_mono rest false (is_whitespace ch) (Ascii.eqb ch " ")
              (negb (Ascii.eqb ch " ") && is_break ch)
              (analyze_char first pw ps pb ch rest f))
    as (_ & _ & Hs' & _ & _ & Hbs' & Hsb').
  specialize (Hs' Hs). specialize (Hbs' Hbs). specialize (Hsb' Hsb).
  cbn [analyze_char special_characters break_space space_break]
    in Hs', Hbs', Hsb'.
  apply orb_false_elim_r in Hs', Hbs', Hsb'.
  apply negb_false_iff in Hs'.
  specialize (IH _ _ _ _ _ Hs Hbs Hsb).
  rewrite (break_is_newline ch Hs') in *.
  change (Ascii.eqb ch " ") with (is_space ch) in *.
  cbn [single_ok]. rewrite Hs', IH, Hbs', Hsb'. done.
Qed.

Lemma choose_plain value :
  choose_scalar_style value false = Plain →
  implicit value = true ∧ plain_ok true true false value = true
  ∧ plain_start value = true.
Proof.
  unfold choose_scalar_style.
  destruct (implicit value) eqn:Hi; [|by repeat case_match].
  cbn [andb negb].
  destruct (allow_block_plain (analyze_scalar value)) eqn:Ha;
    [|by repeat case_match].
  intros _. split; [done|].
  destruct value as [|ch rest]; [done|].
  unfold analyze_scalar in Ha. cbn [allow_block_plain] in Ha.
  apply negb_true_iff in Ha.
  repeat match type of Ha with
         | _ || _ = false => apply orb_false_iff in Ha as [Ha ?]
         end.
  match type of Ha with
  | leading_space (analyze_loop _ _ _ _ _ ?f) = _ =>
      pose proof (analyze_loop_plain (String ch rest) true true false false
                    f false) as Hp
  end.
  cbv zeta in Hp.
  destruct Hp as [Hok Hst]; try done. by split; [|apply Hst].
Qed.

Lemma choose_single value :
  choose_scalar_style value false = SingleQuoted →
  single_ok false false value = true.
Proof.
  unfold choose_scalar_style. case_match; [done|].
  cbn [andb negb]. rewrite andb_true_r.
  destruct (allow_single_quoted (analyze_scalar value)) eqn:Ha; [|done].
  intros _. destruct value as [|ch rest]; [done|].
  unfold analyze_scalar in Ha. cbn [allow_single_quoted] in Ha.
  apply negb_true_iff in Ha.
  repeat match type of Ha with
         | _ || _ = false => apply orb_false_iff in Ha as [Ha ?]
         end.
  match type of Ha with
  | break_space (analyze_loop _ _ _ _ _ ?f) = _ =>
      pose proof (analyze_loop_single (String ch rest) true true false false
                    f) as Hp
  end.
  cbv zeta in Hp. by apply Hp.
Qed.

(** ** The text of a value *)

(** The value behind a key, in each of the three styles. *)
Lemma yaml_scalar_shape column value :
  match choose_scalar_style value false with
  | Plain =>
      ∃ enc, Layout.yaml_scalar column value = String " " enc
             ∧ plain_folded 4 enc value
  | SingleQuoted =>
      ∃ enc, Layout.yaml_scalar column value
             = String " " (String "'" (enc +:+ "'"))
             ∧ single_quoted 4 enc value
  | DoubleQuoted =>
      ∃ enc, Layout.yaml_scalar column value
             = String " " (String quote (enc +:+ String quote EmptyString))
             ∧ double_quoted 4 enc value
  end.
Proof.
  unfold Layout.yaml_scalar, expect_scalar.
  change (increase_indent true false (Some 2)) with (Some 4).
  cbn [negb].
  destruct (choose_scalar_style value false) eqn:Hstyle.
  - apply choose_plain in Hstyle as (_ & Hok & _).
    destruct value as [|ch rest]; [done|].
    unfold write_plain. cbv iota. cbn [whitespace].
    cbn [plain_ok] in Hok.
    apply andb_true_iff in Hok as [[[Hch Hsp]%andb_true_iff Hh]%andb_true_iff Hok].
    cbn [orb] in Hsp. rewrite andb_true_r in Hsp, Hh.
    apply negb_true_iff in Hsp, Hh.
    destruct (printable_cases ch Hch) as [Hbr Hbl].
    rewrite plain_loop_step, Hsp, Hbr. cbv iota. cbn [orb]. cbv iota.
    destruct (plain_loop_enc 4 true ltac:(lia) ltac:(unfold best_width; lia) rest)
      as [HW _].
    destruct (HW (EmptyString +:+ String ch EmptyString)
                (set_flags false false
                   (write " " (Emitter EmptyString column false false false))))
      as (enc & Hs & He).
    + done.
    + simpl. by rewrite Hbl.
    + rewrite append_nil_l. cbn [next_is]. by rewrite Ascii.eqb_sym.
    + by rewrite Hsp in Hok.
    + exists enc. rewrite Hs. split; [done|]. done.
  - apply choose_single in Hstyle.
    unfold write_single_quoted.
    destruct (single_quoted_loop_enc 4 true ltac:(lia)
                ltac:(unfold best_width; lia) value) as [HW _].
    destruct (HW EmptyString true
                (write_indicator "'" true false false
                   (Emitter EmptyString column false false false)) Hstyle)
      as (enc & Hs & He).
    exists enc. split; [|done].
    unfold write_indicator at 1. cbn [negb]. rewrite orb_true_r.
    cbn [stream]. rewrite Hs. unfold write_indicator. cbn.
    by rewrite ?append_assoc, ?append_nil_l.
  - unfold write_double_quoted.
    destruct (double_quoted_loop_enc 4 true ltac:(lia)
                ltac:(unfold best_width; lia) value true EmptyString
                (write_indicator (String quote EmptyString) true false false
                   (Emitter EmptyString column false false false)))
      as (enc & Hs & He & _).
    exists enc. split; [|done].
    unfold write_indicator at 1. cbn [negb]. rewrite orb_true_r.
    cbn [stream]. rewrite Hs. unfold write_indicator. cbn.
    by rewrite ?append_assoc, ?append_nil_l.
Qed.

(** *** The characters of an encoding *)

Lemma plain_folded_ascii n enc text :
  plain_folded n enc text →
  all_chars is_ascii_text text = true → all_chars is_ascii_text enc = true.
Proof.
  induction 1 as [w Hw|w k enc text Hw H IH|w enc text Hw H IH]; [done|..].
  - rewrite !all_chars_app.
    intros [Hw' [Hs Ht]%andb_true_iff]%andb_true_iff.
    by rewrite Hw', Hs, IH.
  - rewrite !all_chars_app. cbn [all_chars]. rewrite all_chars_app.
    intros [Hw' [_ Ht]%andb_true_iff]%andb_true_iff.
    rewrite Hw', IH by done. rewrite all_chars_spaces by done. done.
Qed.

Lemma plain_ok_ascii first ps pc s :
  plain_ok first ps pc s = true → all_chars is_ascii_text s = true.
Proof.
  revert first ps pc. induction s as [|ch s IH]; intros first ps pc; [done|].
  cbn [plain_ok all_chars].
  intros [[[Hch _]%andb_true_iff _]%andb_true_iff Hok]%andb_true_iff.
  rewrite (IH _ _ _ Hok), andb_true_r.
  revert Hch. clear. destruct ch as [[] [] [] [] [] [] [] []]; by vm_compute.
Qed.

Lemma single_quoted_ascii n enc text :
  single_quoted n enc text → all_chars is_ascii_text enc = true.
Proof.
  induction 1 as [|ch enc text Hd _ IH|enc text _ IH|k enc text H IH Hs
                  |enc text H IH Hs|k enc text H IH Hs].
  - done.
  - cbn [all_chars]. rewrite IH, andb_true_r.
    revert Hd. clear. destruct ch as [[] [] [] [] [] [] [] []]; by vm_compute.
  - cbn [all_chars]. by rewrite IH.
  - by rewrite all_chars_app, IH, all_chars_spaces.
  - cbn [all_chars]. by rewrite all_chars_app, IH, all_chars_spaces.
  - cbn [all_chars]. rewrite !all_chars_app, IH, all_chars_spaces by done.
    assert (all_chars is_ascii_text (line_feeds (S k)) = true) as ->; [|done].
    clear. induction k as [|k IH]; [done|]. by cbn [line_feeds all_chars] in *.
Qed.

Lemma yaml_escape_ascii ch : all_chars is_ascii_text (escape ch) = true.
Proof. destruct ch as [[] [] [] [] [] [] [] []]; vm_compute; reflexivity. Qed.

Lemma double_quoted_ascii n enc text :
  double_quoted n enc text → all_chars is_ascii_text enc = true.
Proof.
  induction 1 as [|ch enc text Hd Hs _ IH|k enc text H IH Hs
                  |ch enc text _ IH|enc text _ IH|enc text H IH Hs].
  - done.
  - cbn [all_chars]. rewrite IH, andb_true_r.
    revert Hd. clear. destruct ch as [[] [] [] [] [] [] [] []]; by vm_compute.
  - by rewrite all_chars_app, IH, all_chars_spaces.
  - by rewrite all_chars_app, IH, yaml_escape_ascii.
  - cbn [all_chars]. by rewrite IH.
  - cbn [all_chars]. by rewrite all_chars_app, IH, all_chars_spaces.
Qed.

Lemma yaml_scalar_ascii column value :
  all_chars is_ascii_text (Layout.yaml_scalar column value) = true.
Proof.
  pose proof (yaml_scalar_shape column value) as H.
  destruct (choose_scalar_style value false) eqn:Hstyle.
  - destruct H as (enc & -> & He). cbn [all_chars].
    apply choose_plain in Hstyle as (_ & Hok & _).
    by rewrite (plain_folded_ascii _ _ _ He (plain_ok_ascii _ _ _ _ Hok)).
  - destruct H as (enc & -> & He). cbn [all_chars].
    by rewrite all_chars_app, (single_quoted_ascii _ _ _ He).
  - destruct H as (enc & -> & He). cbn [all_chars].
    by rewrite all_chars_app, (double_quoted_ascii _ _ _ He).
Qed.

(** The YAML text is made of printable ASCII characters and line feeds. *)
Lemma format_to_yaml_ascii records :
  all_chars is_ascii_text (format_to_yaml records) = true.
Proof.
  rewrite format_to_yaml_document.
  destruct records as [|r records]; [done|].
  unfold Layout.yaml_document. rewrite !all_chars_app.
  assert (∀ l, all_chars is_ascii_text (Layout.concat (map Layout.yaml_entry l))
               = true) as ->; [|done].
  clear. induction l as [|r l IH]; [done|].
  cbn [map Layout.concat]. rewrite all_chars_app, IH, andb_true_r.
  unfold Layout.yaml_entry.
  by rewrite !all_chars_app, !yaml_scalar_ascii.
Qed.

End EmitterFacts.

(** ** Reading YAML back *)

Module YamlRoundTrip.
Import YamlText YamlStyle ScannerFacts EmitterFacts.
Import Renderer RendererFacts Parsers Parsers.Yaml.
Import YamlText.
Local Open Scope nat_scope.

Local Abbreviation next_is := Renderer.Yaml.next_is.
Local Abbreviation spaces := Renderer.Json.spaces.
Local Abbreviation append_nil_l := JsonRoundTrip.append_nil_l.
Local Abbreviation nl := Parsers.Yaml.newline.

(** ** The scanner on the lines of the document *)

Lemma scan_to_next_token_S f st :
  scan_to_next_token (S f) st
  = let r := input st in
    let r := forward (count_while (Ascii.eqb " ") (buffer r)) r in
    let r :=
      if Ascii.eqb (peek 0 r) "#"
      then forward (count_while (λ ch, negb (is_line_end ch)) (buffer r)) r
      else r in
    let '(line_break, r) := scan_line_break r in
    let st := with_input r st in
    if negb (String.eqb line_break EmptyString) then
      scan_to_next_token f
        (if in_block st then with_allow_simple_key true st else st)
    else Some st.
Proof. done. Qed.

#[global] Arguments scan_to_next_token : simpl never.

Lemma starts_token_peek r s :
  buffer r = s → starts_token s = true →
  Ascii.eqb (peek 0 r) " " = false ∧ Ascii.eqb (peek 0 r) "#" = false
  ∧ is_line_break (peek 0 r) = false.
Proof.
  intros Hb Hs. rewrite peek_0, Hb. destruct s as [|ch s]; [done|].
  unfold starts_token in Hs. cbn [next_is] in Hs. apply negb_true_iff in Hs.
  apply orb_false_iff in Hs as [[? ?]%orb_false_iff ?]. done.
Qed.

Lemma starts_token_not_space s :
  starts_token s = true → next_is (Ascii.eqb " ") s = false.
Proof.
  destruct s as [|ch s]; [done|]. unfold starts_token. cbn [next_is].
  intros [[? ?]%orb_false_iff ?]%negb_true_iff%orb_false_iff.
  by rewrite Ascii.eqb_sym.
Qed.

(** At the start of a token nothing is skipped. *)
Lemma scan_to_next_token_stay f r ts n ns allow keys :
  starts_token (buffer r) = true →
  scan_to_next_token (S f) (Scanner r false 0 ts n ns allow keys)
  = Some (Scanner r false 0 ts n ns allow keys).
Proof.
  intros Hs. rewrite scan_to_next_token_S. cbn [input].
  rewrite count_while_stop, forward_0
    by by apply starts_token_not_space.
  destruct (starts_token_peek r _ eq_refl Hs) as (_ & -> & Hbr).
  unfold scan_line_break. by rewrite Hbr.
Qed.

(** Spaces in front of a token are skipped. *)
Lemma scan_to_next_token_spaces f r k s ts n ns allow keys :
  buffer r = spaces k +:+ s → starts_token s = true →
  scan_to_next_token (S f) (Scanner r false 0 ts n ns allow keys)
  = Some (Scanner (Reader s (index r + k) (line r) (column r + k))
            false 0 ts n ns allow keys).
Proof.
  intros Hb Hs. rewrite scan_to_next_token_S. cbn [input].
  rewrite Hb, count_while_spaces by (by try apply starts_token_not_space).
  rewrite (forward_spaces _ _ _ Hb).
  set (r1 := Reader _ _ _ _).
  destruct (starts_token_peek r1 s eq_refl Hs) as (_ & -> & Hbr).
  unfold scan_line_break. by rewrite Hbr.
Qed.

(** The end of a line and the indentation of the next one are skipped, and
    a key may start there. *)
Lemma scan_to_next_token_line f r m s ts n ns allow keys :
  buffer r = String "010" (spaces m +:+ s) → starts_token s = true →
  scan_to_next_token (S (S f)) (Scanner r false 0 ts n ns allow keys)
  = Some (Scanner (Reader s (index r + S m) (S (line r)) m)
            false 0 ts n ns true keys).
Proof.
  intros Hb Hs. rewrite scan_to_next_token_S. cbn [input].
  rewrite Hb. cbn [count_while]. change (Ascii.eqb " " "010") with false.
  cbv iota. rewrite forward_0, (peek_0_cons _ _ _ Hb).
  change (Ascii.eqb "010" "#") with false. cbv iota.
  rewrite (scan_line_break_nl _ _ Hb), (forward_1_nl _ _ Hb).
  cbn [with_input in_block flow_level negb String.eqb Ascii.eqb Bool.eqb].
  cbn. unfold with_allow_simple_key. cbn.
  rewrite (scan_to_next_token_spaces f _ m s) by done.
  cbn. do 2 f_equal. f_equal; lia.
Qed.

Lemma fetch_more_tokens_eq st :
  fetch_more_tokens st
  = (st ← scan_to_next_token (S (String.length (buffer (input st)))) st;
     st ← stale_possible_simple_keys st;
     fetch_token (unwind_indent (Z.of_nat (column (input st))) st)).
Proof. done. Qed.

(** With no possible key and an indentation that is not deeper than the
    column, the token is fetched where the next token starts. *)
Lemma fetch_more_tokens_at st r ts n ns allow :
  scan_to_next_token (S (String.length (buffer (input st)))) st
  = Some (Scanner r false 0 ts n ns allow ∅) →
  (n ≤ Z.of_nat (column r))%Z →
  fetch_more_tokens st = fetch_token (Scanner r false 0 ts n ns allow ∅).
Proof.
  intros Hn Hc. rewrite fetch_more_tokens_eq, Hn. cbn [mbind option_bind].
  unfold stale_possible_simple_keys. cbn [possible_simple_keys].
  rewrite map_to_list_empty. cbn [existsb]. cbn [mbind option_bind].
  rewrite map_filter_empty.
  unfold unwind_indent, with_possible_simple_keys, in_block. cbn.
  destruct ns as [|n' ns]; cbn [unwind];
    by assert ((Z.of_nat (column r) <? n)%Z = false) as -> by lia.
Qed.

Lemma letter_tests ch :
  is_letter ch = true →
  Ascii.eqb ch nul = false ∧ Ascii.eqb ch "%" = false
  ∧ Ascii.eqb ch "-" = false ∧ Ascii.eqb ch "." = false
  ∧ Ascii.eqb ch "[" = false ∧ Ascii.eqb ch "{" = false
  ∧ Ascii.eqb ch "]" = false ∧ Ascii.eqb ch "}" = false
  ∧ Ascii.eqb ch "," = false ∧ Ascii.eqb ch "?" = false
  ∧ Ascii.eqb ch ":" = false ∧ Renderer.Yaml.mem ch "*&!" = false
  ∧ Renderer.Yaml.mem ch "|>" = false ∧ Ascii.eqb ch "'" = false
  ∧ Ascii.eqb ch quote = false ∧ Ascii.eqb ch "#" = false
  ∧ is_blank_or_end ch = false
  ∧ Renderer.Yaml.mem ch (String quote "-?:,[]{}#&*!|>'%@`") = false.
Proof. destruct ch as [[] [] [] [] [] [] [] []]; vm_compute; intros; done. Qed.

Lemma fetch_token_letter st :
  is_letter (peek 0 (input st)) = true → fetch_token st = fetch_plain st.
Proof.
  intros H. pose proof (letter_tests _ H)
    as (H1 & H2 & H3 & H4 & H5 & H6 & H7 & H8 & H9 & H10 & H11 & H12 & H13
        & H14 & H15 & _ & H17 & H18).
  unfold fetch_token, check_plain. cbv zeta.
  by rewrite H1, H2, H3, H4, H5, H6, H7, H8, H9, H10, H11, H12, H13, H14, H15,
    H17, H18.
Qed.

Lemma count_plain_S flow ch rest :
  count_plain flow (String ch rest)
  = let next := default nul (String.get 0 rest) in
    if is_blank_or_end ch
       || (Ascii.eqb ch ":"
           && (is_blank_or_end next || (flow && Renderer.Yaml.mem next ",[]{}")))
       || (flow && Renderer.Yaml.mem ch ",?[]{}")
    then 0
    else S (count_plain flow rest).
Proof. done. Qed.

Lemma count_plain_key w rest :
  all_chars is_letter w = true → next_is is_blank_or_end rest = true →
  count_plain false (w +:+ String ":" rest) = String.length w.
Proof.
  intros Hw Hr. induction w as [|ch w IH].
  { rewrite append_nil_l. destruct rest as [|ch rest]; [done|].
    cbn [next_is] in Hr. rewrite count_plain_S. cbn [String.get default].
    unfold id. change (is_blank_or_end ":") with false.
    change (Ascii.eqb ":" ":") with true. by rewrite Hr. }
  cbn [all_chars] in Hw. apply andb_true_iff in Hw as [Hch Hw].
  pose proof (letter_tests _ Hch)
    as (_ & _ & _ & _ & _ & _ & _ & _ & _ & _ & H11 & _ & _ & _ & _ & _ & H17 & _).
  rewrite append_cons, count_plain_S. cbn [String.length].
  by rewrite H17, H11, IH.
Qed.

Lemma all_chars_letter_no_break w :
  all_chars is_letter w = true →
  all_chars (λ ch, negb (is_line_break ch)) w = true.
Proof.
  apply all_chars_impl. intros ch.
  destruct ch as [[] [] [] [] [] [] [] []]; by vm_compute.
Qed.

(** A key at the start of a token: the scalar is fetched, and the key is
    recorded as possible. *)
Lemma fetch_plain_key r ts n ns ch key rest :
  buffer r = String ch key +:+ String ":" rest →
  all_chars is_letter (String ch key) = true →
  next_is is_blank_or_end rest = true →
  fetch_plain (Scanner r false 0 ts n ns true ∅)
  = Some (Scanner
            (Reader (String ":" rest) (index r + String.length (String ch key))
               (line r) (column r + String.length (String ch key)))
            false 0 (ts ++ [Scalar (String ch key) true]) n ns false
            {[ 0 := SimpleKey (length ts) (n =? Z.of_nat (column r))%Z
                      (index r) (line r) (column r) ]}).
Proof.
  intros Hb Hk Hr. unfold fetch_plain, save_possible_simple_key.
  cbn [allow_simple_key]. unfold remove_possible_simple_key.
  cbn [possible_simple_keys flow_level]. rewrite lookup_empty.
  cbn [mbind option_bind tokens input in_block flow_level indent
       with_possible_simple_keys with_allow_simple_key with_input
       possible_simple_keys allow_simple_key indents negb Nat.eqb andb].
  unfold scan_plain. rewrite scan_plain_loop_S.
  pose proof Hk as Hk'. cbn [all_chars] in Hk'.
  apply andb_true_iff in Hk' as [Hch _].
  pose proof (letter_tests _ Hch)
    as (_ & _ & _ & _ & _ & _ & _ & _ & _ & _ & _ & _ & _ & _ & _ & H16 & _ & _).
  rewrite append_cons in Hb.
  rewrite (peek_0_cons _ _ _ Hb), H16. rewrite <-append_cons in Hb.
  rewrite Hb, count_plain_key by done. cbn [String.length Nat.eqb].
  cbv zeta. unfold prefix. rewrite Hb.
  change (S (String.length key)) with (String.length (String ch key)).
  rewrite slice_to_app, (forward_plain _ _ _ Hb)
    by by apply all_chars_letter_no_break.
  unfold scan_plain_spaces, prefix. cbn [buffer count_while].
  change (Ascii.eqb " " ":") with false. cbv iota. rewrite forward_0.
  cbn. unfold append_token, with_tokens. cbn.
  by rewrite append_nil_l, insert_empty.
Qed.

(** The colon behind a key on the same line: the key and, where the
    indentation grows, the start of a mapping are inserted in front of the
    scalar. *)
Lemma fetch_more_tokens_value r ts key n ns req idx col rest :
  buffer r = String ":" rest → next_is is_blank_or_end rest = true →
  index r - idx ≤ 1024 → (n ≤ Z.of_nat (column r))%Z →
  fetch_more_tokens
    (Scanner r false 0 (ts ++ [Scalar key true]) n ns false
       {[ 0 := SimpleKey (length ts) req idx (line r) col ]})
  = Some (Scanner (Reader rest (S (index r)) (line r) (S (column r))) false 0
            (ts ++ (if (n <? Z.of_nat col)%Z then [BlockMappingStart] else [])
                ++ [Key; Scalar key true; Value])
            (if (n <? Z.of_nat col)%Z then Z.of_nat col else n)
            (if (n <? Z.of_nat col)%Z then n :: ns else ns)
            false ∅).
Proof.
  intros Hb Hr Hi Hn. rewrite fetch_more_tokens_eq. cbn [input].
  rewrite Hb. cbn [String.length].
  rewrite scan_to_next_token_stay by (by rewrite Hb).
  cbn [mbind option_bind].
  assert (is_stale r (SimpleKey (length ts) req idx (line r) col) = false)
    as Hstale.
  { unfold is_stale. cbn [key_line key_index]. rewrite Nat.eqb_refl.
    cbn [negb orb]. apply Nat.ltb_ge. lia. }
  unfold stale_possible_simple_keys. cbn [possible_simple_keys input].
  rewrite map_to_list_singleton. cbn [existsb]. rewrite Hstale.
  cbn [andb orb]. cbn [mbind option_bind].
  rewrite map_filter_singleton_True by done.
  unfold unwind_indent, with_possible_simple_keys, in_block.
  cbn [flow_level Nat.eqb input done tokens indent indents allow_simple_key].
  assert (unwind (Z.of_nat (column r)) n ns (ts ++ [Scalar key true])
          = (n, ns, ts ++ [Scalar key true])) as ->.
  { destruct ns as [|n' ns']; cbn [unwind];
      by assert ((Z.of_nat (column r) <? n)%Z = false) as -> by lia. }
  unfold with_tokens, with_indent.
  cbn [flow_level Nat.eqb input done tokens indent indents allow_simple_key
       possible_simple_keys].
  unfold fetch_token. cbn [input]. rewrite (peek_0_cons _ _ _ Hb).
  change (Ascii.eqb ":" nul) with false.
  change (Ascii.eqb ":" "%") with false.
  change (Ascii.eqb ":" "-") with false.
  change (Ascii.eqb ":" ".") with false.
  change (Ascii.eqb ":" "[") with false.
  change (Ascii.eqb ":" "{") with false.
  change (Ascii.eqb ":" "]") with false.
  change (Ascii.eqb ":" "}") with false.
  change (Ascii.eqb ":" ",") with false.
  change (Ascii.eqb ":" "?") with false.
  change (Ascii.eqb ":" ":") with true.
  cbn [andb]. cbv iota.
  assert (check_value (Scanner r false 0 (ts ++ [Scalar key true]) n ns false
            {[ 0 := SimpleKey (length ts) req idx (line r) col ]}) = true)
    as ->.
  { unfold check_value, in_block, peek. cbn [input flow_level Nat.eqb negb orb].
    rewrite Hb. destruct rest as [|c rest]; [done|]. by cbn in *. }
  unfold fetch_value.
  cbn [possible_simple_keys flow_level]. rewrite lookup_singleton_eq.
  rewrite delete_singleton_eq.
  unfold insert_token, with_possible_simple_keys, with_tokens, in_block,
    add_indent.
  cbn [flow_level Nat.eqb input done tokens indent indents allow_simple_key
       possible_simple_keys token_number key_column].
  rewrite take_app_length, drop_app_length.
  destruct (n <? Z.of_nat col)%Z eqn:Hg.
  - unfold with_indent, with_tokens, with_allow_simple_key, with_input,
      append_token, with_tokens.
    cbn [flow_level Nat.eqb input done tokens indent indents allow_simple_key
         possible_simple_keys mbind option_bind].
    rewrite take_app_length, drop_app_length.
    rewrite (forward_1_plain _ _ _ Hb) by done.
    by rewrite <-!app_assoc.
  - unfold with_indent, with_tokens, with_allow_simple_key, with_input,
      append_token, with_tokens.
    cbn [flow_level Nat.eqb input done tokens indent indents allow_simple_key
         possible_simple_keys mbind option_bind].
    rewrite (forward_1_plain _ _ _ Hb) by done.
    by rewrite <-!app_assoc.
Qed.

(** The dash of an entry at the start of a line, after the mapping of the
    entry before it, if any, has been closed. *)
Lemma fetch_more_tokens_entry st r ts (deep : bool) rest :
  scan_to_next_token (S (String.length (buffer (input st)))) st
  = Some (Scanner r false 0 ts (if deep then 2 else 0)%Z
            (if deep then [0; -1] else [-1])%Z true ∅) →
  buffer r = String "-" (String " " rest) → column r = 0 →
  fetch_more_tokens st
  = Some (Scanner (Reader (String " " rest) (S (index r)) (line r) 1) false 0
            (ts ++ (if deep then [BlockEnd] else []) ++ [BlockEntry])
            0%Z [-1]%Z true ∅).
Proof.
  intros Hn Hb Hc. rewrite fetch_more_tokens_eq, Hn.
  cbn [mbind option_bind].
  unfold stale_possible_simple_keys. cbn [possible_simple_keys].
  rewrite map_to_list_empty. cbn [existsb]. cbn [mbind option_bind].
  rewrite map_filter_empty.
  unfold unwind_indent, with_possible_simple_keys, in_block.
  cbn [flow_level Nat.eqb input done tokens indent indents allow_simple_key].
  rewrite Hc.
  assert (unwind (Z.of_nat 0) (if deep then 2 else 0)%Z
            (if deep then [0; -1] else [-1])%Z ts
          = (0%Z, [-1]%Z, ts ++ (if deep then [BlockEnd] else []))) as ->.
  { destruct deep; cbn; by rewrite ?app_nil_r. }
  unfold with_tokens, with_indent.
  cbn [flow_level Nat.eqb input done tokens indent indents allow_simple_key
       possible_simple_keys].
  unfold fetch_token. cbn [input]. rewrite (peek_0_cons _ _ _ Hb).
  change (Ascii.eqb "-" nul) with false.
  change (Ascii.eqb "-" "%") with false.
  change (Ascii.eqb "-" "-") with true.
  change (Ascii.eqb "-" ".") with false.
  change (Ascii.eqb "-" "[") with false.
  change (Ascii.eqb "-" "{") with false.
  change (Ascii.eqb "-" "]") with false.
  change (Ascii.eqb "-" "}") with false.
  change (Ascii.eqb "-" ",") with false.
  cbn [andb]. cbv iota.
  unfold check_document_start, check_block_entry, prefix, peek.
  cbn [input]. rewrite Hb.
  assert (String.eqb (slice_to 3 (String "-" (String " " rest))) "---" = false)
    as -> by (by destruct rest).
  rewrite andb_false_r. cbn [andb]. cbv iota.
  change (is_blank_or_end (default nul (get 1 (String "-" (String " " rest)))))
    with true.
  cbv iota. unfold fetch_block_entry, in_block, add_indent.
  cbn [flow_level Nat.eqb input done tokens indent indents allow_simple_key
       possible_simple_keys negb].
  rewrite Hc. change (0 <? Z.of_nat 0)%Z with false. cbv iota.
  cbn [mbind option_bind].
  unfold remove_possible_simple_key, with_allow_simple_key.
  cbn [flow_level Nat.eqb input done tokens indent indents allow_simple_key
       possible_simple_keys]. rewrite lookup_empty.
  cbn [mbind option_bind].
  unfold with_input, append_token, with_tokens.
  cbn [flow_level Nat.eqb input done tokens indent indents allow_simple_key
       possible_simple_keys].
  rewrite (forward_1_plain _ _ _ Hb) by done. rewrite Hc.
  by rewrite <-app_assoc.
Qed.

(** The end of the text: the open mappings are closed. *)
Lemma fetch_more_tokens_end st r ts (deep : bool) :
  scan_to_next_token (S (String.length (buffer (input st)))) st
  = Some (Scanner r false 0 ts (if deep then 2 else 0)%Z
            (if deep then [0; -1] else [-1])%Z true ∅) →
  buffer r = EmptyString → column r = 0 →
  fetch_more_tokens st
  = Some (Scanner r true 0
            (ts ++ (if deep then [BlockEnd] else []) ++ [BlockEnd; StreamEnd])
            (-1)%Z [] false ∅).
Proof.
  intros Hn Hb Hc. rewrite fetch_more_tokens_eq, Hn.
  cbn [mbind option_bind].
  unfold stale_possible_simple_keys. cbn [possible_simple_keys].
  rewrite map_to_list_empty. cbn [existsb]. cbn [mbind option_bind].
  rewrite map_filter_empty.
  unfold unwind_indent, with_possible_simple_keys, in_block.
  cbn [flow_level Nat.eqb input done tokens indent indents allow_simple_key].
  rewrite Hc.
  assert (unwind (Z.of_nat 0) (if deep then 2 else 0)%Z
            (if deep then [0; -1] else [-1])%Z ts
          = (0%Z, [-1]%Z, ts ++ (if deep then [BlockEnd] else []))) as ->.
  { destruct deep; cbn; by rewrite ?app_nil_r. }
  unfold with_tokens, with_indent.
  cbn [flow_level Nat.eqb input done tokens indent indents allow_simple_key
       possible_simple_keys].
  unfold fetch_token. cbn [input]. rewrite peek_0, Hb.
  change (Ascii.eqb nul nul) with true. cbv iota.
  unfold fetch_stream_end, unwind_indent, in_block.
  cbn [flow_level Nat.eqb input done tokens indent indents allow_simple_key
       possible_simple_keys unwind].
  change (-1 <? 0)%Z with true. cbv iota.
  change (-1 <? -1)%Z with false. cbv iota.
  unfold with_tokens, with_indent, remove_possible_simple_key.
  cbn [flow_level Nat.eqb input done tokens indent indents allow_simple_key
       possible_simple_keys]. rewrite lookup_empty.
  cbn [mbind option_bind].
  unfold with_allow_simple_key, with_possible_simple_keys, append_token,
    with_tokens.
  cbn [flow_level Nat.eqb input done tokens indent indents allow_simple_key
       possible_simple_keys].
  by rewrite <-!app_assoc.
Qed.

(** ** The scanner on the values *)

(** A quoted scalar behind a space. *)
Lemma fetch_more_tokens_quoted (double : bool) r ts n ns q enc text tail :
  q = (if double then quote else "'"%char) →
  buffer r = String " " (String q (enc +:+ String q tail)) →
  (if double then double_quoted 4 enc text
   else single_quoted 4 enc text ∧ next_is (Ascii.eqb "'") tail = false) →
  (n ≤ Z.of_nat (column r))%Z →
  ∃ r',
    fetch_more_tokens (Scanner r false 0 ts n ns false ∅)
    = Some (Scanner r' false 0 (ts ++ [Scalar text false]) n ns false ∅)
    ∧ buffer r' = tail.
Proof.
  intros Hq Hb Henc Hn.
  set (r1 := Reader (String q (enc +:+ String q tail)) (index r + 1) (line r)
               (column r + 1)).
  assert (q = quote ∨ q = "'"%char) as Hq' by (destruct double; auto).
  rewrite (fetch_more_tokens_at _ r1 ts n ns false).
  2: { cbn [input]. rewrite Hb. cbn [String.length].
       rewrite (scan_to_next_token_spaces _ r 1 (String q (enc +:+ String q tail)));
         [done|done|]. by destruct Hq' as [-> | ->]. }
  2: { cbn [column r1]. lia. }
  assert (fetch_token (Scanner r1 false 0 ts n ns false ∅)
          = fetch_flow_scalar double (Scanner r1 false 0 ts n ns false ∅))
    as ->.
  { unfold fetch_token. cbn [input]. rewrite (peek_0_cons r1 q _ eq_refl).
    destruct double; subst q; reflexivity. }
  unfold fetch_flow_scalar, save_possible_simple_key.
  cbn [allow_simple_key mbind option_bind with_allow_simple_key input done
       flow_level tokens indent indents possible_simple_keys].
  unfold scan_flow_scalar. rewrite (peek_0_cons r1 q _ eq_refl).
  set (r2 := forward 1 r1).
  assert (buffer r2 = enc +:+ String q tail) as Hb2.
  { unfold r2. by apply (buffer_forward_1 r1 q). }
  rewrite loop_S, Hb2.
  assert (∃ r3, scan_flow_scalar_round
                  (scan_flow_scalar_loop
                     (S (String.length (enc +:+ String q tail))) double q)
                  (S (String.length (enc +:+ String q tail))) double q r2
                = Some (text, r3) ∧ buffer r3 = String q tail)
    as (r3 & -> & Hb3).
  { destruct double; subst q.
    - eapply (double_quoted_scan 3); [done|done|..];
        rewrite length_append; lia.
    - destruct Henc as [Henc Ht].
      eapply (single_quoted_scan 3); [done|done|done|..];
        rewrite length_append; lia. }
  cbn [mbind option_bind]. exists (forward 1 r3).
  split; [|by apply (buffer_forward_1 r3 q)].
  unfold append_token, with_input, with_tokens. by cbn.
Qed.

Lemma plain_tests ch :
  Renderer.Yaml.is_printable_ascii ch = true →
  Renderer.Yaml.is_space ch = false →
  Renderer.Yaml.mem ch (String quote "#,[]{}&*!|>'%@`") = false →
  Ascii.eqb ch nul = false ∧ Ascii.eqb ch "%" = false
  ∧ Ascii.eqb ch "[" = false ∧ Ascii.eqb ch "{" = false
  ∧ Ascii.eqb ch "]" = false ∧ Ascii.eqb ch "}" = false
  ∧ Ascii.eqb ch "," = false ∧ Renderer.Yaml.mem ch "*&!" = false
  ∧ Renderer.Yaml.mem ch "|>" = false ∧ Ascii.eqb ch "'" = false
  ∧ Ascii.eqb ch quote = false ∧ Ascii.eqb ch "#" = false
  ∧ is_blank_or_end ch = false ∧ is_line_break ch = false
  ∧ Renderer.Yaml.mem ch (String quote "-?:,[]{}#&*!|>'%@`")
    = Renderer.Yaml.mem ch "?:" || Ascii.eqb ch "-".
Proof. destruct ch as [[] [] [] [] [] [] [] []]; vm_compute; intros; done. Qed.

(** The first character of a plain scalar leads to [fetch_plain]. *)
Lemma fetch_token_plain st ch rest :
  buffer (input st) = String ch rest → in_block st = true →
  column (input st) ≠ 0 →
  Renderer.Yaml.is_printable_ascii ch = true →
  Renderer.Yaml.is_space ch = false →
  Renderer.Yaml.mem ch (String quote "#,[]{}&*!|>'%@`") = false →
  (Renderer.Yaml.mem ch "?:" || Ascii.eqb ch "-" = true →
   next_is is_blank_or_end rest = false ∧ rest ≠ EmptyString) →
  fetch_token st = fetch_plain st.
Proof.
  intros Hb Hblock Hc Hp Hs Hm Hnext.
  pose proof (plain_tests ch Hp Hs Hm)
    as (H1 & H2 & H3 & H4 & H5 & H6 & H7 & H8 & H9 & H10 & H11 & _ & H13 & _
        & H15).
  unfold fetch_token. cbv zeta. rewrite (peek_0_cons _ _ _ Hb).
  rewrite H1, H2, H3, H4, H5, H6, H7, H8, H9, H10, H11.
  assert (check_document_start st = false) as ->.
  { unfold check_document_start.
    by assert ((column (input st) =? 0) = false) as -> by by apply Nat.eqb_neq. }
  assert (check_document_end st = false) as ->.
  { unfold check_document_end.
    by assert ((column (input st) =? 0) = false) as -> by by apply Nat.eqb_neq. }
  rewrite !andb_false_r. cbn [andb]. cbv iota.
  assert (is_blank_or_end (peek 1 (input st)) = true →
          Renderer.Yaml.mem ch "?:" || Ascii.eqb ch "-" = false) as Hpeek.
  { intros Hbl. destruct (_ || _) eqn:E; [|done].
    destruct (Hnext eq_refl) as [Hr Hne].
    unfold peek in Hbl. rewrite Hb in Hbl.
    destruct rest as [|c rest]; [done|]. cbn in Hbl, Hr. congruence. }
  unfold check_block_entry, check_key, check_value, check_plain.
  rewrite Hblock, (peek_0_cons _ _ _ Hb), H13, H15. cbn [negb orb andb].
  destruct (is_blank_or_end (peek 1 (input st))) eqn:Hbl.
  - specialize (Hpeek eq_refl). apply orb_false_iff in Hpeek as [Hm2 Hd].
    rewrite Hd, Hm2. cbn [andb orb negb].
    assert (Ascii.eqb ch "?" = false ∧ Ascii.eqb ch ":" = false) as [-> ->];
      [|done].
    revert Hm2. clear. destruct ch as [[] [] [] [] [] [] [] []]; by vm_compute.
  - rewrite !andb_false_r. cbn [negb andb orb].
    destruct (Ascii.eqb ch "-") eqn:Hd; cbn [orb]; [by rewrite !orb_true_r|].
    destruct (Renderer.Yaml.mem ch "?:") eqn:Hm2; cbn [orb negb]; [|done].
    done.
Qed.

(** The first two characters of a plain scalar with an indicator at its
    start are the same in the text and in the encoding. *)
Lemma plain_folded_second n enc text ch c t :
  plain_folded n enc text → text = String ch (String c t) →
  is_blank_or_end c = false →
  ∃ e, enc = String ch (String c e).
Proof.
  intros H Ht Hc.
  assert (∀ w s s', is_word w = true →
            w +:+ s = String ch (String c t) →
            (next_is is_blank_or_end s = true ∨ s = EmptyString) →
            ∃ e, w +:+ s' = String ch (String c e)) as Hw.
  { intros w s s' Hword Hws Hs. destruct w as [|ch0 [|c0 w]]; [done| |].
    - rewrite append_cons, append_nil_l in Hws. injection Hws as -> ->.
      destruct Hs as [Hs| [=]]. cbn [next_is] in Hs. congruence.
    - rewrite !append_cons in Hws. injection Hws as -> -> _.
      rewrite !append_cons. eauto. }
  destruct H as [w Hword|w k enc text Hword _|w enc text Hword _].
  - subst. destruct (Hw _ EmptyString EmptyString Hword) as [e He];
      [by rewrite append_nil_r|by right|].
    rewrite append_nil_r in He. eauto.
  - eapply Hw; [done|done|]. by left.
  - eapply Hw; [done|done|]. by left.
Qed.

Lemma plain_folded_first n enc text ch rest :
  plain_folded n enc text → text = String ch rest → ∃ e, enc = String ch e.
Proof.
  intros H Ht.
  destruct H as [w Hw|w k enc text Hw _|w enc text Hw _];
    (destruct w as [|c w]; [done|]); rewrite ?append_cons in Ht;
    injection Ht as -> _; rewrite ?append_cons; eauto.
Qed.

Lemma printable_not_blank ch :
  Renderer.Yaml.is_printable_ascii ch = true →
  Renderer.Yaml.is_whitespace ch = false → is_blank_or_end ch = false.
Proof. destruct ch as [[] [] [] [] [] [] [] []]; vm_compute; auto. Qed.

(** A plain scalar behind a space, up to the start of the next line. *)
Lemma fetch_more_tokens_plain r ts n ns enc text m tail :
  buffer r = String " " (enc +:+ String "010" (spaces m +:+ tail)) →
  plain_folded 4 enc text →
  plain_ok true true false text = true → plain_start text = true →
  (n ≤ 3)%Z → (Z.of_nat m ≤ n)%Z → (n ≤ Z.of_nat (column r))%Z →
  starts_line tail = true →
  (∀ r0, buffer r0 = spaces m +:+ tail → document_separator r0 = false) →
  ∃ r',
    fetch_more_tokens (Scanner r false 0 ts n ns false ∅)
    = Some (Scanner r' false 0 (ts ++ [Scalar text true]) n ns true ∅)
    ∧ buffer r' = tail ∧ column r' = m.
Proof.
  intros Hb Henc Hok Hstart Hn Hm Hc Htail Hsep.
  set (b := enc +:+ String "010" (spaces m +:+ tail)) in *.
  set (r1 := Reader b (index r + 1) (line r) (column r + 1)).
  destruct text as [|ch rest]; [done|].
  cbn [plain_ok] in Hok. cbn [orb] in Hok. rewrite andb_true_r in Hok.
  apply andb_true_iff in Hok as [[[Hp Hs]%andb_true_iff _]%andb_true_iff Hrest].
  apply negb_true_iff in Hs.
  cbn [plain_start] in Hstart.
  apply andb_true_iff in Hstart as [Hind%negb_true_iff Hfollow%negb_true_iff].
  assert (∃ e, enc = String ch e) as [e He].
  { by eapply plain_folded_first. }
  assert (b = String ch (e +:+ String "010" (spaces m +:+ tail))) as Hb1.
  { unfold b. by rewrite He, append_cons. }
  pose proof (plain_tests ch Hp Hs Hind) as Htests.
  rewrite (fetch_more_tokens_at _ r1 ts n ns false).
  2: { cbn [input]. rewrite Hb. cbn [String.length].
       rewrite (scan_to_next_token_spaces _ r 1 b); [done|done|].
       rewrite Hb1. unfold starts_token. cbn [next_is].
       destruct Htests as (_&_&_&_&_&_&_&_&_&_&_&->&_&->&_).
       revert Hs. clear. by destruct ch as [[] [] [] [] [] [] [] []]. }
  2: { cbn [column r1]. lia. }
  rewrite (fetch_token_plain _ ch (e +:+ String "010" (spaces m +:+ tail)));
    [|done|done|cbn; lia|done|done|done|].
  2: { intros Hq. rewrite Hq in Hfollow. cbn [andb] in Hfollow.
       destruct rest as [|c t]; [done|]. cbn in Hfollow.
       assert (Renderer.Yaml.is_printable_ascii c = true) as Hpc.
       { cbn [plain_ok] in Hrest.
         by apply andb_true_iff in Hrest
           as [[[? _]%andb_true_iff _]%andb_true_iff _]. }
       pose proof (printable_not_blank c Hpc Hfollow) as Hbl.
       destruct (plain_folded_second _ _ _ ch c t Henc eq_refl Hbl) as [e' He'].
       rewrite He' in He. injection He as <-. rewrite append_cons.
       cbn [next_is]. by rewrite Hbl. }
  unfold fetch_plain, save_possible_simple_key.
  cbn [allow_simple_key mbind option_bind with_allow_simple_key input done
       flow_level tokens indent indents possible_simple_keys in_block
       Nat.eqb negb].
  unfold scan_plain. cbn [buffer r1].
  destruct (plain_folded_scan 3 (n + 1) enc (String ch rest) Henc ltac:(lia)
              (S (String.length b)) EmptyString EmptyString false r1 m tail)
    as (r' & Hscan & Hb' & Hc'); [done|lia|cbn; lia|done|done| |].
  { unfold b. rewrite length_append. lia. }
  rewrite Hscan. cbn [mbind option_bind]. exists r'.
  split; [|done]. rewrite !append_nil_l.
  unfold append_token, with_input, with_tokens. by cbn.
Qed.

(** ** The scanner on the document *)

Lemma scan_loop_step f st st' :
  step st st' → scan_loop (S f) st = scan_loop f st'.
Proof. intros [Hd Hf]. cbn [scan_loop]. by rewrite Hd, Hf. Qed.

Lemma scan_loop_nsteps k f st st' :
  nsteps step k st st' → scan_loop (k + f) st = scan_loop f st'.
Proof.
  induction 1 as [|k st st1 st' Hs _ IH]; [done|].
  cbn [Nat.add]. by rewrite (scan_loop_step _ _ _ Hs).
Qed.

Lemma scan_loop_done f st : done st = true → scan_loop f st = Some (tokens st).
Proof. intros H. destruct f; cbn [scan_loop]; by rewrite H. Qed.

Lemma scan_loop_mono f f' st ts :
  scan_loop f st = Some ts → f ≤ f' → scan_loop f' st = Some ts.
Proof.
  revert f' st. induction f as [|f IH]; intros f' st H Hf.
  - cbn [scan_loop] in H. destruct (done st) eqn:Hd; [|done].
    by rewrite scan_loop_done.
  - destruct f' as [|f']; [lia|]. cbn [scan_loop] in *.
    destruct (done st); [done|].
    destruct (fetch_more_tokens st) as [st'|]; [|done].
    cbn [mbind option_bind] in *. apply IH; [done|lia].
Qed.

Lemma entry_or_end_starts_token tail :
  entry_or_end tail = true → starts_token tail = true.
Proof.
  destruct tail as [|ch rest]; [done|]. cbn [entry_or_end].
  intros [Hch _]%andb_true_iff. apply Ascii.eqb_eq in Hch as ->.
  reflexivity.
Qed.

Lemma entry_or_end_separator tail r :
  entry_or_end tail = true → buffer r = tail → document_separator r = false.
Proof.
  unfold document_separator, prefix, peek. intros H ->.
  destruct tail as [|ch [|c rest]]; [done| |].
  { cbn [entry_or_end next_is] in H. by rewrite andb_false_r in H. }
  cbn [entry_or_end next_is] in H.
  apply andb_true_iff in H as [Hch Hc].
  apply Ascii.eqb_eq in Hch as ->. apply Ascii.eqb_eq in Hc as <-.
  by destruct rest.
Qed.

(** A key and the colon behind it. *)
Lemma fetch_key_value st ts n ns m ch key rest :
  line_start st ts n ns m (String ch key +:+ String ":" rest) →
  all_chars is_letter (String ch key) = true →
  String.length (String ch key) ≤ 1024 →
  next_is is_blank_or_end rest = true → (n ≤ Z.of_nat m)%Z →
  ∃ st1 r,
    step st st1 ∧
    step st1
      (Scanner r false 0
         (ts ++ (if (n <? Z.of_nat m)%Z then [BlockMappingStart] else [])
             ++ [Key; Scalar (String ch key) true; Value])
         (if (n <? Z.of_nat m)%Z then Z.of_nat m else n)
         (if (n <? Z.of_nat m)%Z then n :: ns else ns) false ∅)
    ∧ buffer r = rest ∧ column r = m + String.length (String ch key) + 1.
Proof.
  intros (Hd & r & Hscan & Hb & Hc) Hk Hlen Hrest Hn.
  eexists _, _. split; [|split; [split|]].
  - split; [done|]. rewrite (fetch_more_tokens_at _ _ _ _ _ _ Hscan) by lia.
    rewrite fetch_token_letter.
    2: { cbn [input]. rewrite peek_0, Hb, append_cons.
         cbn [all_chars] in Hk. by apply andb_true_iff in Hk as [? _]. }
    by apply fetch_plain_key.
  - done.
  - set (r1 := Reader (String ":" rest) _ _ _).
    change (line r) with (line r1).
    rewrite (fetch_more_tokens_value r1 ts (String ch key) n ns _ _ _ rest);
      [|done|done|unfold r1; cbn [index String.length] in *; lia
       |unfold r1; cbn [column]; lia].
    rewrite Hc. done.
  - cbn [buffer column]. split; [done|]. lia.
Qed.

(** A value behind its key, up to the start of the next line. *)
Lemma fetch_scalar r ts n ns col value m tail :
  buffer r = Layout.yaml_scalar col value +:+ String "010" (spaces m +:+ tail) →
  (n ≤ 3)%Z → (Z.of_nat m ≤ n)%Z → (n ≤ Z.of_nat (column r))%Z →
  starts_token tail = true →
  (∀ r0, buffer r0 = spaces m +:+ tail → document_separator r0 = false) →
  ∃ st',
    step (Scanner r false 0 ts n ns false ∅) st' ∧
    line_start st' (ts ++ [Scalar value (is_plain value)]) n ns m tail.
Proof.
  intros Hb Hn Hm Hc Htail Hsep.
  pose proof (yaml_scalar_shape col value) as Hshape. unfold is_plain.
  destruct (Renderer.Yaml.choose_scalar_style value false) eqn:Hstyle.
  - destruct Hshape as (enc & Henc & Hfold).
    apply choose_plain in Hstyle as (_ & Hok & Hstart).
    rewrite Henc, append_cons in Hb.
    destruct (fetch_more_tokens_plain r ts n ns enc value m tail)
      as (r' & Hf & Hb' & Hc'); [done..| |done|].
    { unfold starts_line. unfold starts_token in Htail.
      destruct tail as [|ch t]; [done|]. cbn [next_is] in *.
      apply negb_true_iff in Htail. apply negb_true_iff.
      destruct (Ascii.eqb ch " "); [done|].
      by destruct (Ascii.eqb ch "#"). }
    eexists. split; [by split|]. split; [done|]. exists r'.
    cbn [input]. by rewrite scan_to_next_token_stay by by rewrite Hb'.
  - destruct Hshape as (enc & Henc & Hq).
    rewrite Henc, !append_cons, append_assoc, append_cons, append_nil_l in Hb.
    destruct (fetch_more_tokens_quoted false r ts n ns "'" enc value
                (String "010" (spaces m +:+ tail)))
      as (r' & Hf & Hb'); [done..|].
    eexists. split; [by split|]. split; [done|]. eexists.
    cbn [input]. rewrite Hb'. cbn [String.length].
    rewrite (scan_to_next_token_line _ _ m tail) by done. done.
  - destruct Hshape as (enc & Henc & Hq).
    rewrite Henc, !append_cons, append_assoc, append_cons, append_nil_l in Hb.
    destruct (fetch_more_tokens_quoted true r ts n ns quote enc value
                (String "010" (spaces m +:+ tail)))
      as (r' & Hf & Hb'); [done..|].
    eexists. split; [by split|]. split; [done|]. eexists.
    cbn [input]. rewrite Hb'. cbn [String.length].
    rewrite (scan_to_next_token_line _ _ m tail) by done. done.
Qed.

Lemma yaml_scalar_blank col value rest :
  next_is is_blank_or_end (Layout.yaml_scalar col value +:+ rest) = true.
Proof.
  pose proof (yaml_scalar_shape col value) as Hs.
  destruct (Renderer.Yaml.choose_scalar_style value false);
    destruct Hs as (enc & -> & _); by rewrite append_cons.
Qed.

(** An entry of the sequence: seven rounds of the loop. *)
Lemma fetch_entry st ts (deep : bool) rec tail :
  line_start st ts (if deep then 2 else 0)%Z
    (if deep then [0; -1] else [-1])%Z 0 (Layout.yaml_entry rec +:+ tail) →
  entry_or_end tail = true →
  ∃ st',
    nsteps step 7 st st' ∧
    line_start st'
      (ts ++ (if deep then [BlockEnd] else []) ++ entry_tokens rec)
      2%Z [0; -1]%Z 0 tail.
Proof.
  intros (Hd & r & Hscan & Hb & Hc) Htail.
  unfold Layout.yaml_entry, Layout.nl in Hb.
  repeat first [ rewrite append_cons in Hb | rewrite append_nil_l in Hb
               | rewrite append_assoc in Hb ].
  set (s2 := Layout.yaml_scalar 10 (Layout.details rec) +:+ String "010" tail)
    in Hb.
  set (s1 := Layout.yaml_scalar 7 (Layout.name rec) +:+ _) in Hb.
  (* the dash *)
  pose proof (fetch_more_tokens_entry st r ts deep _ Hscan Hb Hc) as H1.
  set (ts1 := ts ++ (if deep then [BlockEnd] else []) ++ [BlockEntry]) in H1.
  set (st1 := Scanner _ _ _ ts1 _ _ _ _) in H1.
  assert (line_start st1 ts1 0 [-1]%Z 2 ("name:" +:+ s1)) as L1.
  { split; [done|]. eexists. split; [|split].
    - unfold st1. cbn [input buffer String.length].
      by rewrite (scan_to_next_token_spaces _ _ 1 ("name:" +:+ s1)).
    - done.
    - done. }
  (* the first key *)
  destruct (fetch_key_value st1 ts1 0 [-1]%Z 2 "n" "ame" s1 L1)
    as (st2 & r3 & H2 & H3 & Hb3 & Hc3);
    [done|cbn; lia|apply yaml_scalar_blank|lia|].
  change (0 <? Z.of_nat 2)%Z with true in H3. cbv iota in H3.
  set (ts3 := ts1 ++ _ ++ _) in H3.
  (* the first value *)
  destruct (fetch_scalar r3 ts3 (Z.of_nat 2) [0; -1]%Z 7 (Layout.name rec) 2
              ("details:" +:+ s2))
    as (st4 & H4 & L4); [done|lia|lia|rewrite Hc3; cbn; lia|done| |].
  { intros r0 Hb0. unfold document_separator, prefix. by rewrite Hb0. }
  (* the second key *)
  destruct (fetch_key_value st4 _ _ _ 2 "d" "etails" s2 L4)
    as (st5 & r6 & H5 & H6 & Hb6 & Hc6);
    [done|cbn; lia|apply yaml_scalar_blank|lia|].
  rewrite Z.ltb_irrefl in H6.
  (* the second value *)
  destruct (fetch_scalar r6 (ts3 ++ [Scalar (Layout.name rec) (is_plain (Layout.name rec))]
                             ++ [Key; Scalar "details" true; Value])
              (Z.of_nat 2) [0; -1]%Z 10 (Layout.details rec) 0 tail)
    as (st7 & H7 & L7);
    [done|lia|lia|rewrite Hc6; cbn; lia|by apply entry_or_end_starts_token
    | |].
  { intros r0 Hb0. by apply (entry_or_end_separator tail). }
  exists st7. split.
  - apply (nsteps_l _ _ _ st1); [by split|].
    apply (nsteps_l _ _ _ st2); [done|].
    eapply nsteps_l; [done|].
    apply (nsteps_l _ _ _ st4); [done|].
    apply (nsteps_l _ _ _ st5); [done|].
    eapply nsteps_l; [by rewrite <-app_assoc in H6|].
    apply (nsteps_l _ _ _ st7); [done|]. apply nsteps_O.
  - unfold ts3, ts1 in L7. rewrite <-!app_assoc in L7.
    unfold entry_tokens. by destruct deep.
Qed.

Lemma entry_or_end_concat records :
  entry_or_end (Layout.concat (map Layout.yaml_entry records)) = true.
Proof. by destruct records. Qed.

(** The entries and the end of the stream. *)
Lemma scan_entries records :
  ∀ st ts (deep : bool),
    line_start st ts (if deep then 2 else 0)%Z
      (if deep then [0; -1] else [-1])%Z 0
      (Layout.concat (map Layout.yaml_entry records)) →
    ∃ st', nsteps step (7 * length records + 1) st st' ∧ done st' = true
           ∧ tokens st' = ts ++ entries_tokens deep records.
Proof.
  induction records as [|r records IH]; intros st ts deep L.
  - destruct L as (Hd & r & Hscan & Hb & Hc).
    eexists. split; [|split].
    + apply nsteps_once. split; [done|].
      by apply (fetch_more_tokens_end st r ts deep).
    + done.
    + done.
  - cbn [map Layout.concat] in L.
    destruct (fetch_entry st ts deep r _ L (entry_or_end_concat records))
      as (st1 & Hsteps & L1).
    destruct (IH st1 _ true L1) as (st' & Hsteps' & Hd & Ht).
    exists st'. split; [|split; [done|]].
    + replace (7 * length (r :: records) + 1)
        with (7 + (7 * length records + 1)) by (cbn [length]; lia).
      by eapply nsteps_trans.
    + rewrite Ht. cbn [entries_tokens]. by rewrite <-!app_assoc.
Qed.

Lemma yaml_entry_length r : 7 ≤ String.length (Layout.yaml_entry r).
Proof.
  unfold Layout.yaml_entry. rewrite length_append.
  change (String.length "- name:") with 7. lia.
Qed.

Lemma concat_entries_length records :
  7 * length records
  ≤ String.length (Layout.concat (map Layout.yaml_entry records)).
Proof.
  induction records as [|r records IH]; [done|].
  cbn [map Layout.concat length]. rewrite length_append.
  pose proof (yaml_entry_length r). lia.
Qed.

(** The tokens of a document with at least one record. *)
Lemma scan_document r records :
  scan (Layout.yaml_document (r :: records))
  = Some ([StreamStart; BlockMappingStart; Key; Scalar "records" true; Value]
          ++ entries_tokens false (r :: records)).
Proof.
  unfold scan, Layout.yaml_document.
  set (entries := Layout.concat (map Layout.yaml_entry (r :: records))).
  set (data := _ +:+ _).
  assert (data = "records" +:+ String ":" (String "010" entries)) as Hdata
    by done.
  assert (line_start (start data) [StreamStart] (-1)%Z [] 0 data) as L.
  { split; [done|]. eexists. split; [|split].
    - unfold start. cbn [input buffer].
      by rewrite scan_to_next_token_stay by by rewrite Hdata.
    - done.
    - done. }
  rewrite Hdata in L at 2.
  destruct (fetch_key_value _ _ _ _ 0 "r" "ecords" _ L)
    as (st1 & r2 & H1 & H2 & Hb2 & Hc2); [done|cbn; lia|done|lia|].
  change (-1 <? Z.of_nat 0)%Z with true in H2. cbv iota in H2.
  set (st2 := Scanner r2 _ _ _ _ _ _ _) in H2.
  assert (line_start st2
            ([StreamStart] ++ [BlockMappingStart]
             ++ [Key; Scalar "records" true; Value]) 0%Z [-1]%Z 0 entries)
    as L2.
  { split; [done|]. eexists. split; [|split].
    - unfold st2. cbn [input]. rewrite Hb2. cbn [String.length].
      by rewrite (scan_to_next_token_line _ _ 0 entries).
    - done.
    - done. }
  destruct (scan_entries (r :: records) st2 _ false L2)
    as (st' & Hsteps & Hd & Ht).
  apply (scan_loop_mono (2 + (7 * length (r :: records) + 1) + 0)).
  - rewrite (scan_loop_nsteps _ _ _ st').
    + rewrite scan_loop_done by done. by rewrite Ht.
    + eapply nsteps_trans; [|done].
      eapply nsteps_l; [done|]. by apply nsteps_once.
  - rewrite Hdata. rewrite length_append. cbn [String.length].
    pose proof (concat_entries_length (r :: records)). fold entries in H.
    lia.
Qed.

(** ** The parser on the tokens of the document *)

Lemma parse_node_S fuel block indentless as_key ts :
  parse_node (S fuel) block indentless as_key ts
  = match ts with
    | BlockEntry :: _ =>
        if indentless then
          '(items, ts) ← parse_indentless_sequence_entry fuel ts [];
          Some (PList items, ts)
        else None
    | Scalar value plain :: ts =>
        obj ← construct_scalar as_key value plain; Some (obj, ts)
    | FlowSequenceStart :: ts =>
        '(items, ts) ← parse_flow_sequence_entry fuel true ts [];
        Some (PList items, ts)
    | BlockSequenceStart :: ts =>
        if block then
          '(items, ts) ← parse_block_sequence_entry fuel ts [];
          Some (PList items, ts)
        else None
    | BlockMappingStart :: ts =>
        if block then
          '(pairs, ts) ← parse_block_mapping_key fuel ts [];
          Some (PDict (dict pairs), ts)
        else None
    | _ => None
    end.
Proof. done. Qed.

Lemma parse_block_mapping_key_S fuel ts pairs :
  parse_block_mapping_key (S fuel) ts pairs
  = match ts with
    | Key :: ts =>
        if starts_pair_or_ends ts then None
        else
          '(key, ts) ← parse_node fuel true true true ts;
          match key, ts with
          | PStr key, Value :: ts =>
              if starts_pair_or_ends ts then None
              else
                '(value, ts) ← parse_node fuel true true false ts;
                parse_block_mapping_key fuel ts (pairs ++ [(key, value)])
          | _, _ => None
          end
    | BlockEnd :: ts => Some (pairs, ts)
    | _ => None
    end.
Proof. done. Qed.

Lemma parse_indentless_sequence_entry_S fuel ts items :
  parse_indentless_sequence_entry (S fuel) ts items
  = match ts with
    | BlockEntry :: ts =>
        if starts_entry_or_ends ts || starts_pair_or_ends ts then None
        else
          '(item, ts) ← parse_node fuel true false false ts;
          parse_indentless_sequence_entry fuel ts (items ++ [item])
    | _ => Some (items, ts)
    end.
Proof. done. Qed.

#[global] Arguments parse_node : simpl never.
#[global] Arguments parse_block_mapping_key : simpl never.
#[global] Arguments parse_indentless_sequence_entry : simpl never.

(** The scalar of a value is a string: a quoted one always, a plain one
    because no resolver claims it. *)
Lemma construct_scalar_value as_key value :
  construct_scalar as_key value (is_plain value) = Some (PStr value).
Proof.
  unfold construct_scalar, is_plain.
  destruct (Renderer.Yaml.choose_scalar_style value false) eqn:Hs; [|done..].
  by apply choose_plain in Hs as (-> & _).
Qed.

(** A key and its value in a block mapping. *)
Lemma parse_pair fuel key value rest pairs :
  construct_scalar true key true = Some (PStr key) →
  parse_block_mapping_key (S (S fuel))
    (Key :: Scalar key true :: Value :: Scalar value (is_plain value) :: rest)
    pairs
  = parse_block_mapping_key (S fuel) rest (pairs ++ [(key, PStr value)]).
Proof.
  intros Hk. rewrite parse_block_mapping_key_S.
  cbn [starts_pair_or_ends]. rewrite parse_node_S, Hk.
  cbn [mbind option_bind starts_pair_or_ends].
  rewrite parse_node_S, construct_scalar_value. done.
Qed.

(** The mapping of an entry. *)
Lemma parse_entry fuel r rest :
  parse_node (S (S (S (S fuel)))) true false false
    (BlockMappingStart
     :: Key :: Scalar "name" true :: Value
     :: Scalar (Layout.name r) (is_plain (Layout.name r))
     :: Key :: Scalar "details" true :: Value
     :: Scalar (Layout.details r) (is_plain (Layout.details r))
     :: BlockEnd :: rest)
  = Some (Layout.entry r, rest).
Proof.
  rewrite parse_node_S.
  rewrite parse_pair by done. rewrite parse_pair by done.
  by rewrite parse_block_mapping_key_S.
Qed.

(** The entries of the sequence, up to the end of the outer mapping. *)
Lemma parse_entries records :
  ∀ fuel r items,
    parse_indentless_sequence_entry (length records + 5 + fuel)
      (entry_tokens r ++ entries_tokens true records) items
    = Some (items ++ map Layout.entry (r :: records), [BlockEnd; StreamEnd]).
Proof.
  induction records as [|r' records IH]; intros fuel r items.
  - cbn [length Nat.add entries_tokens app].
    unfold entry_tokens at 1. cbn [app].
    rewrite parse_indentless_sequence_entry_S.
    cbn [starts_entry_or_ends starts_pair_or_ends orb].
    rewrite (parse_entry fuel r). cbn [mbind option_bind].
    by rewrite parse_indentless_sequence_entry_S.
  - cbn [length entries_tokens].
    replace (S (length records) + 5 + fuel)
      with (S (4 + (length records + 1 + fuel))) by lia.
    unfold entry_tokens at 1. cbn [app Nat.add].
    rewrite parse_indentless_sequence_entry_S.
    cbn [starts_entry_or_ends starts_pair_or_ends orb].
    rewrite (parse_entry _ r). cbn [mbind option_bind].
    replace (S (S (S (S (length records + 1 + fuel)))))
      with (length records + 5 + fuel) by lia.
    rewrite IH. by rewrite <-app_assoc.
Qed.

Lemma entries_tokens_length deep records :
  10 * length records + 2 ≤ length (entries_tokens deep records).
Proof.
  revert deep. induction records as [|r records IH]; intros deep.
  - destruct deep; cbn; lia.
  - cbn [entries_tokens]. rewrite !length_app.
    specialize (IH true). cbn [length entry_tokens]. lia.
Qed.

(** The tokens of a document with at least one record are parsed to the
    object of the document. *)
Lemma parse_document r records :
  parse_node
    (S (length (BlockMappingStart :: Key :: Scalar "records" true :: Value
                :: entries_tokens false (r :: records))))
    true false false
    (BlockMappingStart :: Key :: Scalar "records" true :: Value
     :: entries_tokens false (r :: records))
  = Some (Layout.document (r :: records), [StreamEnd]).
Proof.
  pose proof (entries_tokens_length false (r :: records)) as Hlen.
  set (n := length (entries_tokens false (r :: records))) in *.
  assert (∃ fuel, S (length (BlockMappingStart :: Key
                             :: Scalar "records" true :: Value
                             :: entries_tokens false (r :: records)))
                  = 3 + (length records + 5 + fuel))
    as [fuel ->].
  { exists (n - (length records + 3)). cbn [length] in *. fold n. lia. }
  cbn [app Nat.add entries_tokens].
  rewrite parse_node_S, parse_block_mapping_key_S.
  cbn [starts_pair_or_ends]. rewrite parse_node_S.
  change (construct_scalar true "records" true) with (Some (PStr "records")).
  cbn [mbind option_bind entry_tokens app starts_pair_or_ends].
  rewrite parse_node_S.
  change (BlockEntry :: ?l) with (entry_tokens r ++ entries_tokens true records).
  rewrite parse_entries. cbn [mbind option_bind].
  rewrite parse_block_mapping_key_S. done.
Qed.

(** A text of printable ASCII characters and line feeds passes the check of
    the reader. *)
Lemma check_printable_ascii s :
  all_chars is_ascii_text s = true → check_printable s = true.
Proof.
  unfold check_printable. induction s as [|ch s IH]; [done|].
  cbn [all_chars list_ascii_of_string forallb].
  intros [Hch Hs]%andb_true_iff. rewrite IH by done.
  rewrite andb_true_r. revert Hch. clear.
  destruct ch as [[] [] [] [] [] [] [] []]; by vm_compute.
Qed.

(** [load] on a text whose tokens are known. *)
Lemma load_tokens data ts obj :
  check_printable data = true → scan data = Some (StreamStart :: ts) →
  parse_node (S (length ts)) true false false ts = Some (obj, [StreamEnd]) →
  load data = Some obj.
Proof.
  intros H1 H2 H3. unfold load. rewrite H1, H2. cbn [mbind option_bind].
  by rewrite H3.
Qed.

Lemma load_yaml_document records :
  load (Layout.yaml_document records) = Some (Layout.document records).
Proof.
  destruct records as [|r records]; [by vm_compute|].
  eapply load_tokens.
  - apply check_printable_ascii. rewrite <-format_to_yaml_document.
    apply format_to_yaml_ascii.
  - apply scan_document.
  - apply parse_document.
Qed.

(** [yaml.safe_load] reads the text of [format_to_yaml] back as the object
    it was made from. *)
Lemma load_format_to_yaml records :
  load (format_to_yaml records) = Some (build_output records).
Proof.
  rewrite format_to_yaml_document, build_output_document.
  apply load_yaml_document.
Qed.

End YamlRoundTrip.

(** ** The layout of [format_to_yaml] *)

Module YamlLayout.
Import Renderer RendererFacts YamlText EmitterFacts SpecFacts.

(** The emitter writes a value behind a space. *)
Lemma yaml_scalar_space column value :
  ∃ scalar, Layout.yaml_scalar column value = String " " scalar.
Proof.
  pose proof (yaml_scalar_shape column value) as H.
  destruct (Yaml.choose_scalar_style value false);
    destruct H as (enc & -> & _); eauto.
Qed.

Lemma yaml_entries_text records :
  ∃ scalars,
    length scalars = length records ∧
    Layout.concat (map Layout.yaml_entry records) = Spec.yaml_entries scalars.
Proof.
  induction records as [|r records (scalars & Hl & IH)]; [by exists []|].
  destruct (yaml_scalar_space 7 (Layout.name r)) as [s1 H1].
  destruct (yaml_scalar_space 10 (Layout.details r)) as [s2 H2].
  exists ((s1, s2) :: scalars). split; [by rewrite !length_cons, Hl|].
  cbn [map Layout.concat Spec.yaml_entries]. rewrite IH.
  unfold Layout.yaml_entry, Spec.yaml_entry. rewrite H1, H2. cbn [fst snd].
  unfold Layout.nl, Spec.nl. JsonRoundTrip.norm_str. done.
Qed.

(** The text of [format_to_yaml] is the layout of notation A around the
    scalars of the values. *)
Lemma format_to_yaml_text records :
  ∃ scalars,
    length scalars = length records ∧
    format_to_yaml records = Spec.yaml_text scalars.
Proof.
  rewrite format_to_yaml_document.
  destruct (yaml_entries_text records) as (scalars & Hl & H).
  exists scalars. split; [done|].
  unfold Layout.yaml_document, Spec.yaml_text.
  destruct records as [|r records], scalars as [|s scalars]; try done.
  by rewrite H.
Qed.

End YamlLayout.

(** * The claims of the specification *)

Import Ranker RankerFacts Samples.

(** ** Ranker *)

(** C1. For a non-negative [top_n], [get_top_records] returns the first
    [top_n] elements of the input sorted ascending by division and, within
    equal division, descending by points: the sorted list is a permutation
    of the input, it is ordered by [rank_le], and the result is its prefix of
    length [top_n].  In particular four rows with (division, points) =
    (1,90), (2,85), (1,80), (2,70) and [top_n = 2] give the first and the
    third row. *)
Theorem get_top_records_sorted_prefix (rs : list record) (top_n : Z) :
  0 ≤ top_n →
  sorted sort_key rs ≡ₚ rs ∧
  StronglySorted rank_le (sorted sort_key rs) ∧
  get_top_records rs top_n = take (Z.to_nat top_n) (sorted sort_key rs) ∧
  (∀ a b c d,
     division a = 1 → points a = 90 → division b = 2 → points b = 85 →
     division c = 1 → points c = 80 → division d = 2 → points d = 70 →
     get_top_records [a; b; c; d] 2 = [a; c]).
Proof.
  intros Hn. split_and!.
  - apply sorted_perm.
  - apply sorted_rank_le.
  - unfold get_top_records, top_by. by apply slice_to_nonneg.
  - intros a b c d Ha1 Ha2 Hb1 Hb2 Hc1 Hc2 Hd1 Hd2.
    assert (sort_key a = (1, -90)) as Ka by (unfold sort_key; by rewrite Ha1, Ha2).
    assert (sort_key b = (2, -85)) as Kb by (unfold sort_key; by rewrite Hb1, Hb2).
    assert (sort_key c = (1, -80)) as Kc by (unfold sort_key; by rewrite Hc1, Hc2).
    assert (sort_key d = (2, -70)) as Kd by (unfold sort_key; by rewrite Hd1, Hd2).
    unfold get_top_records, top_by.
    repeat (cbn [sorted insert_stable]; rewrite ?Ka, ?Kb, ?Kc, ?Kd;
            cbn [tuple_lt fst snd Z.eqb Z.ltb Z.compare Pos.eqb Pos.compare
                 Pos.compare_cont Z.opp CompOpp]).
    reflexivity.
Qed.

Lemma get_top_records_sorted_prefix_witness :
  get_top_records sample_records 2 = [john; alex].
Proof.
  destruct (get_top_records_sorted_prefix sample_records 2) as (_ & _ & _ & H).
  - lia.
  - apply H; reflexivity.
Defined.

(** C3. Ranking is stable.  Run the ranker on the input with every record
    tagged by its position: the records of that run are the result of
    [get_top_records], a tag is the input position of its record, and when
    the records at input positions [i < j] are tied on division and points
    and both are in the output, the one from [i] stands in front. *)
Theorem get_top_records_stable (rs : list record) (top_n : Z)
    (p q i j : nat) (r1 r2 : record) :
  top_by (sort_key ∘ snd) (tagged rs) top_n !! p = Some (i, r1) →
  top_by (sort_key ∘ snd) (tagged rs) top_n !! q = Some (j, r2) →
  tied r1 r2 → (i < j)%nat →
  (top_by (sort_key ∘ snd) (tagged rs) top_n).*2 = get_top_records rs top_n ∧
  rs !! i = Some r1 ∧ rs !! j = Some r2 ∧ (p < q)%nat.
Proof.
  intros Hp Hq [Hd Hpts] Hij. split_and!.
  - by rewrite top_by_snd, tagged_snd.
  - apply tagged_lookup. eapply top_by_subseteq, list_elem_of_lookup_2, Hp.
  - apply tagged_lookup. eapply top_by_subseteq, list_elem_of_lookup_2, Hq.
  - pose proof (sorted_before sort_key (tagged rs)
      (imap_pair_increasing rs 0)) as Hs.
    unfold top_by in Hp, Hq. destruct (slice_to_take (sorted (sort_key ∘ snd)
      (tagged rs)) top_n) as [m Hm]. rewrite Hm in Hp, Hq.
    rewrite <-(take_drop m) in Hs. apply StronglySorted_app_1_l in Hs.
    destruct (lt_eq_lt_dec p q) as [[?| ->]|Hqp]; [done|simplify_eq; lia|].
    exfalso.
    assert (before sort_key (j, r2) (i, r1)) as [_ Hb].
    { by eapply (StronglySorted_lookup _ _ q p). }
    simpl in Hb. unfold sort_key in Hb. rewrite Hd, Hpts in Hb.
    specialize (Hb eq_refl). lia.
Qed.

Lemma get_top_records_stable_witness :
  (top_by (sort_key ∘ snd) (tagged [jane; john; taylor; john]) 3).*2
    = get_top_records [jane; john; taylor; john] 3 ∧
  [jane; john; taylor; john] !! 1%nat = Some john ∧
  [jane; john; taylor; john] !! 3%nat = Some john ∧ (0 < 1)%nat.
Proof.
  apply (get_top_records_stable [jane; john; taylor; john] 3 0 1 1 3 john john).
  - reflexivity.
  - reflexivity.
  - split; reflexivity.
  - lia.
Defined.

(** C5. Ranking is idempotent: for a non-negative [top_n], ranking the
    result of a ranking again with the same [top_n] changes nothing. *)
Theorem get_top_records_idempotent (rs : list record) (top_n : Z) :
  0 ≤ top_n →
  get_top_records (get_top_records rs top_n) top_n = get_top_records rs top_n.
Proof.
  intros Hn. unfold get_top_records, top_by.
  rewrite !slice_to_nonneg by done.
  rewrite sorted_id.
  - by rewrite take_take, Nat.min_id.
  - pose proof (sorted_sorted sort_key rs) as Hs.
    rewrite <-(take_drop (Z.to_nat top_n)) in Hs.
    by apply StronglySorted_app_1_l in Hs.
Qed.

Lemma get_top_records_idempotent_witness :
  get_top_records (get_top_records sample_records 2) 2
    = get_top_records sample_records 2.
Proof. apply (get_top_records_idempotent sample_records 2). lia. Defined.

(** C6. When [top_n] is at least the length of the input, the result is the
    whole input sorted: a permutation of the input of the same length,
    ordered by [rank_le].  An empty input gives an empty result for every
    [top_n].  (The function is total: no input makes it fail.) *)
Theorem get_top_records_all (rs : list record) (top_n : Z) :
  Z.of_nat (length rs) ≤ top_n →
  get_top_records rs top_n ≡ₚ rs ∧
  length (get_top_records rs top_n) = length rs ∧
  StronglySorted rank_le (get_top_records rs top_n) ∧
  get_top_records rs top_n = sorted sort_key rs ∧
  (∀ m, get_top_records [] m = []).
Proof.
  intros Hn.
  assert (get_top_records rs top_n = sorted sort_key rs) as ->.
  { unfold get_top_records, top_by. rewrite slice_to_nonneg by lia.
    apply take_ge. rewrite sorted_length. lia. }
  split_and!.
  - apply sorted_perm.
  - apply sorted_length.
  - apply sorted_rank_le.
  - done.
  - intros m. unfold get_top_records, top_by, slice_to. simpl.
    by rewrite take_nil.
Qed.

Lemma get_top_records_all_witness :
  get_top_records sample_records 7 ≡ₚ sample_records ∧
  length (get_top_records sample_records 7) = length sample_records ∧
  StronglySorted rank_le (get_top_records sample_records 7) ∧
  get_top_records sample_records 7 = sorted sort_key sample_records ∧
  (∀ m, get_top_records [] m = []).
Proof. apply (get_top_records_all sample_records 7). simpl. lia. Defined.

(** C10. For a negative [top_n] the ranker does not fail: it returns the
    sorted input without its last [|top_n|] elements (Python's negative
    slice bound), and the result is empty exactly when [|top_n|] is at least
    the length of the input. *)
Theorem get_top_records_negative (rs : list record) (top_n : Z) :
  top_n < 0 →
  sorted sort_key rs ≡ₚ rs ∧
  StronglySorted rank_le (sorted sort_key rs) ∧
  get_top_records rs top_n
    = take (length rs - Z.to_nat (- top_n)) (sorted sort_key rs) ∧
  (∃ removed,
     sorted sort_key rs = get_top_records rs top_n ++ removed ∧
     length removed = (Z.to_nat (- top_n) `min` length rs)%nat) ∧
  (get_top_records rs top_n = [] ↔ Z.of_nat (length rs) ≤ - top_n).
Proof.
  intros Hn.
  assert (get_top_records rs top_n
    = take (length rs - Z.to_nat (- top_n)) (sorted sort_key rs)) as Heq.
  { unfold get_top_records, top_by. rewrite slice_to_neg by done.
    by rewrite sorted_length. }
  split_and!.
  - apply sorted_perm.
  - apply sorted_rank_le.
  - done.
  - exists (drop (length rs - Z.to_nat (- top_n)) (sorted sort_key rs)).
    rewrite Heq, take_drop, length_drop, sorted_length. split; [done|lia].
  - rewrite Heq. split.
    + intros H. apply (f_equal length) in H.
      rewrite length_take, sorted_length in H. simpl in H. lia.
    + intros H. replace (length rs - Z.to_nat (- top_n))%nat with 0%nat by lia.
      done.
Qed.

Lemma get_top_records_negative_witness :
  get_top_records sample_records (-1) = [john; alex; jane].
Proof.
  destruct (get_top_records_negative sample_records (-1)) as (_ & _ & H & _).
  - lia.
  - rewrite H. reflexivity.
Defined.

(** ** Loader *)

Import Loader LoaderFacts Main.

(** On a file with a complete header whose lines all reach every column,
    [read_csv] never leaves the process: it returns, and it logs nothing but
    warnings.  (This is the part of C2 the code keeps.) *)
Lemma read_csv_skips_malformed_rows fieldnames items :
  header_complete fieldnames → full_width fieldnames items →
  ∃ records,
    (read_csv (Opened (Line fieldnames :: items))).1 = Ok records ∧
    Forall (λ entry, is_warning entry = true)
      (read_csv (Opened (Line fieldnames :: items))).2.
Proof.
  intros Hh Hf. rewrite read_csv_header_complete by done.
  destruct (read_rows_full_width fieldnames items [] Hh Hf) as [records Hr].
  pose proof (read_rows_outcome fieldnames items []) as [_ Hlog].
  destruct (read_rows fieldnames items []) as [[records'|e] log];
    simplify_eq/=.
  exists records. split; [done|].
  apply Forall_app. split; [done|]. case_bool_decide; repeat constructor.
Qed.

(** When every line with cells raises [ValueError], [read_csv] returns the
    empty list, with one warning per skipped row and a last warning that no
    record is valid, and [main] then logs an error and exits with status 1.
    (This is the part of C8 the code keeps.) *)
Lemma all_rows_invalid_two_layers fieldnames items top_n output_format
    output_file write_error :
  header_complete fieldnames → all_invalid fieldnames items →
  ∃ skipped,
    Forall (λ entry, ∃ row, entry = WarningSkippingRow row) skipped ∧
    read_csv (Opened (Line fieldnames :: items))
      = (Ok [], skipped ++ [WarningNoValidRecords]) ∧
    main (Opened (Line fieldnames :: items)) top_n output_format
         output_file write_error
      = (Raise (SystemExit 1),
         InfoProcessingFile
           :: skipped ++ [WarningNoValidRecords; ErrorNoValidRecords]).
Proof.
  intros Hh Ha.
  destruct (read_rows_all_invalid fieldnames items [] Ha) as [Hr Hlog].
  exists (read_rows fieldnames items []).2.
  assert (read_csv (Opened (Line fieldnames :: items))
          = (Ok [], (read_rows fieldnames items []).2 ++ [WarningNoValidRecords]))
    as Hcsv.
  { rewrite read_csv_header_complete by done.
    destruct (read_rows fieldnames items []) as [[records|e] log];
      by simplify_eq/=. }
  split_and!; [done..|].
  unfold main. rewrite Hcsv. unfold_M. simpl.
  by rewrite <-app_assoc.
Qed.

(** C2, at the input where the code departs from it.  In the file
    [short_row_between_csv] the second data line stops after the date, so
    its dictionary has [None] under ["division"] and [int] raises
    [TypeError], which the handler for [ValueError] does not catch:
    [read_csv] logs an error and exits with status 1 instead of skipping the
    row and going on to the next one. *)
Theorem read_csv_short_row_is_fatal :
  (getitem (row_dict ["firstname"; "lastname"; "date"; "division"; "points";
                      "summary"] ["Alex"; "Johnson"; "2023-07-07"])
     "division" ≫= int) = Raise TypeError ∧
  read_csv short_row_between_csv
    = (Raise (SystemExit 1), [ErrorReadingCsv TypeError]) ∧
  exit_status (read_csv short_row_between_csv) = 1.
Proof. split_and!; vm_compute; reflexivity. Qed.

(** C7.  [read_csv] leaves the process with status 1 when the file cannot be
    opened, when the reader fails at some line, when the file has no header
    line, and when a required column is not among the names of the header
    (the names are compared as they are, so case matters). *)
Theorem read_csv_fatal (f : file) :
  unreadable f ∨ header_incomplete f →
  exits (read_csv f) 1 ∧ exit_status (read_csv f) ≠ 0.
Proof.
  intros H. assert (exits (read_csv f) 1) as Hex.
  { destruct f as [e|items].
    - by destruct e.
    - destruct items as [|[fieldnames|e] items].
      + done.
      + destruct (decide (header_complete fieldnames)) as [Hh|Hh].
        * destruct H as [[e He]|(c & Hc & Hn)].
          -- unfold exits. rewrite read_csv_header_complete by done.
             pose proof (read_rows_outcome fieldnames items []) as [Ho _].
             destruct (read_rows fieldnames items []) as [[records|e'] log];
               [|done].
             apply elem_of_cons in He as [?|He]; [done|].
             by apply Ho in He.
          -- destruct Hn. by eapply header_complete_elem.
        * unfold exits. by rewrite read_csv_header_incomplete.
      + by destruct e. }
  split; [done|]. unfold exits in Hex. unfold exit_status. by rewrite Hex.
Qed.

Lemma read_csv_fatal_witness :
  exits (read_csv (Opened [Line ["Firstname"; "lastname"; "date"; "division";
                                 "points"; "summary"];
                           Line ["John"; "Doe"; "2023-05-05"; "1"; "90";
                                 "Task A"]])) 1 ∧
  exit_status (read_csv (Opened [Line ["Firstname"; "lastname"; "date";
                                       "division"; "points"; "summary"];
                                 Line ["John"; "Doe"; "2023-05-05"; "1"; "90";
                                       "Task A"]])) ≠ 0.
Proof.
  apply read_csv_fatal. right. exists "firstname". split.
  - apply (bool_decide_unpack _). vm_compute. reflexivity.
  - apply (bool_decide_unpack _). vm_compute. reflexivity.
Defined.

(** C8, at the input where the code departs from it.  The only data line of
    [short_row_csv] fails validation, yet [read_csv] does not return an
    empty list with a warning: it logs an error and exits with status 1
    itself, because the row raises [TypeError].  [main] ends with the same
    status, but through the loader's exit, not through its own check. *)
Theorem read_csv_all_rows_short_is_fatal :
  parse_row (row_dict ["firstname"; "lastname"; "date"; "division"; "points";
                       "summary"] ["John"; "Doe"; "2023-05-05"])
    = Raise TypeError ∧
  read_csv short_row_csv = (Raise (SystemExit 1), [ErrorReadingCsv TypeError]) ∧
  main short_row_csv 3 "yaml" None None
    = (Raise (SystemExit 1), [InfoProcessingFile; ErrorReadingCsv TypeError]).
Proof. split_and!; vm_compute; reflexivity. Qed.

(** ** Renderer *)

Import Renderer RendererFacts.

(** With [sort_keys=True], PyYAML's default, the entry of the scenario would
    come out with [details] in front of [name]; [format_to_yaml] passes
    [sort_keys=False]. *)
Example sort_keys_would_reorder :
  Yaml.dump (build_output [john]) true
  = "records:" +:+ Layout.nl
    +:+ "- details: In division 1 from 2023-05-05 performing Task A" +:+ Layout.nl
    +:+ "  name: John Doe" +:+ Layout.nl.
Proof. vm_compute. reflexivity. Qed.

(** C4.  For every list of records, the object both formatters serialize is
    the document of the specification: one dictionary with the single key
    [records], whose list has, in input order, one entry per record with
    [name] = "<firstname> <lastname>" and [details] = "In division
    <division> from <date> performing <summary>", the division in decimal.
    The text of [format_to_json] is that document in the layout of notation
    B, each level indented by 2 more spaces, [name] in front of [details],
    with a string literal of JSON for every value.  The text of
    [format_to_yaml] is a block sequence under [records] with [name] in front
    of [details] in every entry, and [yaml.safe_load] reads the document of
    the specification off it.  For the record of the scenario the two texts
    are the ones displayed. *)
Theorem formats_render_the_document (records : list record) :
  build_output records = Spec.document records ∧
  (∃ literals,
     Forall2 (λ r l, Spec.json_string l.1 (Spec.name r)
                     ∧ Spec.json_string l.2 (Spec.details r))
       records literals ∧
     format_to_json records = Spec.json_text literals) ∧
  (∃ scalars,
     length scalars = length records ∧
     format_to_yaml records = Spec.yaml_text scalars) ∧
  Parsers.Yaml.load (format_to_yaml records) = Some (Spec.document records) ∧
  format_to_yaml [john]
  = "records:" +:+ Spec.nl
    +:+ "- name: John Doe" +:+ Spec.nl
    +:+ "  details: In division 1 from 2023-05-05 performing Task A"
    +:+ Spec.nl ∧
  format_to_json [john]
  = "{" +:+ Spec.nl
    +:+ "  " +:+ String Spec.quote ("records" +:+ String Spec.quote ": [")
    +:+ Spec.nl
    +:+ "    {" +:+ Spec.nl
    +:+ "      " +:+ String Spec.quote ("name" +:+ String Spec.quote ": ")
        +:+ String Spec.quote ("John Doe" +:+ String Spec.quote ",")
        +:+ Spec.nl
    +:+ "      " +:+ String Spec.quote ("details" +:+ String Spec.quote ": ")
        +:+ String Spec.quote
              ("In division 1 from 2023-05-05 performing Task A"
               +:+ String Spec.quote EmptyString)
        +:+ Spec.nl
    +:+ "    }" +:+ Spec.nl
    +:+ "  ]" +:+ Spec.nl
    +:+ "}".
Proof.
  split_and!.
  - apply SpecFacts.build_output_spec.
  - exists (map Compare.json_literals records).
    split; [|apply SpecFacts.format_to_json_text].
    apply Forall2_fmap_r, Forall_Forall2_diag, Forall_forall.
    intros r _. split; apply SpecFacts.encode_json_string.
  - apply YamlLayout.format_to_yaml_text.
  - rewrite <-SpecFacts.build_output_spec.
    apply YamlRoundTrip.load_format_to_yaml.
  - vm_compute. reflexivity.
  - vm_compute. reflexivity.
Qed.

(** C9.  Whatever characters the fields of the records hold (punctuation,
    quotes, backslashes, line feeds, control characters), parsing the text
    of either formatter gives back the document with the literal values:
    [json.loads] reads the text of [format_to_json], and [yaml.safe_load]
    the text of [format_to_yaml], as the dictionary whose entries carry, in
    input order, the name "<firstname> <lastname>" and the details "In
    division <division> from <date> performing <summary>" of the records,
    character for character. *)
Theorem formats_round_trip (records : list record) :
  Parsers.Json.loads (format_to_json records) = Some (Spec.document records) ∧
  Parsers.Yaml.load (format_to_yaml records) = Some (Spec.document records).
Proof.
  rewrite <-SpecFacts.build_output_spec. split.
  - unfold format_to_json.
    apply JsonRoundTrip.loads_dumps, JsonRoundTrip.document_well_keyed.
  - apply YamlRoundTrip.load_format_to_yaml.
Qed.

(** * Further properties of the code *)

(** ** Ranker *)

(** X1.  The number of records [get_top_records] returns: for a
    non-negative [top_n] the smaller of [top_n] and the number of records,
    for a negative [top_n] the number of records less [-top_n], and none
    when that is negative. *)
Theorem get_top_records_length (rs : list record) (top_n : Z) :
  Z.of_nat (length (get_top_records rs top_n))
  = if top_n <? 0 then Z.max 0 (Z.of_nat (length rs) + top_n)
    else Z.min top_n (Z.of_nat (length rs)).
Proof.
  unfold get_top_records, top_by.
  destruct (Z.ltb_spec top_n 0).
  - rewrite slice_to_neg by done. rewrite length_take, sorted_length. lia.
  - rewrite slice_to_nonneg by done. rewrite length_take, sorted_length. lia.
Qed.

(** X2.  Ranking the result of a ranking again, with non-negative numbers
    [n] and then [m], is ranking the input once with the smaller of the
    two. *)
Theorem get_top_records_twice (rs : list record) (m n : Z) :
  0 ≤ m → 0 ≤ n →
  get_top_records (get_top_records rs n) m = get_top_records rs (Z.min m n).
Proof.
  intros Hm Hn. unfold get_top_records, top_by.
  rewrite !slice_to_nonneg by lia.
  rewrite sorted_id.
  - rewrite take_take. f_equal. lia.
  - pose proof (sorted_sorted sort_key rs) as Hs.
    rewrite <-(take_drop (Z.to_nat n)) in Hs.
    by apply StronglySorted_app_1_l in Hs.
Qed.

Lemma get_top_records_twice_witness :
  get_top_records (get_top_records sample_records 3) 2
  = get_top_records sample_records (Z.min 2 3).
Proof. apply (get_top_records_twice sample_records 2 3); lia. Defined.

(** X3.  Asking for fewer records gives a prefix of what asking for more
    gives: for [0 ≤ m ≤ n] the result for [m] is the beginning of the result
    for [n]. *)
Theorem get_top_records_prefix (rs : list record) (m n : Z) :
  0 ≤ m → m ≤ n →
  get_top_records rs m `prefix_of` get_top_records rs n.
Proof.
  intros Hm Hn. unfold get_top_records, top_by.
  rewrite !slice_to_nonneg by lia.
  replace (Z.to_nat m) with (Z.to_nat m `min` Z.to_nat n)%nat by lia.
  rewrite <-take_take. apply prefix_take.
Qed.

Lemma get_top_records_prefix_witness :
  get_top_records sample_records 1 `prefix_of` get_top_records sample_records 3.
Proof. apply (get_top_records_prefix sample_records 1 3); lia. Defined.

(** X4.  For every [top_n], negative ones included, the result and the
    records left out make up the input, each record as often as it occurs
    there, and no record left out ranks strictly before a record of the
    result. *)
Theorem get_top_records_best (rs : list record) (top_n : Z) :
  ∃ rest,
    get_top_records rs top_n ++ rest ≡ₚ rs ∧
    ∀ r r', r ∈ get_top_records rs top_n → r' ∈ rest → rank_le r r'.
Proof.
  unfold get_top_records, top_by.
  destruct (slice_to_take (sorted sort_key rs) top_n) as [k ->].
  exists (drop k (sorted sort_key rs)). split.
  - by rewrite take_drop, sorted_perm.
  - intros r r' Hr Hr'. pose proof (sorted_rank_le rs) as Hs.
    rewrite <-(take_drop k) in Hs.
    by eapply StronglySorted_app_1_elem_of.
Qed.

(** X5.  The order of the input decides only between records of equal
    division and points: two inputs with the same records in another order
    give results with the same sequence of keys (division, -points). *)
Theorem get_top_records_keys_perm (rs rs' : list record) (top_n : Z) :
  rs ≡ₚ rs' →
  sort_key <$> get_top_records rs top_n
  = sort_key <$> get_top_records rs' top_n.
Proof.
  intros Hp. unfold get_top_records, top_by, slice_to.
  rewrite !fmap_take, !sorted_fmap, !sorted_length.
  rewrite (sorted_keys_perm (sort_key <$> rs) (sort_key <$> rs'))
    by by rewrite Hp.
  by rewrite (Permutation_length Hp).
Qed.

Lemma get_top_records_keys_perm_witness :
  sort_key <$> get_top_records [jane; john] 1
  = sort_key <$> get_top_records [john; jane] 1.
Proof.
  apply (get_top_records_keys_perm [jane; john] [john; jane] 1).
  apply Permutation_swap.
Defined.

(** ** Loader *)

(** X6.  [read_csv] ends in one of two ways.  It returns, and then its log
    holds no error (only warnings); or it leaves through [sys.exit(1)], and
    then the last entry of its log is an error and no entry before it is:
    no other exception ever leaves [read_csv]. *)
Theorem read_csv_returns_or_exits (f : file) :
  match (read_csv f).1 with
  | Ok _ => Forall (λ entry, is_error entry = false) (read_csv f).2
  | Raise e =>
      e = SystemExit 1 ∧
      ∃ log entry, (read_csv f).2 = log ++ [entry] ∧ is_error entry = true ∧
                   Forall (λ entry, is_error entry = false) log
  end.
Proof. apply read_csv_log. Qed.

(** X7.  When [read_csv] returns, the file has a header with all the
    required columns, and the records returned are those of the lines that
    have cells and pass the three checks, in the order of the file: no
    accepted line is dropped, doubled or moved. *)
Theorem read_csv_accepted (f : file) (rs : list record) :
  (read_csv f).1 = Ok rs →
  ∃ fieldnames items,
    f = Opened (Line fieldnames :: items) ∧ header_complete fieldnames ∧
    rs = accepted fieldnames items.
Proof. apply read_csv_returns_accepted. Qed.

Lemma read_csv_accepted_witness :
  ∃ fieldnames items,
    test_sample_csv = Opened (Line fieldnames :: items) ∧
    header_complete fieldnames ∧
    [john; jane] = accepted fieldnames items.
Proof.
  apply (read_csv_accepted test_sample_csv [john; jane]). reflexivity.
Defined.

(** X8.  When [read_csv] returns, every line behind the header that has
    cells is accounted for: the number of records returned and the number of
    warnings about a skipped row add up to the number of those lines. *)
Theorem read_csv_accounts_for_every_line (f : file) (rs : list record) :
  (read_csv f).1 = Ok rs →
  (length rs + length (List.filter is_skip (read_csv f).2))%nat = data_lines f.
Proof.
  intros (fieldnames & items & -> & _ & Hr & ->)%read_csv_returns.
  apply read_rows_accepted in Hr as [_ Hn]. simpl in *.
  rewrite filter_is_skip_app, length_app, Nat.add_assoc, Hn.
  by case_bool_decide.
Qed.

Lemma read_csv_accounts_for_every_line_witness :
  (length ([] : list record)
   + length (List.filter is_skip (read_csv invalid_csv).2))%nat
  = data_lines invalid_csv.
Proof.
  apply (read_csv_accounts_for_every_line invalid_csv []). reflexivity.
Defined.

(** X9.  Every record [read_csv] returns carries a date that is a text (not
    [None]) which [strptime] reads as a day of the calendar: a year from 1
    on, a month from 1 to 12 and a day that the month of that year has. *)
Theorem read_csv_dates_are_calendar_dates (f : file) (rs : list record) :
  (read_csv f).1 = Ok rs →
  Forall (λ r, ∃ s y m d,
            date r = Str s ∧ date_of_string s = Some (y, m, d) ∧
            1 ≤ y ∧ 1 ≤ m ≤ 12 ∧ 1 ≤ d ≤ days_in_month y m) rs.
Proof.
  intros (fieldnames & items & -> & _ & Hr & _)%read_csv_returns.
  apply read_rows_accepted in Hr as [-> _]. simpl.
  apply Forall_forall. intros r Hr.
  apply list_elem_of_omap in Hr as (item & _ & Hitem).
  destruct item as [[|c cells]|]; [done| |done]. simpl in Hitem.
  destruct (parse_row _) as [r'|] eqn:Hp; [|done]. simplify_eq.
  apply parse_row_date in Hp as (s & [[y m] d] & Hs & Hd).
  exists s, y, m, d. split; [done|]. split; [done|].
  by apply date_of_string_range in Hd.
Qed.

Lemma read_csv_dates_are_calendar_dates_witness :
  Forall (λ r, ∃ s y m d,
            date r = Str s ∧ date_of_string s = Some (y, m, d) ∧
            1 ≤ y ∧ 1 ≤ m ≤ 12 ∧ 1 ≤ d ≤ days_in_month y m) [john; jane].
Proof.
  apply (read_csv_dates_are_calendar_dates test_sample_csv [john; jane]).
  reflexivity.
Defined.

(** X23.  Every record [read_csv] returns has a division and points that
    [int] has read from at most 4300 digits: both are smaller than 10^4300
    in absolute value. *)
Theorem read_csv_integers_are_bounded (f : file) (rs : list record) :
  (read_csv f).1 = Ok rs →
  Forall (λ r, Z.abs (division r) < 10 ^ 4300 ∧ Z.abs (points r) < 10 ^ 4300)
    rs.
Proof.
  intros (fieldnames & items & -> & _ & Hr & _)%read_csv_returns.
  apply read_rows_accepted in Hr as [-> _]. simpl.
  apply Forall_forall. intros r Hr.
  apply list_elem_of_omap in Hr as (item & _ & Hitem).
  destruct item as [[|c cells]|]; [done| |done]. simpl in Hitem.
  destruct (parse_row _) as [r'|] eqn:Hp; [|done]. simplify_eq.
  apply parse_row_integers in Hp as (c1 & c2 & H1 & H2).
  split; [by apply int_range in H1|by apply int_range in H2].
Qed.

Lemma read_csv_integers_are_bounded_witness :
  Forall (λ r, Z.abs (division r) < 10 ^ 4300 ∧ Z.abs (points r) < 10 ^ 4300)
    [john; jane].
Proof.
  apply (read_csv_integers_are_bounded test_sample_csv [john; jane]).
  reflexivity.
Defined.



(** ** Renderer *)

(** X10.  [json.loads] reads the text of [format_to_json] back as the
    object it was made from: one dictionary with the key [records] and, per
    record and in order, a dictionary with the name under [name] and the
    details under [details], whatever characters the fields hold. *)
Theorem format_to_json_loads (records : list record) :
  Parsers.Json.loads (format_to_json records)
  = Some (PDict [("records",
                  PList (map (λ r, PDict [("name", PStr (name_of r));
                                          ("details", PStr (details_of r))])
                           records))]).
Proof.
  unfold format_to_json.
  rewrite JsonRoundTrip.loads_dumps by apply JsonRoundTrip.document_well_keyed.
  by rewrite build_output_document.
Qed.

(** X11.  [format_to_json] gives the same text for two lists of records
    exactly when the lists have the same names and details, entry by
    entry. *)
Theorem format_to_json_same_text (rs rs' : list record) :
  format_to_json rs = format_to_json rs'
  ↔ map (λ r, (name_of r, details_of r)) rs
    = map (λ r, (name_of r, details_of r)) rs'.
Proof.
  split.
  - intros H.
    assert (Parsers.Json.loads (format_to_json rs)
            = Parsers.Json.loads (format_to_json rs')) as Hl by by rewrite H.
    unfold format_to_json in Hl.
    rewrite !JsonRoundTrip.loads_dumps in Hl
      by apply JsonRoundTrip.document_well_keyed.
    rewrite !build_output_document in Hl. injection Hl as Hl.
    revert Hl. apply map_eq_transfer. intros x y Hxy.
    pose proof (f_equal (λ o, match o with
                              | PDict [(_, PStr n); (_, PStr d)] => (n, d)
                              | _ => (EmptyString, EmptyString)
                              end) Hxy) as H'.
    done.
  - intros H. unfold format_to_json. rewrite !build_output_document.
    unfold Layout.document.
    apply (map_eq_transfer _ Layout.entry) in H as ->; [done|].
    intros x y Hxy.
    pose proof (f_equal fst Hxy) as Hn. pose proof (f_equal snd Hxy) as Hd.
    simpl in Hn, Hd. unfold Layout.entry.
    change (Layout.name ?r) with (name_of r).
    change (Layout.details ?r) with (details_of r). by rewrite Hn, Hd.
Qed.

(** X12.  The points of a record never reach the output: two lists of
    records that agree, record by record, on first name, last name, date,
    division and summary give the same JSON text and the same YAML text. *)
Theorem points_are_not_rendered (rs rs' : list record) :
  Forall2 (λ r r', firstname r = firstname r' ∧ lastname r = lastname r' ∧
                   date r = date r' ∧ division r = division r' ∧
                   summary r = summary r') rs rs' →
  format_to_json rs = format_to_json rs' ∧
  format_to_yaml rs = format_to_yaml rs'.
Proof.
  intros H.
  assert (build_output rs = build_output rs') as Hb.
  { rewrite !build_output_document. unfold Layout.document.
    assert (map Layout.entry rs = map Layout.entry rs') as ->; [|done].
    induction H as [|r r' rs rs' (Hf & Hl & Hd & Hv & Hs) _ IH]; [done|].
    simpl. f_equal; [|done].
    unfold Layout.entry, Layout.name, Layout.details. congruence. }
  unfold format_to_json, format_to_yaml. by rewrite Hb.
Qed.

Lemma points_are_not_rendered_witness :
  format_to_json [john]
  = format_to_json [Record_ "John" "Doe" "2023-05-05" 1 0 "Task A"] ∧
  format_to_yaml [john]
  = format_to_yaml [Record_ "John" "Doe" "2023-05-05" 1 0 "Task A"].
Proof.
  apply (points_are_not_rendered [john]
           [Record_ "John" "Doe" "2023-05-05" 1 0 "Task A"]).
  repeat constructor.
Defined.

(** X13.  Whatever characters the records hold, the text of
    [format_to_json] is made of printable ASCII characters and line feeds
    only. *)
Theorem format_to_json_is_ascii (records : list record) :
  all_chars is_ascii_text (format_to_json records) = true.
Proof.
  rewrite format_to_json_document.
  destruct records as [|r records]; [done|].
  unfold Layout.json_document.
  rewrite !all_chars_app, join_ascii; [done|done|].
  apply Forall_forall. intros text (r' & -> & _)%list_elem_of_fmap.
  unfold Layout.json_entry. by rewrite !all_chars_app, !encode_ascii.
Qed.

(** X25.  Whatever characters the records hold, the text of
    [format_to_yaml] is made of printable ASCII characters and line feeds
    only. *)
Theorem format_to_yaml_is_ascii (records : list record) :
  all_chars is_ascii_text (format_to_yaml records) = true.
Proof. apply EmitterFacts.format_to_yaml_ascii. Qed.

(** X26.  [format_to_yaml] gives the same text for two lists of records
    exactly when the lists have the same names and details, entry by
    entry. *)
Theorem format_to_yaml_same_text (rs rs' : list record) :
  format_to_yaml rs = format_to_yaml rs'
  ↔ map (λ r, (name_of r, details_of r)) rs
    = map (λ r, (name_of r, details_of r)) rs'.
Proof.
  split.
  - intros H.
    assert (Parsers.Yaml.load (format_to_yaml rs)
            = Parsers.Yaml.load (format_to_yaml rs')) as Hl by by rewrite H.
    rewrite !YamlRoundTrip.load_format_to_yaml, !build_output_document in Hl.
    injection Hl as Hl.
    revert Hl. apply map_eq_transfer. intros x y Hxy.
    pose proof (f_equal (λ o, match o with
                              | PDict [(_, PStr n); (_, PStr d)] => (n, d)
                              | _ => (EmptyString, EmptyString)
                              end) Hxy) as H'.
    done.
  - intros H. unfold format_to_yaml. rewrite !build_output_document.
    unfold Layout.document.
    apply (map_eq_transfer _ Layout.entry) in H as ->; [done|].
    intros x y Hxy.
    pose proof (f_equal fst Hxy) as Hn. pose proof (f_equal snd Hxy) as Hd.
    simpl in Hn, Hd. unfold Layout.entry.
    change (Layout.name ?r) with (name_of r).
    change (Layout.details ?r) with (details_of r). by rewrite Hn, Hd.
Qed.

(** ** The top-level flow *)

Import MainFacts.

(** X14.  When [main] returns, the file had a complete header and at least
    one accepted line, and the document it printed or wrote is the rendering
    of the [top_n] best accepted records: in JSON when the format is
    [json], in YAML for every other format.  It is written when an output
    file with a name that is not empty was given, and printed otherwise. *)
Theorem main_renders_the_top_records (f : file) (top_n : Z)
    (output_format : string) (output_file : option string)
    (write_error : option exn) (dest : destination) :
  (main f top_n output_format output_file write_error).1 = Ok dest →
  ∃ fieldnames items,
    f = Opened (Line fieldnames :: items) ∧
    accepted fieldnames items ≠ [] ∧
    dest = match output_file with
           | Some (String c path) =>
               Written (String c path)
                 ((if String.eqb output_format "json" then format_to_json
                   else format_to_yaml)
                    (get_top_records (accepted fieldnames items) top_n))
           | _ =>
               Printed
                 ((if String.eqb output_format "json" then format_to_json
                   else format_to_yaml)
                    (get_top_records (accepted fieldnames items) top_n))
           end.
Proof. apply main_returns. Qed.

Lemma main_renders_the_top_records_witness :
  ∃ fieldnames items,
    test_sample_csv = Opened (Line fieldnames :: items) ∧
    accepted fieldnames items ≠ [] ∧
    Printed (format_to_json [john])
    = Printed ((if String.eqb "json" "json" then format_to_json
                else format_to_yaml)
                 (get_top_records (accepted fieldnames items) 1)).
Proof.
  apply (main_renders_the_top_records test_sample_csv 1 "json" None None
           (Printed (format_to_json [john]))).
  reflexivity.
Defined.

(** X15.  When writing the output file fails with nothing but [OSError],
    [main] ends in one of two ways: it returns, with no error in its log; or
    it leaves through [sys.exit(1)], with an error as the last entry of its
    log and none before. *)
Theorem main_returns_or_exits (f : file) (top_n : Z)
    (output_format : string) (output_file : option string)
    (write_error : option exn) :
  (∀ e, write_error = Some e → e = OSError) →
  match (main f top_n output_format output_file write_error).1 with
  | Ok _ =>
      Forall (λ entry, is_error entry = false)
        (main f top_n output_format output_file write_error).2
  | Raise e =>
      e = SystemExit 1 ∧
      ∃ log entry,
        (main f top_n output_format output_file write_error).2
        = log ++ [entry] ∧
        is_error entry = true ∧
        Forall (λ entry, is_error entry = false) log
  end.
Proof.
  intros Hw.
  pose proof (read_csv_log f) as Hcsv.
  destruct (read_csv f) as [[rs|e] log] eqn:Hr; simpl in Hcsv.
  - destruct (decide (rs = [])) as [->|Hn].
    { rewrite (main_after_read_csv_empty _ _ _ _ _ _ Hr). simpl.
      split; [done|]. exists (InfoProcessingFile :: log), ErrorNoValidRecords.
      split_and!; [done..|]. by constructor. }
    rewrite (main_after_read_csv _ _ _ _ _ _ _ Hr Hn). cbn zeta.
    assert (Forall (λ entry, is_error entry = false)
              (InfoProcessingFile :: log
               ++ [InfoReadRecords (length rs); InfoSelectedTop top_n;
                   InfoFormatted output_format])) as Hhead.
    { constructor; [done|]. apply Forall_app. split; [done|].
      by repeat constructor. }
    destruct output_file as [[|c path]|].
    + cbn [fst snd]. apply Forall_app. split; [done|]. by repeat constructor.
    + destruct write_error as [e|].
      * rewrite (Hw e eq_refl). cbn [fst snd]. split; [done|]. by eexists _, _.
      * cbn [fst snd]. apply Forall_app. split; [done|]. by repeat constructor.
    + cbn [fst snd]. apply Forall_app. split; [done|]. by repeat constructor.
  - rewrite (main_after_read_csv_fails _ _ _ _ _ _ _ Hr). simpl.
    destruct Hcsv as (-> & log' & entry & -> & He & Hlog).
    split; [done|]. exists (InfoProcessingFile :: log'), entry.
    split_and!; [done..|]. by constructor.
Qed.

Lemma main_returns_or_exits_witness :
  match (main invalid_csv 3 "yaml" None None).1 with
  | Ok _ =>
      Forall (λ entry, is_error entry = false)
        (main invalid_csv 3 "yaml" None None).2
  | Raise e =>
      e = SystemExit 1 ∧
      ∃ log entry,
        (main invalid_csv 3 "yaml" None None).2 = log ++ [entry] ∧
        is_error entry = true ∧
        Forall (λ entry, is_error entry = false) log
  end.
Proof. apply (main_returns_or_exits invalid_csv 3 "yaml" None None). done. Defined.

(** ** The menu *)

Import Menu MenuFacts.

(** X16.  [interactive_menu] returns exactly when the input holds four
    lines and, if the fourth, stripped, is [y] or [Y], a fifth one;
    otherwise the input ends under a question and [EOFError] leaves the
    menu. *)
Theorem interactive_menu_returns_iff (c : console) :
  is_Some (interactive_menu c).1 ↔
  ∃ l1 l2 l3 l4 rest,
    stdin c = l1 :: l2 :: l3 :: l4 :: rest ∧
    (strip l4 = "y" ∨ strip l4 = "Y" → rest ≠ []).
Proof.
  split.
  - intros [[[[file_path top_n] output_format] output_file] H].
    apply interactive_menu_returns in H
      as (l1 & l2 & l3 & l4 & rest & Hin & _ & _ & _ & H).
    exists l1, l2, l3, l4, rest. split; [done|].
    intros Hy%lower_is_y.
    destruct H as [[? _]|(_ & l5 & rest' & -> & _)]; done.
  - intros (l1 & l2 & l3 & l4 & rest & Hin & Hy).
    destruct c as [lines out]. simpl in Hin. subst lines.
    rewrite interactive_menu_run. cbn zeta.
    destruct (String.eqb_spec (lower (strip l4)) "y") as [Hl|Hl]; [|by eexists].
    apply lower_is_y in Hl. destruct rest; [by destruct Hy|by eexists].
Qed.

(** X17.  The number of records the menu returns is the integer the second
    line holds, as [int] reads it (negative numbers and zero included), and
    3 when the line is empty or no integer for [int] (a text that is no
    decimal literal, or one of more than 4300 digits).  The menu prints the
    message [Invalid input. Defaulting to 3.] exactly when the line is not
    empty and no integer: the empty line takes the default without a
    message. *)
Theorem interactive_menu_top_n (c : console) (file_path : string) (top_n : Z)
    (output_format : string) (output_file : option string) :
  (interactive_menu c).1 = Some (file_path, top_n, output_format, output_file) →
  ∃ line events,
    stdin c !! 1%nat = Some line ∧
    top_n = default 3 (int_of_string line) ∧
    stdout (interactive_menu c).2 = stdout c ++ events ∧
    (Print "Invalid input. Defaulting to 3." ∈ events
     ↔ line ≠ EmptyString ∧ int_of_string line = None).
Proof.
  intros (l1 & l2 & l3 & l4 & rest & Hin & _ & -> & _ & H)%interactive_menu_returns.
  assert (Print "Invalid input. Defaulting to 3." ∈ questions l2
          ↔ l2 ≠ EmptyString ∧ int_of_string l2 = None) as Hq.
  { unfold questions. case_bool_decide as Hd.
    - split; [done|]. intros _.
      apply elem_of_app. right. apply elem_of_app. left.
      by apply list_elem_of_singleton.
    - split; [|done]. simpl. intros Hin'.
      repeat (apply elem_of_cons in Hin' as [Hin'|Hin']; [done|]).
      by apply elem_of_nil in Hin'. }
  exists l2. rewrite Hin.
  destruct H as [(_ & _ & ->)|(_ & l5 & rest' & _ & _ & ->)].
  - by exists (questions l2).
  - exists (questions l2 ++ [Prompt "Enter the output file path: "]).
    split_and!; [done..|]. rewrite elem_of_app, Hq.
    split; [|by left]. intros [Hq'|Hq']; [done|].
    by apply list_elem_of_singleton in Hq'.
Qed.

Lemma interactive_menu_top_n_witness :
  ∃ line events,
    stdin (Console ["a.csv"; " -7 "; "1"; "n"] []) !! 1%nat = Some line ∧
    -7 = default 3 (int_of_string line) ∧
    stdout (interactive_menu (Console ["a.csv"; " -7 "; "1"; "n"] [])).2
    = stdout (Console ["a.csv"; " -7 "; "1"; "n"] []) ++ events ∧
    (Print "Invalid input. Defaulting to 3." ∈ events
     ↔ line ≠ EmptyString ∧ int_of_string line = None).
Proof.
  apply (interactive_menu_top_n (Console ["a.csv"; " -7 "; "1"; "n"] [])
           "a.csv" (-7) "yaml" None).
  reflexivity.
Defined.

(** X18.  The format the menu returns is [json] when the third line,
    stripped, is the one character [2], and [yaml] for every other answer:
    the menu never returns a third format. *)
Theorem interactive_menu_format (c : console) (file_path : string) (top_n : Z)
    (output_format : string) (output_file : option string) :
  (interactive_menu c).1 = Some (file_path, top_n, output_format, output_file) →
  ∃ line,
    stdin c !! 2%nat = Some line ∧
    (output_format = "json" ∧ strip line = "2" ∨
     output_format = "yaml" ∧ strip line ≠ "2").
Proof.
  intros (l1 & l2 & l3 & l4 & rest & Hin & _ & _ & -> & _)%interactive_menu_returns.
  exists l3. rewrite Hin. split; [done|].
  destruct (String.eqb_spec (strip l3) "2"); auto.
Qed.

Lemma interactive_menu_format_witness :
  ∃ line,
    stdin (Console ["a.csv"; "5"; "json"; "n"] []) !! 2%nat = Some line ∧
    ("yaml" = "json" ∧ strip line = "2" ∨ "yaml" = "yaml" ∧ strip line ≠ "2").
Proof.
  apply (interactive_menu_format (Console ["a.csv"; "5"; "json"; "n"] [])
           "a.csv" 5 "yaml" None).
  reflexivity.
Defined.

(** X19.  The menu asks for an output file exactly when the fourth line,
    stripped, is [y] or [Y].  Then it reads a fifth line and returns it,
    stripped, as the output file; otherwise it returns no output file and
    reads four lines only. *)
Theorem interactive_menu_output_file (c : console) (file_path : string)
    (top_n : Z) (output_format : string) (output_file : option string) :
  (interactive_menu c).1 = Some (file_path, top_n, output_format, output_file) →
  ∃ answer,
    stdin c !! 3%nat = Some answer ∧
    match output_file with
    | None =>
        strip answer ≠ "y" ∧ strip answer ≠ "Y" ∧
        stdin (interactive_menu c).2 = drop 4 (stdin c)
    | Some path =>
        (strip answer = "y" ∨ strip answer = "Y") ∧
        (∃ line, stdin c !! 4%nat = Some line ∧ path = strip line) ∧
        stdin (interactive_menu c).2 = drop 5 (stdin c)
    end.
Proof.
  intros (l1 & l2 & l3 & l4 & rest & Hin & _ & _ & _ & H)%interactive_menu_returns.
  exists l4. rewrite Hin. split; [done|].
  destruct H as [(Hy & -> & ->)|(Hy & l5 & rest' & -> & -> & ->)].
  - rewrite lower_is_y in Hy. simpl. split_and!; [by auto..|done].
  - rewrite lower_is_y in Hy. simpl. split_and!; [done| |done]. by exists l5.
Qed.

Lemma interactive_menu_output_file_witness :
  ∃ answer,
    stdin (Console ["a.csv"; "5"; "2"; " Y "; " out.json "] []) !! 3%nat
    = Some answer ∧
    (strip answer = "y" ∨ strip answer = "Y") ∧
    (∃ line, stdin (Console ["a.csv"; "5"; "2"; " Y "; " out.json "] []) !! 4%nat
             = Some line ∧ "out.json" = strip line) ∧
    stdin (interactive_menu (Console ["a.csv"; "5"; "2"; " Y "; " out.json "] [])).2
    = drop 5 (stdin (Console ["a.csv"; "5"; "2"; " Y "; " out.json "] [])).
Proof.
  apply (interactive_menu_output_file
           (Console ["a.csv"; "5"; "2"; " Y "; " out.json "] [])
           "a.csv" 5 "json" (Some "out.json")).
  reflexivity.
Defined.

(** X20.  The two paths the menu returns carry no white space at their
    ends: stripping the file path, or the output file, again changes
    nothing. *)
Theorem interactive_menu_paths_are_stripped (c : console) (file_path : string)
    (top_n : Z) (output_format : string) (output_file : option string) :
  (interactive_menu c).1 = Some (file_path, top_n, output_format, output_file) →
  strip file_path = file_path ∧
  ∀ path, output_file = Some path → strip path = path.
Proof.
  intros (l1 & l2 & l3 & l4 & rest & Hin & -> & _ & _ & H)%interactive_menu_returns.
  split; [apply strip_strip|]. intros path ->.
  destruct H as [(_ & ? & _)|(_ & l5 & rest' & _ & [= ->] & _)]; [done|].
  apply strip_strip.
Qed.

Lemma interactive_menu_paths_are_stripped_witness :
  strip "a.csv" = "a.csv" ∧
  ∀ path, Some "out.json" = Some path → strip path = path.
Proof.
  apply (interactive_menu_paths_are_stripped
           (Console ["  a.csv"; "5"; "2"; " Y "; " out.json "] [])
           "a.csv" 5 "json" (Some "out.json")).
  reflexivity.
Defined.

(** ** The menu and the rest of [main] *)

(** X21.  When the whole of [main] returns, the document is the rendering
    of the best records of the file whose path the first line names
    (stripped), as many as the second line asks for (3 by default), in JSON
    when the third line, stripped, is [2] and in YAML for any other
    answer. *)
Theorem main_with_menu_output (open_file : string → file)
    (write_error : string → option exn) (c : console)
    (run : M destination) (dest : destination) :
  main_with_menu open_file write_error c = Some run → run.1 = Ok dest →
  ∃ l1 l2 l3 fieldnames items,
    stdin c !! 0%nat = Some l1 ∧ stdin c !! 1%nat = Some l2 ∧
    stdin c !! 2%nat = Some l3 ∧
    open_file (strip l1) = Opened (Line fieldnames :: items) ∧
    output_of dest
    = (if String.eqb (strip l3) "2" then format_to_json else format_to_yaml)
        (get_top_records (accepted fieldnames items)
           (default 3 (int_of_string l2))).
Proof.
  unfold main_with_menu.
  destruct (interactive_menu c).1
    as [[[[file_path top_n] output_format] output_file]|] eqn:Hm; [|done].
  intros [= <-] Hrun.
  apply interactive_menu_returns in Hm
    as (l1 & l2 & l3 & l4 & rest & Hin & -> & -> & -> & _).
  apply main_returns in Hrun as (fieldnames & items & Hf & _ & Hd).
  exists l1, l2, l3, fieldnames, items. rewrite Hin.
  split_and!; [done..|].
  assert (((if String.eqb (strip l3) "2" then "json" else "yaml") =? "json")%string
          = String.eqb (strip l3) "2") as Heq
    by (by destruct (String.eqb (strip l3) "2")).
  rewrite Heq in Hd. rewrite Hd.
  by destruct output_file as [[|ch path]|].
Qed.

Lemma main_with_menu_output_witness :
  ∃ l1 l2 l3 fieldnames items,
    stdin (Console [" a.csv"; "1"; "json"; "n"] []) !! 0%nat = Some l1 ∧
    stdin (Console [" a.csv"; "1"; "json"; "n"] []) !! 1%nat = Some l2 ∧
    stdin (Console [" a.csv"; "1"; "json"; "n"] []) !! 2%nat = Some l3 ∧
    sample_files (strip l1) = Opened (Line fieldnames :: items) ∧
    output_of (Printed (format_to_yaml [john]))
    = (if String.eqb (strip l3) "2" then format_to_json else format_to_yaml)
        (get_top_records (accepted fieldnames items)
           (default 3 (int_of_string l2))).
Proof.
  apply (main_with_menu_output sample_files (λ _, None)
           (Console [" a.csv"; "1"; "json"; "n"] [])
           (main test_sample_csv 1 "yaml" None None)
           (Printed (format_to_yaml [john]))); reflexivity.
Defined.

(** X22.  When the whole of [main] returns, it has written a file only if
    the fourth line, stripped, is [y] or [Y] and the fifth line, stripped,
    is not empty, and the file is the one that line names; it has printed
    the document when the answer is another one, and also when the answer is
    [y] but the path typed is blank. *)
Theorem main_with_menu_destination (open_file : string → file)
    (write_error : string → option exn) (c : console)
    (run : M destination) (dest : destination) :
  main_with_menu open_file write_error c = Some run → run.1 = Ok dest →
  match dest with
  | Written path _ =>
      ∃ answer line,
        stdin c !! 3%nat = Some answer ∧
        (strip answer = "y" ∨ strip answer = "Y") ∧
        stdin c !! 4%nat = Some line ∧ path = strip line ∧ path ≠ EmptyString
  | Printed _ =>
      ∃ answer,
        stdin c !! 3%nat = Some answer ∧
        ((strip answer ≠ "y" ∧ strip answer ≠ "Y") ∨
         ∃ line, stdin c !! 4%nat = Some line ∧ strip line = EmptyString)
  end.
Proof.
  unfold main_with_menu.
  destruct (interactive_menu c).1
    as [[[[file_path top_n] output_format] output_file]|] eqn:Hm; [|done].
  intros [= <-] Hrun.
  apply interactive_menu_save in Hm as (answer & Hin & Hm).
  apply main_returns in Hrun as (fieldnames & items & _ & _ & ->).
  destruct output_file as [[|ch path]|].
  - destruct Hm as (Hy & line & Hl & Hp).
    exists answer. split; [done|]. right. by exists line.
  - destruct Hm as (Hy & line & Hl & Hp).
    by exists answer, line.
  - destruct Hm as (Hy & Hy'). exists answer. split; [done|]. by left.
Qed.

Lemma main_with_menu_destination_witness :
  ∃ answer,
    stdin (Console ["a.csv"; "1"; "2"; "y"; "  "] []) !! 3%nat = Some answer ∧
    ((strip answer ≠ "y" ∧ strip answer ≠ "Y") ∨
     ∃ line, stdin (Console ["a.csv"; "1"; "2"; "y"; "  "] []) !! 4%nat
             = Some line ∧ strip line = EmptyString).
Proof.
  apply (main_with_menu_destination sample_files (λ _, None)
           (Console ["a.csv"; "1"; "2"; "y"; "  "] [])
           (main test_sample_csv 1 "json" (Some EmptyString) None)
           (Printed (format_to_json [john]))); reflexivity.
Defined.
